(* ===== verification/_CoqProject ===== *)
-Q . S2P
Prelude.v
Text.v
Base.v
Blob.v
Index.v
Repository.v
HttpApi.v
Session.v
Upload.v
Restore.v
Snapshot.v
Chain.v
Jobs.v
Sched.v
Stores.v
Plan.v
Runs.v
Channels.v
Frames.v
Relay.v
Proxy.v
Agent.v
Tsql.v
Vdi.v
Requests.v
Export.v
Glob.v
Files.v
Transport.v
Browse.v
Discover.v
Metrics.v
Notify.v
Loop.v
Vss.v
Captured.v
Capture.v
Probe.v
Gui.v
Enrol.v
SqlBackup.v
Changes.v
Exporter.v
Engine.v
AgentLoop.v
Races.v
Serve.v
Host.v
Progress.v
Scan.v
Secrets.v
Sessions.v
Wide.v
Window.v
Platform.v
Database.v
