(* ===== verification/Prelude.v ===== *)
(** * A verification of pbsgui

    pbsgui backs up files and SQL Server databases to a Proxmox Backup Server
    (PBS).  This library models its core in Rocq and proves what makes it
    correct.  This file is the root of the library and holds what all others
    share; the header first says what the program's parts are and where each is
    modelled.

    ** The program

    The crate [pbs-client] speaks the PBS protocols: it encodes and verifies
    blobs, builds and parses indexes, pins the server's certificate, uploads a
    stream in chunks with several uploads in flight, and restores it.  The
    engine ([pbsgui-engine]) keeps jobs, connections and keys, decides when a
    job is due, runs it, and records what happened: files become a tar archive
    read from shadow copies, databases are streamed from SQL Server's virtual
    devices, on this host or, over the relay, on another one.  It restores
    files, databases and points in time, discovers and probes SQL Server
    instances, sends notifications and reports metrics.  [pbsgui-core] keeps the
    engine's files signed, [pbsgui-ipc] has the types and the transport it
    shares with the GUI ([src-tauri]), [pbsgui-vss] takes shadow copies of
    volumes, and [pbsgui-ad-engine] backs up Active Directory through VSS.

    ** Files and the sources they model (under [src/crates/], or [src/src-tauri/])

    - [Prelude] (this file): results and the error monad, panics, bytes,
      little-endian integers, slices; the hint database [pbs] and the tactics
      [inv_ok], [len], [range].
    - [Text]: strings as lists of code points, with the functions of Rust's
      [str] the sources use, decimal and hexadecimal numbers, lossy UTF-8.
    - [Base]: [pbs-client/src/error.rs], and the foreign crates as type classes.
    - [Blob]: [pbs-client/src/blob.rs] and [crypt.rs], and the decoding of
      downloaded blobs and chunks in [session.rs].
    - [Index]: [pbs-client/src/index.rs] (modules [Fixed] and [Dynamic]) and
      [manifest.rs].
    - [Repository]: [pbs-client/src/repository.rs].
    - [HttpApi]: [pbs-client/src/api.rs].
    - [Session]: the TLS connector, the upgrade and the calls of
      [pbs-client/src/session.rs], with the class of servers a session runs on.
    - [Upload]: [backup_dynamic_reader] of [session.rs] as a step relation: the
      state is every variable of the function and of the upload tasks, a step is
      what happens between two awaits, and the server's answers are arbitrary.
    - [Restore]: the restores of [session.rs], the download pipeline as a step
      relation, and the fixed-image backup.
    - [Chain]: [pbsgui-engine/src/sql/backupmeta.rs], the choice of the backups
      to restore for a point in time.
    - [Jobs]: the job types of [pbsgui-ipc/src/protocol.rs] and the snapshot
      groups of [pbsgui-engine/src/backup.rs].
    - [Sched]: [sqlsched.rs] and [scheduler.rs], timers and due times.
    - [Stores]: [pbsgui-core/src/signed.rs] and [secrets.rs]; [jobstore.rs],
      [connstore.rs] and [enckey.rs]; the requests of [handler.rs] that change
      configuration.
    - [Races]: the same stores used by concurrent requests, a step relation with
      one step per critical section.
    - [Plan]: [sql/plan.rs] and the loop over databases of [backup.rs].
    - [Runs]: the run registry and [run_job_kind] of [backup.rs], with
      [changedet.rs] and what a run records in [metrics.rs], [notify.rs].
    - [Channels]: the writers and readers of the bounded byte channels between
      a producer and the uploader: [archive.rs] ([ChannelWriter]),
      [sql/vdi.rs] ([ChannelReader]), [pbsgui-ad-engine/src/stream.rs].
    - [Frames]: [relay/proto.rs], the relay's frames.
    - [Relay]: the data streams of [relay/server.rs] ([pump_data], [push_data],
      [RelayRead]) and the sessions of [relay/agent.rs]; the proxy's pump and
      reader are a step relation over the bounded channel between them.
    - [Proxy]: the registries of [relay/server.rs] under all interleavings of
      connections, control loops and runs.
    - [Agent]: the control loop of [relay/agent.rs] and its sessions, with both
      places that see the shutdown.
    - [Tsql]: the statements of [sql/vdi.rs] and the queries of [sql/probe.rs]
      about one database, how SQL Server reads them, and the restore of a chain; [Vdi]: the device loops of the same file, over
      the commands SQL Server sends as data.
    - [Requests]: the restores of databases of [handler.rs], the restore window
      and the chain status; [Export]: the exports to files; [Browse]: the
      requests that list and restore files and run jobs, and [netdest.rs].
    - [Files]: [archive.rs], [restore.rs] and the archiver of [backup.rs].
    - [Transport]: [pbsgui-ipc/src/transport.rs], lines of JSON.
    - [Glob]: [pbsgui-ad-engine/src/matchspec.rs].
    - [Discover]: [sql/ssrp.rs] and [sql/discover.rs].
    - [Metrics]: the metrics page of [metrics.rs].
    - [Notify]: [notify.rs], the settings files of notifications and metrics,
      the texts and the deliveries.
    - [Loop]: the minute loop of [scheduler.rs] with its runs, health checks and
      stall alerts, and what requests and other runs change beside it.
    - [Vss]: the calls of [pbsgui-vss] and [pbsgui-ad-engine/src/vss.rs] to the
      Volume Shadow Copy Service, as functions of what the service answers, and
      the order in which VSS allows them; [Captured]: what a capture holds and
      where paths are mapped; [Capture]: [pbsgui-ad-engine/src/capture.rs], a
      System State backup from the capture to what the writers are told.
    - [Probe]: [sql/probe.rs] and [sql/check.rs].
    - [Gui]: the commands of [src-tauri/src/lib.rs] and the whole protocol of
      requests and replies.
    - [Enrol]: [relay/setup.rs] and [relay/tls.rs]; [AgentLoop]: how the agent
      of [relay/agent.rs] dials, registers and reconnects.
    - [SqlBackup]: the backup of one database, from the statement to the
      snapshot: the composition of [Tsql], [Vdi], [Channels], [Relay] and
      [Upload] in [sql/vdi.rs] and [relay/backup.rs], and its place in a run.
    - [Changes]: the fingerprint of [changedet.rs].
    - [Exporter]: the endpoint and the text file of [metrics.rs].
    - [Engine]: [handle] of [handler.rs], every request to the component that
      serves it, and the panics of the API client that take a request down.
    - [Snapshot]: [pbs-client/src/chunker.rs] and the chunker thread of
      [session.rs], and the composition of chunker, [Upload] and [Restore].
    - [Serve]: the listener of [transport.rs] with the tasks of all its
      connections, step by step, and the engines it serves: [handle] of
      [handler.rs], and the one of [pbsgui-ad-engine] ([adproto.rs]).
    - [Host]: the engine as a process: [pbsgui-core/src/lib.rs] and [config.rs],
      the commands of both [main.rs], and [service.rs].
    - [Progress]: the progress reports of [backup.rs] and the sizes in them.
    - [Scan]: the broadcast and the scan of [sql/ssrp.rs].
    - [Secrets]: both stores of [secrets.rs] behind one interface.
    - [Sessions]: the accept loop of [relay/server.rs] and the calls that open a
      session, in a network of the proxy, its agents and the bytes between them.
    - [Wide]: strings and threads at the boundary to Windows ([pbsgui-vss]).
    - [Window]: the window, the tray and the pickers of [src-tauri/src/lib.rs].
    - [Platform]: what stands in for Windows on other systems.
    - [Database]: the composition of [SqlBackup], [Snapshot], [Restore] and [Vdi]:
      a database from SQL Server and back to it.

    ** What is shown

    - Upload: in every interleaving, [/finish] is sent only for a complete
      archive whose chunks are all stored, and an index entry is appended only
      after its chunk is stored or known; every run ends; the statistics are
      those of the stream.
    - Restore: whatever the server sends, a restore returns the chunks the
      server sent for the index it sent, which passed its checksum, each with
      the digest the index has for it; restoring a backup
      gives it back; the pipeline keeps the order.  From end to end: what a
      reader delivered to a backup that was finished is what a restore returns.
    - Encodings: blobs, encrypted blobs, both indexes, repositories and chunked
      bodies decode to what was encoded.
    - Chains: the chain selected for a point in time, completely, and that a
      server accepts it.
    - Configuration: what is saved is what the next start loads, a store that
      was refused is never written, ids and snapshot groups stay distinct under
      every sequence of requests, keys are portable; concurrent requests never
      lose an acknowledged change, in every interleaving; an engine that is
      restarted works with what was acknowledged; the two secret stores are equivalent.
    - Scheduling: a validated schedule always has an occurrence; a recorded run
      is due again exactly when its time has come; a turn of the loop asks for
      a run of what is due and nothing else, as far as nothing beside it changes
      the timers; a run that ended, however it did, is repeated only by its
      schedule, while one that panicked is due again at once;
      a stalled chain is alerted about, at most once in six hours.
    - Notifications: saved settings read back and hold no secret; mails and
      posts go only where the settings say.
    - Shadow copies: every call to VSS comes in the order it allows, in every
      case of failure; a path is read from the copy of its own volume; a System
      State capture holds what the writers declared and nothing else; Active
      Directory is told of a backup only when the server holds all of it.
    - SQL backups: a local backup is committed only when its statement
      succeeded; a relayed one only when its device was closed cleanly on the
      other host, with every byte of it; every database of a run is on the
      server or reported; what SQL Server wrote to the device is what a restore
      gives it back.
    - Change detection: a run is skipped exactly when the files are unchanged.
    - The protocol: every request is answered, by one terminal reply, the last,
      of the kind that fits it, unless the API client panics; a client reads the
      replies of its own request, in every interleaving with other clients; the metrics endpoint serves the whole page.
    - Probing: from what each replica of an availability group reads in its own
      catalog exactly one backs a database up.
    - GUI and enrolment: every command sends its own request and the
      window shows what the engine answered to it; an agent
      that was added and joined is let in, over the pinned certificate.
    - Runs: every database is accounted for once, a replica set takes each
      backup once, one run per job, a cancellation reaches exactly that
      run and never hides a backup, an encrypted job never uploads without its key.
    - Streams: what an archiver, a virtual device or a remote agent produced is
      read by the uploader to the byte, or the uploader gets an error; an end
      of file is never invented, wherever a channel or connection breaks.  The
      relay's reader refines an abstract one and always returns.  Frames larger
      than the limit are neither written nor read.
    - Relay: only authenticated data connections are given to runs, one each;
      the registries have no leftovers; losing the proxy cancels the devices,
      and a command to cancel exactly its own; a session that a run asks for is
      opened by the agent it asked, and its stream is that device's output.
    - Progress: reports are half a second apart, and the fraction of none reaches
      one; sizes are those of exact arithmetic.
    - Processes: installing and removing the service undo each other; the
      service ends when it is told to; the window can always be brought back.
    - SQL Server: no name can end its own quotation; a write is acknowledged
      only when its bytes are kept; streaming a restore is equivalent to
      restoring an image in memory; recovery comes last and only after every
      image was restored.
    - Restores and exports: a point-in-time restore that reports success
      applied a chain that reaches the point, selected from all backups; an
      export never changes a file that was there and is all or nothing; a
      stream of replies has exactly one end; a run survives its GUI.
    - Files: the archive holds every file that is not reported as skipped or
      excluded, and can be read if no file changed its size while it was read; shadow copies change nothing; when two files of an archive have
      the same name, completely, which says when a restore loses one.
    - Matching, discovery and metrics: the wildcard matcher decides the
      language of its pattern; a subnet expands to its hosts; discovery merges
      by name, and finds what a browser answers in time; the metrics page reads back, and when its series are unique.

    ** Parameters

    Code outside the repository is a type class of operations, with the
    documented laws a theorem uses in a class of its own: checksums, digests,
    zstd, AES-GCM, hex, base64, HMAC, percent-encoding, JSON ([EnvelopeJson],
    [ControlJson], [MessageJson], [SettingsJson]), chrono, tar archives and their library
    ([ArchiveLib]), the cut points of the chunker ([FastCdc]), floating-point
    numbers in metrics ([Float64]; those of [Progress] are computed), the
    transport and the server.  Every class of laws has a concrete instance ([Sample] of [Base],
    [SampleChrono] and [SampleJson] of [Sched], [SampleStore] of [Stores],
    [SampleTar] of [Files] and the like) on which the witnesses of the theorems
    are evaluated.  What SQL Server, Windows, the network, the file system and
    the clock answer are arguments ([db_env], [files_env], [req_env],
    [dest_env], [tree], [world], [disk]), as are those of the Volume Shadow
    Copy Service, the catalog of a SQL Server ([sql_server]), the mail and HTTP
    libraries and the TLS libraries; and so are the places where a connection
    breaks and a peer stops reading.

    ** Bounds and fuel

    Recursion is structural except for loops over bytes that arrive in pieces:
    the decoder of chunked bodies, the decimal and hexadecimal printers, lossy
    UTF-8, the readers of frames, lines, device commands and channels, the
    expansion of variables and the wildcard matcher.  These take fuel, which is
    the length (or the logarithm) of their input or a measure that each turn of
    the loop decreases ([glob_measure]), and lemmas show that it is enough: no
    theorem is only about runs that do not exhaust it.  The scheduler's search
    has the 63 days of the source.  Machine integers are [Z] with their
    wrap-around written out where the code computes with them ([le_bytes],
    [add64], [parse_uint], [subnet_mask]); lengths and times are unbounded.

    ** What is not modelled

    Where the chunker cuts (the fastcdc crate: only that the pieces make up the
    stream and are not too large is used); the declarations of the COM
    interfaces in [pbsgui-vss/src/bindings.rs] and [sql/vdi.rs], which have no
    behaviour of their own; the texts of the catalog queries in [sql/probe.rs]
    that name no database, which only SQL Server reads; the parsing of command lines, logging, and the
    web view of the GUI with its front end, which is not Rust.  What Windows,
    SQL Server and the network do is not modelled beyond what they answer: that
    a restricted directory keeps users out, for example, is a matter of Windows.
    The remaining lines of the sources are tests, examples, imports and
    attributes. *)

From Stdlib Require Import ZArith Lia Strings.Byte Ascii String.
From stdpp Require Import base tactics option numbers strings list.
Open Scope Z_scope.

(** ** Results and the error monad

    Rust's [Result<T, E>]; [?] is monadic bind, which stdpp's [x ← m; k]
    notation writes. *)

Inductive result (E A : Type) : Type :=
| Ok (a : A)
| Err (e : E).
Arguments Ok {E A} _.
Arguments Err {E A} _.

#[export] Instance result_ret {E} : MRet (result E) := fun A a => Ok a.
#[export] Instance result_bind {E} : MBind (result E) := fun A B f m =>
  match m with Ok a => f a | Err e => Err e end.
#[export] Instance result_fmap {E} : FMap (result E) := fun A B f m =>
  match m with Ok a => Ok (f a) | Err e => Err e end.

Definition is_ok {E A} (m : result E A) : bool :=
  match m with Ok _ => true | Err _ => false end.

(** [Result::map_err]. *)
Definition map_err {E F A} (f : E -> F) (m : result E A) : result F A :=
  match m with Ok a => Ok a | Err e => Err (f e) end.

(** [Option::ok_or_else]. *)
Definition ok_or {E A} (o : option A) (e : E) : result E A :=
  match o with Some a => Ok a | None => Err e end.

(** An early return: [if !b { return Err(e) }]. *)
Definition ensure {E} (b : bool) (e : E) : result E unit :=
  if b then Ok tt else Err e.

Lemma result_bind_ok {E A B} (m : result E A) (f : A -> result E B) b :
  m ≫= f = Ok b <-> exists a, m = Ok a /\ f a = Ok b.
Proof.
  destruct m as [a | e]; cbn; split.
  - intros H; exists a; auto.
  - intros (a' & [= ->] & H); exact H.
  - discriminate.
  - intros (a' & H & _); discriminate.
Qed.

Lemma ensure_ok {E} (b : bool) (e : E) u : ensure b e = Ok u <-> b = true.
Proof. destruct b, u; cbn; split; congruence. Qed.

Lemma ok_or_ok {E A} (o : option A) (e : E) a : ok_or o e = Ok a <-> o = Some a.
Proof. destruct o; cbn; split; congruence. Qed.

Lemma Ok_inj {E A} (a b : A) : @Ok E A a = Ok b -> a = b.
Proof. congruence. Qed.

(** Splits every hypothesis saying that a chain of binds succeeded. *)
Ltac inv_ok :=
  repeat match goal with
  | H : mbind _ _ = Ok _ |- _ => apply result_bind_ok in H as (? & ? & ?)
  | H : ensure _ _ = Ok _ |- _ => apply ensure_ok in H
  | H : ok_or _ _ = Ok _ |- _ => apply ok_or_ok in H
  | H : Ok _ = Ok _ |- _ => apply Ok_inj in H; try subst
  | H : mret _ = Ok _ |- _ => apply Ok_inj in H; try subst
  | H : Err _ = Ok _ |- _ => discriminate H
  end.

(** Case analysis on the scrutinee of a [match] or [if] of the goal. *)
Ltac case_goal :=
  match goal with
  | |- context [match ?x with _ => _ end] => destruct x eqn:?
  end.

(** ** Panics

    A computation that can panic (an out-of-range slice) or, in a model by fuel,
    run out of it; theorems show that the fuel given is enough. *)

Inductive outcome (A : Type) : Type :=
| Value (a : A)
| Panic
| NoFuel.
Arguments Value {A} _.
Arguments Panic {A}.
Arguments NoFuel {A}.

Definition outcome_bind {A B} (m : outcome A) (f : A -> outcome B) : outcome B :=
  match m with Value a => f a | Panic => Panic | NoFuel => NoFuel end.

(** ** Bytes

    A [u8] is [Byte.byte]; a [Vec<u8>] or [&[u8]] is a list of them. *)

Abbreviation bytes := (list byte).

Definition u8_Z (b : byte) : Z := Z.of_N (Byte.to_N b).

(** [z as u8]: keeps the low eight bits. *)
Definition Z_u8 (z : Z) : byte :=
  default x00 (Byte.of_N (Z.to_N (z mod 256))).

(** A byte string written by its values. *)
Definition octets (l : list Z) : bytes := map Z_u8 l.

(** An ASCII byte-string literal, [b"..."]. *)
Definition bstr (s : string) : bytes := map byte_of_ascii (list_ascii_of_string s).

#[global] Arguments octets : simpl never.
#[global] Arguments bstr : simpl never.

Lemma u8_Z_range b : 0 <= u8_Z b < 256.
Proof. unfold u8_Z. pose proof (Byte.to_N_bounded b). lia. Qed.

Lemma Z_u8_Z b : Z_u8 (u8_Z b) = b.
Proof.
  unfold Z_u8. rewrite Z.mod_small by apply u8_Z_range.
  unfold u8_Z. rewrite N2Z.id, Byte.of_to_N. reflexivity.
Qed.

Lemma u8_Z_u8 z : u8_Z (Z_u8 z) = z mod 256.
Proof.
  unfold Z_u8. pose proof (Z.mod_pos_bound z 256 ltac:(lia)) as Hb.
  destruct (Byte.of_N (Z.to_N (z mod 256))) as [b|] eqn:E; cbn.
  - apply Byte.to_of_N in E. unfold u8_Z. rewrite E. lia.
  - apply Byte.of_N_None_iff in E. lia.
Qed.

#[export] Instance byte_eq_decision : EqDecision byte := Byte.byte_eq_dec.

(** ** Little-endian integers *)

(** [to_le_bytes] of an [8 * n]-bit integer (two's complement for a signed one). *)
Fixpoint le_bytes (n : nat) (z : Z) : bytes :=
  match n with
  | O => []
  | S n' => Z_u8 z :: le_bytes n' (z / 256)
  end.

(** [from_le_bytes] for an unsigned type. *)
Fixpoint le_value (l : bytes) : Z :=
  match l with
  | [] => 0
  | b :: l' => u8_Z b + 256 * le_value l'
  end.

(** An unsigned value read as two's complement of [w] bits. *)
Definition signed (w : Z) (z : Z) : Z :=
  if z <? 2 ^ (w - 1) then z else z - 2 ^ w.

Definition u_range (w z : Z) : Prop := 0 <= z < 2 ^ w.
Definition i_range (w z : Z) : Prop := - 2 ^ (w - 1) <= z < 2 ^ (w - 1).

Lemma length_le_bytes n z : length (le_bytes n z) = n.
Proof. revert z; induction n; intros; cbn; auto. Qed.

Lemma le_value_bytes n z : le_value (le_bytes n z) = z mod 2 ^ (8 * Z.of_nat n).
Proof.
  revert z; induction n as [|n IH]; intros z.
  - cbn. rewrite Z.mod_1_r. reflexivity.
  - cbn [le_bytes le_value]. rewrite IH, u8_Z_u8.
    replace (2 ^ (8 * Z.of_nat (S n))) with (256 * 2 ^ (8 * Z.of_nat n)).
    2:{ replace (8 * Z.of_nat (S n)) with (8 + 8 * Z.of_nat n) by lia.
        rewrite Z.pow_add_r by lia. reflexivity. }
    rewrite Z.rem_mul_r by (try apply Z.pow_pos_nonneg; lia). reflexivity.
Qed.

Lemma le_value_bytes_u n w z :
  w = 8 * Z.of_nat n -> u_range w z -> le_value (le_bytes n z) = z.
Proof. intros -> H. rewrite le_value_bytes. apply Z.mod_small, H. Qed.

Lemma le_value_range l : u_range (8 * Z.of_nat (length l)) (le_value l).
Proof.
  unfold u_range. induction l as [|b l IH]; [cbn; lia|].
  cbn [le_value length]. pose proof (u8_Z_range b).
  replace (8 * Z.of_nat (S (length l))) with (8 + 8 * Z.of_nat (length l)) by lia.
  rewrite Z.pow_add_r by lia. change (2 ^ 8) with 256. nia.
Qed.

Lemma le_bytes_value l : le_bytes (length l) (le_value l) = l.
Proof.
  induction l as [|b l IH]; [reflexivity|].
  cbn [length le_bytes le_value]. pose proof (u8_Z_range b).
  f_equal.
  - unfold Z_u8. rewrite (Z.mul_comm 256), Z_mod_plus_full.
    fold (Z_u8 (u8_Z b)). apply Z_u8_Z.
  - rewrite (Z.mul_comm 256), Z.div_add, Z.div_small by lia. exact IH.
Qed.

Lemma signed_mod w z : 0 < w -> i_range w z -> signed w (z mod 2 ^ w) = z.
Proof.
  intros Hw [H1 H2]. unfold signed.
  assert (E : 2 ^ w = 2 * 2 ^ (w - 1)).
  { replace w with (1 + (w - 1)) at 1 by lia. rewrite Z.pow_add_r by lia. reflexivity. }
  assert (0 < 2 ^ (w - 1)) by (apply Z.pow_pos_nonneg; lia).
  destruct (Z.ltb_spec z 0).
  - rewrite <- (Z.mod_add z 1) by lia. rewrite Z.mod_small by lia.
    destruct (Z.ltb_spec (z + 1 * 2 ^ w) (2 ^ (w - 1))); lia.
  - rewrite Z.mod_small by lia. destruct (Z.ltb_spec z (2 ^ (w - 1))); lia.
Qed.

Lemma signed_le_bytes_64 z : i_range 64 z -> signed 64 (le_value (le_bytes 8 z)) = z.
Proof. intros H. rewrite le_value_bytes. apply (signed_mod 64); [lia | exact H]. Qed.

Lemma signed_range_64 z : u_range 64 z -> i_range 64 (signed 64 z).
Proof.
  unfold u_range, i_range, signed. cbn [Z.sub Z.add Z.opp Z.pos_sub].
  intros Hz. destruct (Z.ltb_spec z (2 ^ (64 - 1))); lia.
Qed.

Lemma le_bytes_signed_64 z : u_range 64 z -> le_bytes 8 (signed 64 z) = le_bytes 8 z.
Proof.
  intros Hz. unfold signed. destruct (Z.ltb_spec z (2 ^ (64 - 1))); [reflexivity|].
  assert (G : forall n k y, le_bytes n (y + k * 2 ^ (8 * Z.of_nat n)) = le_bytes n y).
  { clear. induction n as [|n IH]; intros k y; [reflexivity|]. cbn [le_bytes].
    replace (2 ^ (8 * Z.of_nat (S n))) with (2 ^ (8 * Z.of_nat n) * 256).
    2:{ replace (8 * Z.of_nat (S n)) with (8 * Z.of_nat n + 8) by lia.
        rewrite Z.pow_add_r by lia. reflexivity. }
    rewrite Z.mul_assoc. f_equal.
    - unfold Z_u8. rewrite Z_mod_plus_full. reflexivity.
    - rewrite Z.div_add by lia. apply IH. }
  exact (G 8%nat (-1) z).
Qed.

#[global] Arguments le_bytes : simpl never.
#[global] Arguments le_value : simpl never.

(** ** Slices *)

(** [&l[a..b]]. *)
Definition slice {A} (a b : nat) (l : list A) : list A := take (b - a) (drop a l).

#[global] Arguments slice : simpl never.

Lemma slice_app_mid {A} (a b : nat) (l m r : list A) :
  length l = a -> length m = (b - a)%nat -> slice a b (l ++ m ++ r) = m.
Proof.
  intros Hl Hm. unfold slice. rewrite drop_app_length' by lia.
  apply take_app_length'. lia.
Qed.

Lemma length_slice {A} (a b : nat) (l : list A) :
  (a <= b)%nat -> (b <= length l)%nat -> length (slice a b l) = (b - a)%nat.
Proof. intros. unfold slice. rewrite length_take, length_drop. lia. Qed.

(** [l.chunks_exact(n)] (a short tail is left out). *)
Fixpoint chunks_exact_fuel {A} (fuel n : nat) (l : list A) : list (list A) :=
  match fuel with
  | O => []
  | S f =>
      if (length l <? n)%nat then []
      else take n l :: chunks_exact_fuel f n (drop n l)
  end.

Definition chunks_exact {A} (n : nat) (l : list A) : list (list A) :=
  chunks_exact_fuel (length l / n) n l.

#[global] Arguments chunks_exact : simpl never.

Lemma chunks_exact_fuel_concat {A} (n : nat) (ls : list (list A)) :
  Forall (fun c => length c = n) ls ->
  chunks_exact_fuel (length ls) n (concat ls) = ls.
Proof.
  induction 1 as [|c ls Hc _ IH]; [reflexivity|].
  cbn [length chunks_exact_fuel concat].
  destruct (Nat.ltb_spec (length (c ++ concat ls)) n) as [H|_].
  - rewrite length_app in H. lia.
  - rewrite take_app_length', drop_app_length', IH by lia. reflexivity.
Qed.

Lemma length_concat_uniform {A} (n : nat) (ls : list (list A)) :
  Forall (fun c => length c = n) ls -> length (concat ls) = (length ls * n)%nat.
Proof. induction 1; cbn; [reflexivity|]. rewrite length_app. lia. Qed.

Lemma chunks_exact_concat {A} (n : nat) (ls : list (list A)) :
  (0 < n)%nat -> Forall (fun c => length c = n) ls ->
  chunks_exact n (concat ls) = ls.
Proof.
  intros Hn H. unfold chunks_exact.
  rewrite (length_concat_uniform n) by exact H.
  rewrite Nat.div_mul by lia. apply chunks_exact_fuel_concat, H.
Qed.

Lemma chunks_exact_fuel_uniform {A} f (n : nat) (l : list A) :
  Forall (fun c => length c = n) (chunks_exact_fuel f n l).
Proof.
  revert l; induction f as [|f IH]; intros l;
    cbn [chunks_exact_fuel]; [constructor|].
  destruct (Nat.ltb_spec (length l) n); [constructor|].
  constructor; [rewrite length_take; lia | apply IH].
Qed.

Lemma chunks_exact_uniform {A} (n : nat) (l : list A) :
  Forall (fun c => length c = n) (chunks_exact n l).
Proof. apply chunks_exact_fuel_uniform. Qed.

Lemma concat_chunks_exact {A} (n : nat) (l : list A) :
  (0 < n)%nat -> (length l mod n = 0)%nat -> concat (chunks_exact n l) = l.
Proof.
  intros Hn Hm. unfold chunks_exact.
  assert (Hk : exists k, length l = (k * n)%nat).
  { exists (length l / n)%nat. pose proof (Nat.div_mod_eq (length l) n). lia. }
  destruct Hk as [k Hk]. rewrite Hk, Nat.div_mul by lia. clear Hm.
  revert l Hk. induction k as [|k IH]; intros l Hk.
  - destruct l; [reflexivity | cbn in Hk; lia].
  - cbn [chunks_exact_fuel]. destruct (Nat.ltb_spec (length l) n); [lia|].
    cbn [concat]. rewrite IH by (rewrite length_drop; lia).
    apply take_drop.
Qed.

(** [out[pos..pos + data.len()].copy_from_slice(data)], in range. *)
Abbreviation copy_at pos data out := (list_inserts pos data out).

Lemma copy_at_app {A} (l d r : list A) (n : nat) :
  n = length l -> (length d <= length r)%nat ->
  copy_at n d (l ++ r) = l ++ d ++ drop (length d) r.
Proof.
  intros -> Hd. revert l r Hd. induction d as [|x d IH]; intros l r Hd.
  - reflexivity.
  - destruct r as [|y r]; [cbn in Hd; lia|]. cbn [length] in Hd.
    cbn [list_inserts].
    replace (l ++ y :: r) with ((l ++ [y]) ++ r) by (rewrite <- app_assoc; reflexivity).
    replace (S (length l)) with (length (l ++ [y])) by (rewrite length_app; cbn; lia).
    rewrite IH by lia. cbn [length drop].
    rewrite <- !app_assoc. cbn [app].
    rewrite insert_app_r_alt by lia.
    rewrite Nat.sub_diag. reflexivity.
Qed.

Lemma fold_left_map {A B C} (f : A -> B) (g : C -> B -> C) (l : list A) c :
  fold_left g (map f l) c = fold_left (fun c a => g c (f a)) l c.
Proof. revert c; induction l; intros; cbn; auto. Qed.

(** ** Automation

    [s2p_len] rewrites lengths of appended, taken and encoded byte strings. *)
Create HintDb pbs discriminated.
Create Rewrite HintDb pbs_len.
#[export] Hint Rewrite @length_app @length_take @length_drop @length_le_bytes
  @length_replicate @length_fmap @length_insert @length_inserts : pbs_len.
#[export] Hint Resolve u8_Z_range le_value_range chunks_exact_uniform : pbs.

Ltac len := autorewrite with pbs_len; cbn [length]; try lia.

(** Decides that a concrete integer is in a width's range. *)
Ltac range := vm_compute; split; [discriminate || congruence | reflexivity].
