(* ===== verification/Text.v ===== *)
(** Rust text.

    A [str] or [String] is the list of its Unicode scalar values, as [chars()]
    yields them; [char::is_whitespace] is the Unicode [White_Space] property
    written out.  Byte lengths are used by the code in a few places only
    ([utf8_len]).  The searching and splitting methods the program calls are
    here with the lemmas its parsers need: what [split_once] and [rsplit_once]
    return on a string that was put together around the separator, and that
    decimal display and parsing are inverse. *)

From Stdlib Require Import ZArith Lia Strings.Byte Ascii String.
From stdpp Require Import base tactics option numbers list.
From S2P Require Import Prelude.
Open Scope Z_scope.

Abbreviation str := (list Z).

(** A string literal. *)
Definition L (s : string) : str :=
  map (fun a => Z.of_N (N_of_ascii a)) (list_ascii_of_string s).

#[global] Arguments L : simpl never.

Definition ch (a : ascii) : Z := Z.of_N (N_of_ascii a).

(** ** Characters *)

Definition is_ascii_digit (c : Z) : bool := (48 <=? c) && (c <=? 57).
Definition is_ascii_upper (c : Z) : bool := (65 <=? c) && (c <=? 90).
Definition is_ascii_lower (c : Z) : bool := (97 <=? c) && (c <=? 122).
Definition is_ascii_alphanumeric (c : Z) : bool :=
  is_ascii_digit c || is_ascii_upper c || is_ascii_lower c.
Definition is_ascii_control (c : Z) : bool := ((0 <=? c) && (c <=? 31)) || (c =? 127).
Definition to_ascii_lowercase (c : Z) : Z := if is_ascii_upper c then c + 32 else c.

Definition is_whitespace (c : Z) : bool :=
  ((9 <=? c) && (c <=? 13)) || (c =? 32) || (c =? 133) || (c =? 160) || (c =? 5760)
  || ((8192 <=? c) && (c <=? 8202)) || (c =? 8232) || (c =? 8233) || (c =? 8239)
  || (c =? 8287) || (c =? 12288).

Definition utf8_len_char (c : Z) : Z :=
  if c <? 128 then 1 else if c <? 2048 then 2 else if c <? 65536 then 3 else 4.
Definition utf8_len (s : str) : Z := fold_right (fun c n => utf8_len_char c + n) 0 s.

(** ** Comparison *)

Definition str_eqb (a b : str) : bool := bool_decide (a = b).
Definition is_empty (s : str) : bool := match s with [] => true | _ => false end.

Definition eq_ignore_ascii_case (a b : str) : bool :=
  str_eqb (map to_ascii_lowercase a) (map to_ascii_lowercase b).

Fixpoint starts_with (p s : str) : bool :=
  match p, s with
  | [], _ => true
  | c :: p', d :: s' => (c =? d) && starts_with p' s'
  | _ :: _, [] => false
  end.

Fixpoint contains (p s : str) : bool :=
  starts_with p s || match s with [] => false | _ :: s' => contains p s' end.

Definition has_char (c : Z) (s : str) : bool := existsb (Z.eqb c) s.
#[global] Arguments has_char : simpl never.

(** ** Trimming *)

Fixpoint trim_start (s : str) : str :=
  match s with
  | c :: s' => if is_whitespace c then trim_start s' else s
  | [] => []
  end.
Definition trim_end (s : str) : str := rev (trim_start (rev s)).
Definition trim (s : str) : str := trim_end (trim_start s).

Fixpoint trim_start_char (c : Z) (s : str) : str :=
  match s with
  | d :: s' => if d =? c then trim_start_char c s' else s
  | [] => []
  end.
Definition trim_end_char (c : Z) (s : str) : str := rev (trim_start_char c (rev s)).

(** ** Splitting *)

(** [s.split_once(c)]: around the first [c]. *)
Fixpoint split_once (c : Z) (s : str) : option (str * str) :=
  match s with
  | [] => None
  | d :: s' =>
      if d =? c then Some ([], s')
      else match split_once c s' with
           | Some (a, b) => Some (d :: a, b)
           | None => None
           end
  end.

(** [s.rsplit_once(c)]: around the last [c]. *)
Fixpoint rsplit_once (c : Z) (s : str) : option (str * str) :=
  match s with
  | [] => None
  | d :: s' =>
      match rsplit_once c s' with
      | Some (a, b) => Some (d :: a, b)
      | None => if d =? c then Some ([], s') else None
      end
  end.

(** [s.split(c)]. *)
Fixpoint split_char (c : Z) (s : str) : list str :=
  match s with
  | [] => [[]]
  | d :: s' =>
      if d =? c then [] :: split_char c s'
      else match split_char c s' with
           | p :: ps => (d :: p) :: ps
           | [] => [[d]]
           end
  end.

(** [s.find(c)], as a position in characters. *)
Fixpoint find_char (c : Z) (s : str) : option nat :=
  match s with
  | [] => None
  | d :: s' => if d =? c then Some O else S <$> find_char c s'
  end.

Fixpoint strip_prefix (p s : str) : option str :=
  match p, s with
  | [], _ => Some s
  | c :: p', d :: s' => if c =? d then strip_prefix p' s' else None
  | _ :: _, [] => None
  end.

Definition strip_suffix (p s : str) : option str := @rev Z <$> strip_prefix (rev p) (rev s).

(** [s.replace(c, with)] for a single character [c]. *)
Definition replace_char (c : Z) (w : str) (s : str) : str :=
  concat (map (fun d => if d =? c then w else [d]) s).

(** [parts.join(sep)]. *)
Fixpoint join (sep : str) (parts : list str) : str :=
  match parts with
  | [] => []
  | [p] => p
  | p :: ps => p ++ sep ++ join sep ps
  end.

(** ** Numbers *)

Fixpoint dec_digits (fuel : nat) (n : Z) (acc : str) : str :=
  match fuel with
  | O => acc
  | S f =>
      let acc' := (48 + n mod 10) :: acc in
      if n <? 10 then acc' else dec_digits f (n / 10) acc'
  end.

(** [format!("{n}")]; [log2 n + 1] digits are always enough. *)
Definition dec (n : Z) : str :=
  if n <? 0 then 45 :: dec_digits (S (Z.to_nat (Z.log2 (- n)))) (- n) []
  else dec_digits (S (Z.to_nat (Z.log2 n))) n [].

Definition digits_step (v c : Z) : Z := 10 * v + (c - 48).

(** [str::parse] for an unsigned type of [w] bits: an optional [+], at least
    one digit, and no overflow. *)
Definition parse_uint (w : Z) (s : str) : option Z :=
  let body := match s with c :: s' => if c =? 43 then s' else s | [] => [] end in
  if is_empty body then None
  else if forallb is_ascii_digit body then
    let v := fold_left digits_step body 0 in
    if v <? 2 ^ w then Some v else None
  else None.

Definition hex_digit (n : Z) : Z := if n <? 10 then 48 + n else 87 + n.

(** Two lower-case hexadecimal digits a byte. *)
Definition hex_byte (b : byte) : str := [hex_digit (u8_Z b / 16); hex_digit (u8_Z b mod 16)].
Definition hex (l : bytes) : str := concat (map hex_byte l).

(** [char::to_digit(16)]. *)
Definition hex_value (c : Z) : option Z :=
  if is_ascii_digit c then Some (c - 48)
  else if (97 <=? c) && (c <=? 102) then Some (c - 87)
  else if (65 <=? c) && (c <=? 70) then Some (c - 55)
  else None.

(** The bytes that [hex] prints so; upper-case digits are read too. *)
Fixpoint unhex (s : str) : option bytes :=
  match s with
  | [] => Some []
  | a :: b :: s' =>
      match hex_value a, hex_value b, unhex s' with
      | Some x, Some y, Some l => Some (Z_u8 (16 * x + y) :: l)
      | _, _, _ => None
      end
  | [_] => None
  end.

(** [format!("{n:#010x}")] of a [u32]. *)
Definition hex32 (n : Z) : str := L "0x" ++ hex (rev (le_bytes 4 n)).

(** [format!("{l:?}")] of a byte array. *)
Definition debug_bytes (l : bytes) : str :=
  L "[" ++ join (L ", ") (map (fun b => dec (u8_Z b)) l) ++ L "]".

(** [usize::from_str_radix(s, 16)] (64 bits). *)
Definition hex_step (v : option Z) (c : Z) : option Z :=
  match v, hex_value c with
  | Some v, Some d => if 16 * v + d <? 2 ^ 64 then Some (16 * v + d) else None
  | _, _ => None
  end.
Definition parse_hex_usize (s : str) : option Z :=
  let body := match s with c :: s' => if c =? 43 then s' else s | [] => [] end in
  if is_empty body then None else fold_left hex_step body (Some 0).

(** [format!("{n:x}")]. *)
Fixpoint hex_digits (fuel : nat) (n : Z) (acc : str) : str :=
  match fuel with
  | O => acc
  | S f =>
      let acc' := hex_digit (n mod 16) :: acc in
      if n <? 16 then acc' else hex_digits f (n / 16) acc'
  end.
Definition lower_hex (n : Z) : str := hex_digits (S (Z.to_nat (Z.log2 n))) n [].

(** ** UTF-8

    [String::from_utf8_lossy]: each maximal ill-formed prefix becomes U+FFFD. *)

Definition in_range (lo hi : Z) (b : byte) : bool := (lo <=? u8_Z b) && (u8_Z b <=? hi).

(** The bounds of the second byte, by the first. *)
Definition second_range (b : Z) : Z * Z :=
  if b =? 224 then (160, 191) else if b =? 237 then (128, 159)
  else if b =? 240 then (144, 191) else if b =? 244 then (128, 143) else (128, 191).

(** The number of bytes of a sequence, by the first; 0 for a bad one. *)
Definition utf8_width (b : Z) : nat :=
  if b <? 128 then 1 else if b <? 194 then 0 else if b <? 224 then 2
  else if b <? 240 then 3 else if b <? 245 then 4 else 0.

Definition cont (b : byte) : Z := u8_Z b - 128.

(** One character (or U+FFFD) and the bytes left. *)
Definition utf8_next (b : byte) (l : bytes) : Z * bytes :=
  let v := u8_Z b in
  let bad := 65533 in
  match utf8_width v with
  | 1%nat => (v, l)
  | 0%nat => (bad, l)
  | w =>
      let '(lo, hi) := second_range v in
      match l with
      | c :: l1 =>
          if negb (in_range lo hi c) then (bad, l)
          else if (w =? 2)%nat then ((v - 192) * 64 + cont c, l1)
          else match l1 with
               | d :: l2 =>
                   if negb (in_range 128 191 d) then (bad, l1)
                   else if (w =? 3)%nat then ((v - 224) * 4096 + cont c * 64 + cont d, l2)
                   else match l2 with
                        | e :: l3 =>
                            if negb (in_range 128 191 e) then (bad, l2)
                            else ((v - 240) * 262144 + cont c * 4096 + cont d * 64 + cont e, l3)
                        | [] => (bad, l2)
                        end
               | [] => (bad, l1)
               end
      | [] => (bad, l)
      end
  end.

Fixpoint utf8_lossy_fuel (fuel : nat) (l : bytes) : str :=
  match fuel, l with
  | S f, b :: l' => let '(c, r) := utf8_next b l' in c :: utf8_lossy_fuel f r
  | _, _ => []
  end.

(** Every step consumes a byte, so the length is enough fuel. *)
Definition utf8_lossy (l : bytes) : str := utf8_lossy_fuel (length l) l.

(** ** Lines and words *)

(** The first of [s.lines()]. *)
Definition first_line (s : str) : str :=
  let line := match split_once 10 s with Some (a, _) => a | None => s end in
  match strip_suffix [13] line with Some l => l | None => line end.

(** [s.split_whitespace()]. *)
Fixpoint words (s : str) : list str :=
  match s with
  | [] => []
  | c :: s' =>
      if is_whitespace c then words s'
      else match s' with
           | [] => [[c]]
           | d :: _ =>
               if is_whitespace d then [c] :: words s'
               else match words s' with
                    | w :: ws => (c :: w) :: ws
                    | [] => [[c]]
                    end
           end
  end.

(** ** Lemmas *)

Lemma str_eqb_eq a b : str_eqb a b = true <-> a = b.
Proof. apply bool_decide_eq_true. Qed.

Lemma str_eqb_refl a : str_eqb a a = true.
Proof. apply str_eqb_eq. reflexivity. Qed.

Lemma has_char_In c s : has_char c s = true <-> In c s.
Proof.
  unfold has_char. rewrite existsb_exists. split.
  - intros (x & Hx & E). apply Z.eqb_eq in E. congruence.
  - intros H. exists c. rewrite Z.eqb_refl. auto.
Qed.

Lemma has_char_cons c d s : has_char c (d :: s) = (c =? d) || has_char c s.
Proof. reflexivity. Qed.

Lemma has_char_app c s t : has_char c (s ++ t) = has_char c s || has_char c t.
Proof. apply existsb_app. Qed.

Lemma split_once_at c a b : has_char c a = false -> split_once c (a ++ c :: b) = Some (a, b).
Proof.
  induction a as [|d a IH]; cbn; intros H.
  - rewrite Z.eqb_refl. reflexivity.
  - rewrite has_char_cons in H. apply orb_false_iff in H as [H1 H2]. rewrite Z.eqb_sym in H1.
    rewrite H1, IH by exact H2. reflexivity.
Qed.

Lemma split_once_none c s : has_char c s = false -> split_once c s = None.
Proof.
  induction s as [|d s IH]; cbn; intros H; [reflexivity|].
  rewrite has_char_cons in H. apply orb_false_iff in H as [H1 H2]. rewrite Z.eqb_sym in H1.
  rewrite H1, IH by exact H2. reflexivity.
Qed.

Lemma split_once_some c s a b :
  split_once c s = Some (a, b) -> s = a ++ c :: b /\ has_char c a = false.
Proof.
  revert a b; induction s as [|d s IH]; cbn; intros a b H; [discriminate|].
  destruct (Z.eqb_spec d c) as [->|Hd].
  - injection H as <- <-. auto.
  - destruct (split_once c s) as [[a' b']|]; [|discriminate].
    injection H as <- <-. destruct (IH _ _ eq_refl) as [-> Hn].
    split; [reflexivity|]. rewrite has_char_cons, Hn.
    apply orb_false_iff. split; [apply Z.eqb_neq; congruence | reflexivity].
Qed.

Lemma split_once_none_inv c s : split_once c s = None -> has_char c s = false.
Proof.
  induction s as [|d s IH]; cbn; intros H; [reflexivity|].
  destruct (Z.eqb_spec d c) as [->|Hd]; [discriminate|].
  destruct (split_once c s) as [[? ?]|]; [discriminate|].
  rewrite has_char_cons, IH by reflexivity. apply orb_false_iff; split; [apply Z.eqb_neq; congruence|reflexivity].
Qed.

Lemma split_char_at c a r : has_char c a = false -> split_char c (a ++ c :: r) = a :: split_char c r.
Proof.
  induction a as [|d a IH]; [intros _; cbn; rewrite Z.eqb_refl; reflexivity|].
  rewrite has_char_cons. intros [Hd Ha]%orb_false_iff. cbn [app split_char].
  rewrite Z.eqb_sym, Hd, IH by exact Ha. reflexivity.
Qed.

Lemma split_char_none c a : has_char c a = false -> split_char c a = [a].
Proof.
  induction a as [|d a IH]; [reflexivity|].
  rewrite has_char_cons. intros [Hd Ha]%orb_false_iff. cbn [split_char].
  rewrite Z.eqb_sym, Hd, IH by exact Ha. reflexivity.
Qed.

Lemma rsplit_once_none c s : has_char c s = false -> rsplit_once c s = None.
Proof.
  induction s as [|d s IH]; cbn; intros H; [reflexivity|].
  rewrite has_char_cons in H. apply orb_false_iff in H as [H1 H2]. rewrite Z.eqb_sym in H1.
  rewrite IH, H1 by exact H2. reflexivity.
Qed.

Lemma rsplit_once_at c a b : has_char c b = false -> rsplit_once c (a ++ c :: b) = Some (a, b).
Proof.
  intros H. induction a as [|d a IH]; cbn.
  - rewrite rsplit_once_none, Z.eqb_refl by exact H. reflexivity.
  - rewrite IH. reflexivity.
Qed.

Lemma rsplit_once_none_inv c s : rsplit_once c s = None -> has_char c s = false.
Proof.
  induction s as [|d s IH]; cbn; intros H; [reflexivity|].
  destruct (rsplit_once c s) as [[? ?]|]; [discriminate|].
  rewrite has_char_cons, IH by reflexivity.
  destruct (Z.eqb_spec d c); [discriminate|].
  apply orb_false_iff; split; [apply Z.eqb_neq; congruence | reflexivity].
Qed.

Lemma rsplit_once_some c s a b :
  rsplit_once c s = Some (a, b) -> s = a ++ c :: b /\ has_char c b = false.
Proof.
  revert a b; induction s as [|d s IH]; cbn; intros a b H; [discriminate|].
  destruct (rsplit_once c s) as [[a' b']|] eqn:E.
  - injection H as <- <-. destruct (IH _ _ eq_refl) as [-> Hn]. auto.
  - destruct (Z.eqb_spec d c) as [->|]; [|discriminate].
    injection H as <- <-. split; [reflexivity | apply rsplit_once_none_inv, E].
Qed.

Lemma find_char_at c a b : has_char c a = false -> find_char c (a ++ c :: b) = Some (length a).
Proof.
  induction a as [|d a IH]; cbn; intros H.
  - rewrite Z.eqb_refl. reflexivity.
  - rewrite has_char_cons in H. apply orb_false_iff in H as [H1 H2]. rewrite Z.eqb_sym in H1.
    rewrite H1, IH by exact H2. reflexivity.
Qed.

Lemma trim_start_id s : (forall c, hd_error s = Some c -> is_whitespace c = false) -> trim_start s = s.
Proof.
  destruct s as [|c s]; cbn; intros H; [reflexivity|].
  rewrite (H c eq_refl). reflexivity.
Qed.

(** A string whose first and last characters are not white space is already
    trimmed. *)
Lemma trim_id s :
  (forall c, hd_error s = Some c -> is_whitespace c = false) ->
  (forall c, last s = Some c -> is_whitespace c = false) -> trim s = s.
Proof.
  intros Hh Hl. unfold trim, trim_end. rewrite (trim_start_id s) by exact Hh.
  rewrite trim_start_id; [apply rev_involutive|].
  intros c Hc. apply Hl. rewrite <- head_reverse. rewrite rev_alt in Hc. exact Hc.
Qed.

Lemma trim_start_suffix s : exists p, s = p ++ trim_start s.
Proof.
  induction s as [|c s [p IH]]; cbn; [exists []; reflexivity|].
  destruct (is_whitespace c); [exists (c :: p); cbn; congruence | exists []; reflexivity].
Qed.

Lemma trim_start_head s c : hd_error (trim_start s) = Some c -> is_whitespace c = false.
Proof.
  induction s as [|d s IH]; cbn; [discriminate|].
  destruct (is_whitespace d) eqn:E; [exact IH|]. intros [= <-]. exact E.
Qed.

Lemma trim_end_prefix s : exists q, s = trim_end s ++ q.
Proof.
  destruct (trim_start_suffix (rev s)) as [p Hp]. exists (rev p). unfold trim_end.
  rewrite <- rev_app_distr, <- Hp. symmetry. apply rev_involutive.
Qed.

(** The first and the last character of a trimmed string are not white space. *)
Lemma trim_head s c : hd_error (trim s) = Some c -> is_whitespace c = false.
Proof.
  unfold trim. destruct (trim_end_prefix (trim_start s)) as [q Hq]. intros Hc.
  apply (trim_start_head s). rewrite Hq.
  destruct (trim_end (trim_start s)); [discriminate | exact Hc].
Qed.

Lemma trim_last s c : last (trim s) = Some c -> is_whitespace c = false.
Proof.
  unfold trim, trim_end. intros Hc. apply (trim_start_head (rev (trim_start s))).
  rewrite <- Hc, (rev_alt (trim_start (rev _))). symmetry. apply last_reverse.
Qed.

Lemma app_ne_r {A} (x y : list A) : y <> [] -> x ++ y <> [].
Proof. destruct x; cbn; [auto | discriminate]. Qed.

Lemma last_app_ne {A} (x y : list A) : y <> [] -> last (x ++ y) = last y.
Proof. intros Hy. rewrite last_app. destruct (last y) eqn:E; [reflexivity|]. apply last_None in E. congruence. Qed.

Lemma dec_digits_fold f n acc :
  0 <= n < 2 ^ Z.of_nat f ->
  fold_left digits_step (dec_digits f n acc) 0 = fold_left digits_step acc n.
Proof.
  revert n acc; induction f as [|f IH]; intros n acc Hn.
  - cbn in *. assert (n = 0) by lia. subst. reflexivity.
  - cbn [dec_digits]. destruct (Z.ltb_spec n 10).
    + cbn [fold_left]. unfold digits_step at 2. rewrite Z.mod_small by lia. f_equal. lia.
    + rewrite IH.
      * cbn [fold_left]. unfold digits_step at 2. f_equal.
        pose proof (Z.div_mod n 10). lia.
      * replace (Z.of_nat (S f)) with (1 + Z.of_nat f) in Hn by lia.
        rewrite Z.pow_add_r in Hn by lia. split; [apply Z.div_pos; lia|].
        apply Z.div_lt_upper_bound; lia.
Qed.

Lemma dec_digits_all f n acc :
  0 <= n -> forallb is_ascii_digit acc = true ->
  forallb is_ascii_digit (dec_digits f n acc) = true.
Proof.
  revert n acc; induction f as [|f IH]; intros n acc Hn Ha; cbn [dec_digits]; [exact Ha|].
  assert (Hd : forallb is_ascii_digit ((48 + n mod 10) :: acc) = true).
  { cbn. rewrite Ha. unfold is_ascii_digit.
    pose proof (Z.mod_pos_bound n 10 ltac:(lia)).
    destruct (Z.leb_spec 48 (48 + n mod 10)), (Z.leb_spec (48 + n mod 10) 57); cbn; lia. }
  destruct (n <? 10); [exact Hd|]. apply IH; [apply Z.div_pos; lia | exact Hd].
Qed.

Lemma dec_digits_nonempty f n acc : acc <> [] -> dec_digits f n acc <> [].
Proof.
  revert n acc; induction f as [|f IH]; intros n acc Ha; cbn; [exact Ha|].
  destruct (n <? 10); [discriminate | apply IH; discriminate].
Qed.

Lemma dec_all_digits n : 0 <= n -> forallb is_ascii_digit (dec n) = true.
Proof.
  intros Hn. unfold dec. destruct (Z.ltb_spec n 0); [lia|].
  apply dec_digits_all; auto.
Qed.

Lemma dec_nonempty n : 0 <= n -> dec n <> [].
Proof.
  intros Hn. unfold dec. destruct (Z.ltb_spec n 0); [lia|].
  cbn [dec_digits]. destruct (n <? 10); [discriminate | apply dec_digits_nonempty; discriminate].
Qed.

Lemma dec_value n : 0 <= n -> fold_left digits_step (dec n) 0 = n.
Proof.
  intros Hn. unfold dec. destruct (Z.ltb_spec n 0); [lia|].
  rewrite dec_digits_fold; [reflexivity|]. split; [exact Hn|].
  destruct (Z.eq_dec n 0) as [->|].
  - cbn. lia.
  - rewrite Nat2Z.inj_succ, Z2Nat.id by apply Z.log2_nonneg.
    apply Z.log2_spec. lia.
Qed.

Lemma digit_head_not_plus s : forallb is_ascii_digit s = true ->
  (match s with c :: s' => if c =? 43 then s' else s | [] => [] end) = s.
Proof.
  destruct s as [|c s]; [reflexivity|]. cbn [forallb]. intros [Hc _]%andb_prop.
  destruct (Z.eqb_spec c 43) as [->|Hne]; [discriminate Hc | reflexivity].
Qed.

(** Parsing undoes display. *)
Lemma parse_uint_dec w n : u_range w n -> parse_uint w (dec n) = Some n.
Proof.
  intros [H1 H2]. unfold parse_uint.
  rewrite digit_head_not_plus by (apply dec_all_digits; lia).
  pose proof (dec_nonempty n H1) as Hne.
  destruct (dec n) as [|c s] eqn:E; [congruence|]. cbn [is_empty].
  rewrite <- E, dec_all_digits, dec_value by lia.
  destruct (Z.ltb_spec n (2 ^ w)); [reflexivity | lia].
Qed.

Lemma parse_uint_range w s n : parse_uint w s = Some n -> u_range w n.
Proof.
  unfold parse_uint. set (b := match s with c :: s' => if c =? 43 then s' else s | [] => [] end).
  destruct (is_empty b); [discriminate|].
  destruct (forallb is_ascii_digit b) eqn:E; [|discriminate].
  destruct (Z.ltb_spec (fold_left digits_step b 0) (2 ^ w)); [|discriminate].
  intros [= <-]. split; [|lia].
  assert (G : forall l v, forallb is_ascii_digit l = true -> 0 <= v ->
    0 <= fold_left digits_step l v).
  { induction l as [|c l IH]; intros v Hl Hv; cbn; [exact Hv|].
    cbn in Hl. apply andb_prop in Hl as [Hc Hl]. apply IH; [exact Hl|].
    unfold is_ascii_digit in Hc. apply andb_prop in Hc as [Hc _].
    apply Z.leb_le in Hc. unfold digits_step. lia. }
  apply G; [exact E | lia].
Qed.

Lemma digits_no_char c s :
  is_ascii_digit c = false -> forallb is_ascii_digit s = true -> has_char c s = false.
Proof.
  intros Hc Hs. destruct (has_char c s) eqn:E; [|reflexivity].
  apply has_char_In in E. rewrite forallb_forall in Hs. rewrite (Hs c E) in Hc. discriminate.
Qed.

Lemma alnum_no_char c s :
  is_ascii_alphanumeric c = false -> forallb is_ascii_alphanumeric s = true ->
  has_char c s = false.
Proof.
  intros Hc Hs. destruct (has_char c s) eqn:E; [|reflexivity].
  apply has_char_In in E. rewrite forallb_forall in Hs. rewrite (Hs c E) in Hc. discriminate.
Qed.

Lemma alnum_not_whitespace c : is_ascii_alphanumeric c = true -> is_whitespace c = false.
Proof. unfold is_ascii_alphanumeric, is_ascii_digit, is_ascii_upper, is_ascii_lower, is_whitespace. lia. Qed.

Lemma hex_value_digit n : 0 <= n < 16 -> hex_value (hex_digit n) = Some n.
Proof.
  intros H. unfold hex_digit, hex_value, is_ascii_digit.
  destruct (Z.ltb_spec n 10).
  - assert ((48 <=? 48 + n) && (48 + n <=? 57) = true) as -> by lia. f_equal. lia.
  - assert ((48 <=? 87 + n) && (87 + n <=? 57) = false) as -> by lia.
    assert ((97 <=? 87 + n) && (87 + n <=? 102) = true) as -> by lia. f_equal. lia.
Qed.

Lemma hex_digits_fold f n acc :
  0 <= n < 2 ^ Z.of_nat f -> n < 2 ^ 64 ->
  fold_left hex_step (hex_digits f n acc) (Some 0) = fold_left hex_step acc (Some n).
Proof.
  revert n acc; induction f as [|f IH]; intros n acc Hn H64.
  - cbn in *. assert (n = 0) by lia. subst. reflexivity.
  - cbn [hex_digits]. pose proof (Z.mod_pos_bound n 16 ltac:(lia)).
    pose proof (Z.div_mod n 16 ltac:(lia)).
    destruct (Z.ltb_spec n 16).
    + cbn [fold_left]. unfold hex_step at 2. rewrite hex_value_digit, Z.mod_small by lia.
      destruct (Z.ltb_spec (16 * 0 + n) (2 ^ 64)); [|lia]. reflexivity.
    + rewrite IH.
      * cbn [fold_left]. unfold hex_step at 2. rewrite hex_value_digit by lia.
        replace (16 * (n / 16) + n mod 16) with n by lia.
        destruct (Z.ltb_spec n (2 ^ 64)); [reflexivity | lia].
      * replace (Z.of_nat (S f)) with (1 + Z.of_nat f) in Hn by lia.
        rewrite Z.pow_add_r in Hn by lia. split; [apply Z.div_pos; lia|].
        apply Z.div_lt_upper_bound; lia.
      * apply Z.div_lt_upper_bound; lia.
Qed.

Definition is_lower_hex (c : Z) : bool := is_ascii_digit c || ((97 <=? c) && (c <=? 102)).

Lemma hex_digits_all f n acc :
  0 <= n -> forallb is_lower_hex acc = true ->
  forallb is_lower_hex (hex_digits f n acc) = true.
Proof.
  revert n acc; induction f as [|f IH]; intros n acc Hn Ha; cbn [hex_digits]; [exact Ha|].
  assert (Hd : forallb is_lower_hex (hex_digit (n mod 16) :: acc) = true).
  { cbn. rewrite Ha. unfold is_lower_hex, is_ascii_digit, hex_digit.
    pose proof (Z.mod_pos_bound n 16 ltac:(lia)). destruct (Z.ltb_spec (n mod 16) 10); lia. }
  destruct (n <? 16); [exact Hd|]. apply IH; [apply Z.div_pos; lia | exact Hd].
Qed.

Lemma hex_digits_nonempty f n acc : acc <> [] -> hex_digits f n acc <> [].
Proof.
  revert n acc; induction f as [|f IH]; intros n acc Ha; cbn; [exact Ha|].
  destruct (n <? 16); [discriminate | apply IH; discriminate].
Qed.

Lemma lower_hex_all n : 0 <= n -> forallb is_lower_hex (lower_hex n) = true.
Proof. intros Hn. apply hex_digits_all; auto. Qed.

Lemma lower_hex_nonempty n : lower_hex n <> [].
Proof.
  unfold lower_hex. cbn [hex_digits].
  destruct (n <? 16); [discriminate | apply hex_digits_nonempty; discriminate].
Qed.

(** Parsing undoes hexadecimal display. *)
Lemma parse_lower_hex n : u_range 64 n -> parse_hex_usize (lower_hex n) = Some n.
Proof.
  intros [H1 H2]. unfold parse_hex_usize.
  pose proof (lower_hex_all n H1) as Hall. pose proof (lower_hex_nonempty n) as Hne.
  destruct (lower_hex n) as [|c s] eqn:E; [congruence|].
  cbn [forallb] in Hall. apply andb_prop in Hall as [Hc _].
  destruct (Z.eqb_spec c 43) as [->|_]; [discriminate Hc|]. cbn [is_empty].
  rewrite <- E. unfold lower_hex. rewrite hex_digits_fold; [reflexivity| |exact H2].
  split; [exact H1|]. destruct (Z.eq_dec n 0) as [->|]; [cbn; lia|].
  rewrite Nat2Z.inj_succ, Z2Nat.id by apply Z.log2_nonneg. apply Z.log2_spec. lia.
Qed.

(** ASCII bytes are their own decoding. *)
Lemma utf8_lossy_ascii l :
  Forall (fun b => u8_Z b < 128) l -> utf8_lossy l = map u8_Z l.
Proof.
  unfold utf8_lossy. induction 1 as [|b l Hb _ IH]; [reflexivity|].
  cbn [length utf8_lossy_fuel map]. unfold utf8_next, utf8_width.
  destruct (Z.ltb_spec (u8_Z b) 128); [|lia]. rewrite IH. reflexivity.
Qed.

(** [unhex] undoes [hex]. *)
Lemma unhex_hex l : unhex (hex l) = Some l.
Proof.
  induction l as [|b l IH]; [reflexivity|].
  change (hex (b :: l)) with
    (hex_digit (u8_Z b / 16) :: hex_digit (u8_Z b mod 16) :: hex l).
  cbn [unhex]. pose proof (u8_Z_range b).
  rewrite hex_value_digit by (split; [apply Z.div_pos | apply Z.div_lt_upper_bound]; lia).
  rewrite hex_value_digit by (apply Z.mod_pos_bound; lia).
  rewrite IH. do 2 f_equal. rewrite <- Z.div_mod by lia. apply Z_u8_Z.
Qed.

Lemma length_hex l : length (hex l) = (2 * length l)%nat.
Proof.
  induction l as [|b l IH]; [reflexivity|].
  change (hex (b :: l)) with (hex_byte b ++ hex l). rewrite length_app, IH. cbn. lia.
Qed.

#[export] Hint Rewrite length_hex : pbs_len.

(** ** Order

    Strings are ordered by code point, as [str::cmp] and folder listings do. *)
Fixpoint str_lt (a b : str) : bool :=
  match a, b with
  | [], [] => false
  | [], _ :: _ => true
  | _ :: _, [] => false
  | x :: a, y :: b => (x <? y) || ((x =? y) && str_lt a b)
  end.

Lemma str_lt_prefix p a b : str_lt (p ++ a) (p ++ b) = str_lt a b.
Proof. induction p as [|c p IH]; cbn; [reflexivity|]. rewrite Z.ltb_irrefl, Z.eqb_refl. exact IH. Qed.

Lemma str_lt_app a b x y :
  length a = length b -> str_lt a b = true -> str_lt (a ++ x) (b ++ y) = true.
Proof.
  revert b; induction a as [|c a IH]; intros [|d b]; cbn; try (intros; discriminate).
  intros [= Hl] [Hlt|[He Hlt]%andb_true_iff]%orb_true_iff; apply orb_true_iff; [left; exact Hlt|].
  right. rewrite He. cbn. auto.
Qed.

Lemma str_lt_irrefl a : str_lt a a = false.
Proof. induction a as [|c a IH]; cbn; [reflexivity|]. rewrite Z.ltb_irrefl, Z.eqb_refl. exact IH. Qed.

Lemma str_lt_trans a b c : str_lt a b = true -> str_lt b c = true -> str_lt a c = true.
Proof.
  revert b c; induction a as [|x a IH]; intros [|y b] [|z c]; cbn; try discriminate; auto.
  rewrite !orb_true_iff, !andb_true_iff, !Z.ltb_lt, !Z.eqb_eq.
  intros [H1|[-> H1]] [H2|[-> H2]]; [left; lia | left; lia | left; lia|]. right. eauto.
Qed.

Lemma str_lt_total a b : str_lt a b = false -> str_lt b a = false -> a = b.
Proof.
  revert b; induction a as [|x a IH]; intros [|y b]; cbn; try discriminate; auto.
  rewrite !orb_false_iff, !Z.ltb_ge. intros [H1 H2] [H3 H4]. assert (x = y) as -> by lia.
  rewrite Z.eqb_refl in *. f_equal. auto.
Qed.
