(* ===== verification/Base.v ===== *)
(** Errors of the client crate and the interfaces of the crates it calls.

    [PbsError] is the error enum of [pbs-client/src/error.rs].  The crates that
    are not part of the repository are type classes of operations, each with a
    separate class of the documented laws a theorem may rely on:
    [crc32fast] ([Crc32Lib]), [ruzstd] ([ZstdLib], law [ZstdLaws]), [sha2] and
    [pbkdf2] ([HashLib]), [hex] ([HexLib], law [HexLaws]), [aes-gcm] ([AeadLib], law [AeadLaws]).  [Sample]
    instantiates every one of them with a concrete executable function, so that
    theorems resting on the laws are evaluated on real inputs. *)

From Stdlib Require Import ZArith Lia Strings.Byte Ascii String.
From stdpp Require Import base tactics option numbers list.
From S2P Require Import Prelude Text.
Open Scope Z_scope.

(** ** Errors *)

(** The kinds of [std::io::Error] the program creates. *)
Inductive io_kind := UnexpectedEof | InvalidData | InvalidInput | BrokenPipe | TimedOut | OtherIo.
Record io_error := IoError { io_kind_of : io_kind; io_text : str }.

Inductive PbsError :=
| InvalidRepository (msg : str)
| Auth (msg : str)
| FingerprintMismatch (expected actual : str)
| Protocol (msg : str)
| Io (e : io_error).

#[export] Instance io_kind_eq_dec : EqDecision io_kind.
Proof. solve_decision. Defined.
#[export] Instance io_error_eq_dec : EqDecision io_error.
Proof. solve_decision. Defined.
#[export] Instance PbsError_eq_dec : EqDecision PbsError.
Proof. solve_decision. Defined.

(** ** Libraries *)

(** [crc32fast]: a [u32] checksum of a byte string. *)
Class Crc32Lib := {
  crc32fast : bytes -> Z;
  crc32fast_u32 : forall l, u_range 32 (crc32fast l);
}.

(** [sha2] and [pbkdf2]: 32-byte digests. *)
Class HashLib := {
  sha256 : bytes -> bytes;
  sha256_len : forall l, length (sha256 l) = 32%nat;
  pbkdf2_hmac : bytes -> bytes -> Z -> bytes;
  pbkdf2_len : forall k s n, length (pbkdf2_hmac k s n) = 32%nat;
}.

(** The [hex] crate. *)
Class HexLib := {
  hex_encode : bytes -> str;
  hex_decode : str -> result str bytes;
}.

Class HexLaws `{HexLib} := hex_inverse : forall l, hex_decode (hex_encode l) = Ok l.

(** The outcome of [ruzstd]'s streaming decoder: a bad frame header, an error
    while reading the frame, or the decompressed bytes. *)
Inductive zstd_outcome := ZBadFrame (e : str) | ZReadError (e : str) | ZData (l : bytes).

Class ZstdLib := {
  compress_to_vec : bytes -> bytes;
  zstd_read : bytes -> zstd_outcome;
}.

(** Decompressing a frame the encoder produced gives its input back. *)
Class ZstdLaws `{ZstdLib} := zstd_inverse : forall p, zstd_read (compress_to_vec p) = ZData p.

(** [aes-gcm] with a detached 16-byte tag: [None] is [aead::Error]. *)
Class AeadLib := {
  aead_encrypt : bytes -> bytes -> bytes -> option (bytes * bytes);
  aead_decrypt : bytes -> bytes -> bytes -> bytes -> option bytes;
}.

(** A tag is 16 bytes, and decrypting with the key, the IV and the tag of an
    encryption gives the plaintext back. *)
Class AeadLaws `{AeadLib} := {
  aead_tag_len : forall k iv p c t,
    aead_encrypt k iv p = Some (c, t) -> length t = 16%nat;
  aead_inverse : forall k iv p c t,
    aead_encrypt k iv p = Some (c, t) -> aead_decrypt k iv c t = Some p;
}.

(** The nonce has 16 bytes, and the ciphertext the length of the plaintext. *)
Class AeadSizes `{AeadLib} := aead_sizes : forall k iv p c t,
  aead_encrypt k iv p = Some (c, t) -> length iv = 16%nat /\ length c = length p.

(** ** Concrete instances *)

Module Sample.

(** CRC-32/IEEE, bit by bit. *)
Fixpoint crc_bits (n : nat) (c : Z) : Z :=
  match n with
  | O => c
  | S n' =>
      crc_bits n' (if Z.odd c then Z.lxor (Z.shiftr c 1) 0xEDB88320 else Z.shiftr c 1)
  end.

Definition crc_ieee (l : bytes) : Z :=
  Z.lxor (fold_left (fun c b => crc_bits 8 (Z.lxor c (u8_Z b))) l 0xFFFFFFFF) 0xFFFFFFFF
  mod 2 ^ 32.

Lemma crc_ieee_u32 l : u_range 32 (crc_ieee l).
Proof. apply Z.mod_pos_bound. lia. Qed.

#[export] Instance crc : Crc32Lib := { crc32fast := crc_ieee; crc32fast_u32 := crc_ieee_u32 }.

(** A digest that keeps the length and the first 24 bytes. *)
Definition pad_digest (l : bytes) : bytes :=
  take 32 (le_bytes 8 (Z.min (Z.of_nat (length l)) (2 ^ 64 - 1)) ++ l ++ replicate 32 x00).

Lemma pad_digest_len l : length (pad_digest l) = 32%nat.
Proof. unfold pad_digest. len. Qed.

Lemma pad_digest_split l :
  pad_digest l = le_bytes 8 (Z.min (Z.of_nat (length l)) (2 ^ 64 - 1))
                 ++ take 24 (l ++ replicate 32 x00).
Proof.
  unfold pad_digest. rewrite take_app_ge by len. rewrite length_le_bytes. reflexivity.
Qed.

(** No other byte string has the digest of one of at most 24 bytes. *)
Lemma pad_digest_inj a b : (length a <= 24)%nat -> pad_digest a = pad_digest b -> a = b.
Proof.
  intros Ha E. rewrite !pad_digest_split in E.
  apply app_inj_1 in E as [El Ed]; [|rewrite !length_le_bytes; reflexivity].
  apply (f_equal le_value) in El.
  rewrite !(le_value_bytes_u 8 64) in El by (reflexivity || (unfold u_range; lia)).
  assert (Hl : length a = length b) by lia.
  apply (f_equal (take (length a))) in Ed. rewrite !take_take in Ed.
  rewrite Nat.min_l in Ed by lia. rewrite take_app_length in Ed.
  rewrite Hl, take_app_length in Ed. exact Ed.
Qed.

#[export] Instance hash : HashLib := {
  sha256 := pad_digest;
  sha256_len := pad_digest_len;
  pbkdf2_hmac k s n := pad_digest (k ++ s);
  pbkdf2_len k s n := pad_digest_len (k ++ s);
}.

(** Two lower-case digits a byte. *)
#[export] Instance hexlib : HexLib := {
  hex_encode := hex;
  hex_decode s := ok_or (unhex s) (L "invalid hex");
}.

#[export] Instance hexlib_laws : HexLaws.
Proof. intros l. cbn. rewrite unhex_hex. reflexivity. Qed.

(** A codec that shortens runs of one byte and stores everything else. *)
Definition runs (p : bytes) : bytes :=
  match p with
  | b :: p' =>
      if forallb (Byte.eqb b) p' && (length p <? 256)%nat
      then [x01; Z_u8 (Z.of_nat (length p)); b] else x00 :: p
  | [] => [x00]
  end.

Definition unruns (f : bytes) : zstd_outcome :=
  match f with
  | x00 :: p => ZData p
  | [x01; n; b] => ZData (replicate (Z.to_nat (u8_Z n)) b)
  | [] => ZBadFrame (L "empty")
  | _ => ZReadError (L "bad block")
  end.

#[export] Instance zstd : ZstdLib := { compress_to_vec := runs; zstd_read := unruns }.

Lemma forallb_eqb_replicate b (p : bytes) :
  forallb (Byte.eqb b) p = true -> p = replicate (length p) b.
Proof.
  induction p as [|c p IH]; cbn; intros H; [reflexivity|].
  apply andb_prop in H as [Hb Hp]. apply Byte.byte_dec_bl in Hb. subst.
  f_equal. apply IH, Hp.
Qed.

#[export] Instance zstd_laws : ZstdLaws.
Proof.
  intros [|b p]; [reflexivity|]. change (unruns (runs (b :: p)) = ZData (b :: p)).
  unfold runs.
  destruct (forallb (Byte.eqb b) p && (length (b :: p) <? 256)%nat) eqn:E; [|reflexivity].
  apply andb_prop in E as [E1 E2%Nat.ltb_lt]. cbn [unruns]. f_equal.
  rewrite u8_Z_u8, Z.mod_small, Nat2Z.id by lia.
  cbn. f_equal. symmetry. apply forallb_eqb_replicate, E1.
Qed.

(** A cipher that adds a byte of the key and tags with the IV. *)
Definition shift_byte (k : Z) (b : byte) : byte := Z_u8 (u8_Z b + k).
Definition key_byte (k : bytes) : Z := u8_Z (default x00 (head k)).

#[export] Instance aead : AeadLib := {
  aead_encrypt k iv p :=
    if (length iv =? 16)%nat
    then Some (map (shift_byte (key_byte k)) p, take 16 (iv ++ replicate 16 x00)) else None;
  aead_decrypt k iv c t :=
    if bool_decide (t = take 16 (iv ++ replicate 16 x00))
    then Some (map (shift_byte (- key_byte k)) c) else None;
}.

Lemma shift_byte_inverse k b : shift_byte (- k) (shift_byte k b) = b.
Proof.
  unfold shift_byte. rewrite u8_Z_u8. rewrite <- (Z_u8_Z b) at 2.
  unfold Z_u8. do 2 f_equal. f_equal.
  rewrite Zplus_mod_idemp_l. f_equal. lia.
Qed.

#[export] Instance aead_laws : AeadLaws.
Proof.
  split; cbn.
  - intros k iv p c t. destruct (length iv =? 16)%nat; [|discriminate]. intros [= <- <-]. len.
  - intros k iv p c t. destruct (length iv =? 16)%nat; [|discriminate]. intros [= <- <-].
    rewrite bool_decide_true by reflexivity.
    f_equal. rewrite map_map. rewrite <- (map_id p) at 2.
    apply map_ext. intros b. apply shift_byte_inverse.
Qed.

#[export] Instance aead_sized : AeadSizes.
Proof.
  intros k iv p c t. cbn. destruct (Nat.eqb_spec (length iv) 16); [|discriminate].
  intros [= <- _]. rewrite length_map. auto.
Qed.

End Sample.
