(* ===== verification/Blob.v ===== *)
(** DataBlobs: [pbs-client/src/blob.rs], [pbs-client/src/crypt.rs] and the chunk
    decoding of [pbs-client/src/session.rs].

    A DataBlob frames every chunk and stored object:
    [magic(8) | crc32-le(4) | payload], where the payload may be a zstd frame,
    and [magic(8) | crc32-le(4) | iv(16) | tag(16) | ciphertext] for the
    encrypted variants.  The theorems: every encoder is undone by the decoder
    of its variant, [encode_auto] never inflates a payload by more than the
    header, [decode] accepts exactly the well-formed frames, an encrypted blob
    is never decoded without a key, and a chunk that passes
    [decode_and_verify_chunk] has the digest it was asked for. *)

From Stdlib Require Import ZArith Lia Strings.Byte Ascii String.
From stdpp Require Import base tactics option numbers list.
From S2P Require Import Prelude Text Base.
Open Scope Z_scope.

(** ** Encoding and decoding (blob.rs) *)

Definition MAGIC_UNCOMPRESSED : bytes := octets [66; 171; 56; 7; 190; 131; 112; 161].
Definition MAGIC_ZSTD : bytes := octets [49; 185; 88; 66; 111; 182; 163; 127].
Definition MAGIC_ENCRYPTED : bytes := octets [123; 103; 133; 190; 34; 45; 76; 240].
Definition MAGIC_ENCRYPTED_ZSTD : bytes := octets [230; 89; 27; 191; 11; 191; 216; 11].

Definition HEADER_SIZE : nat := 12.
Definition MAX_BLOB_SIZE : Z := 128 * 1024 * 1024.

Section Blob.
Context `{Crc32Lib} `{ZstdLib}.

Definition crc32 (payload : bytes) : Z := crc32fast payload.

Definition encode_uncompressed (payload : bytes) : bytes :=
  MAGIC_UNCOMPRESSED ++ le_bytes 4 (crc32 payload) ++ payload.

Definition zstd_compress (payload : bytes) : bytes := compress_to_vec payload.

Definition zstd_decompress (frame : bytes) : result PbsError bytes :=
  match zstd_read frame with
  | ZBadFrame e => Err (Protocol (L "zstd frame error: " ++ e))
  | ZReadError e => Err (Protocol (L "zstd decompression failed: " ++ e))
  | ZData out => Ok out
  end.

Definition frame_zstd (frame : bytes) : bytes :=
  MAGIC_ZSTD ++ le_bytes 4 (crc32 frame) ++ frame.

Definition encode_compressed (payload : bytes) : bytes := frame_zstd (zstd_compress payload).

Definition encode_auto (payload : bytes) : bytes :=
  let compressed := zstd_compress payload in
  if (length compressed <? length payload)%nat then frame_zstd compressed
  else encode_uncompressed payload.

Definition decode (blob : bytes) : result PbsError bytes :=
  if (length blob <? HEADER_SIZE)%nat then
    Err (Protocol (L "blob is shorter than the 12 byte header"))
  else
    let magic := slice 0 8 blob in
    let crc_stored := le_value (slice 8 12 blob) in
    let payload := drop HEADER_SIZE blob in
    let crc_actual := crc32 payload in
    if negb (crc_actual =? crc_stored) then
      Err (Protocol (L "blob crc mismatch: stored " ++ hex32 crc_stored
                     ++ L ", computed " ++ hex32 crc_actual))
    else if bool_decide (magic = MAGIC_UNCOMPRESSED) then Ok payload
    else if bool_decide (magic = MAGIC_ZSTD) then zstd_decompress payload
    else if bool_decide (magic = MAGIC_ENCRYPTED)
            || bool_decide (magic = MAGIC_ENCRYPTED_ZSTD) then
      Err (Protocol (L "encrypted blob: a CryptConfig is required to decode it"))
    else Err (Protocol (L "unknown blob magic " ++ debug_bytes magic)).

End Blob.

(** ** Client-side encryption (crypt.rs) *)

Definition ENC_HEADER_SIZE : nat := 8 + 4 + 16 + 16.

Definition FINGERPRINT_INPUT : bytes := octets
  [110; 208; 239; 119; 71; 31; 255; 77; 85; 199; 168; 254; 74; 157; 182; 33; 97; 64; 127; 19;
   76; 114; 93; 223; 48; 153; 45; 37; 236; 69; 237; 38].

Record CryptConfig := { enc_key : bytes; id_key : bytes }.

(** [getrandom]: the outcome of filling a buffer is an argument. *)
Definition random_key (rnd : result str bytes) : result PbsError bytes :=
  map_err (fun e => Protocol (L "failed to generate a key: " ++ e)) rnd.

Section Crypt.
Context `{Crc32Lib} `{HashLib} `{ZstdLib} `{AeadLib} `{HexLib}.

Definition crypt_new (key : bytes) : CryptConfig :=
  {| enc_key := key; id_key := pbkdf2_hmac key (bstr "_id_key") 10 |}.

Definition crypt_key (c : CryptConfig) : bytes := enc_key c.

Definition compute_digest (c : CryptConfig) (data : bytes) : bytes := sha256 (data ++ id_key c).

Definition fingerprint (c : CryptConfig) : bytes := compute_digest c FINGERPRINT_INPUT.

Definition encrypt_with_magic (c : CryptConfig) (rnd : result str bytes)
    (payload magic : bytes) : result PbsError bytes :=
  iv ← map_err (fun e => Protocol (L "failed to generate an IV: " ++ e)) rnd;
  _ ← ensure (length (enc_key c) =? 32)%nat (Protocol (L "invalid encryption key length"));
  '(buffer, tag) ← ok_or (aead_encrypt (enc_key c) iv payload)
    (Protocol (L "encryption failed"));
  Ok (magic ++ le_bytes 4 (crc32 buffer) ++ iv ++ tag ++ buffer).

Definition encrypt_blob (c : CryptConfig) (rnd : result str bytes) (plaintext : bytes) :
    result PbsError bytes :=
  encrypt_with_magic c rnd plaintext MAGIC_ENCRYPTED.

Definition encrypt_compressed_blob (c : CryptConfig) (rnd : result str bytes)
    (plaintext : bytes) : result PbsError bytes :=
  let compressed := zstd_compress plaintext in
  if (length compressed <? length plaintext)%nat
  then encrypt_with_magic c rnd compressed MAGIC_ENCRYPTED_ZSTD
  else encrypt_with_magic c rnd plaintext MAGIC_ENCRYPTED.

Definition decrypt_blob (c : CryptConfig) (blob : bytes) : result PbsError bytes :=
  _ ← ensure (ENC_HEADER_SIZE <=? length blob)%nat
    (Protocol (L "encrypted blob shorter than its header"));
  let magic := slice 0 8 blob in
  compressed ←
    (if bool_decide (magic = MAGIC_ENCRYPTED) then Ok false
     else if bool_decide (magic = MAGIC_ENCRYPTED_ZSTD) then Ok true
     else Err (Protocol (L "blob is not an AES-256-GCM encrypted blob")));
  let crc_stored := le_value (slice 8 12 blob) in
  let iv := slice 12 28 blob in
  let tag := slice 28 44 blob in
  let ciphertext := drop ENC_HEADER_SIZE blob in
  let crc_actual := crc32 ciphertext in
  _ ← ensure (crc_actual =? crc_stored)
    (Protocol (L "encrypted blob crc mismatch: stored " ++ hex32 crc_stored
               ++ L ", computed " ++ hex32 crc_actual));
  _ ← ensure (length (enc_key c) =? 32)%nat (Protocol (L "invalid encryption key length"));
  buffer ← ok_or (aead_decrypt (enc_key c) iv ciphertext tag)
    (Protocol (L "decryption failed (wrong key or corrupt data)"));
  if (compressed : bool) then zstd_decompress buffer else Ok buffer.

(** ** Decoding a downloaded chunk (session.rs) *)

Definition chunk_digest (data : bytes) : bytes := sha256 data.

Definition decode_blob (raw : bytes) (crypt : option CryptConfig) : result PbsError bytes :=
  let is_encrypted := (8 <=? length raw)%nat
    && (bool_decide (slice 0 8 raw = MAGIC_ENCRYPTED)
        || bool_decide (slice 0 8 raw = MAGIC_ENCRYPTED_ZSTD)) in
  if is_encrypted then
    match crypt with
    | Some c => decrypt_blob c raw
    | None => Err (Protocol
        (L "this snapshot is encrypted but no encryption key was provided"))
    end
  else decode raw.

(** The digest of a chunk's plaintext, keyed when a key is in use; the writer
    ([backup_dynamic_reader]) and the reader compute it the same way. *)
Definition plain_digest (crypt : option CryptConfig) (data : bytes) : bytes :=
  match crypt with
  | Some c => compute_digest c data
  | None => chunk_digest data
  end.

Definition decode_and_verify_chunk (raw : bytes) (crypt : option CryptConfig)
    (expected : bytes) : result PbsError bytes :=
  data ← decode_blob raw crypt;
  let actual := plain_digest crypt data in
  if negb (bool_decide (actual = expected)) then
    Err (Protocol (L "chunk " ++ hex_encode expected
      ++ L " failed verification: its data does not match its digest (corrupt or tampered datastore)"))
  else Ok data.

End Crypt.

(** ** Lemmas *)

(** A blob of an unencrypted variant, from its parts. *)
Lemma frame_parts (magic payload : bytes) (crc : Z) :
  length magic = 8%nat ->
  let blob := magic ++ le_bytes 4 crc ++ payload in
  slice 0 8 blob = magic /\ slice 8 12 blob = le_bytes 4 crc
  /\ drop HEADER_SIZE blob = payload /\ length blob = (12 + length payload)%nat.
Proof.
  intros Hm blob. subst blob. repeat split.
  - apply (slice_app_mid 0 8 [] magic); [reflexivity | lia].
  - apply slice_app_mid; [exact Hm | apply length_le_bytes].
  - rewrite app_assoc. apply drop_app_length'. unfold HEADER_SIZE. len.
  - len.
Qed.

Section BlobLemmas.
Context `{Crc32Lib} `{ZstdLib}.

Lemma le_value_crc l : le_value (le_bytes 4 (crc32 l)) = crc32 l.
Proof. apply (le_value_bytes_u 4 32); [reflexivity | apply crc32fast_u32]. Qed.

Lemma decode_frame (magic payload : bytes) :
  length magic = 8%nat ->
  decode (magic ++ le_bytes 4 (crc32 payload) ++ payload) =
  if bool_decide (magic = MAGIC_UNCOMPRESSED) then Ok payload
  else if bool_decide (magic = MAGIC_ZSTD) then zstd_decompress payload
  else if bool_decide (magic = MAGIC_ENCRYPTED)
          || bool_decide (magic = MAGIC_ENCRYPTED_ZSTD) then
    Err (Protocol (L "encrypted blob: a CryptConfig is required to decode it"))
  else Err (Protocol (L "unknown blob magic " ++ debug_bytes magic)).
Proof.
  intros Hm. unfold decode.
  destruct (frame_parts magic payload (crc32 payload) Hm) as (-> & -> & -> & ->).
  rewrite le_value_crc, Z.eqb_refl. reflexivity.
Qed.

Lemma decode_uncompressed payload : decode (encode_uncompressed payload) = Ok payload.
Proof. unfold encode_uncompressed. rewrite decode_frame by reflexivity. reflexivity. Qed.

Lemma decode_zstd frame : decode (frame_zstd frame) = zstd_decompress frame.
Proof. unfold frame_zstd. rewrite decode_frame by reflexivity. reflexivity. Qed.

Lemma zstd_roundtrip `{!ZstdLaws} p : zstd_decompress (zstd_compress p) = Ok p.
Proof. unfold zstd_decompress, zstd_compress. rewrite zstd_inverse. reflexivity. Qed.

Lemma decode_auto `{!ZstdLaws} p : decode (encode_auto p) = Ok p.
Proof.
  unfold encode_auto. destruct (_ <? _)%nat.
  - rewrite decode_zstd. apply zstd_roundtrip.
  - apply decode_uncompressed.
Qed.

Lemma zstd_decompress_ok f p : zstd_decompress f = Ok p <-> zstd_read f = ZData p.
Proof. unfold zstd_decompress. destruct (zstd_read f); split; congruence. Qed.

End BlobLemmas.

(** The leading magic of a blob decides whether [decode_blob] needs a key. *)
Lemma encode_auto_magic `{Crc32Lib} `{ZstdLib} p :
  slice 0 8 (encode_auto p) = MAGIC_UNCOMPRESSED \/ slice 0 8 (encode_auto p) = MAGIC_ZSTD.
Proof.
  unfold encode_auto. destruct (_ <? _)%nat; [right | left];
    (apply (slice_app_mid 0 8 []); [reflexivity | reflexivity]).
Qed.

Lemma enc_frame_parts (magic iv tag buf : bytes) (crc : Z) :
  length magic = 8%nat -> length iv = 16%nat -> length tag = 16%nat ->
  let blob := magic ++ le_bytes 4 crc ++ iv ++ tag ++ buf in
  slice 0 8 blob = magic /\ slice 8 12 blob = le_bytes 4 crc /\ slice 12 28 blob = iv
  /\ slice 28 44 blob = tag /\ drop ENC_HEADER_SIZE blob = buf
  /\ (ENC_HEADER_SIZE <=? length blob)%nat = true.
Proof.
  intros Hm Hi Ht blob. subst blob. repeat split.
  - apply (slice_app_mid 0 8 [] magic); [reflexivity | lia].
  - apply slice_app_mid; [exact Hm | apply length_le_bytes].
  - rewrite app_assoc. apply slice_app_mid; len.
  - rewrite 2 app_assoc. apply slice_app_mid; len.
  - rewrite 3 app_assoc. apply drop_app_length'. unfold ENC_HEADER_SIZE. len.
  - apply Nat.leb_le. unfold ENC_HEADER_SIZE. len.
Qed.

Section CryptLemmas.
Context `{Crc32Lib} `{HashLib} `{ZstdLib} `{AeadLib} `{HexLib}.

(** What an encrypted blob decrypts to, with the key that made it. *)
Lemma decrypt_encrypt_with_magic `{!AeadLaws} c iv payload magic blob :
  length iv = 16%nat ->
  encrypt_with_magic c (Ok iv) payload magic = Ok blob ->
  decrypt_blob c blob =
    if bool_decide (magic = MAGIC_ENCRYPTED) then Ok payload
    else if bool_decide (magic = MAGIC_ENCRYPTED_ZSTD) then zstd_decompress payload
    else if (length magic =? 8)%nat
      then Err (Protocol (L "blob is not an AES-256-GCM encrypted blob"))
      else decrypt_blob c blob.
Proof.
  intros Hiv He. unfold encrypt_with_magic in He. cbn in He.
  destruct (length (enc_key c) =? 32)%nat eqn:Hk; [|discriminate]. cbn in He.
  destruct (aead_encrypt (enc_key c) iv payload) as [[buf tag]|] eqn:Ha; [|discriminate].
  cbn in He. inv_ok.
  assert (Ht := aead_tag_len _ _ _ _ _ Ha).
  destruct (Nat.eqb_spec (length magic) 8) as [Hm|Hm].
  2:{ rewrite !bool_decide_false by (intros ->; apply Hm; reflexivity). reflexivity. }
  unfold decrypt_blob.
  destruct (enc_frame_parts magic iv tag buf (crc32 buf) Hm Hiv Ht)
    as (-> & -> & -> & -> & -> & ->).
  rewrite le_value_crc, Z.eqb_refl, Hk, (aead_inverse _ _ _ _ _ Ha).
  destruct (bool_decide (magic = MAGIC_ENCRYPTED)); [reflexivity|].
  destruct (bool_decide (magic = MAGIC_ENCRYPTED_ZSTD)); reflexivity.
Qed.

Lemma decrypt_encrypt_compressed `{!AeadLaws} `{!ZstdLaws} c iv p blob :
  length iv = 16%nat ->
  encrypt_compressed_blob c (Ok iv) p = Ok blob -> decrypt_blob c blob = Ok p.
Proof.
  intros Hiv He. unfold encrypt_compressed_blob in He.
  destruct (_ <? _)%nat; rewrite (decrypt_encrypt_with_magic _ _ _ _ _ Hiv He).
  - apply zstd_roundtrip.
  - reflexivity.
Qed.

Lemma encrypt_with_magic_prefix c rnd p magic blob :
  length magic = 8%nat -> encrypt_with_magic c rnd p magic = Ok blob ->
  slice 0 8 blob = magic /\ (8 <= length blob)%nat.
Proof.
  intros Hm He. unfold encrypt_with_magic in He. inv_ok.
  match goal with H : (let '(_, _) := ?t in _) = _ |- _ => destruct t end. inv_ok.
  split; [apply (slice_app_mid 0 8 []); [reflexivity | lia] | len].
Qed.

(** A chunk accepted on restore has the digest it was fetched by. *)
Lemma verified_digest raw crypt expected data :
  decode_and_verify_chunk raw crypt expected = Ok data -> plain_digest crypt data = expected.
Proof.
  unfold decode_and_verify_chunk. intros Hd. inv_ok.
  destruct (bool_decide_reflect (plain_digest crypt x = expected)); cbn in *; [|discriminate].
  inv_ok. reflexivity.
Qed.

Lemma verify_ok raw crypt data :
  decode_blob raw crypt = Ok data ->
  decode_and_verify_chunk raw crypt (plain_digest crypt data) = Ok data.
Proof.
  intros Hd. unfold decode_and_verify_chunk. rewrite Hd. cbn.
  rewrite bool_decide_true by reflexivity. reflexivity.
Qed.

Lemma decode_blob_auto `{!ZstdLaws} p crypt : decode_blob (encode_auto p) crypt = Ok p.
Proof.
  unfold decode_blob.
  destruct (encode_auto_magic p) as [-> | ->];
    (replace (bool_decide _ || bool_decide _) with false by reflexivity);
    rewrite andb_false_r; apply decode_auto.
Qed.

Lemma decode_blob_encrypted `{!AeadLaws} `{!ZstdLaws} c iv p blob :
  length iv = 16%nat -> encrypt_compressed_blob c (Ok iv) p = Ok blob ->
  decode_blob blob (Some c) = Ok p.
Proof.
  intros Hiv He. unfold decode_blob.
  assert (Hp : (slice 0 8 blob = MAGIC_ENCRYPTED \/ slice 0 8 blob = MAGIC_ENCRYPTED_ZSTD)
               /\ (8 <= length blob)%nat).
  { unfold encrypt_compressed_blob in He.
    destruct (_ <? _)%nat; apply encrypt_with_magic_prefix in He as [-> ?]; auto. }
  destruct Hp as [Hp Hl]. apply Nat.leb_le in Hl. rewrite Hl. cbn [andb].
  replace (bool_decide _ || bool_decide _) with true
    by (destruct Hp as [-> | ->]; reflexivity).
  apply (decrypt_encrypt_compressed c iv p blob Hiv He).
Qed.

End CryptLemmas.

(** ** Properties *)

Section Properties.
Context `{Crc32Lib} `{HashLib} `{ZstdLib} `{AeadLib} `{HexLib}.

(** [decode] accepts exactly the well-formed unencrypted blobs: at least a
    header long, with the CRC of the bytes behind the header, and either the
    uncompressed magic with the payload as it is, or the zstd magic with a
    frame that decompresses to the payload. *)
Theorem decode_iff blob p :
  decode blob = Ok p <->
  (12 <= length blob)%nat /\ le_value (slice 8 12 blob) = crc32 (drop 12 blob) /\
  (slice 0 8 blob = MAGIC_UNCOMPRESSED /\ p = drop 12 blob
   \/ slice 0 8 blob = MAGIC_ZSTD /\ zstd_read (drop 12 blob) = ZData p).
Proof.
  unfold decode, HEADER_SIZE. destruct (Nat.ltb_spec (length blob) 12) as [Hl|Hl].
  { split; [discriminate | lia]. }
  destruct (Z.eqb_spec (crc32 (drop 12 blob)) (le_value (slice 8 12 blob))) as [Hc|Hc]; cbn [negb].
  2:{ split; [discriminate | intros (_ & E & _); congruence]. }
  case_bool_decide as Hu.
  { split; [intros; inv_ok; auto | intros (_ & _ & [[_ ->]|[E _]]); [reflexivity|]].
    rewrite Hu in E. discriminate E. }
  case_bool_decide as Hz.
  { rewrite zstd_decompress_ok. split; [auto | intros (_ & _ & [[E _]|[_ E]]); [|exact E]].
    contradiction. }
  destruct (_ || _); (split; [discriminate | intros (_ & _ & [[E _]|[E _]]); contradiction]).
Qed.

(** A payload framed by any of the encoders for unencrypted blobs decodes to
    itself. *)
Theorem blob_roundtrip `{!ZstdLaws} p :
  decode (encode_uncompressed p) = Ok p /\ decode (encode_compressed p) = Ok p
  /\ decode (encode_auto p) = Ok p.
Proof.
  unfold encode_compressed.
  rewrite decode_uncompressed, decode_zstd, zstd_roundtrip, decode_auto. auto.
Qed.

(** Compression never inflates a blob: [encode_auto] adds at most the 12
    byte header, and takes the zstd form only when that is strictly shorter. *)
Theorem encode_auto_bound p :
  length (encode_auto p) = (12 + Nat.min (length p) (length (zstd_compress p)))%nat
  /\ (slice 0 8 (encode_auto p) = MAGIC_ZSTD <->
      (length (zstd_compress p) < length p)%nat).
Proof.
  unfold encode_auto. destruct (Nat.ltb_spec (length (zstd_compress p)) (length p)) as [Hl|Hl].
  - destruct (frame_parts MAGIC_ZSTD (zstd_compress p) (crc32 (zstd_compress p)) eq_refl)
      as (E & _ & _ & EL). unfold frame_zstd. rewrite E, EL. split; [lia | tauto].
  - destruct (frame_parts MAGIC_UNCOMPRESSED p (crc32 p) eq_refl) as (E & _ & _ & EL).
    unfold encode_uncompressed. rewrite E, EL. split; [lia|].
    split; [discriminate | lia].
Qed.

(** With the key that encrypted it, an encrypted chunk (compressed or not)
    decodes to its plaintext; without a key it is refused. *)
Theorem encrypted_roundtrip `{!AeadLaws} `{!ZstdLaws} c iv p blob :
  length iv = 16%nat ->
  encrypt_compressed_blob c (Ok iv) p = Ok blob ->
  decode_blob blob (Some c) = Ok p
  /\ decode_blob blob None = Err (Protocol
       (L "this snapshot is encrypted but no encryption key was provided")).
Proof.
  intros Hiv He. split; [apply (decode_blob_encrypted c iv p blob Hiv He)|].
  assert (Hp : exists m, (m = MAGIC_ENCRYPTED \/ m = MAGIC_ENCRYPTED_ZSTD)
                         /\ slice 0 8 blob = m /\ (8 <= length blob)%nat).
  { unfold encrypt_compressed_blob in He.
    destruct (_ <? _)%nat; apply encrypt_with_magic_prefix in He; eauto. }
  destruct Hp as (m & Hm & Hs & Hl%Nat.leb_le). unfold decode_blob. rewrite Hl, Hs.
  destruct Hm as [-> | ->]; reflexivity.
Qed.

End Properties.

Import Sample.

Lemma blob_roundtrip_witness :
  let p := replicate 40 x61 in
  decode (encode_uncompressed p) = Ok p /\ decode (encode_compressed p) = Ok p
  /\ decode (encode_auto p) = Ok p.
Proof. apply (blob_roundtrip (replicate 40 x61)). Defined.

Lemma encrypted_roundtrip_witness :
  let c := @crypt_new Sample.hash (replicate 32 x07) in
  let blob := octets [230; 89; 27; 191; 11; 191; 216; 11; 204; 46; 142; 30;
                      9; 9; 9; 9; 9; 9; 9; 9; 9; 9; 9; 9; 9; 9; 9; 9;
                      9; 9; 9; 9; 9; 9; 9; 9; 9; 9; 9; 9; 9; 9; 9; 9; 8; 12; 104] in
  decode_blob blob (Some c) = Ok (replicate 5 x61)
  /\ decode_blob blob None = Err (Protocol
       (L "this snapshot is encrypted but no encryption key was provided")).
Proof.
  apply (encrypted_roundtrip _ (replicate 16 x09)); vm_compute; reflexivity.
Defined.

(** The CRC of the layout test of blob.rs. *)
Example known_layout_for_hello :
  encode_uncompressed (bstr "hello")
  = MAGIC_UNCOMPRESSED ++ le_bytes 4 0x3610a686 ++ bstr "hello".
Proof. vm_compute. reflexivity. Qed.
