(* ===== verification/Index.v ===== *)
(** Archive indexes and the manifest: [pbs-client/src/index.rs] and
    [pbs-client/src/manifest.rs].

    A [.fidx] or [.didx] file is a 4096-byte header (magic, uuid, creation time,
    index checksum, and for a fixed index the image and chunk sizes) followed by
    a flat array of entries.  [serialize] is modelled as the source writes it, a
    zeroed buffer filled by slice copies; [Fixed.fixed_serialize_layout] and
    [Dynamic.dyn_serialize_layout] show which bytes that gives.  The theorems:
    parsing undoes serializing and the parsed index passes its checksum, every
    parsed index is well formed, and a file that parses with a matching checksum
    and a zero reserved area is byte for byte what the builder would write. *)

From Stdlib Require Import ZArith Lia Strings.Byte Ascii String.
From stdpp Require Import base tactics option numbers list.
From S2P Require Import Prelude Text Base Blob.
Open Scope Z_scope.

Definition FIXED_MAGIC : bytes := octets [47; 127; 65; 237; 145; 253; 15; 205].
Definition DYNAMIC_MAGIC : bytes := octets [28; 145; 78; 165; 25; 186; 179; 205].
Definition HEADER_LEN : nat := Z.to_nat 4096.
Definition DIGEST_LEN : nat := 32.
Definition DEFAULT_CHUNK_SIZE : Z := 4096 * 1024.
Definition DYNAMIC_ENTRY_LEN : nat := 8 + DIGEST_LEN.

(** Copies [parts] one behind the other into [out], from [pos] on. *)
Fixpoint copy_all (pos w : nat) (parts : list bytes) (out : bytes) : bytes :=
  match parts with
  | [] => out
  | p :: ps => copy_all (pos + w) w ps (copy_at pos p out)
  end.

Lemma copy_at_seg {A} (l d m r : list A) (n : nat) :
  n = length l -> length d = length m -> copy_at n d (l ++ m ++ r) = l ++ d ++ r.
Proof.
  intros Hn Hd. rewrite copy_at_app by (try exact Hn; len).
  rewrite Hd, drop_app_length. reflexivity.
Qed.

Lemma copy_at_head {A} (d m r : list A) :
  length d = length m -> copy_at 0 d (m ++ r) = d ++ r.
Proof. intros Hd. apply (copy_at_seg [] d m r 0); [reflexivity | exact Hd]. Qed.

(** One more field copied behind the part [l ++ m] already filled in. *)
Ltac copy_field :=
  match goal with
  | |- context [copy_at ?n ?d (?l ++ ?m ++ ?q ++ ?r)] =>
      rewrite (app_assoc l m (q ++ r)), (copy_at_seg (l ++ m) d q r n) by len
  end.

Lemma copy_all_app (w : nat) (parts : list bytes) (l r : bytes) (pos : nat) :
  pos = length l -> Forall (fun p => length p = w) parts ->
  length r = (length parts * w)%nat ->
  copy_all pos w parts (l ++ r) = l ++ concat parts.
Proof.
  intros Hpos Hp. revert l r pos Hpos. induction Hp as [|p ps Hp _ IH]; intros l r pos Hpos Hr.
  - cbn in *. destruct r; [reflexivity | discriminate].
  - cbn [copy_all concat]. cbn [length] in Hr.
    rewrite copy_at_app by lia. rewrite app_assoc, IH.
    + rewrite <- app_assoc. reflexivity.
    + rewrite length_app. lia.
    + rewrite length_drop. lia.
Qed.

Lemma take_replicate_le {A} (n m : nat) (x : A) :
  (n <= m)%nat -> replicate m x = replicate n x ++ replicate (m - n) x.
Proof. intros. rewrite <- replicate_add. f_equal. lia. Qed.

(** The reserved bytes behind the fixed index's fields. *)
Definition RESERVED_LEN : nat := Z.to_nat 4016.

Lemma HEADER_LEN_eq : HEADER_LEN = (64 + (16 + RESERVED_LEN))%nat.
Proof. reflexivity. Qed.

#[global] Opaque HEADER_LEN RESERVED_LEN.

Lemma length_FIXED_MAGIC : length FIXED_MAGIC = 8%nat.
Proof. reflexivity. Qed.

Lemma length_DYNAMIC_MAGIC : length DYNAMIC_MAGIC = 8%nat.
Proof. reflexivity. Qed.

#[global] Hint Rewrite length_FIXED_MAGIC length_DYNAMIC_MAGIC : pbs_len.

(** The fields both header layouts share. *)
Lemma header_parts (m u t c r : bytes) :
  length m = 8%nat -> length u = 16%nat -> length t = 8%nat -> length c = 32%nat ->
  let l := m ++ u ++ t ++ c ++ r in
  slice 0 8 l = m /\ slice 8 24 l = u /\ slice 24 32 l = t /\ slice 32 64 l = c.
Proof.
  intros Hm Hu Ht Hc l. subst l. repeat split.
  - apply (slice_app_mid 0 8 []); [reflexivity | lia].
  - apply slice_app_mid; lia.
  - rewrite app_assoc. apply slice_app_mid; len.
  - rewrite 2 app_assoc. apply slice_app_mid; len.
Qed.

(** A header is the concatenation of its shared fields and the rest. *)
Lemma header_split (l : bytes) :
  (64 <= length l)%nat ->
  l = slice 0 8 l ++ slice 8 24 l ++ slice 24 32 l ++ slice 32 64 l ++ drop 64 l.
Proof.
  intros Hl. unfold slice. cbn [Nat.sub].
  rewrite drop_0, <- (take_drop 8 l) at 1. f_equal.
  rewrite <- (take_drop 16 (drop 8 l)) at 1. rewrite drop_drop. f_equal.
  rewrite <- (take_drop 8 (drop (8 + 16) l)) at 1. rewrite drop_drop. f_equal.
  rewrite <- (take_drop 32 (drop (8 + 16 + 8) l)) at 1. rewrite drop_drop. reflexivity.
Qed.

(** A slice of eight bytes is a [u64]. *)
Lemma u64_slice (a b : nat) (l : bytes) :
  b = (a + 8)%nat -> (b <= length l)%nat -> u_range 64 (le_value (slice a b l)).
Proof.
  intros -> Hl. replace 64 with (8 * Z.of_nat (length (slice a (a + 8) l)))
    by (rewrite length_slice; lia).
  apply le_value_range.
Qed.

Lemma le_bytes_slice (a b : nat) (l : bytes) :
  b = (a + 8)%nat -> (b <= length l)%nat -> le_bytes 8 (le_value (slice a b l)) = slice a b l.
Proof.
  intros -> Hl. rewrite <- (le_bytes_value (slice a (a + 8) l)) at 2.
  f_equal. rewrite length_slice; lia.
Qed.

(** ** Fixed indexes *)

Module Fixed.
Section Fixed.
Context `{HashLib}.

Record FixedIndexBuilder := {
  b_size : Z; b_chunk_size : Z; b_ctime : Z; b_uuid : bytes; b_digests : list bytes }.

Definition fixed_new (size chunk_size ctime : Z) (uuid : bytes) : FixedIndexBuilder :=
  {| b_size := size; b_chunk_size := chunk_size; b_ctime := ctime; b_uuid := uuid;
     b_digests := [] |}.

Definition push_digest (b : FixedIndexBuilder) (d : bytes) : FixedIndexBuilder :=
  {| b_size := b_size b; b_chunk_size := b_chunk_size b; b_ctime := b_ctime b;
     b_uuid := b_uuid b; b_digests := b_digests b ++ [d] |}.

Definition chunk_count (b : FixedIndexBuilder) : Z := Z.of_nat (length (b_digests b)).

Definition fixed_digests (b : FixedIndexBuilder) : list bytes := b_digests b.

(** [size.div_ceil(chunk_size)], which panics ([None]) on a zero chunk size. *)
Definition expected_chunk_count (b : FixedIndexBuilder) : option Z :=
  if b_chunk_size b =? 0 then None
  else Some (b_size b / b_chunk_size b
             + (if 0 <? b_size b mod b_chunk_size b then 1 else 0)).

Definition fixed_index_csum (b : FixedIndexBuilder) : bytes := sha256 (concat (b_digests b)).

Definition fixed_serialize (b : FixedIndexBuilder) : bytes :=
  let out := replicate (HEADER_LEN + length (b_digests b) * DIGEST_LEN) x00 in
  let out := copy_at 0 FIXED_MAGIC out in
  let out := copy_at 8 (b_uuid b) out in
  let out := copy_at 24 (le_bytes 8 (b_ctime b)) out in
  let out := copy_at 32 (fixed_index_csum b) out in
  let out := copy_at 64 (le_bytes 8 (b_size b)) out in
  let out := copy_at 72 (le_bytes 8 (b_chunk_size b)) out in
  copy_all HEADER_LEN DIGEST_LEN (b_digests b) out.

Record FixedIndex := {
  f_ctime : Z; f_uuid : bytes; f_size : Z; f_chunk_size : Z;
  f_index_csum : bytes; f_digests : list bytes }.

Definition fixed_parse (l : bytes) : result PbsError FixedIndex :=
  _ ← ensure (HEADER_LEN <=? length l)%nat
    (Protocol (L "fixed index shorter than its header"));
  _ ← ensure (bool_decide (slice 0 8 l = FIXED_MAGIC))
    (Protocol (L "not a fixed index (bad magic)"));
  let body := drop HEADER_LEN l in
  _ ← ensure (length body mod DIGEST_LEN =? 0)%nat
    (Protocol (L "fixed index body is not a whole number of fixed_digests"));
  Ok {| f_uuid := slice 8 24 l;
        f_ctime := signed 64 (le_value (slice 24 32 l));
        f_index_csum := slice 32 64 l;
        f_size := le_value (slice 64 72 l);
        f_chunk_size := le_value (slice 72 80 l);
        f_digests := chunks_exact DIGEST_LEN body |}.

Definition fixed_verify_csum (i : FixedIndex) : bool :=
  bool_decide (sha256 (concat (f_digests i)) = f_index_csum i).

(** The widths of the builder's fields. *)
Record fixed_builder_wf (b : FixedIndexBuilder) : Prop := {
  wf_uuid : length (b_uuid b) = 16%nat;
  wf_ctime : i_range 64 (b_ctime b);
  wf_size : u_range 64 (b_size b);
  wf_chunk_size : u_range 64 (b_chunk_size b);
  wf_digests : Forall (fun d => length d = DIGEST_LEN) (b_digests b) }.

Lemma fixed_serialize_layout b :
  length (b_uuid b) = 16%nat -> Forall (fun d => length d = DIGEST_LEN) (b_digests b) ->
  fixed_serialize b =
    FIXED_MAGIC ++ b_uuid b ++ le_bytes 8 (b_ctime b) ++ fixed_index_csum b
    ++ le_bytes 8 (b_size b) ++ le_bytes 8 (b_chunk_size b)
    ++ replicate RESERVED_LEN x00 ++ concat (b_digests b).
Proof.
  intros Hu Hd. unfold fixed_serialize. rewrite HEADER_LEN_eq.
  assert (Hc : length (fixed_index_csum b) = 32%nat) by apply sha256_len.
  set (n := (length (b_digests b) * DIGEST_LEN)%nat).
  replace (replicate (64 + (16 + RESERVED_LEN) + n) x00) with
    (replicate 8 x00 ++ replicate 16 x00 ++ replicate 8 x00 ++ replicate 32 x00
     ++ replicate 8 x00 ++ replicate 8 x00 ++ replicate RESERVED_LEN x00 ++ replicate n x00)
    by (rewrite <- !replicate_add; f_equal; lia).
  rewrite copy_at_head by reflexivity.
  rewrite (copy_at_seg FIXED_MAGIC) by (try reflexivity; len).
  do 4 copy_field.
  rewrite (app_assoc _ _ (_ ++ replicate n x00)).
  rewrite (app_assoc _ _ (replicate n x00)).
  rewrite copy_all_app by (try exact Hd; len).
  rewrite <- !app_assoc. reflexivity.
Qed.

(** The index a reader gets from what the builder wrote. *)
Definition fixed_of_builder (b : FixedIndexBuilder) : FixedIndex :=
  {| f_ctime := b_ctime b; f_uuid := b_uuid b; f_size := b_size b;
     f_chunk_size := b_chunk_size b; f_index_csum := fixed_index_csum b; f_digests := b_digests b |}.

Lemma fixed_parse_serialize b : fixed_builder_wf b -> fixed_parse (fixed_serialize b) = Ok (fixed_of_builder b).
Proof.
  intros [Hu Ht Hs Hk Hd]. rewrite fixed_serialize_layout by assumption.
  assert (Hc : length (fixed_index_csum b) = 32%nat) by apply sha256_len.
  set (r := le_bytes 8 (b_size b) ++ le_bytes 8 (b_chunk_size b)
            ++ replicate RESERVED_LEN x00 ++ concat (b_digests b)).
  destruct (header_parts FIXED_MAGIC (b_uuid b) (le_bytes 8 (b_ctime b)) (fixed_index_csum b) r)
    as (E1 & E2 & E3 & E4); [reflexivity | assumption | apply length_le_bytes | assumption |].
  set (l := FIXED_MAGIC ++ _) in *.
  assert (E5 : slice 64 72 l = le_bytes 8 (b_size b)).
  { subst l r. rewrite 3 app_assoc. apply slice_app_mid; len. }
  assert (E6 : slice 72 80 l = le_bytes 8 (b_chunk_size b)).
  { subst l r. rewrite 4 app_assoc. apply slice_app_mid; len. }
  assert (E7 : drop HEADER_LEN l = concat (b_digests b)).
  { subst l r. rewrite 6 app_assoc. apply drop_app_length'. rewrite HEADER_LEN_eq. len. }
  assert (Hl : (HEADER_LEN <=? length l)%nat = true).
  { apply Nat.leb_le. subst l r. rewrite HEADER_LEN_eq. len. }
  unfold fixed_parse. rewrite Hl, E1, E2, E3, E4, E5, E6, E7.
  rewrite bool_decide_true by reflexivity.
  rewrite (length_concat_uniform DIGEST_LEN) by exact Hd.
  rewrite Nat.Div0.mod_mul. cbn [ensure Nat.eqb mbind result_bind].
  rewrite signed_le_bytes_64, !(le_value_bytes_u 8 64) by (assumption || reflexivity).
  rewrite chunks_exact_concat by (try exact Hd; unfold DIGEST_LEN; lia). reflexivity.
Qed.

End Fixed.
End Fixed.

(** ** Dynamic indexes *)

Module Dynamic.
Section Dynamic.
Context `{HashLib}.

(** (cumulative end offset, digest) per chunk. *)
Abbreviation entry := (Z * bytes)%type.

Record DynamicIndexBuilder := { b_ctime : Z; b_uuid : bytes; b_entries : list entry }.

Definition dyn_new (ctime : Z) (uuid : bytes) : DynamicIndexBuilder :=
  {| b_ctime := ctime; b_uuid := uuid; b_entries := [] |}.

Definition push (b : DynamicIndexBuilder) (end_offset : Z) (digest : bytes) :
    DynamicIndexBuilder :=
  {| b_ctime := b_ctime b; b_uuid := b_uuid b;
     b_entries := b_entries b ++ [(end_offset, digest)] |}.

Definition entry_count (b : DynamicIndexBuilder) : Z := Z.of_nat (length (b_entries b)).

Definition last_end (es : list entry) : Z :=
  match last es with Some (e, _) => e | None => 0 end.

Definition b_total_size (b : DynamicIndexBuilder) : Z := last_end (b_entries b).

Definition entry_bytes (e : entry) : bytes := le_bytes 8 (e.1) ++ e.2.

Definition dyn_index_csum (b : DynamicIndexBuilder) : bytes :=
  sha256 (concat (map entry_bytes (b_entries b))).

Fixpoint write_entries (pos : nat) (es : list entry) (out : bytes) : bytes :=
  match es with
  | [] => out
  | (e, digest) :: es' =>
      let out := copy_at pos (le_bytes 8 e) out in
      let out := copy_at (pos + 8) digest out in
      write_entries (pos + DYNAMIC_ENTRY_LEN) es' out
  end.

Definition dyn_serialize (b : DynamicIndexBuilder) : bytes :=
  let out := replicate (HEADER_LEN + length (b_entries b) * DYNAMIC_ENTRY_LEN) x00 in
  let out := copy_at 0 DYNAMIC_MAGIC out in
  let out := copy_at 8 (b_uuid b) out in
  let out := copy_at 24 (le_bytes 8 (b_ctime b)) out in
  let out := copy_at 32 (dyn_index_csum b) out in
  write_entries HEADER_LEN (b_entries b) out.

Record DynamicIndex := {
  ctime : Z; uuid : bytes; csum : bytes; entries : list entry }.

Definition parse_entry (e : bytes) : entry :=
  (le_value (slice 0 8 e), slice 8 DYNAMIC_ENTRY_LEN e).

Definition dyn_parse (l : bytes) : result PbsError DynamicIndex :=
  _ ← ensure (HEADER_LEN <=? length l)%nat
    (Protocol (L "dynamic index shorter than its header"));
  _ ← ensure (bool_decide (slice 0 8 l = DYNAMIC_MAGIC))
    (Protocol (L "not a dynamic index (bad magic)"));
  let body := drop HEADER_LEN l in
  _ ← ensure (length body mod DYNAMIC_ENTRY_LEN =? 0)%nat
    (Protocol (L "dynamic index body is not a whole number of entries"));
  Ok {| uuid := slice 8 24 l;
        ctime := signed 64 (le_value (slice 24 32 l));
        csum := slice 32 64 l;
        entries := map parse_entry (chunks_exact DYNAMIC_ENTRY_LEN body) |}.

Definition dyn_digests (i : DynamicIndex) : list bytes := map snd (entries i).

Definition total_size (i : DynamicIndex) : Z := last_end (entries i).

Definition dyn_verify_csum (i : DynamicIndex) : bool :=
  bool_decide (sha256 (concat (map entry_bytes (entries i))) = csum i).

(** *** Lemmas *)

Definition entry_wf (e : entry) : Prop := u_range 64 (e.1) /\ length (e.2) = DIGEST_LEN.

Record dyn_builder_wf (b : DynamicIndexBuilder) : Prop := {
  wf_uuid : length (b_uuid b) = 16%nat;
  wf_ctime : i_range 64 (b_ctime b);
  wf_entries : Forall entry_wf (b_entries b) }.

Lemma length_entry_bytes e : entry_wf e -> length (entry_bytes e) = DYNAMIC_ENTRY_LEN.
Proof. intros [_ Hd]. unfold entry_bytes, DYNAMIC_ENTRY_LEN. len. Qed.

Lemma entry_bytes_uniform es :
  Forall entry_wf es -> Forall (fun c => length c = DYNAMIC_ENTRY_LEN) (map entry_bytes es).
Proof. intros Hw. apply Forall_map. eapply Forall_impl; [exact Hw|]. apply length_entry_bytes. Qed.

Lemma parse_entry_bytes e : entry_wf e -> parse_entry (entry_bytes e) = e.
Proof.
  destruct e as [o d]. intros [Ho Hd]. unfold parse_entry, entry_bytes. cbn in *.
  assert (slice 0 8 (le_bytes 8 o ++ d) = le_bytes 8 o) as ->
    by (apply (slice_app_mid 0 8 []); reflexivity).
  rewrite (le_value_bytes_u 8 64) by (reflexivity || assumption).
  rewrite <- (app_nil_r d) at 1. rewrite slice_app_mid by (unfold DYNAMIC_ENTRY_LEN; len).
  reflexivity.
Qed.

Lemma entry_bytes_parse c : length c = DYNAMIC_ENTRY_LEN -> entry_bytes (parse_entry c) = c.
Proof.
  intros Hc. unfold entry_bytes, parse_entry, slice. cbn [fst snd].
  rewrite drop_0, Nat.sub_0_r.
  rewrite <- (firstn_length_le c (n := 8)) at 1 by (unfold DYNAMIC_ENTRY_LEN, DIGEST_LEN in Hc; lia).
  rewrite le_bytes_value.
  rewrite (take_ge (drop 8 c)) by (rewrite length_drop; lia). apply take_drop.
Qed.

Lemma parse_entry_wf c : length c = DYNAMIC_ENTRY_LEN -> entry_wf (parse_entry c).
Proof.
  intros Hc. unfold DYNAMIC_ENTRY_LEN, DIGEST_LEN in *.
  split; cbn; [|apply length_slice; unfold DYNAMIC_ENTRY_LEN, DIGEST_LEN; lia].
  apply u64_slice; lia.
Qed.

Lemma write_entries_app (es : list entry) (l r : bytes) (pos : nat) :
  pos = length l -> Forall entry_wf es ->
  length r = (length es * DYNAMIC_ENTRY_LEN)%nat ->
  write_entries pos es (l ++ r) = l ++ concat (map entry_bytes es).
Proof.
  intros Hpos Hw. revert l r pos Hpos.
  induction Hw as [|[o d] es [_ Hd] _ IH]; intros l r pos Hpos Hr.
  - cbn in *. destruct r; [reflexivity | discriminate].
  - cbn [write_entries map concat]. cbn [length] in Hr. cbn in Hd.
    unfold DYNAMIC_ENTRY_LEN in Hr.
    rewrite copy_at_app by len.
    rewrite app_assoc, copy_at_app by len. rewrite drop_drop.
    rewrite (app_assoc _ d), IH by (unfold DYNAMIC_ENTRY_LEN; len).
    unfold entry_bytes. cbn [fst snd]. rewrite <- !app_assoc. reflexivity.
Qed.

Lemma dyn_serialize_layout b :
  length (b_uuid b) = 16%nat -> Forall entry_wf (b_entries b) ->
  dyn_serialize b =
    DYNAMIC_MAGIC ++ b_uuid b ++ le_bytes 8 (b_ctime b) ++ dyn_index_csum b
    ++ replicate (16 + RESERVED_LEN) x00 ++ concat (map entry_bytes (b_entries b)).
Proof.
  intros Hu Hd. unfold dyn_serialize. rewrite HEADER_LEN_eq.
  assert (Hc : length (dyn_index_csum b) = 32%nat) by apply sha256_len.
  set (n := (length (b_entries b) * DYNAMIC_ENTRY_LEN)%nat).
  set (z := (16 + RESERVED_LEN)%nat).
  replace (replicate (64 + z + n) x00) with
    (replicate 8 x00 ++ replicate 16 x00 ++ replicate 8 x00 ++ replicate 32 x00
     ++ replicate z x00 ++ replicate n x00)
    by (rewrite <- !replicate_add; f_equal; lia).
  rewrite copy_at_head by reflexivity.
  rewrite (copy_at_seg DYNAMIC_MAGIC) by (try reflexivity; len).
  do 2 copy_field.
  rewrite (app_assoc _ _ (_ ++ replicate n x00)), (app_assoc _ _ (replicate n x00)).
  rewrite write_entries_app by (try exact Hd; len).
  rewrite <- !app_assoc. reflexivity.
Qed.

(** The index a reader gets from what the builder wrote. *)
Definition dyn_of_builder (b : DynamicIndexBuilder) : DynamicIndex :=
  {| ctime := b_ctime b; uuid := b_uuid b; csum := dyn_index_csum b; entries := b_entries b |}.

Lemma dyn_parse_serialize b : dyn_builder_wf b -> dyn_parse (dyn_serialize b) = Ok (dyn_of_builder b).
Proof.
  intros [Hu Ht Hd]. rewrite dyn_serialize_layout by assumption.
  assert (Hc : length (dyn_index_csum b) = 32%nat) by apply sha256_len.
  set (r := replicate (16 + RESERVED_LEN) x00 ++ concat (map entry_bytes (b_entries b))).
  destruct (header_parts DYNAMIC_MAGIC (b_uuid b) (le_bytes 8 (b_ctime b)) (dyn_index_csum b) r)
    as (E1 & E2 & E3 & E4); [reflexivity | assumption | apply length_le_bytes | assumption |].
  set (l := DYNAMIC_MAGIC ++ _) in *.
  assert (E7 : drop HEADER_LEN l = concat (map entry_bytes (b_entries b))).
  { subst l r. rewrite 4 app_assoc. apply drop_app_length'. rewrite HEADER_LEN_eq. len. }
  assert (Hl : (HEADER_LEN <=? length l)%nat = true).
  { apply Nat.leb_le. subst l r. rewrite HEADER_LEN_eq. len. }
  assert (Hun := entry_bytes_uniform _ Hd).
  unfold dyn_parse. rewrite Hl, E1, E2, E3, E4, E7.
  rewrite bool_decide_true by reflexivity.
  rewrite (length_concat_uniform DYNAMIC_ENTRY_LEN) by exact Hun.
  rewrite Nat.Div0.mod_mul. cbn [ensure Nat.eqb mbind result_bind].
  rewrite signed_le_bytes_64 by assumption.
  rewrite chunks_exact_concat by (try exact Hun; unfold DYNAMIC_ENTRY_LEN; lia).
  rewrite map_map. unfold dyn_of_builder. do 2 f_equal.
  rewrite <- (map_id (b_entries b)) at 2. apply map_ext_Forall.
  eapply Forall_impl; [exact Hd|]. apply parse_entry_bytes.
Qed.

Lemma verify_of_builder b : dyn_verify_csum (dyn_of_builder b) = true.
Proof. apply bool_decide_true. reflexivity. Qed.

Definition to_builder (i : DynamicIndex) : DynamicIndexBuilder :=
  {| b_ctime := ctime i; b_uuid := uuid i; b_entries := entries i |}.

Lemma parse_wf l i : dyn_parse l = Ok i -> dyn_builder_wf (to_builder i) /\ length (csum i) = 32%nat.
Proof.
  unfold dyn_parse. intros Hp. inv_ok. apply Nat.leb_le in H0. rewrite HEADER_LEN_eq in H0.
  cbn. split; [split; cbn|].
  - apply length_slice; lia.
  - apply signed_range_64.
    apply u64_slice; lia.
  - apply Forall_map. eapply Forall_impl; [apply chunks_exact_uniform|]. apply parse_entry_wf.
  - apply length_slice; lia.
Qed.

(** A file that parses, passes its checksum and has a zero reserved area is
    what the builder writes for the parsed entries. *)
Lemma serialize_parse l i :
  dyn_parse l = Ok i -> dyn_verify_csum i = true ->
  slice 64 HEADER_LEN l = replicate (HEADER_LEN - 64) x00 ->
  dyn_serialize (to_builder i) = l.
Proof.
  intros Hp Hv Hz. destruct (parse_wf l i Hp) as [[Hu Ht Hd] _].
  rewrite dyn_serialize_layout by assumption. apply bool_decide_eq_true in Hv.
  unfold dyn_parse in Hp. inv_ok. cbn [entries csum uuid ctime] in *.
  apply Nat.leb_le in H0. apply bool_decide_eq_true in H1. apply Nat.eqb_eq in H2.
  unfold dyn_index_csum, to_builder. cbn [b_entries b_uuid b_ctime entries uuid ctime].
  rewrite Hv, <- H1.
  rewrite le_bytes_signed_64, le_bytes_slice
    by (rewrite HEADER_LEN_eq in H0; try apply u64_slice; lia).
  rewrite map_map, (map_ext_Forall _ id), map_id, concat_chunks_exact; cycle 1.
  { unfold DYNAMIC_ENTRY_LEN. lia. }
  { exact H2. }
  { eapply Forall_impl; [apply chunks_exact_uniform|]. apply entry_bytes_parse. }
  rewrite HEADER_LEN_eq in *.
  etransitivity; [|symmetry; apply header_split; lia]. do 4 f_equal.
  rewrite <- (take_drop (16 + RESERVED_LEN) (drop 64 l)), drop_drop. f_equal.
  unfold slice in Hz. symmetry. replace (64 + (16 + RESERVED_LEN) - 64)%nat
    with (16 + RESERVED_LEN)%nat in Hz by lia. exact Hz.
Qed.

End Dynamic.
End Dynamic.

(** ** The manifest (manifest.rs) *)

Definition MANIFEST_BLOB_NAME : str := L "index.json.blob".

Section Manifest.
Context `{HexLib}.

Record FileEntry := { filename : str; crypt_mode : str; fe_size : Z; fe_csum : str }.

Definition file_entry_new (name : str) (size : Z) (index_csum : bytes) : FileEntry :=
  {| filename := name; crypt_mode := L "none"; fe_size := size; fe_csum := hex_encode index_csum |}.

Definition fixed_image (name : str) (size : Z) (index_csum : bytes) : FileEntry :=
  file_entry_new name size index_csum.

Definition with_crypt (name : str) (size : Z) (index_csum : bytes) (encrypted : bool) :
    FileEntry :=
  {| filename := name; crypt_mode := if encrypted then L "encrypt" else L "none";
     fe_size := size; fe_csum := hex_encode index_csum |}.

End Manifest.

(** [unprotected] is always the empty object here. *)
Record BackupManifest := {
  backup_type : str; backup_id : str; backup_time : Z; files : list FileEntry }.

Definition manifest_new (btype bid : str) (btime : Z) (fs : list FileEntry) : BackupManifest :=
  {| backup_type := btype; backup_id := bid; backup_time := btime; files := fs |}.

(** [serde_json]: the JSON bytes of a manifest. *)
Class ManifestJson := to_json_bytes : BackupManifest -> result str bytes.

(** ** Properties *)

Section Properties.
Context `{HashLib}.

(** A serialized fixed index parses back to the builder's fields, its
    checksum verifies, and the file is the header plus 32 bytes per chunk. *)
Theorem fixed_index_roundtrip b :
  Fixed.fixed_builder_wf b ->
  Fixed.fixed_parse (Fixed.fixed_serialize b) = Ok (Fixed.fixed_of_builder b)
  /\ Fixed.fixed_verify_csum (Fixed.fixed_of_builder b) = true
  /\ length (Fixed.fixed_serialize b) = (HEADER_LEN + 32 * length (Fixed.b_digests b))%nat.
Proof.
  intros Hb. split; [apply Fixed.fixed_parse_serialize, Hb|].
  split; [apply bool_decide_true; reflexivity|]. destruct Hb as [Hu _ _ _ Hd].
  rewrite Fixed.fixed_serialize_layout, HEADER_LEN_eq by assumption.
  autorewrite with pbs_len. rewrite (length_concat_uniform DIGEST_LEN) by exact Hd.
  assert (Hc : length (Fixed.fixed_index_csum b) = 32%nat) by apply sha256_len.
  unfold DIGEST_LEN. lia.
Qed.

(** A serialized dynamic index parses back to the builder's entries (end
    offsets and digests, in order), its checksum verifies and the total size is
    the last end offset. *)
Theorem dynamic_index_roundtrip b :
  Dynamic.dyn_builder_wf b ->
  exists i, Dynamic.dyn_parse (Dynamic.dyn_serialize b) = Ok i
    /\ Dynamic.entries i = Dynamic.b_entries b /\ Dynamic.ctime i = Dynamic.b_ctime b
    /\ Dynamic.uuid i = Dynamic.b_uuid b /\ Dynamic.csum i = Dynamic.dyn_index_csum b
    /\ Dynamic.dyn_verify_csum i = true
    /\ Dynamic.total_size i = Dynamic.b_total_size b.
Proof.
  intros Hb. exists (Dynamic.dyn_of_builder b).
  split; [apply Dynamic.dyn_parse_serialize, Hb|].
  do 4 (split; [reflexivity|]). split; [apply Dynamic.verify_of_builder | reflexivity].
Qed.

(** Parsing a dynamic index loses nothing: a file that parses with a
    matching checksum and a zero reserved area is, byte for byte, the
    serialization of the entries it parsed to. *)
Theorem dynamic_index_canonical l i :
  Dynamic.dyn_parse l = Ok i -> Dynamic.dyn_verify_csum i = true ->
  slice 64 HEADER_LEN l = replicate (HEADER_LEN - 64) x00 ->
  Dynamic.dyn_serialize (Dynamic.to_builder i) = l /\ Dynamic.dyn_builder_wf (Dynamic.to_builder i).
Proof.
  intros Hp Hv Hz. split; [apply Dynamic.serialize_parse; assumption|].
  apply (Dynamic.parse_wf l i Hp).
Qed.

End Properties.

Import Sample.

Definition sample_fixed : Fixed.FixedIndexBuilder :=
  Fixed.push_digest (Fixed.push_digest
    (Fixed.fixed_new 5000000 DEFAULT_CHUNK_SIZE (-7) (replicate 16 x11))
    (replicate 32 xaa)) (replicate 32 xbb).

Definition sample_dynamic : Dynamic.DynamicIndexBuilder :=
  Dynamic.push (Dynamic.push (Dynamic.dyn_new 1700000000 (replicate 16 x22))
    100 (replicate 32 x01)) 350 (replicate 32 x02).

Lemma sample_dynamic_wf : Dynamic.dyn_builder_wf sample_dynamic.
Proof.
  split; [reflexivity | range |].
  do 2 (apply Forall_cons_2; [split; [range | reflexivity]|]). apply Forall_nil_2.
Qed.

Lemma fixed_index_roundtrip_witness :
  Fixed.fixed_parse (Fixed.fixed_serialize sample_fixed) = Ok (Fixed.fixed_of_builder sample_fixed)
  /\ Fixed.fixed_verify_csum (Fixed.fixed_of_builder sample_fixed) = true
  /\ length (Fixed.fixed_serialize sample_fixed) = (HEADER_LEN + 32 * 2)%nat.
Proof.
  apply (fixed_index_roundtrip sample_fixed).
  split; [reflexivity | range | range | range | repeat constructor].
Defined.

Lemma dynamic_index_roundtrip_witness :
  exists i, Dynamic.dyn_parse (Dynamic.dyn_serialize sample_dynamic) = Ok i
    /\ Dynamic.entries i = [(100, replicate 32 x01); (350, replicate 32 x02)]
    /\ Dynamic.ctime i = 1700000000 /\ Dynamic.uuid i = replicate 16 x22
    /\ Dynamic.csum i = Dynamic.dyn_index_csum sample_dynamic
    /\ Dynamic.dyn_verify_csum i = true /\ Dynamic.total_size i = 350.
Proof. exact (dynamic_index_roundtrip sample_dynamic sample_dynamic_wf). Defined.

Lemma dynamic_index_canonical_witness :
  let l := Dynamic.dyn_serialize sample_dynamic in
  Dynamic.dyn_serialize (Dynamic.to_builder (Dynamic.dyn_of_builder sample_dynamic)) = l
  /\ Dynamic.dyn_builder_wf (Dynamic.to_builder (Dynamic.dyn_of_builder sample_dynamic)).
Proof.
  apply dynamic_index_canonical.
  - apply Dynamic.dyn_parse_serialize, sample_dynamic_wf.
  - apply Dynamic.verify_of_builder.
  - vm_compute. reflexivity.
Defined.
