(* ===== verification/Repository.v ===== *)
(** Repository strings: [pbs-client/src/repository.rs].

    [[auth-id@]host[:port]:]datastore[/namespace], parsed by [from_str] and
    printed by [display].  The main theorem is that printing is a normal form:
    whatever string parses, printing the result and parsing it again gives the
    same repository.  Its proof goes through [host_part_wf], what
    [parse_host_part] guarantees of its three fields, and which alone makes the
    printed host part parse back. *)

From Stdlib Require Import ZArith Lia Strings.Byte Ascii String.
From stdpp Require Import base tactics option numbers list.
From S2P Require Import Prelude Text Base.
Open Scope Z_scope.

Definition DEFAULT_PORT : Z := 8007.

Record Repository := {
  auth_id : option str; host : option str; port : option Z;
  datastore : str; namespace : option str }.

Definition repo_port (r : Repository) : Z := default DEFAULT_PORT (port r).

(** [format!("{s:?}")] of a string, which only error messages use. *)
Class DebugFmt := debug_str : str -> str.

Abbreviation AT := 64.
Abbreviation COLON := 58.
Abbreviation SLASH := 47.
Abbreviation LBRACKET := 91.
Abbreviation RBRACKET := 93.

Section Parse.
Context `{DebugFmt}.

Definition parse_port (s ctx : str) : result PbsError Z :=
  ok_or (parse_uint 16 s)
    (InvalidRepository (L "invalid port " ++ debug_str s ++ L " in " ++ debug_str ctx)).

Definition split_port_datastore (tail ctx : str) : result PbsError (option Z * str) :=
  match split_once COLON tail with
  | Some (port, ds) => p ← parse_port port ctx; Ok (Some p, ds)
  | None => Ok (None, tail)
  end.

Definition parse_host_part (rest : str) : result PbsError (option str * option Z * str) :=
  match strip_prefix [LBRACKET] rest with
  | Some after_bracket =>
      close ← ok_or (find_char RBRACKET after_bracket)
        (InvalidRepository (L "unclosed '[' in " ++ debug_str rest));
      let h := take close after_bracket in
      tl ← ok_or (strip_prefix [COLON] (drop (S close) after_bracket))
        (InvalidRepository (L "expected ':' after ']' in " ++ debug_str rest));
      '(p, ds) ← split_port_datastore tl rest;
      Ok (Some (LBRACKET :: h ++ [RBRACKET]), p, ds)
  | None =>
      match split_char COLON rest with
      | [ds] => Ok (None, None, ds)
      | [h; ds] => Ok (Some h, None, ds)
      | [h; p; ds] => p ← parse_port p rest; Ok (Some h, Some p, ds)
      | _ => Err (InvalidRepository
                    (L "too many ':' separated fields in " ++ debug_str rest))
      end
  end.

(** Splitting the namespace off the datastore field. *)
Definition split_namespace (store_and_ns : str) : str * option str :=
  match split_once SLASH store_and_ns with
  | Some (ds, ns) => if is_empty ns then (store_and_ns, None) else (ds, Some ns)
  | None => (store_and_ns, None)
  end.

Definition from_str (s0 : str) : result PbsError Repository :=
  let s := trim s0 in
  _ ← ensure (negb (is_empty s)) (InvalidRepository (L "empty string"));
  let '(auth, rest) :=
    match rsplit_once AT s with
    | Some (a, rest) => (Some a, rest)
    | None => (None, s)
    end in
  '(h, p, store_and_ns) ← parse_host_part rest;
  let '(ds, ns) := split_namespace store_and_ns in
  _ ← ensure (negb (is_empty ds))
    (InvalidRepository (L "missing datastore in " ++ debug_str s));
  Ok {| auth_id := auth; host := h; port := p; datastore := ds; namespace := ns |}.

End Parse.

Definition show_host (h : option str) (p : option Z) : str :=
  match h with
  | Some h => h ++ match p with Some p => COLON :: dec p | None => [] end ++ [COLON]
  | None => []
  end.

Definition show_store (ds : str) (ns : option str) : str :=
  ds ++ match ns with Some n => SLASH :: n | None => [] end.

(** [impl Display]. *)
Definition display (r : Repository) : str :=
  match auth_id r with Some a => a ++ [AT] | None => [] end
  ++ show_host (host r) (port r) ++ show_store (datastore r) (namespace r).

(** ** Lemmas on splitting *)

Lemma strip_prefix1 c s : strip_prefix [c] s =
  match s with d :: s' => if c =? d then Some s' else None | [] => None end.
Proof. destruct s; reflexivity. Qed.

Lemma split_char_spec c s :
  (split_char c s = [s] /\ has_char c s = false)
  \/ exists a b, s = a ++ c :: b /\ has_char c a = false /\ split_char c s = a :: split_char c b.
Proof.
  destruct (split_once c s) as [[a b]|] eqn:E.
  - apply split_once_some in E as [-> Ha]. right. exists a, b.
    rewrite split_char_at by exact Ha. auto.
  - apply split_once_none_inv in E. left. rewrite split_char_none by exact E. auto.
Qed.

Lemma split_char_nonempty c s : split_char c s <> [].
Proof. destruct (split_char_spec c s) as [[-> _]|(a & b & _ & _ & ->)]; discriminate. Qed.

(** What one, two and three fields mean of the string. *)
Lemma split_char_1 c s a : split_char c s = [a] -> s = a /\ has_char c a = false.
Proof.
  destruct (split_char_spec c s) as [[-> Hn]|(x & b & -> & Hx & ->)].
  - intros [= ->]. auto.
  - intros [= _ E]. destruct (split_char_nonempty c b E).
Qed.

Lemma split_char_cons c s a p ps :
  split_char c s = a :: p :: ps ->
  exists b, s = a ++ c :: b /\ has_char c a = false /\ split_char c b = p :: ps.
Proof.
  destruct (split_char_spec c s) as [[-> Hn]|(x & b & -> & Hx & ->)]; [discriminate|].
  intros [= -> E]. eauto.
Qed.

(** ** The host part *)

Section HostPart.
Context `{DebugFmt}.

(** What [parse_host_part] guarantees: no host, then no colon in the store and
    no leading bracket; a bracketed host; or a plain host without colons. *)
Inductive host_part_wf : option str -> option Z -> str -> Prop :=
| wf_local ds :
    has_char COLON ds = false -> hd_error ds <> Some LBRACKET -> host_part_wf None None ds
| wf_bracket h p ds :
    has_char RBRACKET h = false ->
    match p with Some n => u_range 16 n | None => has_char COLON ds = false end ->
    host_part_wf (Some (LBRACKET :: h ++ [RBRACKET])) p ds
| wf_plain h p ds :
    has_char COLON h = false -> hd_error h <> Some LBRACKET ->
    has_char COLON ds = false -> (forall n, p = Some n -> u_range 16 n) ->
    host_part_wf (Some h) p ds.

Lemma parse_port_dec n ctx : u_range 16 n -> parse_port (dec n) ctx = Ok n.
Proof. intros Hn. unfold parse_port. rewrite parse_uint_dec by exact Hn. reflexivity. Qed.

Lemma parse_port_range s ctx n : parse_port s ctx = Ok n -> u_range 16 n.
Proof. unfold parse_port. intros E. inv_ok. eapply parse_uint_range; eassumption. Qed.

Lemma dec_no_colon n : u_range 16 n -> has_char COLON (dec n) = false.
Proof. intros [Hn _]. apply digits_no_char; [reflexivity | apply dec_all_digits, Hn]. Qed.

Lemma split_port_datastore_show p ds :
  match p with Some n => u_range 16 n | None => has_char COLON ds = false end -> forall ctx,
  split_port_datastore (match p with Some n => dec n ++ [COLON] | None => [] end ++ ds) ctx
  = Ok (p, ds).
Proof.
  intros Hp ctx. unfold split_port_datastore. destruct p as [n|]; cbn [app].
  - rewrite <- app_assoc. cbn [app]. rewrite split_once_at by (apply dec_no_colon, Hp).
    rewrite parse_port_dec by exact Hp. reflexivity.
  - rewrite split_once_none by exact Hp. reflexivity.
Qed.

Lemma strip_bracket_none s : hd_error s <> Some LBRACKET -> strip_prefix [LBRACKET] s = None.
Proof.
  rewrite strip_prefix1. destruct s as [|d s]; [reflexivity|]. intros Hd.
  destruct (Z.eqb_spec LBRACKET d) as [<-|]; [|reflexivity]. destruct (Hd eq_refl).
Qed.

Lemma hd_app_colon (h s : str) : hd_error h <> Some LBRACKET -> hd_error (h ++ COLON :: s) <> Some LBRACKET.
Proof. destruct h; cbn; [discriminate | auto]. Qed.

Lemma drop_S_app {A} (h x : list A) c : drop (S (length h)) (h ++ c :: x) = x.
Proof. induction h; [reflexivity | assumption]. Qed.

(** The printed host part parses back. *)
Lemma parse_show_host h p ds :
  host_part_wf h p ds -> parse_host_part (show_host h p ++ ds) = Ok (h, p, ds).
Proof.
  intros Hw. unfold parse_host_part. destruct Hw as [ds Hc Hb | h p ds Hr Hp | h p ds Hh Hb Hc Hp].
  - cbn [show_host app]. rewrite strip_bracket_none, split_char_none by assumption. reflexivity.
  - rewrite strip_prefix1. cbn [show_host app].
    replace (LBRACKET =? LBRACKET) with true by reflexivity.
    rewrite <- !app_assoc. cbn [app].
    rewrite find_char_at by exact Hr. cbn [ok_or mbind result_bind].
    rewrite take_app_length.
    rewrite drop_S_app, strip_prefix1.
    pose proof (split_port_datastore_show p ds) as Hs.
    destruct p as [n|]; cbn [app ok_or mbind result_bind];
      (replace (COLON =? COLON) with true by reflexivity); cbn [ok_or mbind result_bind].
    + cbn [app] in Hs. rewrite <- app_assoc in Hs. rewrite Hs by exact Hp. reflexivity.
    + rewrite Hs by exact Hp. reflexivity.
  - destruct p as [n|]; cbn [show_host]; rewrite <- !app_assoc; cbn [app].
    + rewrite strip_bracket_none by (apply hd_app_colon, Hb).
      rewrite !split_char_at, split_char_none by (try assumption; apply dec_no_colon; auto).
      rewrite parse_port_dec by auto. reflexivity.
    + rewrite strip_bracket_none by (apply hd_app_colon, Hb).
      rewrite split_char_at, split_char_none by assumption. reflexivity.
Qed.

Lemma strip_prefix1_some c s t : strip_prefix [c] s = Some t -> s = c :: t.
Proof.
  rewrite strip_prefix1. destruct s as [|d s]; [discriminate|].
  destruct (Z.eqb_spec c d); congruence.
Qed.

Lemma find_char_some c s k : find_char c s = Some k ->
  s = take k s ++ c :: drop (S k) s /\ has_char c (take k s) = false.
Proof.
  revert k; induction s as [|d s IH]; cbn; intros k E; [discriminate|].
  destruct (Z.eqb_spec d c) as [->|Hd]; [injection E as <-; auto|].
  destruct (find_char c s) as [k'|]; [|discriminate]. injection E as <-. cbn.
  destruct (IH k' eq_refl) as [Es Hn]. split; [congruence|].
  rewrite has_char_cons, Hn. apply orb_false_iff. split; [apply Z.eqb_neq; congruence | reflexivity].
Qed.

Lemma strip_prefix1_none c s : strip_prefix [c] s = None -> hd_error s <> Some c.
Proof.
  rewrite strip_prefix1. destruct s as [|d s]; [discriminate|].
  destruct (Z.eqb_spec c d); cbn; congruence.
Qed.

Lemma split_port_datastore_spec tl ctx p ds :
  split_port_datastore tl ctx = Ok (p, ds) ->
  match p with Some n => u_range 16 n | None => has_char COLON ds = false end
  /\ exists x, tl = x ++ ds.
Proof.
  unfold split_port_datastore. destruct (split_once COLON tl) as [[a b]|] eqn:E; intros Hs.
  - apply result_bind_ok in Hs as (n & Hn & [= <- <-]). split; [eapply parse_port_range, Hn|].
    apply split_once_some in E as [-> _]. exists (a ++ [COLON]). rewrite <- app_assoc. reflexivity.
  - injection Hs as <- <-. split; [apply split_once_none_inv, E | exists []; reflexivity].
Qed.

(** Every parsed host part is well formed; the store field is a suffix of the
    text and the printed form starts with the same character as the text, or
    with a colon. *)
Lemma parse_host_part_spec rest h p ds :
  parse_host_part rest = Ok (h, p, ds) ->
  host_part_wf h p ds /\ (exists x, rest = x ++ ds)
  /\ (hd_error (show_host h p ++ ds) = hd_error rest
      \/ hd_error (show_host h p ++ ds) = Some COLON)
  /\ (has_char AT rest = false -> has_char AT (show_host h p ++ ds) = false).
Proof.
  unfold parse_host_part. intros E.
  assert (Hat : forall n, u_range 16 n -> has_char AT (dec n) = false).
  { intros n [Hn _]. apply digits_no_char; [reflexivity | apply dec_all_digits, Hn]. }
  destruct (strip_prefix [LBRACKET] rest) as [ab|] eqn:Es.
  - apply strip_prefix1_some in Es as ->.
    destruct (find_char RBRACKET ab) as [k|] eqn:Ef; [|discriminate].
    apply find_char_some in Ef as [Eab Hn]. cbn [ok_or mbind result_bind] in E.
    destruct (strip_prefix [COLON] (drop (S k) ab)) as [tl|] eqn:Et; [|discriminate].
    apply strip_prefix1_some in Et. cbn [ok_or mbind result_bind] in E.
    destruct (split_port_datastore tl (LBRACKET :: ab)) as [[p' ds']|] eqn:Ep; [|discriminate].
    cbn in E. injection E as <- <- <-.
    destruct (split_port_datastore_spec _ _ _ _ Ep) as [Hp [x ->]].
    rewrite Et in Eab. clear Et Ep. set (hh := take k ab) in *. clearbody hh. subst ab.
    split; [constructor; assumption|]. split; [|split].
    + exists (LBRACKET :: hh ++ RBRACKET :: COLON :: x).
      cbn [app]. rewrite <- app_assoc. reflexivity.
    + left. reflexivity.
    + destruct p' as [n|]; cbn [show_host]; rewrite ?has_char_cons, ?has_char_app, ?has_char_cons,
        ?has_char_app, ?has_char_cons; intros Hf; repeat rewrite orb_false_iff in *;
        rewrite ?has_char_app, ?has_char_cons in *; repeat rewrite orb_false_iff in *;
        intuition auto.
  - apply strip_prefix1_none in Es.
    destruct (split_char COLON rest) as [|a [|b [|c [|? ?]]]] eqn:Ec; try discriminate.
    + apply split_char_1 in Ec as [-> Hc]. injection E as <- <- <-.
      split; [constructor; assumption|]. split; [exists []; reflexivity|]. auto.
    + apply split_char_cons in Ec as (s' & -> & Ha & Ec). apply split_char_1 in Ec as [-> Hb].
      injection E as <- <- <-.
      assert (Hh : hd_error a <> Some LBRACKET) by (destruct a; cbn in *; congruence).
      split; [constructor; auto; discriminate|].
      split; [exists (a ++ [COLON]); rewrite <- app_assoc; reflexivity|].
      cbn [show_host app]. rewrite <- app_assoc. auto.
    + apply split_char_cons in Ec as (s' & -> & Ha & Ec).
      apply split_char_cons in Ec as (s'' & -> & Hb & Ec). apply split_char_1 in Ec as [-> Hc].
      destruct (parse_port b _) as [n|] eqn:Ep; [|discriminate]. cbn in E. injection E as <- <- <-.
      apply parse_port_range in Ep.
      assert (Hh : hd_error a <> Some LBRACKET) by (destruct a; cbn in *; congruence).
      split; [constructor; auto; intros ? [= <-]; exact Ep|].
      split; [exists (a ++ COLON :: b ++ [COLON]); rewrite <- app_assoc; cbn [app];
              rewrite <- app_assoc; reflexivity|].
      cbn [show_host]. split; [left; destruct a; reflexivity|].
      rewrite ?has_char_app, ?has_char_cons, ?has_char_app, ?has_char_cons, Hat by exact Ep.
      intros Hf. repeat rewrite orb_false_iff in *. intuition auto.
Qed.

End HostPart.

(** ** Whole strings *)

Lemma split_namespace_show x ds ns : split_namespace x = (ds, ns) -> show_store ds ns = x.
Proof.
  unfold split_namespace, show_store. destruct (split_once SLASH x) as [[a b]|] eqn:E.
  - apply split_once_some in E as [-> _]. destruct (is_empty b); intros [= <- <-].
    + apply app_nil_r.
    + reflexivity.
  - intros [= <- <-]. apply app_nil_r.
Qed.

Lemma split_namespace_spec x ds ns :
  split_namespace x = (ds, ns) -> forall n, ns = Some n -> n <> [] /\ has_char SLASH ds = false.
Proof.
  unfold split_namespace. destruct (split_once SLASH x) as [[a b]|] eqn:E.
  - apply split_once_some in E as [_ Ha]. destruct b; cbn; intros [= <- <-] n; [discriminate|].
    intros [= <-]. split; [discriminate | exact Ha].
  - intros [= <- <-]. discriminate.
Qed.

Section FromStr.
Context `{DebugFmt}.

(** The conditions under which a repository is printed unambiguously. *)
Record repo_wf (r : Repository) : Prop := {
  rw_host : host_part_wf (host r) (port r) (show_store (datastore r) (namespace r));
  rw_at : has_char AT (show_host (host r) (port r)
                       ++ show_store (datastore r) (namespace r)) = false;
  rw_ns : split_namespace (show_store (datastore r) (namespace r))
          = (datastore r, namespace r);
  rw_ds : datastore r <> [];
  rw_trim : trim (display r) = display r }.

Lemma from_str_display r : repo_wf r -> from_str (display r) = Ok r.
Proof.
  intros [Hh Ha Hn Hd Ht]. unfold from_str. rewrite Ht.
  set (x := show_store (datastore r) (namespace r)) in *.
  assert (Hne : is_empty (display r) = false).
  { unfold display. fold x. destruct (datastore r) as [|c ds] eqn:Ed; [congruence|].
    destruct (auth_id r) as [[|? ?]|]; [reflexivity | reflexivity |]. cbn [app].
    destruct (show_host (host r) (port r)); [|reflexivity]. subst x.
    unfold show_store. reflexivity. }
  rewrite Hne. cbn [negb ensure mbind result_bind].
  assert (Er : match rsplit_once AT (display r) with
               | Some (a, rest) => (Some a, rest) | None => (None, display r) end
               = (auth_id r, show_host (host r) (port r) ++ x)).
  { unfold display. fold x. destruct (auth_id r) as [a|].
    - rewrite <- app_assoc. cbn [app]. rewrite rsplit_once_at by exact Ha. reflexivity.
    - cbn [app]. rewrite rsplit_once_none by exact Ha. reflexivity. }
  rewrite Er, parse_show_host by exact Hh. cbn [mbind result_bind]. rewrite Hn.
  destruct r as [a h p [|c ds] ns]; [destruct (Hd eq_refl) | reflexivity].
Qed.

(** Everything that parses is printed unambiguously. *)
Lemma from_str_wf s r : from_str s = Ok r -> repo_wf r.
Proof.
  unfold from_str. intros E. inv_ok.
  set (t := trim s) in *.
  set (ar := match rsplit_once AT t with
             | Some (a, rest) => (Some a, rest) | None => (None, t) end) in *.
  destruct ar as [auth rest] eqn:Ear. subst ar.
  destruct (parse_host_part rest) as [[[h p] x']|] eqn:Eh; [|discriminate]. cbn in *.
  destruct (split_namespace x') as [ds ns] eqn:Es. inv_ok.
  destruct (parse_host_part_spec _ _ _ _ Eh) as (Hw & [y Hy] & Hhd & Hat).
  assert (Hx := split_namespace_show _ _ _ Es).
  assert (Hdsn : ds <> []) by (destruct ds; [discriminate | congruence]).
  assert (Hxn : x' <> []).
  { rewrite <- Hx. unfold show_store. destruct ds; [congruence | discriminate]. }
  assert (Hr : t = match auth with Some a => a ++ [AT] | None => [] end ++ rest
               /\ has_char AT rest = false).
  { destruct (rsplit_once AT t) as [[a b]|] eqn:Er; injection Ear as <- <-.
    - apply rsplit_once_some in Er as [-> Hb]. split; [|exact Hb].
      rewrite <- app_assoc. reflexivity.
    - split; [reflexivity | apply rsplit_once_none_inv, Er]. }
  destruct Hr as [Ht Hrat].
  split; cbn [host port datastore namespace]; rewrite ?Hx; auto.
  unfold display. cbn [auth_id host port datastore namespace]. rewrite Hx.
  apply trim_id; intros c Hc.
  - destruct auth as [[|a0 a]|]; cbn in Hc.
    + injection Hc as <-. reflexivity.
    + injection Hc as <-. apply (trim_head s). fold t. rewrite Ht. reflexivity.
    + destruct Hhd as [Hhd|Hhd]; rewrite Hhd in Hc.
      * apply (trim_head s). fold t. rewrite Ht. exact Hc.
      * injection Hc as <-. reflexivity.
  - rewrite last_app_ne in Hc by (apply app_ne_r, Hxn).
    rewrite last_app_ne in Hc by exact Hxn.
    apply (trim_last s). fold t. rewrite Ht, Hy, last_app_ne by (apply app_ne_r, Hxn).
    rewrite last_app_ne by exact Hxn. exact Hc.
Qed.

(** Printing a repository is a normal form: whatever string parses, the
    printed repository parses again, to the same repository. *)
Theorem display_normal_form s r : from_str s = Ok r -> from_str (display r) = Ok r.
Proof. intros E. apply from_str_display, (from_str_wf s r E). Qed.

(** Every parsed repository names a datastore, has a port only together with
    a host and within 16 bits, and a namespace only when it is not empty, in
    which case the datastore name has no slash. *)
Theorem from_str_fields s r :
  from_str s = Ok r ->
  datastore r <> []
  /\ (forall p, port r = Some p -> 0 <= p < 65536 /\ host r <> None)
  /\ (forall n, namespace r = Some n -> n <> [] /\ has_char SLASH (datastore r) = false).
Proof.
  intros E. destruct (from_str_wf s r E) as [Hh _ Hn Hd _]. split; [exact Hd|]. split.
  - intros p Hp. destruct Hh as [| ? p' ? _ Hr | ? p' ? _ _ _ Hr].
    + discriminate.
    + subst p'. split; [exact Hr | discriminate].
    + subst p'. split; [apply (Hr p eq_refl) | discriminate].
  - intros n. apply (split_namespace_spec _ _ _ Hn).
Qed.

(** A trailing slash with no namespace behind it stays part of the
    datastore name. *)
Theorem trailing_slash_kept ds :
  ds <> [] -> forallb is_ascii_alphanumeric ds = true ->
  from_str (ds ++ [SLASH]) = Ok {| auth_id := None; host := None; port := None;
                                   datastore := ds ++ [SLASH]; namespace := None |}.
Proof.
  intros Hne Hal.
  assert (Hno : forall c, is_ascii_alphanumeric c = false -> c <> SLASH ->
                has_char c (ds ++ [SLASH]) = false).
  { intros c Hc Hs. rewrite has_char_app, (alnum_no_char c) by assumption.
    rewrite has_char_cons. apply Z.eqb_neq in Hs. rewrite Hs. reflexivity. }
  set (r := {| datastore := _ |}).
  assert (Ed : display r = ds ++ [SLASH]).
  { unfold display, show_store. cbn. apply app_nil_r. }
  assert (Hd : exists c ds', ds = c :: ds' /\ is_ascii_alphanumeric c = true).
  { destruct ds as [|c ds']; [congruence|]. apply andb_prop in Hal as [Hc _]. eauto. }
  destruct Hd as (c & ds' & Eds & Hc).
  rewrite <- Ed at 1. apply from_str_display. split; rewrite ?Ed; cbn [r host port datastore
    namespace show_host app]; unfold show_store; rewrite ?app_nil_r.
  - constructor; [apply Hno; [reflexivity | discriminate]|].
    rewrite Eds. intros [= ->]. discriminate Hc.
  - apply Hno; [reflexivity | discriminate].
  - unfold split_namespace. rewrite split_once_at by (apply alnum_no_char; auto). reflexivity.
  - rewrite Eds. discriminate.
  - apply trim_id; intros x.
    + rewrite Eds. intros [= <-]. apply alnum_not_whitespace, Hc.
    + rewrite last_snoc. intros [= <-]. reflexivity.
Qed.

End FromStr.

Definition sample_debug : DebugFmt := fun s => L "'" ++ s ++ L "'".
#[local] Existing Instance sample_debug.

Definition sample_repo : Repository :=
  {| auth_id := Some (L "svc@pbs!tok"); host := Some (L "[2001:db8::1]"); port := Some 8007;
     datastore := L "backups"; namespace := Some (L "team/project") |}.

Lemma display_normal_form_witness :
  from_str (display sample_repo) = Ok sample_repo.
Proof.
  apply (display_normal_form (L " svc@pbs!tok@[2001:db8::1]:+08007:backups/team/project ")).
  vm_compute. reflexivity.
Defined.

Lemma from_str_fields_witness :
  datastore sample_repo <> []
  /\ (forall p, port sample_repo = Some p -> 0 <= p < 65536 /\ host sample_repo <> None)
  /\ (forall n, namespace sample_repo = Some n ->
       n <> [] /\ has_char SLASH (datastore sample_repo) = false).
Proof.
  apply (from_str_fields (L "svc@pbs!tok@[2001:db8::1]:8007:backups/team/project")).
  vm_compute. reflexivity.
Defined.

Lemma trailing_slash_kept_witness :
  from_str (L "backups/") = Ok {| auth_id := None; host := None; port := None;
                                  datastore := L "backups/"; namespace := None |}.
Proof. apply (trailing_slash_kept (L "backups")); [discriminate | reflexivity]. Defined.
