(* ===== verification/HttpApi.v ===== *)
(** The management API client: [pbs-client/src/api.rs].

    A GET over TLS whose whole response is read and then parsed: headers are
    split from the body, a chunked body is put together by [dechunk], the status
    is checked, and the JSON body's [data] member is returned.  The theorems:
    [dechunk] terminates on every input, returns exactly the concatenation of
    the chunks of a well-formed chunked body, and panics when a chunk's data is
    there but the CRLF behind it is not; a parsed response is always one with a
    2xx status. *)

From Stdlib Require Import ZArith Lia Strings.Byte Ascii String.
From stdpp Require Import base tactics option numbers list.
From S2P Require Import Prelude Text Base Repository.
Open Scope Z_scope.

(** ** Requests *)

(** [percent_encoding]: encodes everything but the ASCII alphanumerics and the
    characters given. *)
Class PercentLib := utf8_percent_encode : str -> str -> str.

Definition QUERY : str := L "-._~".

Record SnapshotFile := { sf_filename : str; sf_size : option Z }.

Record Snapshot := {
  sn_backup_time : Z; sn_backup_id : str; sn_backup_type : str;
  sn_size : option Z; sn_files : list SnapshotFile; sn_owner : option str }.

(** [serde_json::Value]; of the numbers, [as_u64] sees only [JUint]. *)
Unset Elimination Schemes.
Inductive json :=
| JNull
| JBool (b : bool)
| JUint (n : Z)
| JOther (text : str)
| JString (s : str)
| JArray (l : list json)
| JObject (members : list (str * json)).
Set Elimination Schemes.

Fixpoint assoc {A} (k : str) (l : list (str * A)) : option A :=
  match l with
  | [] => None
  | (k', v) :: l' => if str_eqb k k' then Some v else assoc k l'
  end.

(** [value.get(name)]: [None] unless an object has the member. *)
Definition json_get (name : str) (v : json) : option json :=
  match v with JObject ms => assoc name ms | _ => None end.

Record ApiClient := {
  api_host : str; api_port : Z; api_auth_id : str; api_secret : str; api_fingerprint : str }.

Definition api_from_repository (repo : Repository) (secret fingerprint : str) :
    result PbsError ApiClient :=
  h ← ok_or (host repo) (Protocol (L "repository has no host"));
  a ← ok_or (match auth_id repo with
             | Some s => if is_empty (trim s) then None else Some (trim s)
             | None => None
             end) (Auth (L "repository has no auth id"));
  Ok {| api_host := h; api_port := repo_port repo; api_auth_id := a;
        api_secret := trim secret; api_fingerprint := fingerprint |}.

(** ** Responses *)

Definition CRLF : bytes := octets [13; 10].

(** [haystack.windows(needle.len()).position(|w| w == needle)]. *)
Fixpoint find_subsequence (haystack needle : bytes) : option nat :=
  match haystack with
  | [] => None
  | _ :: h' =>
      if bool_decide (take (length needle) haystack = needle) then Some O
      else S <$> find_subsequence h' needle
  end.

(** The size field of a chunk: up to a semicolon, in hexadecimal. *)
Definition chunk_size_of (line : bytes) : option Z :=
  parse_hex_usize (trim (default [] (head (split_char 59 (trim (utf8_lossy line)))))).

Fixpoint dechunk_loop (fuel : nat) (body out : bytes) : outcome (result PbsError bytes) :=
  match fuel with
  | O => NoFuel
  | S f =>
      match find_subsequence body CRLF with
      | None => Value (Err (Protocol (L "malformed chunked body")))
      | Some line_end =>
          match chunk_size_of (take line_end body) with
          | None => Value (Err (Protocol (L "invalid chunk size")))
          | Some size =>
              let body := drop (line_end + 2) body in
              if size =? 0 then Value (Ok out)
              else if Z.of_nat (length body) <? size then
                Value (Err (Protocol (L "truncated chunk")))
              else
                let n := Z.to_nat size in
                let out := out ++ take n body in
                (* [&body[size + 2..]] is out of range without the trailing CRLF *)
                if (length body <? n + 2)%nat then Panic
                else dechunk_loop f (drop (n + 2) body) out
          end
      end
  end.

Definition dechunk (body : bytes) : outcome (result PbsError bytes) :=
  dechunk_loop (S (length body)) body [].

(** The parts of a response's header the client looks at. *)
Definition status_line (header : str) : str := first_line header.

Definition status_code (header : str) : Z :=
  match words (status_line header) with
  | _ :: c :: _ => default 0 (parse_uint 16 c)
  | _ => 0
  end.

Definition is_chunked (header : str) : bool :=
  contains (L "transfer-encoding: chunked") (map to_ascii_lowercase header).

Definition is_success (code : Z) : bool := (200 <=? code) && (code <? 300).

Definition parse_http_response (raw : bytes) : outcome (result PbsError bytes) :=
  match find_subsequence raw (CRLF ++ CRLF) with
  | None => Value (Err (Protocol (L "malformed HTTP response (no header end)")))
  | Some sep =>
      let header := utf8_lossy (take sep raw) in
      let body := drop (sep + 4) raw in
      let code := status_code header in
      outcome_bind (if is_chunked header then dechunk body else Value (Ok body)) (fun r =>
      Value (body ← r;
             if negb (is_success code) then
               Err (Protocol (L "server returned " ++ trim (status_line header) ++ L ": "
                              ++ utf8_lossy body))
             else Ok body))
  end.

(** Reading to the end of the stream: an unclean TLS close counts as its end. *)
Fixpoint read_to_close (reads : list (result io_error bytes)) (raw : bytes) :
    result PbsError bytes :=
  match reads with
  | [] | Ok [] :: _ => Ok raw
  | Ok l :: rs => read_to_close rs (raw ++ l)
  | Err e :: _ =>
      if bool_decide (io_kind_of e = UnexpectedEof) then Ok raw else Err (Io e)
  end.

(** The network and the JSON library: connecting (TLS with the pinned
    fingerprint), sending the request text and the reads that follow; parsing a
    body; and reading the typed snapshot list out of a JSON value. *)
Class ApiEnv := {
  exchange : str -> Z -> str -> str -> result PbsError (list (result io_error bytes));
  json_from_slice : bytes -> result str json;
  snapshots_from_value : json -> result str (list Snapshot);
}.

Section Client.
Context `{PercentLib} `{ApiEnv}.

Definition enc (value : str) : str := utf8_percent_encode value QUERY.

Definition request_text (c : ApiClient) (path : str) : str :=
  L "GET " ++ path ++ L " HTTP/1.1" ++ [13; 10]
  ++ L "Host: " ++ api_host c ++ L ":" ++ dec (api_port c) ++ [13; 10]
  ++ L "Authorization: PBSAPIToken=" ++ api_auth_id c ++ L ":" ++ api_secret c ++ [13; 10]
  ++ L "Accept: application/json" ++ [13; 10]
  ++ L "Connection: close" ++ [13; 10; 13; 10].

Definition get (c : ApiClient) (path : str) : outcome (result PbsError bytes) :=
  match exchange (api_host c) (api_port c) (api_fingerprint c) (request_text c path) with
  | Err e => Value (Err e)
  | Ok reads =>
      match read_to_close reads [] with
      | Err e => Value (Err e)
      | Ok raw => parse_http_response raw
      end
  end.

Definition get_data (c : ApiClient) (path : str) : outcome (result PbsError json) :=
  outcome_bind (get c path) (fun r => Value (
    body ← r;
    v ← map_err (fun e => Protocol (L "invalid JSON response: " ++ e)) (json_from_slice body);
    Ok (default JNull (json_get (L "data") v)))).

Definition snapshots_path (ds : str) (ns : option str) (btype bid : str) : str :=
  L "/api2/json/admin/datastore/" ++ enc ds ++ L "/snapshots?backup-type=" ++ enc btype
  ++ L "&backup-id=" ++ enc bid
  ++ match ns with
     | Some n => if is_empty n then [] else L "&ns=" ++ enc n
     | None => []
     end.

Definition list_snapshots (c : ApiClient) (ds : str) (ns : option str) (btype bid : str) :
    outcome (result PbsError (list Snapshot)) :=
  outcome_bind (get_data c (snapshots_path ds ns btype bid)) (fun r => Value (
    data ← r;
    map_err (fun e => Protocol (L "parsing snapshots: " ++ e)) (snapshots_from_value data))).

Definition truthy (v : json) : bool :=
  match v with JBool true => true | JUint n => negb (n =? 0) | _ => false end.

Definition privilege_granted (data : json) (acl_path name : str) : bool :=
  match json_get name data with
  | Some v => truthy v
  | None =>
      match json_get acl_path data ≫= json_get name with
      | Some v => truthy v
      | None => false
      end
  end.

Definition acl_path (ds : str) (ns : option str) : str :=
  match ns with
  | Some n => if is_empty n then L "/datastore/" ++ ds else L "/datastore/" ++ ds ++ L "/" ++ n
  | None => L "/datastore/" ++ ds
  end.

Definition can_backup (c : ApiClient) (ds : str) (ns : option str) :
    outcome (result PbsError bool) :=
  let acl := acl_path ds ns in
  outcome_bind (get_data c (L "/api2/json/access/permissions?path=" ++ enc acl)) (fun r =>
    Value (data ← r; Ok (privilege_granted data acl (L "Datastore.Backup")))).

End Client.

(** ** Lemmas *)

(** A chunked body as RFC 9112 writes it: each chunk behind its size in
    hexadecimal, then the last chunk of size zero. *)
Definition ascii_bytes (s : str) : bytes := map Z_u8 s.

Definition chunk_bytes (c : bytes) : bytes :=
  ascii_bytes (lower_hex (Z.of_nat (length c))) ++ CRLF ++ c ++ CRLF.

Definition chunked_body (cs : list bytes) (trailer : bytes) : bytes :=
  concat (map chunk_bytes cs) ++ ascii_bytes (L "0") ++ CRLF ++ trailer.

Lemma length_CRLF : length CRLF = 2%nat.
Proof. reflexivity. Qed.

#[global] Hint Rewrite length_CRLF : pbs_len.

Lemma find_crlf a r : Forall (fun b => u8_Z b <> 13) a ->
  find_subsequence (a ++ CRLF ++ r) CRLF = Some (length a).
Proof.
  induction 1 as [|b a Hb _ IH]; [reflexivity|].
  cbn [app find_subsequence length]. rewrite bool_decide_false.
  - rewrite IH. reflexivity.
  - intros E. apply (f_equal head) in E. cbn in E. injection E as ->. apply Hb. reflexivity.
Qed.

Lemma lower_hex_ascii c : is_lower_hex c = true -> 0 <= c < 128 /\ c <> 13 /\ c <> 59
  /\ is_whitespace c = false.
Proof. unfold is_lower_hex, is_ascii_digit, is_whitespace. lia. Qed.

Lemma u8_Z_ascii c : 0 <= c < 128 -> u8_Z (Z_u8 c) = c.
Proof. intros. rewrite u8_Z_u8. apply Z.mod_small. lia. Qed.

(** Hexadecimal digits survive the trip through bytes. *)
Lemma utf8_lossy_hex s : forallb is_lower_hex s = true -> utf8_lossy (ascii_bytes s) = s.
Proof.
  intros Hs. rewrite forallb_forall in Hs.
  rewrite utf8_lossy_ascii.
  - unfold ascii_bytes. rewrite map_map. rewrite <- (map_id s) at 2. apply map_ext_in.
    intros c Hc. apply u8_Z_ascii, lower_hex_ascii, Hs, Hc.
  - apply Forall_map, List.Forall_forall. intros c Hc. destruct (lower_hex_ascii c (Hs c Hc)).
    cbn. rewrite u8_Z_ascii; lia.
Qed.

Lemma hex_line_no_cr s : forallb is_lower_hex s = true ->
  Forall (fun b => u8_Z b <> 13) (ascii_bytes s).
Proof.
  intros Hs. rewrite forallb_forall in Hs. apply Forall_map, List.Forall_forall. intros c Hc.
  destruct (lower_hex_ascii c (Hs c Hc)) as (Hr & H13 & _). cbn. rewrite u8_Z_ascii; lia.
Qed.

Lemma chunk_size_of_hex n : u_range 64 n -> chunk_size_of (ascii_bytes (lower_hex n)) = Some n.
Proof.
  intros Hn. assert (Hall := lower_hex_all n (proj1 Hn)). unfold chunk_size_of.
  rewrite utf8_lossy_hex by exact Hall. rewrite forallb_forall in Hall.
  assert (Ht : trim (lower_hex n) = lower_hex n).
  { apply trim_id; intros c Hc; apply (lower_hex_ascii c), Hall.
    - destruct (lower_hex n); [discriminate|]. injection Hc as ->. left. reflexivity.
    - apply list_elem_of_In, last_Some_elem_of, Hc. }
  rewrite Ht, split_char_none.
  - change (parse_hex_usize (trim (lower_hex n)) = Some n). rewrite Ht. apply parse_lower_hex, Hn.
  - destruct (has_char 59 (lower_hex n)) eqn:E; [|reflexivity].
    apply has_char_In, Hall, lower_hex_ascii in E. tauto.
Qed.

(** One turn of the loop on a body that starts with a chunk's size line. *)
Lemma dechunk_loop_step f size (r out : bytes) :
  u_range 64 size ->
  dechunk_loop (S f) (ascii_bytes (lower_hex size) ++ CRLF ++ r) out =
  if size =? 0 then Value (Ok out)
  else if Z.of_nat (length r) <? size then Value (Err (Protocol (L "truncated chunk")))
  else if (length r <? Z.to_nat size + 2)%nat then Panic
  else dechunk_loop f (drop (Z.to_nat size + 2) r) (out ++ take (Z.to_nat size) r).
Proof.
  intros Hs. cbn [dechunk_loop].
  rewrite find_crlf by (apply hex_line_no_cr, lower_hex_all, (proj1 Hs)).
  rewrite take_app_length, chunk_size_of_hex by exact Hs.
  rewrite (app_assoc _ CRLF r), drop_app_length' by len. reflexivity.
Qed.

Definition chunk_ok (c : bytes) : Prop := c <> [] /\ Z.of_nat (length c) < 2 ^ 64.

Lemma chunk_ok_size c : chunk_ok c -> u_range 64 (Z.of_nat (length c))
  /\ (Z.of_nat (length c) =? 0) = false.
Proof.
  intros [Hc Hl]. destruct c; [congruence|]. unfold u_range.
  split; [lia | apply Z.eqb_neq; cbn [length]; lia].
Qed.

Lemma dechunk_loop_chunks cs trailer f out :
  Forall chunk_ok cs -> (length cs < f)%nat ->
  dechunk_loop f (chunked_body cs trailer) out = Value (Ok (out ++ concat cs)).
Proof.
  intros Hcs. revert f out. induction Hcs as [|c cs Hc _ IH]; intros f out Hf.
  - destruct f as [|f]; [lia|].
    change (chunked_body [] trailer) with (ascii_bytes (lower_hex 0) ++ CRLF ++ trailer).
    rewrite dechunk_loop_step by range. cbn [concat Z.eqb].
    rewrite app_nil_r. reflexivity.
  - destruct f as [|f]; [cbn in Hf; lia|]. destruct (chunk_ok_size c Hc) as [Hr Hz].
    unfold chunked_body. cbn [map concat]. unfold chunk_bytes at 1.
    rewrite <- !app_assoc, dechunk_loop_step, Hz by exact Hr.
    fold (chunked_body cs trailer). rewrite Nat2Z.id.
    set (rest := chunked_body cs trailer).
    change (CRLF ++ concat (map chunk_bytes cs) ++ ascii_bytes (L "0") ++ CRLF ++ trailer)
      with (CRLF ++ rest).
    assert (Hl : length (c ++ CRLF ++ rest) = (length c + 2 + length rest)%nat)
      by len.
    rewrite Hl. destruct (Z.ltb_spec (Z.of_nat (length c + 2 + length rest)) (Z.of_nat (length c))); [lia|].
    destruct (Nat.ltb_spec (length c + 2 + length rest) (length c + 2)); [lia|].
    rewrite take_app_length, (app_assoc c), drop_app_length' by len.
    subst rest. rewrite IH by (cbn in Hf; lia). rewrite <- app_assoc. reflexivity.
Qed.

Lemma dechunk_loop_fuel f body out : (length body < f)%nat -> dechunk_loop f body out <> NoFuel.
Proof.
  revert body out; induction f as [|f IH]; intros body out Hf; [lia|]. cbn [dechunk_loop].
  destruct (find_subsequence body CRLF) as [e|]; [|discriminate].
  destruct (chunk_size_of _) as [size|]; [|discriminate].
  destruct (size =? 0) eqn:Ez; [discriminate|].
  destruct (Z.ltb_spec (Z.of_nat (length (drop (e + 2) body))) size); [discriminate|].
  destruct (Nat.ltb_spec (length (drop (e + 2) body)) (Z.to_nat size + 2)) as [|Hl]; [discriminate|].
  apply IH. rewrite !length_drop in *. lia.
Qed.

Lemma length_chunked_body cs trailer : (length cs < length (chunked_body cs trailer))%nat.
Proof.
  unfold chunked_body. autorewrite with pbs_len.
  induction cs as [|c cs IH]; cbn [length map concat]; [lia|].
  unfold chunk_bytes at 1. len.
Qed.

(** ** Properties *)

(** A body of any non-empty chunks in chunked transfer encoding decodes to
    the chunks' concatenation, whatever trailer follows. *)
Theorem dechunk_chunked cs trailer :
  Forall chunk_ok cs -> dechunk (chunked_body cs trailer) = Value (Ok (concat cs)).
Proof.
  intros Hcs. unfold dechunk. apply dechunk_loop_chunks; [exact Hcs|].
  pose proof (length_chunked_body cs trailer). lia.
Qed.

(** Decoding a chunked body terminates on every input. *)
Theorem dechunk_terminates body : dechunk body <> NoFuel.
Proof. apply dechunk_loop_fuel. lia. Qed.

(** A response that ends right behind a chunk's data, before the CRLF that
    closes the chunk, makes [dechunk] panic instead of returning an error. *)
Theorem dechunk_panics_without_crlf c tail :
  chunk_ok c -> (length tail < 2)%nat ->
  dechunk (ascii_bytes (lower_hex (Z.of_nat (length c))) ++ CRLF ++ c ++ tail) = Panic.
Proof.
  intros Hc Ht. destruct (chunk_ok_size c Hc) as [Hr Hz]. unfold dechunk.
  rewrite dechunk_loop_step, Hz, Nat2Z.id by exact Hr. rewrite length_app.
  destruct (Z.ltb_spec (Z.of_nat (length c + length tail)) (Z.of_nat (length c))); [lia|].
  destruct (Nat.ltb_spec (length c + length tail) (length c + 2)); [reflexivity | lia].
Qed.

(** A response is accepted only with a complete header and a status in
    200..299, and the bytes returned are the body behind the header, or its
    de-chunked form. *)
Theorem parse_http_response_ok raw body :
  parse_http_response raw = Value (Ok body) ->
  exists sep, find_subsequence raw (CRLF ++ CRLF) = Some sep
    /\ 200 <= status_code (utf8_lossy (take sep raw)) < 300
    /\ (if is_chunked (utf8_lossy (take sep raw))
        then dechunk (drop (sep + 4) raw) = Value (Ok body)
        else body = drop (sep + 4) raw).
Proof.
  unfold parse_http_response. destruct (find_subsequence raw (CRLF ++ CRLF)) as [sep|]; [|discriminate].
  intros E. exists sep. split; [reflexivity|]. set (h := utf8_lossy (take sep raw)) in *.
  destruct (is_success (status_code h)) eqn:Hs.
  - unfold is_success in Hs. split; [lia|].
    destruct (is_chunked h); [destruct (dechunk (drop (sep + 4) raw)) as [[b|]| |]|];
      cbn in E; congruence.
  - destruct (is_chunked h); [destruct (dechunk (drop (sep + 4) raw)) as [[b|]| |]|];
      cbn in E; congruence.
Qed.

Lemma sample_chunks_ok : Forall chunk_ok [bstr "hello "; bstr "world"].
Proof. repeat constructor; discriminate. Qed.

Lemma dechunk_chunked_witness :
  dechunk (bstr "6" ++ CRLF ++ bstr "hello " ++ CRLF ++ bstr "5" ++ CRLF ++ bstr "world"
           ++ CRLF ++ bstr "0" ++ CRLF ++ CRLF) = Value (Ok (bstr "hello world")).
Proof. exact (dechunk_chunked [bstr "hello "; bstr "world"] CRLF sample_chunks_ok). Defined.

Lemma dechunk_panics_without_crlf_witness :
  dechunk (bstr "5" ++ CRLF ++ bstr "world") = Panic.
Proof.
  apply (dechunk_panics_without_crlf (bstr "world") []); [split; [discriminate | reflexivity]|].
  cbn. lia.
Defined.

Definition sample_response : bytes :=
  bstr "HTTP/1.1 204 No Content" ++ CRLF ++ bstr "Server: x" ++ CRLF ++ CRLF ++ bstr "body".

Lemma parse_http_response_ok_witness :
  exists sep, find_subsequence sample_response (CRLF ++ CRLF) = Some sep
    /\ 200 <= status_code (utf8_lossy (take sep sample_response)) < 300
    /\ (if is_chunked (utf8_lossy (take sep sample_response))
        then dechunk (drop (sep + 4) sample_response) = Value (Ok (bstr "body"))
        else bstr "body" = drop (sep + 4) sample_response).
Proof. apply parse_http_response_ok. vm_compute. reflexivity. Defined.
