(* ===== verification/Session.v ===== *)
(** Backup and reader sessions: [pbs-client/src/session.rs] up to the single
    requests.

    A session is an HTTP/2 connection on which requests are answered.  Every
    method of [BackupWriter], [ChunkUploader], [ReaderClient] and
    [ChunkDownloader] sends one request and interprets its answer; it is
    modelled as a [call], the request together with the interpretation, so that
    the same definition is run against a server state ([exec]) by the sequential
    operations and is a step of the concurrent upload in Pipeline.v.  What h2,
    serde_json and the server do is a parameter. *)

From Stdlib Require Import ZArith Lia Strings.Byte Ascii String.
From stdpp Require Import base tactics option numbers list.
From S2P Require Import Prelude Text Base Blob Index Repository HttpApi.
Open Scope Z_scope.

(** ** Settings *)

Definition BACKUP_PROTOCOL_ID_V1 : str := L "proxmox-backup-protocol-v1".
Definition READER_PROTOCOL_ID_V1 : str := L "proxmox-backup-reader-protocol-v1".
Definition APPEND_BATCH : nat := 64.
Definition MAX_RESTORE_PREALLOC : Z := 128 * 1024 * 1024.

(** The override is a global set by [set_pipeline_width]; the argument of
    [pipeline_width] is its value and the parallelism the machine reports. *)
Definition set_pipeline_width (n : Z) (_ : Z) : Z := n.

Definition pipeline_width (override : Z) (available : option Z) : Z :=
  if override =? 0 then
    let cores := default 4 available in
    Z.min 16 (Z.max 2 (cores / 2))
  else override.

(** A usize override and a reported parallelism leave at least one slot. *)
Lemma pipeline_width_pos override available :
  0 <= override -> 1 <= pipeline_width override available.
Proof. intros Ho. unfold pipeline_width. destruct (Z.eqb_spec override 0); lia. Qed.

(** ** Parameters of a session *)

Record SessionParams := {
  sp_host : str; sp_port : Z; sp_datastore : str; sp_auth_id : str; sp_secret : str;
  sp_fingerprint : str; sp_backup_type : str; sp_backup_id : str; sp_backup_time : Z;
  sp_namespace : option str }.

Definition from_repository (repo : Repository) (secret fp btype bid : str) (btime : Z) :
    result PbsError SessionParams :=
  h ← ok_or (host repo) (Protocol (L "repository has no host"));
  a ← ok_or (match auth_id repo with
             | Some s => if is_empty (trim s) then None else Some (trim s)
             | None => None
             end) (Auth (L "repository has no auth id"));
  Ok {| sp_host := h; sp_port := repo_port repo; sp_datastore := datastore repo;
        sp_auth_id := a; sp_secret := trim secret; sp_fingerprint := fp;
        sp_backup_type := btype; sp_backup_id := bid; sp_backup_time := btime;
        sp_namespace := namespace repo |}.

Section Query.
Context `{PercentLib}.

Definition snapshot_query (p : SessionParams) : str :=
  L "store=" ++ enc (sp_datastore p) ++ L "&backup-type=" ++ enc (sp_backup_type p)
  ++ L "&backup-id=" ++ enc (sp_backup_id p) ++ L "&backup-time=" ++ dec (sp_backup_time p)
  ++ match sp_namespace p with
     | Some ns => if is_empty ns then [] else L "&ns=" ++ enc ns
     | None => []
     end.

End Query.

(** ** TLS with a pinned certificate *)

Section Tls.
Context `{HashLib} `{HexLib}.

Definition parse_fingerprint (fp : str) : result PbsError bytes :=
  let cleaned := filter (fun c => is_whitespace c = false /\ c <> COLON) fp in
  l ← map_err (fun e => Protocol (L "invalid fingerprint hex: " ++ e)) (hex_decode cleaned);
  if (length l =? 32)%nat then Ok l
  else Err (Protocol (L "fingerprint must be 32 bytes, got " ++ dec (Z.of_nat (length l)))).

(** [Ok] is the assertion that the certificate is trusted. *)
Definition verify_server_cert (expected cert : bytes) : result str unit :=
  let actual := sha256 cert in
  if bool_decide (actual = expected) then Ok tt
  else Err (L "certificate fingerprint mismatch: expected " ++ hex_encode expected
            ++ L ", got " ++ hex_encode actual).

(** The connector is the verifier's expected digest; [config] is what rustls's
    configuration builder reports. *)
Definition tls_connector (config : result str unit) (fp : str) : result PbsError bytes :=
  expected ← parse_fingerprint fp;
  _ ← map_err (fun e => Protocol (L "tls config: " ++ e)) config;
  Ok expected.

End Tls.

(** ** The upgrade *)

(** The header block, read a byte at a time; [[]] is the end of the stream and
    an [Err] the failure of a read. *)
Fixpoint read_headers (reads : list (result io_error byte)) (buf : bytes) :
    result PbsError str :=
  match reads with
  | [] => Err (Protocol (L "connection closed during upgrade"))
  | Err e :: _ => Err (Io e)
  | Ok b :: rs =>
      let buf := buf ++ [b] in
      if bool_decide (drop (length buf - 4) buf = CRLF ++ CRLF) then Ok (utf8_lossy buf)
      else if (Z.of_nat (length buf) >? 16 * 1024) then
        Err (Protocol (L "upgrade response headers too large"))
      else read_headers rs buf
  end.

Definition upgrade_request (p : SessionParams) (path protocol_id : str) : str :=
  L "GET " ++ path ++ L " HTTP/1.1" ++ [13; 10]
  ++ L "Host: " ++ sp_host p ++ L ":" ++ dec (sp_port p) ++ [13; 10]
  ++ L "Authorization: PBSAPIToken=" ++ sp_auth_id p ++ L ":" ++ sp_secret p ++ [13; 10]
  ++ L "Upgrade: " ++ protocol_id ++ [13; 10]
  ++ L "Connection: upgrade" ++ [13; 10; 13; 10].

(** Whether the answer to the upgrade request switches protocols. *)
Definition check_upgrade (headers : str) : result PbsError unit :=
  let status := first_line headers in
  if negb (contains (L "101") status) then
    let hint :=
      if contains (L "403") status then
        L " (the PBS token lacks permission on this datastore/namespace, or another owner holds this backup group)"
      else if contains (L "401") status then
        L " (the PBS token id or secret was not accepted)"
      else [] in
    Err (Protocol (L "expected 101 Switching Protocols, got: " ++ status ++ hint))
  else Ok tt.

(** What the network does during an upgrade: the TCP connection, whether the
    host is a valid server name, the certificate the server presents, the rest
    of the TLS handshake, writing the request, the bytes read, and the HTTP/2
    handshake. *)
Record upgrade_env := {
  ue_config : result str unit; ue_tcp : result io_error unit; ue_name_ok : bool;
  ue_cert : bytes; ue_tls : result io_error unit; ue_write : result io_error unit;
  ue_reads : list (result io_error byte); ue_h2 : result str unit }.

Section Upgrade.
Context `{HashLib} `{HexLib}.

(** Up to the established TLS connection. *)
Definition tls_connect (env : upgrade_env) (p : SessionParams) : result PbsError unit :=
  expected ← tls_connector (ue_config env) (sp_fingerprint p);
  _ ← map_err Io (ue_tcp env);
  _ ← ensure (ue_name_ok env) (Protocol (L "invalid server name: " ++ sp_host p));
  _ ← map_err (fun e => Io (IoError InvalidData e)) (verify_server_cert expected (ue_cert env));
  map_err Io (ue_tls env).

(** The connection's authority, and what was written to the server on the way. *)
Definition upgrade (env : upgrade_env) (p : SessionParams) (path protocol_id : str) :
    result PbsError str * list str :=
  match tls_connect env p with
  | Err e => (Err e, [])
  | Ok _ =>
      ((_ ← map_err Io (ue_write env);
        headers ← read_headers (ue_reads env) [];
        _ ← check_upgrade headers;
        _ ← map_err (fun e => Protocol (L "http/2 error: " ++ e)) (ue_h2 env);
        Ok (sp_host p ++ L ":" ++ dec (sp_port p))),
       [upgrade_request p path protocol_id])
  end.

Definition backup_connect `{PercentLib} (env : upgrade_env) (p : SessionParams) :=
  upgrade env p (L "/api2/json/backup?" ++ snapshot_query p) BACKUP_PROTOCOL_ID_V1.

Definition reader_connect `{PercentLib} (env : upgrade_env) (p : SessionParams) :=
  upgrade env p (L "/api2/json/reader?" ++ snapshot_query p) READER_PROTOCOL_ID_V1.

End Upgrade.

(** ** Requests and answers *)

Inductive method := GET | POST | PUT.

Record request := {
  rq_method : method; rq_path : str; rq_ctype : option str; rq_body : option bytes }.

#[export] Instance method_eq_dec : EqDecision method.
Proof. solve_decision. Defined.
#[export] Instance request_eq_dec : EqDecision request.
Proof. solve_decision. Defined.

(** What h2 reports of a request: an error before the status, or the status and
    the body's frames, the last of which may be an error. *)
Inductive h2_outcome :=
| H2Failed (e : str)
| H2Answer (status : Z) (frames : list (result str bytes)).

Definition h2err {A} (e : str) : result PbsError A := Err (Protocol (L "http/2 error: " ++ e)).

Fixpoint drain_body (tolerate_close : bool) (status : Z) (frames : list (result str bytes))
    (out : bytes) : result PbsError (Z * bytes) :=
  match frames with
  | [] => Ok (status, out)
  | Ok c :: fs => drain_body tolerate_close status fs (out ++ c)
  | Err e :: _ => if tolerate_close && is_success status then Ok (status, out) else h2err e
  end.

Definition h2_request (tolerate_close : bool) (o : h2_outcome) : result PbsError (Z * bytes) :=
  match o with
  | H2Failed e => h2err e
  | H2Answer status frames => drain_body tolerate_close status frames []
  end.

(** [StatusCode]'s display and [serde_json]'s serializer. *)
Class SessionLibs := {
  status_text : Z -> str;
  json_to_vec : json -> result str bytes;
  json_parse : bytes -> result str json;
}.

Record call (A : Type) := {
  c_request : result PbsError request;
  c_tolerate_close : bool;
  c_answer : Z * bytes -> result PbsError A }.
Arguments c_request {A} _.
Arguments c_tolerate_close {A} _.
Arguments c_answer {A} _ _.

(** What a method returns, by what h2 reports of its request. *)
Definition call_result {A} (c : call A) (o : h2_outcome) : result PbsError A :=
  _ ← c_request c; r ← h2_request (c_tolerate_close c) o; c_answer c r.

Section Calls.
Context `{PercentLib} `{HexLib} `{SessionLibs}.

Definition ensure_ok (status : Z) (body : bytes) : result PbsError unit :=
  if is_success status then Ok tt
  else Err (Protocol (L "server returned " ++ status_text status ++ L ": " ++ utf8_lossy body)).

Definition unwrap_data (body : bytes) : result PbsError json :=
  v ← map_err (fun e => Protocol (L "invalid JSON response: " ++ e)) (json_parse body);
  Ok (default JNull (json_get (L "data") v)).

Definition as_u64 (v : json) : option Z := match v with JUint n => Some n | _ => None end.

(** A status-only request that commits an operation. *)
Definition committing (r : result PbsError request) : call unit :=
  {| c_request := r; c_tolerate_close := true;
     c_answer := fun '(status, body) => ensure_ok status body |}.

(** A request whose body is used. *)
Definition fetching {A} (r : request) (k : bytes -> result PbsError A) : call A :=
  {| c_request := Ok r; c_tolerate_close := false;
     c_answer := fun '(status, body) => _ ← ensure_ok status body; k body |}.

Definition plain (m : method) (path : str) : request :=
  {| rq_method := m; rq_path := path; rq_ctype := None; rq_body := None |}.

Definition octet_stream (path : str) (body : bytes) : request :=
  {| rq_method := POST; rq_path := path; rq_ctype := Some (L "application/octet-stream");
     rq_body := Some body |}.

Definition chunk_query (endpoint : str) (wid : Z) (digest : bytes) (plaintext_len : Z)
    (encoded : bytes) : str :=
  endpoint ++ L "?wid=" ++ dec wid ++ L "&digest=" ++ hex_encode digest
  ++ L "&size=" ++ dec plaintext_len ++ L "&encoded-size=" ++ dec (Z.of_nat (length encoded)).

Definition upload_dynamic_chunk (wid : Z) (digest : bytes) (plaintext_len : Z)
    (encoded : bytes) : call unit :=
  committing (Ok (octet_stream
    (chunk_query (L "/dynamic_chunk") wid digest plaintext_len encoded) encoded)).

Definition create_fixed_index (archive_name : str) (size : Z) : call Z :=
  fetching (plain POST (L "/fixed_index?archive-name=" ++ enc archive_name
                        ++ L "&size=" ++ dec size)) (fun body =>
    v ← unwrap_data body;
    ok_or (as_u64 v) (Protocol (L "fixed_index did not return a wid"))).

Definition upload_chunk (wid : Z) (digest : bytes) (plaintext_len : Z) (encoded : bytes) :
    call unit :=
  committing (Ok (octet_stream
    (chunk_query (L "/fixed_chunk") wid digest plaintext_len encoded) encoded)).

(** The JSON body of an append. *)
Definition append_body (wid : Z) (digests : list bytes) (offsets : list Z) : json :=
  JObject [(L "wid", JUint wid);
           (L "digest-list", JArray (map (fun d => JString (hex_encode d)) digests));
           (L "offset-list", JArray (map JUint offsets))].

Definition append_request (endpoint : str) (wid : Z) (digests : list bytes) (offsets : list Z) :
    result PbsError request :=
  body ← map_err (fun e => Protocol (L "encoding append body: " ++ e))
    (json_to_vec (append_body wid digests offsets));
  Ok {| rq_method := PUT; rq_path := endpoint; rq_ctype := Some (L "application/json");
        rq_body := Some body |}.

Definition append_fixed_index (wid : Z) (digests : list bytes) (offsets : list Z) : call unit :=
  committing (append_request (L "/fixed_index") wid digests offsets).

Definition close_query (endpoint : str) (wid chunk_count size : Z) (csum : bytes) : str :=
  endpoint ++ L "?wid=" ++ dec wid ++ L "&chunk-count=" ++ dec chunk_count
  ++ L "&size=" ++ dec size ++ L "&csum=" ++ hex_encode csum.

Definition close_fixed_index (wid chunk_count size : Z) (csum : bytes) : call unit :=
  committing (Ok (plain POST (close_query (L "/fixed_close") wid chunk_count size csum))).

Definition upload_blob (file_name : str) (blob : bytes) : call unit :=
  committing (Ok (octet_stream
    (L "/blob?file-name=" ++ enc file_name ++ L "&encoded-size="
     ++ dec (Z.of_nat (length blob))) blob)).

Definition create_dynamic_index (archive_name : str) : call Z :=
  fetching (plain POST (L "/dynamic_index?archive-name=" ++ enc archive_name)) (fun body =>
    v ← unwrap_data body;
    ok_or (as_u64 v) (Protocol (L "dynamic_index did not return a wid"))).

Definition append_dynamic_index (wid : Z) (digests : list bytes) (offsets : list Z) : call unit :=
  committing (append_request (L "/dynamic_index") wid digests offsets).

Definition close_dynamic_index (wid chunk_count size : Z) (csum : bytes) : call unit :=
  committing (Ok (plain POST (close_query (L "/dynamic_close") wid chunk_count size csum))).

(** Any answer but a success counts as no previous snapshot. *)
Definition download_previous (archive_name : str) : call (option bytes) :=
  {| c_request := Ok (plain GET (L "/previous?archive-name=" ++ enc archive_name));
     c_tolerate_close := false;
     c_answer := fun '(status, body) => Ok (if is_success status then Some body else None) |}.

Definition finish : call unit := committing (Ok (plain POST (L "/finish"))).

Definition download_chunk (digest : bytes) : call bytes :=
  fetching (plain GET (L "/chunk?digest=" ++ hex_encode digest)) Ok.

Definition download (file_name : str) : call bytes :=
  fetching (plain GET (L "/download?file-name=" ++ enc file_name)) Ok.

End Calls.

(** ** Sequential execution against a server *)

Class Server (S : Type) := serve : request -> S -> h2_outcome * S.

(** A computation that talks to a server and may fail. *)
Definition session (S A : Type) : Type := S -> result PbsError A * S.

#[export] Instance session_ret {S} : MRet (session S) := fun A a s => (Ok a, s).
#[export] Instance session_bind {S} : MBind (session S) := fun A B k m s =>
  match m s with (Ok a, s') => k a s' | (Err e, s') => (Err e, s') end.

Definition lift {S A} (r : result PbsError A) : session S A := fun s => (r, s).

Definition exec {S A} `{Server S} (c : call A) : session S A := fun s =>
  match c_request c with
  | Err e => (Err e, s)
  | Ok rq => let '(o, s') := serve rq s in (call_result c o, s')
  end.

(** ** Lemmas *)

Lemma session_bind_ok {S A B} (m : session S A) (k : A -> session S B) s b s'' :
  (m ≫= k) s = (Ok b, s'') <-> exists a s', m s = (Ok a, s') /\ k a s' = (Ok b, s'').
Proof.
  unfold mbind, session_bind. destruct (m s) as [[a|e] s']; split.
  - intros E. eauto.
  - intros (a' & s1 & [= -> ->] & E). exact E.
  - discriminate.
  - intros (a' & s1 & E & _). discriminate.
Qed.

Lemma lift_ok {S A} (r : result PbsError A) (s : S) a s' :
  lift r s = (Ok a, s') <-> r = Ok a /\ s' = s.
Proof. unfold lift. split; [intros [= -> ->]; auto | intros [-> ->]; reflexivity]. Qed.

Lemma exec_ok {S A} `{Server S} (c : call A) s a s' :
  exec c s = (Ok a, s') ->
  exists rq o, c_request c = Ok rq /\ serve rq s = (o, s') /\ call_result c o = Ok a.
Proof.
  unfold exec. destruct (c_request c) as [rq|e] eqn:Ec; [|discriminate].
  destruct (serve rq s) as [o s1] eqn:Es. intros [= E <-]. eauto.
Qed.

Lemma committing_ok `{SessionLibs} r o u :
  call_result (committing r) o = Ok u ->
  exists status body, h2_request true o = Ok (status, body) /\ is_success status = true.
Proof.
  unfold call_result, committing. cbn. intros E. inv_ok.
  match goal with H : h2_request true o = Ok ?p |- _ => destruct p as [st b] end.
  unfold ensure_ok in *. exists st, b. split; [assumption|].
  destruct (is_success st); [reflexivity | discriminate].
Qed.

Lemma h2_request_status t o st b : h2_request t o = Ok (st, b) ->
  exists frames, o = H2Answer st frames.
Proof.
  destruct o as [e|status frames]; cbn; [discriminate|].
  intros E. exists frames. f_equal.
  assert (G : forall fs out, drain_body t status fs out = Ok (st, b) -> status = st).
  { induction fs as [|[c|e] fs IH]; cbn; intros out E'; [congruence | eauto |].
    destruct (t && is_success status); [congruence | discriminate]. }
  eapply G, E.
Qed.

(** ** Properties *)

Section Properties.
Context `{PercentLib} `{HexLib} `{SessionLibs} `{HashLib}.

(** A committing request (chunk upload, append, close, blob, finish)
    succeeds exactly when the server answered with a 2xx status, however the
    body that follows ends; without such a status it fails. *)
Theorem committing_result r o :
  (exists u, call_result (committing (Ok r)) o = Ok u) <->
  exists status frames, o = H2Answer status frames /\ is_success status = true.
Proof.
  split.
  - intros [u E]. destruct (committing_ok _ _ _ E) as (st & b & E1 & E2).
    destruct (h2_request_status _ _ _ _ E1) as [frames ->]. eauto.
  - intros (st & frames & -> & Hs). exists tt. unfold call_result, committing. cbn.
    assert (G : forall fs out, exists b, drain_body true st fs out = Ok (st, b)).
    { induction fs as [|[c|e] fs IH]; intros out; cbn; [eauto | apply IH |].
      rewrite Hs. cbn. eauto. }
    destruct (G frames []) as [b ->]. cbn. unfold ensure_ok. rewrite Hs. reflexivity.
Qed.

(** A download or index creation whose body breaks off is an error, never a
    truncated value: the result is [Ok] only when every frame arrived. *)
Theorem fetching_complete (r : request) o (body : bytes) :
  call_result (fetching r Ok) o = Ok body ->
  exists status frames, o = H2Answer status (map Ok frames) /\ is_success status = true
    /\ body = concat frames.
Proof.
  unfold call_result, fetching. cbn. intros E. inv_ok.
  match goal with H : h2_request false o = Ok ?p |- _ => destruct p as [st b]; rename H into E1 end.
  inv_ok. destruct o as [e|status fs]; cbn in E1; [discriminate|].
  assert (G : forall fs out, drain_body false status fs out = Ok (st, body) ->
    st = status /\ exists frames, fs = map Ok frames /\ body = out ++ concat frames).
  { induction fs0 as [|[c|e] fs0 IH]; cbn; intros out E'.
    - injection E' as -> ->. split; [reflexivity|]. exists []. rewrite app_nil_r. auto.
    - destruct (IH _ E') as (-> & frames & -> & ->). split; [reflexivity|].
      exists (c :: frames). cbn. rewrite app_assoc. auto.
    - discriminate. }
  destruct (G fs [] E1) as (-> & frames & -> & ->). exists status, frames.
  split; [reflexivity|]. unfold ensure_ok in *. destruct (is_success status); [auto | discriminate].
Qed.

(** Certificate pinning: nothing is ever written to the server (the first
    thing written carries the token secret) unless the SHA-256 digest of the
    certificate it presented is the 32 bytes the configured fingerprint
    denotes, and a session is established only after that and an answer of 101
    with a complete header block. *)
Theorem pinned_certificate env p path proto r sent :
  upgrade env p path proto = (r, sent) ->
  (sent <> [] -> parse_fingerprint (sp_fingerprint p) = Ok (sha256 (ue_cert env)))
  /\ (is_ok r = true ->
      sent = [upgrade_request p path proto]
      /\ exists headers, read_headers (ue_reads env) [] = Ok headers
         /\ contains (L "101") (first_line headers) = true).
Proof.
  unfold upgrade. destruct (tls_connect env p) as [u|e] eqn:Et; intros [= <- <-].
  2:{ split; [congruence | discriminate]. }
  split.
  - intros _. unfold tls_connect, tls_connector in Et. inv_ok.
    unfold verify_server_cert in *. case_bool_decide; [congruence | discriminate].
  - intros Hr. split; [reflexivity|].
    destruct (ue_write env); [|discriminate]. cbn in Hr.
    destruct (read_headers (ue_reads env) []) as [h|] eqn:Eh; [|discriminate]. cbn in Hr.
    exists h. split; [reflexivity|]. unfold check_upgrade in Hr.
    destruct (contains (L "101") (first_line h)); [reflexivity | discriminate].
Qed.

End Properties.

Import Sample.

Definition sample_percent : PercentLib := fun s _ => s.
Definition sample_libs : SessionLibs :=
  {| status_text := dec; json_to_vec := fun _ => Ok [];
     json_parse := fun _ => Ok (JObject [(L "data", JUint 1)]) |}.
#[local] Existing Instance sample_percent.
#[local] Existing Instance sample_libs.

Definition sample_params : SessionParams :=
  {| sp_host := L "pbs"; sp_port := 8007; sp_datastore := L "store"; sp_auth_id := L "a@pbs!t";
     sp_secret := L "secret"; sp_fingerprint := hex (pad_digest (bstr "cert"));
     sp_backup_type := L "host"; sp_backup_id := L "id"; sp_backup_time := 1; sp_namespace := None |}.

Definition sample_env : upgrade_env :=
  {| ue_config := Ok tt; ue_tcp := Ok tt; ue_name_ok := true; ue_cert := bstr "cert";
     ue_tls := Ok tt; ue_write := Ok tt;
     ue_reads := map Ok (bstr "HTTP/1.1 101 Switching Protocols" ++ CRLF ++ CRLF); ue_h2 := Ok tt |}.

Lemma pinned_certificate_witness :
  let rs := backup_connect sample_env sample_params in
  is_ok (rs.1) = true /\
  (rs.2 <> [] -> parse_fingerprint (sp_fingerprint sample_params) = Ok (sha256 (bstr "cert"))).
Proof.
  split; [vm_compute; reflexivity|].
  apply (pinned_certificate sample_env sample_params
           (L "/api2/json/backup?" ++ snapshot_query sample_params) BACKUP_PROTOCOL_ID_V1
           _ _ (surjective_pairing _)).
Defined.

Lemma fetching_complete_witness :
  exists status frames,
    H2Answer 200 [Ok (bstr "ab"); Ok (bstr "c")] = H2Answer status (map Ok frames)
    /\ is_success status = true /\ bstr "abc" = concat frames.
Proof. apply (fetching_complete (plain GET (L "/download"))). vm_compute. reflexivity. Defined.
