(* ===== verification/Upload.v ===== *)
(** The deduplicated backup of a byte stream: [backup_dynamic_reader] of
    [pbs-client/src/session.rs].

    The function is concurrent: a blocking thread cuts the reader into chunks,
    the main loop receives them, and chunks the previous snapshot does not have
    are encoded and uploaded by up to [pipeline_width] tasks at once, while the
    index is built in order.  It is modelled as a step relation [step] on
    [up_state]: the main loop's position ([phase]), its local variables, the
    tasks in flight and the log of requests answered so far.  Everything the
    environment decides (when a task runs, how the server answers, what the IV
    is) is a choice of the relation.

    The theorems, by induction on the runs: an index entry is appended only
    after the upload of its chunk succeeded (or the chunk is known), and
    [/finish] is sent only after the reader ended without an error and the
    index was closed with the count, the size and the checksum of the whole
    stream; the statistics of a finished backup; that no run gets stuck and
    every run ends. *)

From Stdlib Require Import ZArith Lia Strings.Byte Ascii String Wellfounded.
From stdpp Require Import base tactics option numbers list relations.
From S2P Require Import Prelude Text Base Blob Index Repository HttpApi Session.
Open Scope Z_scope.

(** ** Statistics and progress *)

Record BackupStats := {
  st_chunks : Z; st_reused : Z; st_uploaded : Z; st_bytes : Z;
  st_uploaded_bytes : Z; st_stored_bytes : Z; st_csum : bytes }.

Record BackupProgress := {
  bp_bytes_done : Z; bp_total_bytes : Z; bp_chunks : Z; bp_reused : Z; bp_uploaded : Z;
  bp_uploaded_bytes : Z; bp_reused_bytes : Z; bp_stored_bytes : Z }.

(** ** Configuration of one backup

    [cfg_stream] are the chunks the chunker cuts the reader into, and
    [cfg_reader_end] how the chunker thread ends behind the last of them: a read
    error or a panic of the thread is an [Err].  [cfg_catalog] is the optional
    extra blob: [Some None] is a sender dropped without sending. *)

Record config := {
  cfg_params : SessionParams; cfg_archive : str; cfg_dedup : bool; cfg_compress : bool;
  cfg_total_bytes : Z; cfg_crypt : option CryptConfig;
  cfg_catalog : option (option (str * bytes));
  cfg_width : Z; cfg_uuid : bytes;
  cfg_stream : list bytes; cfg_reader_end : result PbsError unit }.

(** ** State *)

(** An upload task: before encoding, before the answer, and finished. *)
Inductive task_state :=
| Encoding
| Uploading (encoded : bytes)
| Finished (r : result PbsError unit).

Record task := { t_digest : bytes; t_data : bytes; t_state : task_state }.

(** Requests that were answered; the flag says whether the call succeeded. *)
Inductive event :=
| EvChunk (digest : bytes) (encoded : bytes) (ok : bool)
| EvAppend (digests : list bytes) (offsets : list Z) (ok : bool)
| EvClose (count size : Z) (csum : bytes) (ok : bool)
| EvBlob (name : str) (blob : bytes) (ok : bool)
| EvFinish (ok : bool).

(** Where the main task is. *)
Inductive phase :=
| Connect
| Previous
| Create
| Recv
| Acquire (digest data : bytes) (start : Z)
| Reap (digest : bytes) (start : Z)
| Drain
| Append (batches : list (list bytes * list Z))
| AwaitChunker
| Close
| Catalog
| Manifest
| Finish
| Done (stats : BackupStats)
| Failed (e : PbsError).

Record up_state := {
  u_phase : phase;
  u_known : list bytes;
  u_wid : Z;
  u_stream : list bytes;
  u_builder : Dynamic.DynamicIndexBuilder;
  u_digests : list bytes; u_offsets : list Z;
  u_end : Z; u_chunks : Z; u_reused : Z; u_uploaded : Z;
  u_uploaded_bytes : Z; u_reused_bytes : Z; u_stored : Z;
  u_inflight : list task;
  u_progress : list BackupProgress;
  u_log : list event }.

Definition set_phase (p : phase) (s : up_state) : up_state :=
  {| u_phase := p; u_known := u_known s; u_wid := u_wid s; u_stream := u_stream s;
     u_builder := u_builder s; u_digests := u_digests s; u_offsets := u_offsets s;
     u_end := u_end s; u_chunks := u_chunks s; u_reused := u_reused s;
     u_uploaded := u_uploaded s; u_uploaded_bytes := u_uploaded_bytes s;
     u_reused_bytes := u_reused_bytes s; u_stored := u_stored s;
     u_inflight := u_inflight s; u_progress := u_progress s; u_log := u_log s |}.

Definition set_known (k : list bytes) (s : up_state) : up_state :=
  {| u_phase := u_phase s; u_known := k; u_wid := u_wid s; u_stream := u_stream s;
     u_builder := u_builder s; u_digests := u_digests s; u_offsets := u_offsets s;
     u_end := u_end s; u_chunks := u_chunks s; u_reused := u_reused s;
     u_uploaded := u_uploaded s; u_uploaded_bytes := u_uploaded_bytes s;
     u_reused_bytes := u_reused_bytes s; u_stored := u_stored s;
     u_inflight := u_inflight s; u_progress := u_progress s; u_log := u_log s |}.

Definition set_wid (w : Z) (s : up_state) : up_state :=
  {| u_phase := u_phase s; u_known := u_known s; u_wid := w; u_stream := u_stream s;
     u_builder := u_builder s; u_digests := u_digests s; u_offsets := u_offsets s;
     u_end := u_end s; u_chunks := u_chunks s; u_reused := u_reused s;
     u_uploaded := u_uploaded s; u_uploaded_bytes := u_uploaded_bytes s;
     u_reused_bytes := u_reused_bytes s; u_stored := u_stored s;
     u_inflight := u_inflight s; u_progress := u_progress s; u_log := u_log s |}.

(** Receiving a chunk: the offsets move on and the chunk is counted, as reused
    or towards the bytes to upload. *)
Definition received (data : bytes) (rest : list bytes) (reuse : bool) (s : up_state) : up_state :=
  let len := Z.of_nat (length data) in
  {| u_phase := u_phase s; u_known := u_known s; u_wid := u_wid s; u_stream := rest;
     u_builder := u_builder s; u_digests := u_digests s; u_offsets := u_offsets s;
     u_end := u_end s + len; u_chunks := u_chunks s + 1;
     u_reused := if reuse then u_reused s + 1 else u_reused s;
     u_uploaded := u_uploaded s;
     u_uploaded_bytes := if reuse then u_uploaded_bytes s else u_uploaded_bytes s + len;
     u_reused_bytes := if reuse then u_reused_bytes s + len else u_reused_bytes s;
     u_stored := u_stored s; u_inflight := u_inflight s; u_progress := u_progress s;
     u_log := u_log s |}.

(** Spawning the upload of a chunk. *)
Definition spawned (digest data : bytes) (s : up_state) : up_state :=
  {| u_phase := u_phase s; u_known := u_known s; u_wid := u_wid s; u_stream := u_stream s;
     u_builder := u_builder s; u_digests := u_digests s; u_offsets := u_offsets s;
     u_end := u_end s; u_chunks := u_chunks s; u_reused := u_reused s;
     u_uploaded := u_uploaded s + 1; u_uploaded_bytes := u_uploaded_bytes s;
     u_reused_bytes := u_reused_bytes s; u_stored := u_stored s;
     u_inflight := u_inflight s ++ [{| t_digest := digest; t_data := data; t_state := Encoding |}];
     u_progress := u_progress s; u_log := u_log s |}.

Definition progress_of (total : Z) (s : up_state) : BackupProgress :=
  {| bp_bytes_done := u_end s; bp_total_bytes := total; bp_chunks := u_chunks s;
     bp_reused := u_reused s; bp_uploaded := u_uploaded s;
     bp_uploaded_bytes := u_uploaded_bytes s; bp_reused_bytes := u_reused_bytes s;
     bp_stored_bytes := u_stored s |}.

(** The end of a turn of the loop: the chunk enters the index. *)
Definition indexed (total : Z) (digest : bytes) (start : Z) (s : up_state) : up_state :=
  {| u_phase := u_phase s; u_known := u_known s; u_wid := u_wid s; u_stream := u_stream s;
     u_builder := Dynamic.push (u_builder s) (u_end s) digest;
     u_digests := u_digests s ++ [digest]; u_offsets := u_offsets s ++ [start];
     u_end := u_end s; u_chunks := u_chunks s; u_reused := u_reused s;
     u_uploaded := u_uploaded s; u_uploaded_bytes := u_uploaded_bytes s;
     u_reused_bytes := u_reused_bytes s; u_stored := u_stored s;
     u_inflight := u_inflight s; u_progress := u_progress s ++ [progress_of total s];
     u_log := u_log s |}.

(** The tasks, the bytes stored and the log after a step of a task. *)
Definition with_tasks (ts : list task) (stored : Z) (evs : list event) (s : up_state) : up_state :=
  {| u_phase := u_phase s; u_known := u_known s; u_wid := u_wid s; u_stream := u_stream s;
     u_builder := u_builder s; u_digests := u_digests s; u_offsets := u_offsets s;
     u_end := u_end s; u_chunks := u_chunks s; u_reused := u_reused s;
     u_uploaded := u_uploaded s; u_uploaded_bytes := u_uploaded_bytes s;
     u_reused_bytes := u_reused_bytes s; u_stored := u_stored s + stored;
     u_inflight := ts; u_progress := u_progress s; u_log := u_log s ++ evs |}.

(** An answered request of the main task, and where it goes on from there. *)
Definition answered (ev : bool -> event) (r : result PbsError unit) (next : phase)
    (s : up_state) : up_state :=
  set_phase (match r with Ok _ => next | Err e => Failed e end)
            (with_tasks (u_inflight s) 0 [ev (is_ok r)] s).

(** A task holds its permit until it has finished. *)
Definition is_running (t : task) : bool :=
  match t_state t with Finished _ => false | _ => true end.
Definition running (s : up_state) : Z :=
  Z.of_nat (length (List.filter is_running (u_inflight s))).

(** [l.chunks(n)]: consecutive pieces of [n] elements, the last one shorter. *)
Fixpoint chunks_fuel {A} (fuel n : nat) (l : list A) : list (list A) :=
  match fuel, l with
  | S f, _ :: _ => take n l :: chunks_fuel f n (drop n l)
  | _, _ => []
  end.
Definition chunks_of {A} (n : nat) (l : list A) : list (list A) := chunks_fuel (length l) n l.

Definition phase_ended (p : phase) : bool :=
  match p with Done _ | Failed _ => true | _ => false end.

(** ** The algorithm *)

Section Upload.
Context `{PercentLib} `{HexLib} `{SessionLibs} `{Crc32Lib} `{HashLib} `{ZstdLib} `{AeadLib}
  `{ManifestJson}.
Variable cfg : config.

(** The encoding of a chunk or of the catalog. *)
Definition encode_chunk (crypt : option CryptConfig) (compress : bool)
    (rnd : result str bytes) (data : bytes) : result PbsError bytes :=
  match crypt, compress with
  | Some c, true => encrypt_compressed_blob c rnd data
  | Some c, false => encrypt_blob c rnd data
  | None, true => Ok (encode_auto data)
  | None, false => Ok (encode_uncompressed data)
  end.

Definition known_of (prev : option bytes) : list bytes :=
  match prev with
  | Some l => match Dynamic.dyn_parse l with Ok i => Dynamic.dyn_digests i | Err _ => [] end
  | None => []
  end.

Definition batches (s : up_state) : list (list bytes * list Z) :=
  combine (chunks_of APPEND_BATCH (u_digests s)) (chunks_of APPEND_BATCH (u_offsets s)).

Definition stats_of (s : up_state) : BackupStats :=
  {| st_chunks := u_chunks s; st_reused := u_reused s; st_uploaded := u_uploaded s;
     st_bytes := Dynamic.b_total_size (u_builder s); st_uploaded_bytes := u_uploaded_bytes s;
     st_stored_bytes := u_stored s; st_csum := Dynamic.dyn_index_csum (u_builder s) |}.

Definition manifest_of (s : up_state) : BackupManifest :=
  let p := cfg_params cfg in
  manifest_new (sp_backup_type p) (sp_backup_id p) (sp_backup_time p)
    [with_crypt (cfg_archive cfg) (Dynamic.b_total_size (u_builder s))
       (Dynamic.dyn_index_csum (u_builder s)) (bool_decide (is_Some (cfg_crypt cfg)))].

Definition init : up_state :=
  {| u_phase := Connect; u_known := []; u_wid := 0; u_stream := cfg_stream cfg;
     u_builder := Dynamic.dyn_new (sp_backup_time (cfg_params cfg)) (cfg_uuid cfg);
     u_digests := []; u_offsets := []; u_end := 0; u_chunks := 0; u_reused := 0;
     u_uploaded := 0; u_uploaded_bytes := 0; u_reused_bytes := 0; u_stored := 0;
     u_inflight := []; u_progress := []; u_log := [] |}.

(** A step of an upload task: encoding on the blocking pool, then the request.
    A task that panics is joined as an error. *)
Inductive task_step (wid : Z) : task -> task -> Z -> list event -> Prop :=
| task_encoded d data rnd enc :
    encode_chunk (cfg_crypt cfg) (cfg_compress cfg) rnd data = Ok enc ->
    task_step wid {| t_digest := d; t_data := data; t_state := Encoding |}
      {| t_digest := d; t_data := data; t_state := Uploading enc |} (Z.of_nat (length enc)) []
| task_encode_failed d data rnd e :
    encode_chunk (cfg_crypt cfg) (cfg_compress cfg) rnd data = Err e ->
    task_step wid {| t_digest := d; t_data := data; t_state := Encoding |}
      {| t_digest := d; t_data := data; t_state := Finished (Err e) |} 0 []
| task_uploaded d data enc o r :
    call_result (upload_dynamic_chunk wid d (Z.of_nat (length data)) enc) o = r ->
    task_step wid {| t_digest := d; t_data := data; t_state := Uploading enc |}
      {| t_digest := d; t_data := data; t_state := Finished r |} 0 [EvChunk d enc (is_ok r)]
| task_panicked t e :
    is_running t = true ->
    task_step wid t {| t_digest := t_digest t; t_data := t_data t;
                       t_state := Finished (Err (Protocol (L "upload task failed: " ++ e))) |} 0 [].

(** Taking a finished task out of the set, in any order. *)
Definition joins (s : up_state) (r : result PbsError unit) (rest : list task) : Prop :=
  exists l1 t l2, u_inflight s = l1 ++ t :: l2 /\ t_state t = Finished r /\ rest = l1 ++ l2.

Inductive step : up_state -> up_state -> Prop :=
| step_task s l1 t l2 t' stored evs :
    u_inflight s = l1 ++ t :: l2 -> task_step (u_wid s) t t' stored evs ->
    step s (with_tasks (l1 ++ t' :: l2) stored evs s)
| step_connect s env :
    u_phase s = Connect ->
    step s (set_phase (match (backup_connect env (cfg_params cfg)).1 with
                       | Ok _ => if cfg_dedup cfg then Previous else Create
                       | Err e => Failed e
                       end) s)
| step_previous s o :
    u_phase s = Previous ->
    step s (match call_result (download_previous (cfg_archive cfg)) o with
            | Ok prev => set_phase Create (set_known (known_of prev) s)
            | Err e => set_phase (Failed e) s
            end)
| step_create s o :
    u_phase s = Create ->
    step s (match call_result (create_dynamic_index (cfg_archive cfg)) o with
            | Ok wid => set_phase Recv (set_wid wid s)
            | Err e => set_phase (Failed e) s
            end)
| step_recv_known s data rest :
    u_phase s = Recv -> u_stream s = data :: rest ->
    plain_digest (cfg_crypt cfg) data ∈ u_known s ->
    step s (indexed (cfg_total_bytes cfg) (plain_digest (cfg_crypt cfg) data) (u_end s)
              (received data rest true s))
| step_recv_new s data rest :
    u_phase s = Recv -> u_stream s = data :: rest ->
    plain_digest (cfg_crypt cfg) data ∉ u_known s ->
    step s (set_phase (Acquire (plain_digest (cfg_crypt cfg) data) data (u_end s))
              (received data rest false s))
| step_acquire s digest data start :
    u_phase s = Acquire digest data start -> running s < cfg_width cfg ->
    step s (set_phase (Reap digest start) (spawned digest data s))
| step_reap s digest start r rest :
    u_phase s = Reap digest start -> joins s r rest ->
    step s (set_phase (match r with Ok _ => Reap digest start | Err e => Failed e end)
              (with_tasks rest 0 [] s))
| step_reap_none s digest start :
    u_phase s = Reap digest start -> (forall r rest, ~ joins s r rest) ->
    step s (set_phase Recv (indexed (cfg_total_bytes cfg) digest start s))
| step_recv_end s :
    u_phase s = Recv -> u_stream s = [] -> step s (set_phase Drain s)
| step_drain s r rest :
    u_phase s = Drain -> joins s r rest ->
    step s (set_phase (match r with Ok _ => Drain | Err e => Failed e end)
              (with_tasks rest 0 [] s))
| step_drain_done s :
    u_phase s = Drain -> u_inflight s = [] ->
    step s (set_phase (Append (batches s)) s)
| step_append s ds offs bs o :
    u_phase s = Append ((ds, offs) :: bs) ->
    step s (answered (EvAppend ds offs)
              (call_result (append_dynamic_index (u_wid s) ds offs) o) (Append bs) s)
| step_append_done s :
    u_phase s = Append [] -> step s (set_phase AwaitChunker s)
| step_chunker s :
    u_phase s = AwaitChunker ->
    step s (set_phase (match cfg_reader_end cfg with Ok _ => Close | Err e => Failed e end) s)
| step_close s o :
    u_phase s = Close ->
    let count := Dynamic.entry_count (u_builder s) in
    let size := Dynamic.b_total_size (u_builder s) in
    let csum := Dynamic.dyn_index_csum (u_builder s) in
    step s (answered (EvClose count size csum)
              (call_result (close_dynamic_index (u_wid s) count size csum) o) Catalog s)
| step_catalog_none s :
    u_phase s = Catalog -> (forall name content, cfg_catalog cfg <> Some (Some (name, content))) ->
    step s (set_phase Manifest s)
| step_catalog_failed s name content rnd e :
    u_phase s = Catalog -> cfg_catalog cfg = Some (Some (name, content)) ->
    encode_chunk (cfg_crypt cfg) (cfg_compress cfg) rnd content = Err e ->
    step s (set_phase (Failed e) s)
| step_catalog s name content rnd blob o :
    u_phase s = Catalog -> cfg_catalog cfg = Some (Some (name, content)) ->
    encode_chunk (cfg_crypt cfg) (cfg_compress cfg) rnd content = Ok blob ->
    step s (answered (EvBlob name blob) (call_result (upload_blob name blob) o) Manifest s)
| step_manifest_failed s e :
    u_phase s = Manifest -> to_json_bytes (manifest_of s) = Err e ->
    step s (set_phase (Failed (Protocol (L "encoding manifest: " ++ e))) s)
| step_manifest s js o :
    u_phase s = Manifest -> to_json_bytes (manifest_of s) = Ok js ->
    let blob := encode_uncompressed js in
    step s (answered (EvBlob MANIFEST_BLOB_NAME blob)
              (call_result (upload_blob MANIFEST_BLOB_NAME blob) o) Finish s)
| step_finish s o :
    u_phase s = Finish ->
    step s (answered EvFinish (call_result finish o) (Done (stats_of s)) s).

Definition reachable (s : up_state) : Prop := rtc step init s.

(** ** What a run has done *)

Abbreviation dg := (plain_digest (cfg_crypt cfg)).

Definition total (l : list bytes) : Z := Z.of_nat (length (concat l)).

(** Start offsets and index entries of a sequence of chunks. *)
Fixpoint starts_from (o : Z) (l : list bytes) : list Z :=
  match l with
  | [] => []
  | c :: l' => o :: starts_from (o + Z.of_nat (length c)) l'
  end.

Fixpoint entries_from (o : Z) (l : list bytes) : list (Z * bytes) :=
  match l with
  | [] => []
  | c :: l' => (o + Z.of_nat (length c), dg c) :: entries_from (o + Z.of_nat (length c)) l'
  end.

(** The index of the whole stream. *)
Definition stream_builder : Dynamic.DynamicIndexBuilder :=
  {| Dynamic.b_ctime := sp_backup_time (cfg_params cfg); Dynamic.b_uuid := cfg_uuid cfg;
     Dynamic.b_entries := entries_from 0 (cfg_stream cfg) |}.

(** The entries the server accepted so far. *)
Definition appended (l : list event) : list (bytes * Z) :=
  concat (map (fun ev => match ev with EvAppend ds offs true => combine ds offs | _ => [] end) l).

Definition pairs (bs : list (list bytes * list Z)) : list (bytes * Z) :=
  concat (map (fun '(ds, offs) => combine ds offs) bs).

(** Known from the previous snapshot, or uploaded successfully. *)
Definition stored (known : list bytes) (l : list event) (d : bytes) : Prop :=
  d ∈ known \/ exists enc, EvChunk d enc true ∈ l.

Definition close_event (ok : bool) : event :=
  EvClose (Z.of_nat (length (cfg_stream cfg))) (total (cfg_stream cfg))
    (Dynamic.dyn_index_csum stream_builder) ok.

(** The whole stream is on the server: every chunk stored, every entry
    appended in order, and the reader ended without an error. *)
Definition stream_stored (known : list bytes) (l : list event) : Prop :=
  cfg_reader_end cfg = Ok tt
  /\ Forall (fun c => stored known l (dg c)) (cfg_stream cfg)
  /\ appended l = combine (map dg (cfg_stream cfg)) (starts_from 0 (cfg_stream cfg)).

(** What has to be in the log before an event. *)
Definition guard_ev (known : list bytes) (l : list event) (ev : event) : Prop :=
  match ev with
  | EvChunk _ _ _ => True
  | EvAppend ds _ _ => Forall (stored known l) ds
  | EvClose n sz cs ok => EvClose n sz cs ok = close_event ok /\ stream_stored known l
  | EvBlob _ _ _ => close_event true ∈ l /\ stream_stored known l
  | EvFinish _ =>
      close_event true ∈ l /\ stream_stored known l
      /\ exists blob, EvBlob MANIFEST_BLOB_NAME blob true ∈ l
  end.

Definition log_ok (known : list bytes) (l : list event) : Prop :=
  forall l1 ev l2, l = l1 ++ ev :: l2 -> guard_ev known l1 ev.

(** Chunks in the index are stored, or their upload is still in flight. *)
Definition covered (s : up_state) (d : bytes) : Prop :=
  stored (u_known s) (u_log s) d \/ exists t, t ∈ u_inflight s /\ t_digest t = d.

Definition tasks_ok (s : up_state) : Prop :=
  forall t u, t ∈ u_inflight s -> t_state t = Finished (Ok u) ->
  exists enc, EvChunk (t_digest t) enc true ∈ u_log s.

(** The chunk received but not yet in the index. *)
Definition pend_ok (s : up_state) (pre pend : list bytes) : Prop :=
  match u_phase s with
  | Acquire d data start => pend = [data] /\ d = dg data /\ start = total pre
  | Reap d start =>
      covered s d /\ exists data, pend = [data] /\ d = dg data /\ start = total pre
  | _ => pend = []
  end.

Definition all_appended (s : up_state) : Prop :=
  u_stream s = [] /\ u_inflight s = []
  /\ appended (u_log s) = combine (u_digests s) (u_offsets s).

Definition phase_ok (s : up_state) : Prop :=
  match u_phase s with
  | Connect | Previous | Create => u_log s = [] /\ u_inflight s = [] /\ u_digests s = []
  | Recv | Acquire _ _ _ | Reap _ _ => appended (u_log s) = []
  | Drain => appended (u_log s) = [] /\ u_stream s = []
  | Append bs =>
      u_stream s = [] /\ u_inflight s = []
      /\ appended (u_log s) ++ pairs bs = combine (u_digests s) (u_offsets s)
      /\ Forall (fun b => Forall (stored (u_known s) (u_log s)) (b.1)) bs
  | AwaitChunker => all_appended s
  | Close => all_appended s /\ cfg_reader_end cfg = Ok tt
  | Catalog | Manifest =>
      all_appended s /\ cfg_reader_end cfg = Ok tt /\ close_event true ∈ u_log s
  | Finish =>
      all_appended s /\ cfg_reader_end cfg = Ok tt /\ close_event true ∈ u_log s
      /\ exists blob, EvBlob MANIFEST_BLOB_NAME blob true ∈ u_log s
  | Done st => all_appended s /\ st = stats_of s /\ EvFinish true ∈ u_log s
  | Failed _ => True
  end.

(** The main loop's variables, by the chunks already in the index ([pre]) and
    the one being handled ([pend]). *)
Record vars_ok (s : up_state) (pre pend : list bytes) : Prop := {
  v_stream : cfg_stream cfg = pre ++ pend ++ u_stream s;
  v_digests : u_digests s = map dg pre;
  v_offsets : u_offsets s = starts_from 0 pre;
  v_builder : u_builder s =
    {| Dynamic.b_ctime := sp_backup_time (cfg_params cfg); Dynamic.b_uuid := cfg_uuid cfg;
       Dynamic.b_entries := entries_from 0 pre |};
  v_end : u_end s = total (pre ++ pend);
  v_chunks : u_chunks s = Z.of_nat (length (pre ++ pend));
  v_counts : u_reused s + u_uploaded s
             + match u_phase s with Acquire _ _ _ => 1 | _ => 0 end = u_chunks s;
  v_bytes : u_reused_bytes s + u_uploaded_bytes s = u_end s;
  v_covered : Forall (covered s) (u_digests s) }.

Definition live (s : up_state) : Prop :=
  phase_ok s /\ exists pre pend, vars_ok s pre pend /\ pend_ok s pre pend.

Definition inv (s : up_state) : Prop :=
  log_ok (u_known s) (u_log s) /\ tasks_ok s
  /\ match u_phase s with Failed _ => True | _ => live s end.

#[local] Arguments appended : simpl never.
#[local] Arguments total : simpl never.
#[local] Arguments pairs : simpl never.
#[local] Arguments covered : simpl never.
#[local] Arguments starts_from : simpl nomatch.
#[local] Arguments entries_from : simpl nomatch.

(** *** Sequences of chunks *)

Lemma total_app l1 l2 : total (l1 ++ l2) = total l1 + total l2.
Proof. unfold total. rewrite concat_app, length_app. lia. Qed.

Lemma total_single c : total [c] = Z.of_nat (length c).
Proof. unfold total. cbn. rewrite app_nil_r. reflexivity. Qed.

Lemma starts_from_snoc o l c : starts_from o (l ++ [c]) = starts_from o l ++ [o + total l].
Proof.
  revert o; induction l as [|a l IH]; intros o; cbn [app starts_from].
  - f_equal. unfold total. cbn. lia.
  - rewrite IH. cbn. do 3 f_equal. change (a :: l) with ([a] ++ l).
    rewrite total_app, total_single. lia.
Qed.

Lemma entries_from_snoc o l c :
  entries_from o (l ++ [c]) = entries_from o l ++ [(o + total (l ++ [c]), dg c)].
Proof.
  revert o; induction l as [|a l IH]; intros o; cbn [app entries_from].
  - rewrite total_single. reflexivity.
  - rewrite IH. cbn. do 4 f_equal. change (a :: l ++ [c]) with ([a] ++ (l ++ [c])).
    rewrite (total_app [a]), total_single. lia.
Qed.

Lemma length_starts_from o l : length (starts_from o l) = length l.
Proof. revert o; induction l; intros; cbn; auto. Qed.

Lemma length_entries_from o l : length (entries_from o l) = length l.
Proof. revert o; induction l; intros; cbn; auto. Qed.

Lemma digests_entries_from o l : map snd (entries_from o l) = map dg l.
Proof. revert o; induction l as [|c l IH]; intros o; cbn; [reflexivity | rewrite IH; reflexivity]. Qed.

Lemma last_end_entries l : Dynamic.last_end (entries_from 0 l) = total l.
Proof.
  destruct l as [|c l _] using rev_ind; [reflexivity|].
  rewrite entries_from_snoc. unfold Dynamic.last_end. rewrite last_snoc. reflexivity.
Qed.

Lemma combine_app {A B} (a x : list A) (b y : list B) :
  length a = length b -> combine (a ++ x) (b ++ y) = combine a b ++ combine x y.
Proof.
  revert b; induction a as [|c a IH]; intros [|d b] Hl; try discriminate; [reflexivity|].
  cbn. rewrite IH by (cbn in Hl; lia). reflexivity.
Qed.

(** Zipping two lists piece by piece is zipping them. *)
Lemma pairs_combine_chunks_fuel n f (ds : list bytes) (os : list Z) :
  (0 < n)%nat -> length ds = length os -> (length ds <= f)%nat ->
  pairs (combine (chunks_fuel f n ds) (chunks_fuel f n os)) = combine ds os.
Proof.
  intros Hn. revert ds os. induction f as [|f IH]; intros ds os Hl Hf.
  - destruct ds; [reflexivity | cbn in Hf; lia].
  - destruct ds as [|d ds], os as [|o os]; try discriminate; [reflexivity|].
    cbn [chunks_fuel combine]. change (pairs (?b :: ?l)) with (combine (fst b) (snd b) ++ pairs l).
    cbn [fst snd]. rewrite IH; cycle 1.
    { rewrite !length_drop. cbn in *. lia. }
    { rewrite length_drop. cbn in *. lia. }
    rewrite <- combine_app by (rewrite !length_take, Hl; reflexivity).
    rewrite !take_drop. reflexivity.
Qed.

Lemma chunks_fuel_elem {A} (f n : nat) (l c : list A) : c ∈ chunks_fuel f n l -> forall x, x ∈ c -> x ∈ l.
Proof.
  revert l; induction f as [|f IH]; intros l Hc x Hx; cbn in Hc; [apply elem_of_nil in Hc as []|].
  destruct l as [|a l]; [apply elem_of_nil in Hc as []|].
  rewrite <- (take_drop n (a :: l)). apply elem_of_app.
  apply elem_of_cons in Hc as [->|Hc]; [left; exact Hx | right; eapply IH; eassumption].
Qed.

(** *** Logs *)

Lemma stored_app known l l' d : stored known l d -> stored known (l ++ l') d.
Proof.
  intros [Hd | [enc He]]; [left; exact Hd|]. right. exists enc. apply elem_of_app. auto.
Qed.

Lemma stored_app_Forall known l l' ds :
  Forall (stored known l) ds -> Forall (stored known (l ++ l')) ds.
Proof. intros Hf. eapply Forall_impl; [exact Hf|]. intros d. apply stored_app. Qed.

Lemma covered_app s s' d :
  u_known s' = u_known s -> (exists l, u_log s' = u_log s ++ l) ->
  (forall t, t ∈ u_inflight s -> t_digest t = d ->
     stored (u_known s') (u_log s') d \/ exists t', t' ∈ u_inflight s' /\ t_digest t' = d) ->
  covered s d -> covered s' d.
Proof.
  intros Hk [l Hl] Ht [Hs | (t & Hin & Hd)].
  - left. rewrite Hk, Hl. apply stored_app, Hs.
  - apply (Ht t Hin Hd).
Qed.

Lemma appended_app l1 l2 : appended (l1 ++ l2) = appended l1 ++ appended l2.
Proof. unfold appended. rewrite map_app, concat_app. reflexivity. Qed.

Lemma log_ok_nil known : log_ok known [].
Proof. intros [|? ?] ev l2; discriminate. Qed.

Lemma log_ok_snoc known l ev : log_ok known l -> guard_ev known l ev -> log_ok known (l ++ [ev]).
Proof.
  intros Hl Hg l1 ev' l2 E. destruct l2 as [|x l2 _] using rev_ind.
  - apply app_inj_tail in E as [-> ->]. exact Hg.
  - change (l1 ++ ev' :: l2 ++ [x]) with (l1 ++ (ev' :: l2) ++ [x]) in E.
    rewrite app_assoc in E. apply app_inj_tail in E as [-> ->]. apply (Hl l1 ev' l2). reflexivity.
Qed.

Lemma task_step_facts wid t t' st evs :
  task_step wid t t' st evs ->
  t_digest t' = t_digest t /\ is_running t = true /\ appended evs = []
  /\ (evs = [] \/ exists enc ok, evs = [EvChunk (t_digest t) enc ok])
  /\ (forall u, t_state t' = Finished (Ok u) -> exists enc, evs = [EvChunk (t_digest t) enc true]).
Proof.
  intros Hs. destruct Hs; cbn; repeat split; auto; try (intros u; discriminate); eauto.
  intros u Eu. injection Eu as ->. eauto.
Qed.

(** *** Preservation of the invariant *)

Lemma covered_task s l1 t l2 t' st evs d :
  u_inflight s = l1 ++ t :: l2 -> task_step (u_wid s) t t' st evs ->
  covered s d -> covered (with_tasks (l1 ++ t' :: l2) st evs s) d.
Proof.
  intros Hi Ht. apply task_step_facts in Ht as (Hd & _).
  apply covered_app; [reflexivity | exists evs; reflexivity |].
  intros t0 Hin Hd0. right. cbn. rewrite Hi in Hin.
  apply elem_of_app in Hin as [Hin|Hin]; [exists t0; split; [apply elem_of_app; auto | exact Hd0]|].
  apply elem_of_cons in Hin as [->|Hin].
  - exists t'. split; [apply elem_of_app; right; left | congruence].
  - exists t0. split; [apply elem_of_app; right; right; exact Hin | exact Hd0].
Qed.

Lemma inv_task s l1 t l2 t' st evs :
  u_inflight s = l1 ++ t :: l2 -> task_step (u_wid s) t t' st evs ->
  inv s -> inv (with_tasks (l1 ++ t' :: l2) st evs s).
Proof.
  intros Hi Ht (Hlog & Htasks & Hlive).
  assert (Hc := fun d => covered_task s l1 t l2 t' st evs d Hi Ht).
  apply task_step_facts in Ht as (Hd & Hrun & Happ & Hevs & Hfin).
  assert (Hni : u_inflight s <> []) by (rewrite Hi; destruct l1; discriminate).
  split; [|split].
  - cbn. destruct Hevs as [->|(enc & ok & ->)]; [rewrite app_nil_r; exact Hlog|].
    apply log_ok_snoc; [exact Hlog | exact I].
  - intros t0 u Hin Hst. cbn in *. apply elem_of_app in Hin as [Hin|Hin].
    2: apply elem_of_cons in Hin as [->|Hin].
    2:{ destruct (Hfin u Hst) as [enc ->]. exists enc. rewrite Hd. apply elem_of_app. right. left. }
    all: destruct (Htasks t0 u) as [enc He];
      [rewrite Hi; apply elem_of_app; first [left; exact Hin | right; right; exact Hin]
      | exact Hst | exists enc; apply elem_of_app; left; exact He].
  - change (u_phase (with_tasks (l1 ++ t' :: l2) st evs s)) with (u_phase s).
    destruct (u_phase s) eqn:Hp; try exact I; destruct Hlive as (Hph & pre & pend & Hv & Hpe);
      unfold phase_ok in Hph; rewrite Hp in Hph; unfold all_appended in Hph;
      try (exfalso; apply Hni; tauto).
    all: split; [unfold phase_ok; cbn; rewrite Hp, appended_app, Happ, app_nil_r; exact Hph|].
    all: exists pre, pend; split;
      [destruct Hv; constructor; cbn; rewrite ?Hp in *; try assumption;
       eapply Forall_impl; eassumption
      | unfold pend_ok in *; cbn; rewrite Hp in *;
        solve [exact Hpe | destruct Hpe as [Hcov Hpe]; split; [apply Hc, Hcov | exact Hpe]]].
Qed.

(** Joining a task keeps its digest covered, by the log. *)
Lemma covered_join s u rest d :
  tasks_ok s -> joins s (Ok u) rest -> covered s d ->
  covered (with_tasks rest 0 [] s) d.
Proof.
  intros Htasks (l1 & t & l2 & Hi & Hst & ->).
  apply covered_app; [reflexivity | exists []; reflexivity |].
  intros t0 Hin Hd0. cbn. rewrite app_nil_r. rewrite Hi in Hin.
  apply elem_of_app in Hin as [Hin|Hin]; [right; exists t0; split; [apply elem_of_app; auto | exact Hd0]|].
  apply elem_of_cons in Hin as [->|Hin].
  - left. right. subst d. apply (Htasks t u); [rewrite Hi; apply elem_of_app; right; left | exact Hst].
  - right. exists t0. split; [apply elem_of_app; auto | exact Hd0].
Qed.

Lemma tasks_ok_join s r rest :
  tasks_ok s -> joins s r rest -> tasks_ok (with_tasks rest 0 [] s).
Proof.
  intros Htasks (l1 & t & l2 & Hi & Hst & ->) t0 u Hin Hf. cbn in *. rewrite app_nil_r.
  apply (Htasks t0 u); [|exact Hf]. rewrite Hi. apply elem_of_app in Hin as [Hin|Hin];
    apply elem_of_app; [left | right; right]; exact Hin.
Qed.

(** Unfolds the invariant of a state whose phase is known. *)
Ltac open_inv Hinv Hp :=
  destruct Hinv as (Hlog & Htasks & Hlive); rewrite Hp in Hlive;
  destruct Hlive as (Hph & pre & pend & Hv & Hpe);
  unfold phase_ok in Hph; unfold pend_ok in Hpe; rewrite Hp in Hph, Hpe.

(** Phases without a chunk in hand. *)
Definition at_rest (p : phase) : bool :=
  match p with Acquire _ _ _ | Reap _ _ | Failed _ => false | _ => true end.

Lemma at_rest_pend s pre pend : at_rest (u_phase s) = true -> pend_ok s pre pend <-> pend = [].
Proof. unfold pend_ok. destruct (u_phase s); cbn; try discriminate; tauto. Qed.

Lemma inv_live s : at_rest (u_phase s) = true -> inv s -> live s.
Proof. intros Hr (_ & _ & Hl). destruct (u_phase s); try discriminate; exact Hl. Qed.

(** Going from one phase at rest to another with the variables, the tasks and
    the known set as they are, and possibly one more answered request. *)
Lemma inv_rest s evs p :
  at_rest (u_phase s) = true -> inv s ->
  log_ok (u_known s) (u_log s ++ evs) ->
  match p with
  | Failed _ => True
  | _ => at_rest p = true
         /\ (forall pre, vars_ok s pre [] -> phase_ok s ->
             phase_ok (set_phase p (with_tasks (u_inflight s) 0 evs s)))
  end ->
  inv (set_phase p (with_tasks (u_inflight s) 0 evs s)).
Proof.
  intros Hr Hi Hlog' Hp. assert (Hl := inv_live s Hr Hi). destruct Hi as (Hlog & Htasks & _).
  set (s' := set_phase p _).
  assert (Hcov : forall d, covered s d -> covered s' d).
  { intros d. apply covered_app; [reflexivity | exists evs; reflexivity | eauto]. }
  split; [exact Hlog' | split].
  - intros t u Hin Hst. destruct (Htasks t u Hin Hst) as [enc He]. exists enc.
    apply elem_of_app. left. exact He.
  - destruct Hl as (Hph & pre & pend & Hv & Hpe).
    apply (at_rest_pend s pre pend Hr) in Hpe as ->.
    assert (Hv' : match p with Failed _ => True | _ => vars_ok s' pre [] end).
    { assert (Hz : at_rest p = true -> vars_ok s' pre []).
      { intros Hrp. destruct Hv; constructor; try assumption; subst s'; cbn.
        - rewrite <- v_counts0. destruct p, (u_phase s); try discriminate; reflexivity.
        - eapply Forall_impl; [exact v_covered0 | exact Hcov]. }
      destruct p; try exact I; apply Hz, Hp. }
    destruct p; cbn in Hp; try exact I; try (destruct Hp as [Hrp _]; discriminate Hrp);
      (split; [apply (proj2 Hp pre Hv Hph) | exists pre, []; split; [exact Hv' | reflexivity]]).
Qed.

(** The same without a request. *)
Lemma inv_goto s p :
  at_rest (u_phase s) = true -> inv s ->
  match p with
  | Failed _ => True
  | _ => at_rest p = true
         /\ (forall pre, vars_ok s pre [] -> phase_ok s -> phase_ok (set_phase p s))
  end -> inv (set_phase p s).
Proof.
  intros Hr Hi Hp.
  assert (E : set_phase p s = set_phase p (with_tasks (u_inflight s) 0 [] s)).
  { destruct s. unfold set_phase, with_tasks. cbn. rewrite app_nil_r, Z.add_0_r. reflexivity. }
  rewrite E. apply inv_rest; [exact Hr | exact Hi | |].
  - rewrite app_nil_r. apply Hi.
  - rewrite <- E. exact Hp.
Qed.

Lemma inv_answered s ev r next :
  at_rest (u_phase s) = true -> inv s ->
  guard_ev (u_known s) (u_log s) (ev (is_ok r)) -> at_rest next = true ->
  (forall pre, is_ok r = true -> vars_ok s pre [] -> phase_ok s ->
     phase_ok (set_phase next (with_tasks (u_inflight s) 0 [ev true] s))) ->
  inv (answered ev r next s).
Proof.
  intros Hr Hi Hg Hn Hph. unfold answered. apply inv_rest; [exact Hr | exact Hi | |].
  - apply log_ok_snoc; [apply Hi | exact Hg].
  - destruct r as [u|e]; [|exact I]. destruct next; try discriminate Hn;
      (split; [reflexivity|]; intros pre Hv Hs; apply (Hph pre eq_refl Hv Hs)).
Qed.

Lemma inv_init : inv init.
Proof.
  split; [apply log_ok_nil | split].
  - intros t u Hin. apply elem_of_nil in Hin as [].
  - split; [cbn; auto|]. exists [], []. split; [constructor; cbn; auto | reflexivity].
Qed.

Lemma inv_previous s prev : u_phase s = Previous -> inv s ->
  inv (set_phase Create (set_known (known_of prev) s)).
Proof.
  intros Hp Hi. open_inv Hi Hp. destruct Hph as (Hl & Hin & Hd). subst pend.
  split; [cbn; rewrite Hl; apply log_ok_nil | split].
  - intros t u Ht. cbn in Ht. rewrite Hin in Ht. apply elem_of_nil in Ht as [].
  - split; [cbn; auto|]. exists pre, []. split; [|reflexivity].
    destruct Hv; constructor; cbn; rewrite ?Hp in *; try assumption.
    rewrite Hd. constructor.
Qed.

Lemma inv_create s wid : u_phase s = Create -> inv s -> inv (set_phase Recv (set_wid wid s)).
Proof.
  intros Hp Hi. open_inv Hi Hp. destruct Hph as (Hl & Hin & Hd). subst pend.
  split; [exact Hlog | split; [exact Htasks|]].
  split; [cbn; rewrite Hl; reflexivity|]. exists pre, []. split; [|reflexivity].
  destruct Hv; constructor; cbn; rewrite ?Hp in *; assumption.
Qed.

Lemma inv_recv_known s data rest :
  u_phase s = Recv -> u_stream s = data :: rest -> dg data ∈ u_known s -> inv s ->
  inv (indexed (cfg_total_bytes cfg) (dg data) (u_end s) (received data rest true s)).
Proof.
  intros Hp Hst Hk Hi. open_inv Hi Hp. subst pend.
  split; [exact Hlog | split; [exact Htasks|]]. cbn. rewrite Hp.
  split; [unfold phase_ok; cbn; rewrite Hp; exact Hph|].
  exists (pre ++ [data]), []. split; [|unfold pend_ok; cbn; rewrite Hp; reflexivity].
  destruct Hv. rewrite app_nil_r in *. constructor; cbn; rewrite ?Hp, ?app_nil_r in *; try lia.
  - rewrite v_stream0, Hst, <- app_assoc. reflexivity.
  - rewrite v_digests0, map_app. reflexivity.
  - rewrite v_offsets0, starts_from_snoc, v_end0. f_equal.
  - rewrite v_builder0. unfold Dynamic.push. cbn. rewrite entries_from_snoc, v_end0, total_app,
      total_single. reflexivity.
  - rewrite v_end0, total_app, total_single. reflexivity.
  - rewrite v_chunks0, length_app. cbn. lia.
  - apply Forall_app. split; [exact v_covered0|].
    apply Forall_singleton. left. left. exact Hk.
Qed.

Lemma inv_recv_new s data rest :
  u_phase s = Recv -> u_stream s = data :: rest -> inv s ->
  inv (set_phase (Acquire (dg data) data (u_end s)) (received data rest false s)).
Proof.
  intros Hp Hst Hi. open_inv Hi Hp. subst pend.
  split; [exact Hlog | split; [exact Htasks|]]. cbn.
  split; [exact Hph|]. exists pre, [data]. destruct Hv. rewrite app_nil_r in *. split.
  - constructor; cbn; rewrite ?Hp in *; try assumption; try lia.
    + rewrite v_stream0, Hst. reflexivity.
    + rewrite v_end0, total_app, total_single. reflexivity.
    + rewrite v_chunks0, length_app. cbn. lia.
  - cbn. auto.
Qed.

Lemma inv_acquire s d data start :
  u_phase s = Acquire d data start -> inv s ->
  inv (set_phase (Reap d start) (spawned d data s)).
Proof.
  intros Hp Hi. open_inv Hi Hp. destruct Hpe as (-> & Hd & Hs).
  set (t := {| t_digest := d; t_data := data; t_state := Encoding |}).
  assert (Hcov : forall x, covered s x -> covered (set_phase (Reap d start) (spawned d data s)) x).
  { intros x. apply covered_app; [reflexivity | exists []; cbn; rewrite app_nil_r; reflexivity|].
    intros t0 Hin Hx. right. exists t0. split; [apply elem_of_app; left; exact Hin | exact Hx]. }
  split; [exact Hlog | split].
  - intros t0 u Hin Hf. cbn in *. apply elem_of_app in Hin as [Hin|Hin]; [apply (Htasks t0 u Hin Hf)|].
    apply list_elem_of_singleton in Hin as ->. discriminate Hf.
  - split; [exact Hph|]. exists pre, [data]. split.
    + destruct Hv; constructor; cbn; rewrite ?Hp in *; try assumption; try lia.
      eapply Forall_impl; [exact v_covered0 | exact Hcov].
    + split; [|exists data; auto]. right. exists t. split; [|reflexivity].
      apply elem_of_app. right. left.
Qed.

Lemma inv_reap s d start r rest :
  u_phase s = Reap d start -> joins s r rest -> inv s ->
  inv (set_phase (match r with Ok _ => Reap d start | Err e => Failed e end)
         (with_tasks rest 0 [] s)).
Proof.
  intros Hp Hj Hi. open_inv Hi Hp. destruct Hpe as (Hc & Hpe).
  split; [cbn; rewrite app_nil_r; exact Hlog | split; [apply (tasks_ok_join s r rest Htasks Hj)|]].
  destruct r as [u|e]; [|exact I]. split; [cbn; rewrite app_nil_r; exact Hph|].
  assert (Hcov := fun x => covered_join s u rest x Htasks Hj).
  exists pre, pend. split; [|split; [apply (Hcov d Hc) | exact Hpe]].
  destruct Hv; constructor; cbn; rewrite ?Hp in *; try assumption.
  eapply Forall_impl; [exact v_covered0 | exact Hcov].
Qed.

Lemma inv_reap_none s d start :
  u_phase s = Reap d start -> inv s ->
  inv (set_phase Recv (indexed (cfg_total_bytes cfg) d start s)).
Proof.
  intros Hp Hi. open_inv Hi Hp. destruct Hpe as (Hc & data & -> & -> & ->).
  split; [exact Hlog | split; [exact Htasks|]].
  split; [exact Hph|]. exists (pre ++ [data]), []. split; [|reflexivity].
  destruct Hv. constructor; cbn; rewrite ?Hp, ?app_nil_r in *; try assumption.
  - rewrite v_stream0, <- app_assoc. reflexivity.
  - rewrite v_digests0, map_app. reflexivity.
  - rewrite v_offsets0, starts_from_snoc. reflexivity.
  - rewrite v_builder0. unfold Dynamic.push. cbn. rewrite entries_from_snoc, v_end0. reflexivity.
  - apply Forall_app. split; [exact v_covered0|].
    apply Forall_singleton. exact Hc.
Qed.

Lemma inv_drain s r rest :
  u_phase s = Drain -> joins s r rest -> inv s ->
  inv (set_phase (match r with Ok _ => Drain | Err e => Failed e end) (with_tasks rest 0 [] s)).
Proof.
  intros Hp Hj Hi. open_inv Hi Hp.
  split; [cbn; rewrite app_nil_r; exact Hlog | split; [apply (tasks_ok_join s r rest Htasks Hj)|]].
  destruct r as [u|e]; [|exact I]. split; [cbn; rewrite app_nil_r; exact Hph|].
  assert (Hcov := fun x => covered_join s u rest x Htasks Hj).
  exists pre, pend. split; [|exact Hpe].
  destruct Hv; constructor; cbn; rewrite ?Hp in *; try assumption.
  eapply Forall_impl; [exact v_covered0 | exact Hcov].
Qed.

(** Once no upload is in flight, every chunk of the index is stored. *)
Lemma covered_stored s d : u_inflight s = [] -> covered s d -> stored (u_known s) (u_log s) d.
Proof. intros Hi [Hs | (t & Ht & _)]; [exact Hs|]. rewrite Hi in Ht. apply elem_of_nil in Ht as []. Qed.

Lemma inv_drain_done s :
  u_phase s = Drain -> u_inflight s = [] -> inv s -> inv (set_phase (Append (batches s)) s).
Proof.
  intros Hp Hin Hi. apply inv_goto; [rewrite Hp; reflexivity | exact Hi |].
  split; [reflexivity|]. intros pre Hv Hph. unfold phase_ok in Hph. rewrite Hp in Hph.
  destruct Hph as [Ha Hs]. destruct Hv. cbn. split; [exact Hs | split; [exact Hin | split]].
  - rewrite Ha. cbn. unfold batches, chunks_of.
    assert (Hl : length (u_digests s) = length (u_offsets s)).
    { rewrite v_digests0, v_offsets0, length_starts_from, length_map. reflexivity. }
    rewrite Hl. apply pairs_combine_chunks_fuel; [unfold APPEND_BATCH; lia | exact Hl | lia].
  - apply Forall_forall. intros [ds os] Hb. apply Forall_forall. intros d Hd.
    apply covered_stored; [exact Hin|]. rewrite Forall_forall in v_covered0. apply v_covered0.
    apply (chunks_fuel_elem (length (u_digests s)) APPEND_BATCH _ ds); [|exact Hd].
    apply list_elem_of_In in Hb. apply in_combine_l in Hb. apply list_elem_of_In, Hb.
Qed.

Lemma inv_append s ds offs bs r :
  u_phase s = Append ((ds, offs) :: bs) -> inv s -> inv (answered (EvAppend ds offs) r (Append bs) s).
Proof.
  intros Hp Hi. assert (Hi' := Hi). open_inv Hi' Hp. destruct Hph as (Hs & Hin & Ha & Hst).
  apply Forall_cons in Hst as [Hd Hst].
  apply inv_answered; [rewrite Hp; reflexivity | exact Hi | exact Hd | reflexivity |].
  intros pre' _ _ _. cbn. split; [exact Hs | split; [exact Hin | split]].
  - rewrite <- Ha, appended_app, <- app_assoc. unfold appended at 2, pairs at 2. cbn.
    rewrite app_nil_r. reflexivity.
  - eapply Forall_impl; [exact Hst|]. intros b. apply stored_app_Forall.
Qed.

(** Behind the last append the main task's variables describe the stream. *)
Lemma whole_stream s pre :
  vars_ok s pre [] -> all_appended s -> cfg_reader_end cfg = Ok tt ->
  u_builder s = stream_builder /\ stream_stored (u_known s) (u_log s).
Proof.
  intros Hv (Hs & Hin & Ha) Hr. destruct Hv.
  assert (E : cfg_stream cfg = pre) by (rewrite v_stream0, Hs, app_nil_r; reflexivity).
  unfold stream_builder. rewrite E. split; [exact v_builder0|].
  split; [exact Hr | rewrite E; split].
  - rewrite v_digests0, Forall_map in v_covered0.
    eapply Forall_impl; [exact v_covered0|]. intros c Hc. apply covered_stored; assumption.
  - rewrite Ha, v_digests0, v_offsets0. reflexivity.
Qed.

Lemma close_event_of s ok : u_builder s = stream_builder ->
  EvClose (Dynamic.entry_count (u_builder s)) (Dynamic.b_total_size (u_builder s))
    (Dynamic.dyn_index_csum (u_builder s)) ok = close_event ok.
Proof.
  intros ->. unfold close_event, Dynamic.entry_count, Dynamic.b_total_size. cbn.
  rewrite last_end_entries, length_entries_from. reflexivity.
Qed.

Lemma all_appended_snoc s p ev :
  appended [ev] = [] -> all_appended s ->
  all_appended (set_phase p (with_tasks (u_inflight s) 0 [ev] s)).
Proof.
  intros He (Hs & Hin & Ha). split; [exact Hs | split; [exact Hin|]]. cbn.
  rewrite appended_app, He, app_nil_r. exact Ha.
Qed.

Lemma inv_close s r : u_phase s = Close -> inv s ->
  inv (answered (EvClose (Dynamic.entry_count (u_builder s)) (Dynamic.b_total_size (u_builder s))
         (Dynamic.dyn_index_csum (u_builder s))) r Catalog s).
Proof.
  intros Hp Hi. assert (Hi' := Hi). open_inv Hi' Hp. destruct Hph as [Ha Hr]. subst pend.
  destruct (whole_stream s pre Hv Ha Hr) as [Hb Hs].
  apply inv_answered; [rewrite Hp; reflexivity | exact Hi | | reflexivity |].
  - split; [apply close_event_of, Hb | exact Hs].
  - intros pre' _ _ _. split; [apply all_appended_snoc; [reflexivity | exact Ha]|].
    split; [exact Hr|]. cbn. rewrite close_event_of by exact Hb. apply elem_of_app. right. left.
Qed.

Lemma inv_blob s name blob r next :
  (u_phase s = Catalog /\ next = Manifest)
  \/ (u_phase s = Manifest /\ next = Finish /\ name = MANIFEST_BLOB_NAME) ->
  inv s -> inv (answered (EvBlob name blob) r next s).
Proof.
  intros Hcase Hi.
  assert (Hph : phase_ok s -> all_appended s /\ cfg_reader_end cfg = Ok tt
                              /\ close_event true ∈ u_log s).
  { unfold phase_ok. destruct Hcase as [[-> _]|[-> _]]; tauto. }
  assert (Hrest : at_rest (u_phase s) = true) by (destruct Hcase as [[-> _]|[-> _]]; reflexivity).
  destruct (inv_live s Hrest Hi) as (Hp & pre & pend & Hv & Hpe).
  apply (at_rest_pend s pre pend Hrest) in Hpe as ->.
  destruct (Hph Hp) as (Ha & Hr & Hc). destruct (whole_stream s pre Hv Ha Hr) as [_ Hs].
  apply inv_answered; [exact Hrest | exact Hi | split; assumption |
    destruct Hcase as [[_ ->]|(_ & -> & _)]; reflexivity |].
  intros pre' _ _ _.
  assert (Ha' := all_appended_snoc s next (EvBlob name blob true) eq_refl Ha).
  assert (Hc' : close_event true ∈ u_log s ++ [EvBlob name blob true])
    by (apply elem_of_app; left; exact Hc).
  destruct Hcase as [[_ ->]|(_ & -> & ->)]; (split; [exact Ha' | split; [exact Hr|]]); cbn.
  - exact Hc'.
  - split; [exact Hc'|]. exists blob. apply elem_of_app. right. left.
Qed.

Lemma inv_finish s r : u_phase s = Finish -> inv s -> inv (answered EvFinish r (Done (stats_of s)) s).
Proof.
  intros Hp Hi. assert (Hi' := Hi). open_inv Hi' Hp. destruct Hph as (Ha & Hr & Hc & Hb). subst pend.
  destruct (whole_stream s pre Hv Ha Hr) as [_ Hs].
  apply inv_answered; [rewrite Hp; reflexivity | exact Hi | repeat split; try assumption; apply Hs
                      | reflexivity |].
  intros pre' _ _ _. split; [apply all_appended_snoc; [reflexivity | exact Ha]|].
  cbn. split; [|apply elem_of_app; right; left].
  unfold stats_of. cbn. rewrite Z.add_0_r. reflexivity.
Qed.

(** The phase a step starts from. *)
Ltac phase_eq := match goal with Hp : u_phase _ = _ |- _ => rewrite Hp end.

Lemma inv_step s s' : step s s' -> inv s -> inv s'.
Proof.
  intros Hstep Hi. destruct Hstep.
  - eapply inv_task; eassumption.
  - apply inv_goto; [phase_eq; reflexivity | exact Hi |].
    assert (G : forall p, p = Previous \/ p = Create -> at_rest p = true /\
      (forall pre, vars_ok s pre [] -> phase_ok s -> phase_ok (set_phase p s))).
    { intros p [-> | ->]; (split; [reflexivity|]); intros pre _; unfold phase_ok; cbn;
        phase_eq; tauto. }
    destruct (backup_connect env (cfg_params cfg)).1; [|exact I].
    destruct (cfg_dedup cfg); apply G; auto.
  - destruct (call_result _ o); [apply inv_previous; assumption|].
    apply inv_goto; [phase_eq; reflexivity | exact Hi | exact I].
  - destruct (call_result _ o); [apply inv_create; assumption|].
    apply inv_goto; [phase_eq; reflexivity | exact Hi | exact I].
  - apply inv_recv_known; assumption.
  - apply inv_recv_new; assumption.
  - apply inv_acquire; assumption.
  - apply inv_reap; assumption.
  - apply inv_reap_none; assumption.
  - apply inv_goto; [phase_eq; reflexivity | exact Hi |].
    split; [reflexivity|]. intros pre _. unfold phase_ok. cbn. phase_eq. auto.
  - apply inv_drain; assumption.
  - apply inv_drain_done; assumption.
  - apply inv_append; assumption.
  - apply inv_goto; [phase_eq; reflexivity | exact Hi |].
    split; [reflexivity|]. intros pre _. unfold phase_ok, all_appended, pairs. cbn. phase_eq.
    rewrite app_nil_r. tauto.
  - apply inv_goto; [phase_eq; reflexivity | exact Hi |].
    destruct (cfg_reader_end cfg) as [[]|e] eqn:Er; [|exact I].
    split; [reflexivity|]. intros pre _. unfold phase_ok. cbn. phase_eq. auto.
  - apply inv_close; assumption.
  - apply inv_goto; [phase_eq; reflexivity | exact Hi |].
    split; [reflexivity|]. intros pre _. unfold phase_ok. cbn. phase_eq. auto.
  - apply inv_goto; [phase_eq; reflexivity | exact Hi | exact I].
  - apply inv_blob; auto.
  - apply inv_goto; [phase_eq; reflexivity | exact Hi | exact I].
  - apply inv_blob; auto.
  - apply inv_finish; assumption.
Qed.

Lemma inv_reachable s : reachable s -> inv s.
Proof.
  apply (rtc_ind_r inv init); [apply inv_init|].
  intros s1 s2 _ Hs. apply inv_step, Hs.
Qed.

(** Behind a [/finish] everything is on the server. *)
Lemma finish_stored s ok : reachable s -> EvFinish ok ∈ u_log s ->
  cfg_reader_end cfg = Ok tt /\
  Forall (fun c => stored (u_known s) (u_log s) (dg c)) (cfg_stream cfg).
Proof.
  intros Hr Hf. apply list_elem_of_split in Hf as (l1 & l2 & El).
  destruct (inv_reachable s Hr) as (Hl & _). destruct (Hl _ _ _ El) as (_ & (He & Hs & _) & _).
  split; [exact He|]. rewrite El. eapply Forall_impl; [exact Hs|]. intros c Hc. apply stored_app, Hc.
Qed.

(** The blob of the catalog has been uploaded. *)
Definition blob_uploaded (s : up_state) : Prop :=
  forall name content, cfg_catalog cfg = Some (Some (name, content)) ->
  exists rnd blob, encode_chunk (cfg_crypt cfg) (cfg_compress cfg) rnd content = Ok blob /\
    EvBlob name blob true ∈ u_log s.

Definition behind_catalog (p : phase) : bool :=
  match p with Manifest | Finish | Done _ => true | _ => false end.

Definition catalog_kept (s : up_state) : Prop :=
  behind_catalog (u_phase s) = true -> blob_uploaded s.

Lemma blob_uploaded_app s evs p ts n :
  blob_uploaded s -> blob_uploaded (set_phase p (with_tasks ts n evs s)).
Proof.
  intros Hb name content Hc. destruct (Hb name content Hc) as (rnd & blob & E & Hin).
  exists rnd, blob. split; [exact E|]. cbn. apply elem_of_app. auto.
Qed.

Lemma catalog_answered s ev r next : behind_catalog (u_phase s) = true -> catalog_kept s ->
  catalog_kept (answered ev r next s).
Proof. intros Hp Hk _. apply blob_uploaded_app, Hk, Hp. Qed.

Lemma catalog_step s s' : step s s' -> catalog_kept s -> catalog_kept s'.
Proof.
  intros Hs Hk.
  destruct Hs as [| | | |s data rest Hp| | | | | | | | | | | | | |s name content rnd blob o Hp Hcat He| |s js o Hp|s o Hp];
    try (unfold catalog_kept; cbn; repeat case_match; cbn; congruence).
  - intros Hp. exact (blob_uploaded_app _ _ (u_phase s) _ _ (Hk Hp)).
  - intros Hb. cbn in Hb. rewrite Hp in Hb. discriminate.
  - unfold catalog_kept, answered. destruct (call_result _ o); [|discriminate]. intros _ n0 c0 Hc.
    assert (n0 = name /\ c0 = content) as [-> ->] by (split; congruence).
    exists rnd, blob. split; [assumption|]. cbn. apply elem_of_app. right. constructor.
  - apply catalog_answered; [rewrite Hp; reflexivity | exact Hk].
  - apply catalog_answered; [rewrite Hp; reflexivity | exact Hk].
Qed.

Lemma catalog_reachable s : reachable s -> catalog_kept s.
Proof.
  apply (rtc_ind_r catalog_kept init); [discriminate|]. intros s1 s2 _ Hs. apply catalog_step, Hs.
Qed.

(** *** Progress and termination *)

Definition task_weight (t : task) : nat :=
  match t_state t with Encoding => 3 | Uploading _ => 2 | Finished _ => 1 end.

Definition tasks_weight (ts : list task) : nat := sum_list (map task_weight ts).

(** What is left to do; the index of the stream has at most one batch a chunk. *)
Definition phase_weight (p : phase) (stream digests : nat) : nat :=
  match p with
  | Connect => 50 + 10 * stream + digests
  | Previous => 40 + 10 * stream + digests
  | Create => 30 + 10 * stream + digests
  | Recv => 20 + 10 * stream + digests
  | Acquire _ _ _ => 28 + 10 * stream + digests
  | Reap _ _ => 22 + 10 * stream + digests
  | Drain => 19 + digests
  | Append bs => 10 + length bs
  | AwaitChunker => 9
  | Close => 8
  | Catalog => 7
  | Manifest => 6
  | Finish => 5
  | Done _ | Failed _ => 0
  end.

Definition weight (s : up_state) : nat :=
  tasks_weight (u_inflight s)
  + phase_weight (u_phase s) (length (u_stream s)) (length (u_digests s)).

#[local] Arguments tasks_weight : simpl never.
#[local] Arguments phase_weight : simpl never.

Lemma tasks_weight_app l1 l2 : tasks_weight (l1 ++ l2) = (tasks_weight l1 + tasks_weight l2)%nat.
Proof. unfold tasks_weight. rewrite map_app. induction l1 as [|t l1 IH]; cbn in *; lia. Qed.

Lemma tasks_weight_mid l1 t l2 :
  tasks_weight (l1 ++ t :: l2) = (tasks_weight l1 + task_weight t + tasks_weight l2)%nat.
Proof. rewrite tasks_weight_app. unfold tasks_weight. cbn. lia. Qed.

Lemma joins_weight s r rest : joins s r rest ->
  (tasks_weight rest < tasks_weight (u_inflight s))%nat.
Proof.
  intros (l1 & t & l2 & -> & Hst & ->). rewrite tasks_weight_mid, tasks_weight_app.
  unfold task_weight. rewrite Hst. lia.
Qed.

Lemma length_batches s : (length (batches s) <= length (u_digests s))%nat.
Proof.
  unfold batches. rewrite length_combine.
  assert (G : forall f (l : list bytes), (length (chunks_fuel f APPEND_BATCH l) <= f)%nat).
  { induction f as [|f IH]; intros [|d l]; cbn [chunks_fuel length]; try lia.
    specialize (IH (drop APPEND_BATCH (d :: l))). lia. }
  specialize (G (length (u_digests s)) (u_digests s)). unfold chunks_of. lia.
Qed.

(** Every step leaves less to do. *)
Lemma step_weight s s' : step s s' -> (weight s' < weight s)%nat.
Proof.
  assert (Hfail : forall e a b, phase_weight (Failed e) a b = 0%nat) by reflexivity.
  assert (Hans : forall ev (r : result PbsError unit) next s,
    (phase_weight next (length (u_stream s)) (length (u_digests s))
     < phase_weight (u_phase s) (length (u_stream s)) (length (u_digests s)))%nat ->
    (weight (answered ev r next s) < weight s)%nat).
  { intros ev [u|e] next s0 Hw; unfold weight, answered; cbn; rewrite ?Hfail; lia. }
  assert (Hcall : forall A (c : call A) o (k : A -> up_state) e0 s,
    (forall a, weight (k a) < weight s)%nat -> (forall e, weight (e0 e) < weight s)%nat ->
    (weight (match call_result c o with Ok a => k a | Err e => e0 e end) < weight s)%nat).
  { intros A c o k e0 s0 H1' H2'. destruct (call_result c o); auto. }
  intros Hs. destruct Hs; try (apply Hans; phase_eq; unfold phase_weight; cbn [length]; lia);
    try (apply Hcall; intros; unfold weight; cbn; phase_eq; unfold phase_weight; lia);
    unfold weight; cbn; try phase_eq;
    try match goal with Hst : u_stream _ = _ |- _ => rewrite Hst end; cbn [length];
    try match goal with
    | Hj : joins _ ?r ?rest |- _ =>
        apply joins_weight in Hj; destruct r; rewrite ?Hfail; lia
    end;
    try (unfold phase_weight; lia).
  - match goal with Hi : u_inflight s = _ |- _ => rewrite Hi end. rewrite !tasks_weight_mid.
    match goal with Ht : task_step _ _ _ _ _ |- _ => destruct Ht end; cbn; try lia.
    match goal with Hr : is_running ?t = true |- _ => destruct t as [? ? []] end;
      try discriminate; cbn; lia.
  - destruct (backup_connect env (cfg_params cfg)).1; [destruct (cfg_dedup cfg)|];
      unfold phase_weight; lia.
  - rewrite length_app. cbn [length]. unfold phase_weight. lia.
  - rewrite tasks_weight_app. unfold tasks_weight at 2, phase_weight. cbn. lia.
  - rewrite length_app. cbn [length]. unfold phase_weight. lia.
  - pose proof (length_batches s). unfold phase_weight. lia.
  - destruct (cfg_reader_end cfg); unfold phase_weight; lia.
Qed.

(** A running task can always go on: encoding ends one way or the other, and
    so does a request. *)
Lemma task_can_step wid t : is_running t = true -> exists t' st evs, task_step wid t t' st evs.
Proof.
  destruct t as [d data [|enc|r]]; intros Hr; [| |discriminate].
  - destruct (encode_chunk (cfg_crypt cfg) (cfg_compress cfg) (Ok []) data) eqn:E.
    + do 3 eexists. eapply task_encoded, E.
    + do 3 eexists. eapply task_encode_failed, E.
  - do 3 eexists. apply (task_uploaded wid d data enc (H2Failed [])). reflexivity.
Qed.

Lemma inflight_can_step s t : t ∈ u_inflight s -> is_running t = true -> exists s', step s s'.
Proof.
  intros Hin Hr. apply list_elem_of_split in Hin as (l1 & l2 & Hi).
  destruct (task_can_step (u_wid s) t Hr) as (t' & st & evs & Ht).
  eexists. eapply step_task; eassumption.
Qed.

Lemma finished_joins s t : t ∈ u_inflight s -> is_running t = false -> exists r rest, joins s r rest.
Proof.
  intros Hin Hr. apply list_elem_of_split in Hin as (l1 & l2 & Hi).
  unfold is_running in Hr. destruct (t_state t) as [| |r] eqn:Hs; try discriminate.
  exists r, (l1 ++ l2), l1, t, l2. auto.
Qed.

Lemma joins_or_not s : (exists r rest, joins s r rest) \/ (forall r rest, ~ joins s r rest).
Proof.
  destruct (forallb is_running (u_inflight s)) eqn:E.
  - right. intros r rest (l1 & t & l2 & Hi & Hst & _). rewrite Hi, forallb_app in E.
    cbn in E. unfold is_running in E at 2. rewrite Hst in E. rewrite andb_false_r in E. discriminate.
  - left. apply not_true_iff_false in E.
    assert (Hx : exists t, t ∈ u_inflight s /\ is_running t = false).
    { induction (u_inflight s) as [|t l IH]; cbn in E; [congruence|].
      destruct (is_running t) eqn:Er; [|exists t; split; [left | exact Er]].
      destruct IH as (t' & Ht & Hr); [exact E|]. exists t'. split; [right; exact Ht | exact Hr]. }
    destruct Hx as (t & Hin & Hr). apply (finished_joins s t Hin Hr).
Qed.

Lemma running_task s : 0 < running s -> exists t, t ∈ u_inflight s /\ is_running t = true.
Proof.
  unfold running. destruct (List.filter is_running (u_inflight s)) as [|t l] eqn:E; cbn; [lia|].
  intros _. exists t. assert (Ht : In t (List.filter is_running (u_inflight s)))
    by (rewrite E; left; reflexivity).
  apply filter_In in Ht as [Hin Hr]. split; [apply list_elem_of_In, Hin | exact Hr].
Qed.

Lemma progress s : 1 <= cfg_width cfg -> phase_ended (u_phase s) = false -> exists s', step s s'.
Proof.
  intros Hw Ht. destruct (u_phase s) eqn:Hp; try discriminate Ht.
  - exists (set_phase (match (backup_connect
      {| ue_config := Ok tt; ue_tcp := Ok tt; ue_name_ok := true; ue_cert := []; ue_tls := Ok tt;
         ue_write := Ok tt; ue_reads := []; ue_h2 := Ok tt |} (cfg_params cfg)).1 with
      | Ok _ => if cfg_dedup cfg then Previous else Create | Err e => Failed e end) s).
    apply step_connect, Hp.
  - eexists. apply (step_previous s (H2Failed [])), Hp.
  - eexists. apply (step_create s (H2Failed [])), Hp.
  - destruct (u_stream s) as [|data rest] eqn:Hs; [eexists; apply step_recv_end; assumption|].
    destruct (decide (dg data ∈ u_known s)) as [Hk|Hk].
    + eexists. eapply step_recv_known; eassumption.
    + eexists. eapply step_recv_new; eassumption.
  - destruct (Z.ltb_spec (running s) (cfg_width cfg)).
    + eexists. eapply step_acquire; eassumption.
    + destruct (running_task s) as (t & Hin & Hr); [lia|]. apply (inflight_can_step s t Hin Hr).
  - destruct (joins_or_not s) as [(r & rest & Hj)|Hn].
    + eexists. eapply step_reap; eassumption.
    + eexists. eapply step_reap_none; eassumption.
  - destruct (u_inflight s) as [|t l] eqn:Hi; [eexists; apply step_drain_done; assumption|].
    assert (Hin : t ∈ u_inflight s) by (rewrite Hi; left).
    destruct (is_running t) eqn:Hr; [apply (inflight_can_step s t Hin Hr)|].
    destruct (finished_joins s t Hin Hr) as (r & rest & Hj).
    eexists. eapply step_drain; eassumption.
  - destruct batches0 as [|[ds offs] bs].
    + eexists. apply step_append_done, Hp.
    + eexists. apply (step_append s ds offs bs (H2Failed [])), Hp.
  - eexists. apply step_chunker, Hp.
  - eexists. apply (step_close s (H2Failed [])), Hp.
  - destruct (cfg_catalog cfg) as [[[name content]|]|] eqn:Hc.
    + destruct (encode_chunk (cfg_crypt cfg) (cfg_compress cfg) (Ok []) content) eqn:E.
      * eexists. eapply (step_catalog s name content (Ok []) _ (H2Failed [])); eassumption.
      * eexists. eapply step_catalog_failed; eassumption.
    + eexists. apply step_catalog_none; [exact Hp | congruence].
    + eexists. apply step_catalog_none; [exact Hp | congruence].
  - destruct (to_json_bytes (manifest_of s)) as [js|e] eqn:E.
    + eexists. apply (step_manifest s js (H2Failed [])); assumption.
    + eexists. eapply step_manifest_failed; eassumption.
  - eexists. apply (step_finish s (H2Failed [])), Hp.
Qed.

(** ** Properties *)

(** In every run, however the uploads interleave and the server answers, an
    index entry is appended only after its chunk was uploaded successfully in
    this session or is known from the previous snapshot. *)
Theorem append_after_upload s l1 ds offs ok l2 :
  reachable s -> u_log s = l1 ++ EvAppend ds offs ok :: l2 ->
  Forall (fun d => d ∈ u_known s \/ exists enc, EvChunk d enc true ∈ l1) ds.
Proof. intros Hr E. destruct (inv_reachable s Hr) as (Hl & _). apply (Hl _ _ _ E). Qed.

(** C1: [/finish] is sent only for a complete archive: the reader ended without
    an error, every chunk of the stream is stored, the entries appended are the
    digests and start offsets of the whole stream in order, and the index was
    closed successfully with the stream's chunk count, size and checksum, with
    the manifest uploaded behind it.  A reader that fails part way never leads
    to a finished snapshot. *)
Theorem finish_only_complete s l1 ok l2 :
  reachable s -> u_log s = l1 ++ EvFinish ok :: l2 ->
  cfg_reader_end cfg = Ok tt
  /\ Forall (fun c => dg c ∈ u_known s \/ exists enc, EvChunk (dg c) enc true ∈ l1) (cfg_stream cfg)
  /\ appended l1 = combine (map dg (cfg_stream cfg)) (starts_from 0 (cfg_stream cfg))
  /\ EvClose (Z.of_nat (length (cfg_stream cfg))) (total (cfg_stream cfg))
       (Dynamic.dyn_index_csum stream_builder) true ∈ l1
  /\ exists blob, EvBlob MANIFEST_BLOB_NAME blob true ∈ l1.
Proof.
  intros Hr E. destruct (inv_reachable s Hr) as (Hl & _).
  destruct (Hl _ _ _ E) as (Hc & (Hre & Hs & Ha) & Hb). auto.
Qed.

(** The statistics of a finished backup: every chunk of the stream is
    counted once, as reused or as uploaded, the size is the stream's length and
    the checksum is the index's. *)
Theorem finished_stats s st :
  reachable s -> u_phase s = Done st ->
  st_chunks st = Z.of_nat (length (cfg_stream cfg))
  /\ st_reused st + st_uploaded st = st_chunks st
  /\ st_bytes st = total (cfg_stream cfg)
  /\ u_reused_bytes s + st_uploaded_bytes st = st_bytes st
  /\ st_csum st = Dynamic.dyn_index_csum stream_builder
  /\ EvFinish true ∈ u_log s.
Proof.
  intros Hr Hp. destruct (inv_reachable s Hr) as (_ & _ & Hl). rewrite Hp in Hl.
  destruct Hl as (Hph & pre & pend & Hv & Hpe). unfold phase_ok in Hph. unfold pend_ok in Hpe.
  rewrite Hp in Hph, Hpe. subst pend. destruct Hph as ((Hs & Hin & Ha) & -> & Hf).
  destruct Hv. rewrite Hp in *. rewrite app_nil_r in *.
  assert (E : cfg_stream cfg = pre) by (rewrite v_stream0, Hs, app_nil_r; reflexivity).
  unfold stats_of. cbn. rewrite E, v_builder0. unfold Dynamic.b_total_size. cbn.
  rewrite last_end_entries. unfold stream_builder. rewrite E.
  repeat split; try assumption; lia.
Qed.

(** C36: a backup never gets stuck and always ends: with at least one upload
    slot, every state that is neither finished nor failed has a next step, and
    there is no infinite run. *)
Theorem upload_ends :
  1 <= cfg_width cfg ->
  (forall s, phase_ended (u_phase s) = false -> exists s', step s s')
  /\ (forall s, Acc (fun s' s => step s s') s).
Proof.
  intros Hw. split; [intros s; apply progress, Hw|].
  intros s. apply (Acc_incl _ _ (fun s' s => (weight s' < weight s)%nat)).
  - intros s1 s2. apply step_weight.
  - apply (wf_inverse_image _ _ _ weight), lt_wf.
Qed.

End Upload.

(** ** A run

    One new chunk, uploaded and appended, with a server that accepts
    everything. *)

Import Sample.
#[local] Existing Instance sample_percent.
#[local] Existing Instance sample_libs.
Definition sample_manifest_json : ManifestJson := fun _ => Ok (bstr "{}").
#[local] Existing Instance sample_manifest_json.

Definition sample_cfg : config :=
  {| cfg_params := sample_params; cfg_archive := L "db.didx"; cfg_dedup := false;
     cfg_compress := true; cfg_total_bytes := 5; cfg_crypt := None; cfg_catalog := None;
     cfg_width := 2; cfg_uuid := replicate 16 x00; cfg_stream := [bstr "hello"];
     cfg_reader_end := Ok tt |}.

Definition accepted : h2_outcome := H2Answer 200 [].

Definition hello_digest : bytes := chunk_digest (bstr "hello").

Definition sample_log (csum : bytes) : list event :=
  [EvChunk hello_digest (encode_auto (bstr "hello")) true;
   EvAppend [hello_digest] [0] true;
   EvClose 1 5 csum true;
   EvBlob MANIFEST_BLOB_NAME (encode_uncompressed (bstr "{}")) true;
   EvFinish true].

(** The states of the run, one behind the other. *)
Definition hello_task (st : task_state) : task :=
  {| t_digest := hello_digest; t_data := bstr "hello"; t_state := st |}.
Definition hello_blob : bytes := encode_auto (bstr "hello").
Definition r0 : up_state := init sample_cfg.
Definition r1 : up_state := set_phase Create r0.
Definition r2 : up_state := set_phase Recv (set_wid 1 r1).
Definition r3 : up_state :=
  set_phase (Acquire hello_digest (bstr "hello") 0) (received (bstr "hello") [] false r2).
Definition r4 : up_state := set_phase (Reap hello_digest 0) (spawned hello_digest (bstr "hello") r3).
Definition r5 : up_state := set_phase Recv (indexed 5 hello_digest 0 r4).
Definition r6 : up_state := set_phase Drain r5.
Definition r7 : up_state :=
  with_tasks [hello_task (Uploading hello_blob)] (Z.of_nat (length hello_blob)) [] r6.
Definition r8 : up_state :=
  with_tasks [hello_task (Finished (Ok tt))] 0 [EvChunk hello_digest hello_blob true] r7.
Definition r9 : up_state := set_phase Drain (with_tasks [] 0 [] r8).
Definition r10 : up_state := set_phase (Append [([hello_digest], [0])]) r9.
Definition r11 : up_state :=
  set_phase (Append []) (with_tasks [] 0 [EvAppend [hello_digest] [0] true] r10).
Definition r12 : up_state := set_phase AwaitChunker r11.
Definition r13 : up_state := set_phase Close r12.
Definition r14 : up_state :=
  set_phase Catalog (with_tasks [] 0
    [EvClose 1 5 (Dynamic.dyn_index_csum (u_builder r13)) true] r13).
Definition r15 : up_state := set_phase Manifest r14.
Definition r16 : up_state :=
  set_phase Finish (with_tasks [] 0
    [EvBlob MANIFEST_BLOB_NAME (encode_uncompressed (bstr "{}")) true] r15).
Definition r17 : up_state :=
  set_phase (Done (stats_of r16)) (with_tasks [] 0 [EvFinish true] r16).

(** A step whose result is a state given in another form. *)
Lemma step_to cfg s s' t : step cfg s s' -> s' = t -> step cfg s t.
Proof. intros Hs <-. exact Hs. Qed.

Ltac by_vm := vm_compute; reflexivity.

Lemma run_1 : step sample_cfg r0 r1.
Proof.
  eapply step_to; [eapply (step_connect sample_cfg r0 sample_env); by_vm | by_vm].
Qed.

Lemma run_2 : step sample_cfg r1 r2.
Proof.
  eapply step_to; [eapply (step_create sample_cfg r1 accepted); by_vm | by_vm].
Qed.

Lemma run_3 : step sample_cfg r2 r3.
Proof.
  eapply step_to; [eapply (step_recv_new sample_cfg r2 (bstr "hello") []);
    [by_vm | by_vm | apply not_elem_of_nil] | by_vm].
Qed.

Lemma run_4 : step sample_cfg r3 r4.
Proof.
  eapply step_to; [eapply (step_acquire sample_cfg r3 hello_digest (bstr "hello") 0); by_vm | by_vm].
Qed.

Lemma run_5 : step sample_cfg r4 r5.
Proof.
  eapply step_to; [eapply (step_reap_none sample_cfg r4 hello_digest 0); [by_vm|]|by_vm].
  intros r rest (l1 & x & l2 & Hi & Hst & _).
  change (u_inflight r4) with [hello_task Encoding] in Hi. destruct l1 as [|? [|? ?]];
    [injection Hi as <- _; discriminate Hst | discriminate Hi | discriminate Hi].
Qed.

Lemma run_6 : step sample_cfg r5 r6.
Proof.
  eapply step_to; [eapply (step_recv_end sample_cfg r5); by_vm | by_vm].
Qed.

Lemma run_7 : step sample_cfg r6 r7.
Proof.
  eapply step_to; [eapply (step_task sample_cfg r6 [] (hello_task Encoding) []
    (hello_task (Uploading hello_blob))); [by_vm|]|].
  - apply (task_encoded sample_cfg _ _ _ (Ok [])). by_vm.
  - by_vm.
Qed.

Lemma run_8 : step sample_cfg r7 r8.
Proof.
  eapply step_to; [eapply (step_task sample_cfg r7 [] (hello_task (Uploading hello_blob)) []
    (hello_task (Finished (Ok tt)))); [by_vm|]|].
  - apply (task_uploaded sample_cfg _ _ _ _ accepted). by_vm.
  - by_vm.
Qed.

Lemma run_9 : step sample_cfg r8 r9.
Proof.
  eapply step_to; [eapply (step_drain sample_cfg r8 (Ok tt) []); [by_vm|]|by_vm].
  exists [], (hello_task (Finished (Ok tt))), []. split; [by_vm | split; reflexivity].
Qed.

Lemma run_10 : step sample_cfg r9 r10.
Proof.
  eapply step_to; [eapply (step_drain_done sample_cfg r9); by_vm | by_vm].
Qed.

Lemma run_11 : step sample_cfg r10 r11.
Proof.
  eapply step_to; [eapply (step_append sample_cfg r10 [hello_digest] [0] [] accepted); by_vm | by_vm].
Qed.

Lemma run_12 : step sample_cfg r11 r12.
Proof.
  eapply step_to; [eapply (step_append_done sample_cfg r11); by_vm | by_vm].
Qed.

Lemma run_13 : step sample_cfg r12 r13.
Proof.
  eapply step_to; [eapply (step_chunker sample_cfg r12); by_vm | by_vm].
Qed.

Lemma run_14 : step sample_cfg r13 r14.
Proof.
  eapply step_to; [eapply (step_close sample_cfg r13 accepted); by_vm | by_vm].
Qed.

Lemma run_15 : step sample_cfg r14 r15.
Proof.
  eapply step_to; [eapply (step_catalog_none sample_cfg r14); [by_vm | discriminate] | by_vm].
Qed.

Lemma run_16 : step sample_cfg r15 r16.
Proof.
  eapply step_to; [eapply (step_manifest sample_cfg r15 (bstr "{}") accepted); by_vm | by_vm].
Qed.

Lemma run_17 : step sample_cfg r16 r17.
Proof.
  eapply step_to; [eapply (step_finish sample_cfg r16 accepted); by_vm | by_vm].
Qed.

Lemma sample_run : exists s st csum,
  reachable sample_cfg s /\ u_phase s = Done st /\ u_log s = sample_log csum /\ u_known s = [].
Proof.
  exists r17, (stats_of r16), (Dynamic.dyn_index_csum (u_builder r13)).
  split.
  { eapply rtc_l; [exact run_1|]. eapply rtc_l; [exact run_2|]. eapply rtc_l; [exact run_3|].
    eapply rtc_l; [exact run_4|]. eapply rtc_l; [exact run_5|]. eapply rtc_l; [exact run_6|].
    eapply rtc_l; [exact run_7|]. eapply rtc_l; [exact run_8|]. eapply rtc_l; [exact run_9|].
    eapply rtc_l; [exact run_10|]. eapply rtc_l; [exact run_11|]. eapply rtc_l; [exact run_12|].
    eapply rtc_l; [exact run_13|]. eapply rtc_l; [exact run_14|]. eapply rtc_l; [exact run_15|].
    eapply rtc_l; [exact run_16|]. eapply rtc_l; [exact run_17|]. apply rtc_refl. }
  split; [reflexivity | split; [by_vm | by_vm]].
Qed.

Lemma append_after_upload_witness :
  exists s, reachable sample_cfg s
    /\ Forall (fun d => d ∈ u_known s \/ exists enc,
         EvChunk d enc true ∈ [EvChunk hello_digest (encode_auto (bstr "hello")) true])
         [hello_digest].
Proof.
  destruct sample_run as (s & st & csum & Hr & _ & Hl & _). exists s. split; [exact Hr|].
  exact (append_after_upload sample_cfg s (take 1 (sample_log csum)) [hello_digest] [0] true
    (drop 2 (sample_log csum)) Hr Hl).
Defined.

Lemma finish_only_complete_witness :
  exists s, reachable sample_cfg s
    /\ EvFinish true ∈ u_log s /\ cfg_reader_end sample_cfg = Ok tt
    /\ appended (take 4 (u_log s)) = [(hello_digest, 0)].
Proof.
  destruct sample_run as (s & st & csum & Hr & _ & Hl & _). exists s. split; [exact Hr|].
  rewrite Hl. split; [do 4 right; left|].
  destruct (finish_only_complete sample_cfg s (take 4 (sample_log csum)) true [] Hr Hl)
    as (He & _ & Ha & _). split; [exact He | exact Ha].
Defined.

Lemma finished_stats_witness :
  exists s st, reachable sample_cfg s /\ u_phase s = Done st
    /\ st_chunks st = 1 /\ st_bytes st = 5 /\ st_reused st + st_uploaded st = 1.
Proof.
  destruct sample_run as (s & st & csum & Hr & Hp & _). exists s, st.
  destruct (finished_stats sample_cfg s st Hr Hp) as (Hc & Hsum & Hb & _).
  split; [exact Hr | split; [exact Hp|]]. split; [exact Hc|]. split; [exact Hb|].
  rewrite Hsum. exact Hc.
Defined.

Lemma upload_ends_witness :
  (forall s, phase_ended (u_phase s) = false -> exists s', step sample_cfg s s')
  /\ (forall s, Acc (fun s' s => step sample_cfg s s') s).
Proof. apply (upload_ends sample_cfg). discriminate. Defined.
