(* ===== verification/Restore.v ===== *)
(** Restoring archives: the reader half of [pbs-client/src/session.rs].

    The buffered restores are sequential computations against a server; the
    streamed ones download chunks through a window of concurrent tasks
    ([spawn_chunk_pipeline]), modelled as a step relation.  The theorems: a
    restore that succeeds returns chunks whose digests are those of the verified
    index, in order, whatever the server sent; against a server that keeps what
    was uploaded, backing up and restoring is the identity; the download
    pipeline delivers in order and, unless an error or the consumer ends it
    early, completely. *)

From Stdlib Require Import ZArith Lia Strings.Byte Ascii String.
From stdpp Require Import base tactics option numbers list relations.
From S2P Require Import Prelude Text Base Blob Index Repository HttpApi Session Upload.
Open Scope Z_scope.

Definition is_empty_list {A} (l : list A) : bool := match l with [] => true | _ => false end.

Lemma concat_chunks_of {A} (n : nat) (l : list A) : (0 < n)%nat -> concat (chunks_of n l) = l.
Proof.
  intros Hn. unfold chunks_of. assert (Hf : (length l <= length l)%nat) by lia. revert Hf.
  generalize (length l) at 2 3 as f. intros f. revert l.
  induction f as [|f IH]; intros l Hf; destruct l as [|x l]; cbn [chunks_fuel concat]; try reflexivity.
  - cbn in Hf. lia.
  - rewrite IH; [apply take_drop|]. rewrite length_drop. cbn [length] in *. lia.
Qed.

Section Restore.
Context `{PercentLib} `{HexLib} `{SessionLibs} `{Crc32Lib} `{HashLib} `{ZstdLib} `{AeadLib}.

(** ** Buffered restores *)

Section Sequential.
Context {S : Type} `{Server S}.

Definition download_blob (name : str) (crypt : option CryptConfig) : session S bytes :=
  raw ← exec (download name); lift (decode_blob raw crypt).

(** The chunks of an index, one after the other, appended to [out]. *)
Fixpoint fetch_chunks (crypt : option CryptConfig) (digests : list bytes) (out : bytes) :
    session S bytes :=
  match digests with
  | [] => mret out
  | d :: ds =>
      chunk_blob ← exec (download_chunk d);
      chunk ← lift (decode_and_verify_chunk chunk_blob crypt d);
      fetch_chunks crypt ds (out ++ chunk)
  end.

Definition restore_fixed_image (archive : str) (crypt : option CryptConfig) : session S bytes :=
  index_bytes ← exec (download archive);
  fixed ← lift (Fixed.fixed_parse index_bytes);
  _ ← lift (ensure (Fixed.fixed_verify_csum fixed)
       (Protocol (L "downloaded fixed index failed its csum check")));
  image ← fetch_chunks crypt (Fixed.f_digests fixed) [];
  mret (take (Z.to_nat (Fixed.f_size fixed)) image).

(** Downloading and verifying a dynamic index. *)
Definition archive_index (archive : str) : session S Dynamic.DynamicIndex :=
  index_bytes ← exec (download archive);
  index ← lift (Dynamic.dyn_parse index_bytes);
  _ ← lift (ensure (Dynamic.dyn_verify_csum index)
       (Protocol (L "downloaded dynamic index failed its csum check")));
  mret index.

Definition archive_digests (archive : str) : session S (list bytes) :=
  index ← archive_index archive; mret (Dynamic.dyn_digests index).

Definition restore_dynamic_archive (archive : str) (crypt : option CryptConfig) :
    session S bytes :=
  index ← archive_index archive; fetch_chunks crypt (Dynamic.dyn_digests index) [].

(** Chunks with the digests they were asked for. *)
Definition verified (crypt : option CryptConfig) : list bytes -> list bytes -> Prop :=
  Forall2 (fun c d => plain_digest crypt c = d).

Lemma fetch_chunks_verified crypt digests out s r s' :
  fetch_chunks crypt digests out s = (Ok r, s') ->
  exists chunks, verified crypt chunks digests /\ r = out ++ concat chunks.
Proof.
  revert out s. induction digests as [|d ds IH]; intros out s E; cbn [fetch_chunks] in E.
  - injection E as <- _. exists []. split; [constructor | cbn; rewrite app_nil_r; reflexivity].
  - apply session_bind_ok in E as (blob & s1 & _ & E).
    apply session_bind_ok in E as (c & s2 & Ec & E). apply lift_ok in Ec as [Ec ->].
    destruct (IH _ _ E) as (cs & Hv & ->). exists (c :: cs). split.
    + constructor; [apply verified_digest in Ec; exact Ec | exact Hv].
    + cbn. rewrite app_assoc. reflexivity.
Qed.

(** What the server answers to requests made one after the other. *)
Fixpoint serve_all (rs : list request) (s : S) : list h2_outcome * S :=
  match rs with
  | [] => ([], s)
  | r :: rs => let '(o, s) := serve r s in let '(os, s) := serve_all rs s in (o :: os, s)
  end.

Definition index_request (archive : str) : request :=
  plain GET (L "/download?file-name=" ++ enc archive).
Definition chunk_request (d : bytes) : request := plain GET (L "/chunk?digest=" ++ hex_encode d).

(** The chunk [c] is the decoded body of the answer [o] to the request for the digest [d],
    and has that digest. *)
Definition chunk_of_answer (crypt : option CryptConfig) (c d : bytes) (o : h2_outcome) : Prop :=
  plain_digest crypt c = d /\
  exists blob, call_result (download_chunk d) o = Ok blob /\ decode_blob blob crypt = Ok c.

Lemma fetch_chunks_answers crypt digests out s r s' :
  fetch_chunks crypt digests out s = (Ok r, s') ->
  exists chunks answers, serve_all (map chunk_request digests) s = (answers, s') /\
    Forall3 (chunk_of_answer crypt) chunks digests answers /\ r = out ++ concat chunks.
Proof.
  revert out s. induction digests as [|d ds IH]; intros out s E; cbn [fetch_chunks] in E.
  - injection E as <- <-. exists [], []. split_and!; [reflexivity | constructor | cbn; rewrite app_nil_r; reflexivity].
  - apply session_bind_ok in E as (blob & s1 & Eb & E). apply exec_ok in Eb as (rq & o & [= <-] & Es & Eb).
    apply session_bind_ok in E as (c & s2 & Ec & E). apply lift_ok in Ec as [Ec ->].
    destruct (IH _ _ E) as (cs & os & Hs & Hv & ->). exists (c :: cs), (o :: os). split_and!.
    + cbn [map serve_all]. change (serve (chunk_request d) s = (o, s1)) in Es. rewrite Es, Hs. reflexivity.
    + constructor; [|exact Hv]. split; [apply verified_digest in Ec; exact Ec|].
      exists blob. split; [exact Eb|]. revert Ec. unfold decode_and_verify_chunk.
      destruct (decode_blob blob crypt) as [data|]; [|discriminate]. cbn.
      destruct (negb _); [discriminate|]. intros [= ->]. reflexivity.
    + cbn. rewrite app_assoc. reflexivity.
Qed.

Lemma archive_index_ok archive s i s' :
  archive_index archive s = (Ok i, s') ->
  exists o l, serve (index_request archive) s = (o, s') /\
    call_result (download archive) o = Ok l /\ Dynamic.dyn_parse l = Ok i
    /\ Dynamic.dyn_verify_csum i = true.
Proof.
  unfold archive_index. intros E.
  apply session_bind_ok in E as (l & s1 & Ed & E). apply exec_ok in Ed as (rq & o & [= <-] & Es & Eo).
  apply session_bind_ok in E as (i' & s2 & Ep & E). apply lift_ok in Ep as [Ep ->].
  apply session_bind_ok in E as (u & s3 & Ee & E). apply lift_ok in Ee as [Ee ->].
  apply Prelude.ensure_ok in Ee. injection E as -> <-. exists o, l. auto.
Qed.

(** ** Fixed images *)

(** The upload loop of [backup_fixed_image]: each chunk is uploaded, pushed on
    the builder and put in the batch, which is appended when it is full. *)
Fixpoint upload_fixed (wid : Z) (chunks : list bytes) (b : Fixed.FixedIndexBuilder)
    (batch_digests : list bytes) (batch_offsets : list Z) (offset : Z) :
    session S Fixed.FixedIndexBuilder :=
  match chunks with
  | [] =>
      _ ← (if is_empty_list batch_digests then mret tt
           else exec (append_fixed_index wid batch_digests batch_offsets));
      mret b
  | c :: cs =>
      let digest := chunk_digest c in
      let len := Z.of_nat (length c) in
      _ ← exec (upload_chunk wid digest len (encode_auto c));
      let b := Fixed.push_digest b digest in
      let ds := batch_digests ++ [digest] in
      let os := batch_offsets ++ [offset] in
      let offset := offset + len in
      if (APPEND_BATCH <=? length ds)%nat then
        _ ← exec (append_fixed_index wid ds os);
        upload_fixed wid cs b [] [] offset
      else upload_fixed wid cs b ds os offset
  end.

Definition image_chunks (image : bytes) : list bytes :=
  chunks_of (Z.to_nat DEFAULT_CHUNK_SIZE) image.

(** The session is open already; [uuid] is the random index id. *)
Definition backup_fixed_image `{ManifestJson} (p : SessionParams) (uuid : bytes)
    (archive : str) (image : bytes) : session S bytes :=
  let size := Z.of_nat (length image) in
  wid ← exec (create_fixed_index archive size);
  b ← upload_fixed wid (image_chunks image)
        (Fixed.fixed_new size DEFAULT_CHUNK_SIZE (sp_backup_time p) uuid) [] [] 0;
  let csum := Fixed.fixed_index_csum b in
  _ ← exec (close_fixed_index wid (Fixed.chunk_count b) size csum);
  let m := manifest_new (sp_backup_type p) (sp_backup_id p) (sp_backup_time p)
             [fixed_image archive size csum] in
  js ← lift (map_err (fun e => Protocol (L "encoding manifest: " ++ e)) (to_json_bytes m));
  _ ← exec (upload_blob MANIFEST_BLOB_NAME (encode_uncompressed js));
  _ ← exec finish;
  mret csum.

(** The index of an image. *)
Definition image_builder (p : SessionParams) (uuid image : bytes) : Fixed.FixedIndexBuilder :=
  {| Fixed.b_size := Z.of_nat (length image); Fixed.b_chunk_size := DEFAULT_CHUNK_SIZE;
     Fixed.b_ctime := sp_backup_time p; Fixed.b_uuid := uuid;
     Fixed.b_digests := map chunk_digest (image_chunks image) |}.

Lemma upload_fixed_digests wid chunks b ds os off s b' s' :
  upload_fixed wid chunks b ds os off s = (Ok b', s') ->
  Fixed.b_digests b' = Fixed.b_digests b ++ map chunk_digest chunks
  /\ Fixed.b_size b' = Fixed.b_size b /\ Fixed.b_chunk_size b' = Fixed.b_chunk_size b
  /\ Fixed.b_ctime b' = Fixed.b_ctime b /\ Fixed.b_uuid b' = Fixed.b_uuid b.
Proof.
  revert b ds os off s. induction chunks as [|c cs IH]; intros b ds os off s E;
    cbn [upload_fixed] in E; apply session_bind_ok in E as (u & s1 & _ & E).
  - injection E as <- _. rewrite app_nil_r. auto.
  - destruct (APPEND_BATCH <=? length (ds ++ [chunk_digest c]))%nat.
    + apply session_bind_ok in E as (u2 & s2 & _ & E). apply IH in E. cbn in E.
      rewrite <- app_assoc in E. exact E.
    + apply IH in E. cbn in E. rewrite <- app_assoc in E. exact E.
Qed.

(** ** A server that keeps what it was given *)

(** A request answered with a body, leaving the server as it was. *)
Definition serves (s : S) (r : request) (body : bytes) : Prop :=
  serve r s = (H2Answer 200 [Ok body], s).

Lemma exec_fetching (s : S) (r : request) (body : bytes) :
  serves s r body -> exec (fetching r Ok) s = (Ok body, s).
Proof. intros Hs. unfold exec. cbn. rewrite Hs. reflexivity. Qed.

Lemma exec_download_chunk (s : S) (d blob : bytes) :
  serves s (plain GET (L "/chunk?digest=" ++ hex_encode d)) blob ->
  exec (download_chunk d) s = (Ok blob, s).
Proof. apply exec_fetching. Qed.

Lemma exec_download (s : S) (name : str) (l : bytes) :
  serves s (plain GET (L "/download?file-name=" ++ enc name)) l ->
  exec (download name) s = (Ok l, s).
Proof. apply exec_fetching. Qed.

Lemma fetch_chunks_served crypt chunks out s :
  Forall (fun c => exists blob, decode_blob blob crypt = Ok c
    /\ serves s (plain GET (L "/chunk?digest=" ++ hex_encode (plain_digest crypt c))) blob) chunks ->
  fetch_chunks crypt (map (plain_digest crypt) chunks) out s = (Ok (out ++ concat chunks), s).
Proof.
  intros Hc. revert out. induction Hc as [|c cs (blob & Hd & Hs) _ IH]; intros out.
  - cbn. rewrite app_nil_r. reflexivity.
  - cbn [map fetch_chunks]. unfold mbind, session_bind.
    rewrite (exec_download_chunk s _ blob Hs). unfold lift. rewrite verify_ok by exact Hd.
    rewrite IH. cbn. rewrite app_assoc. reflexivity.
Qed.

Lemma archive_index_served archive s b :
  Dynamic.dyn_builder_wf b -> serves s (plain GET (L "/download?file-name=" ++ enc archive))
    (Dynamic.dyn_serialize b) ->
  archive_index archive s = (Ok (Dynamic.dyn_of_builder b), s).
Proof.
  intros Hb Hs. unfold archive_index, mbind, session_bind.
  rewrite (exec_download s _ _ Hs). unfold lift. rewrite Dynamic.dyn_parse_serialize by exact Hb.
  rewrite Dynamic.verify_of_builder. reflexivity.
Qed.

End Sequential.

(** What the upload encodes, the restore decodes. *)
Lemma decode_encode_chunk `{!ZstdLaws} `{!AeadLaws} crypt compress iv data blob :
  length iv = 16%nat -> encode_chunk crypt compress (Ok iv) data = Ok blob ->
  decode_blob blob crypt = Ok data.
Proof.
  intros Hiv. destruct crypt as [c|], compress; cbn [encode_chunk]; intros E.
  - apply (decode_blob_encrypted c iv data blob Hiv E).
  - unfold encrypt_blob in E. destruct (encrypt_with_magic_prefix c (Ok iv) data MAGIC_ENCRYPTED blob eq_refl E) as [Hm Hl].
    unfold decode_blob. apply Nat.leb_le in Hl. rewrite Hl, Hm. cbn [andb].
    rewrite bool_decide_true by reflexivity. cbn [orb].
    rewrite (decrypt_encrypt_with_magic _ _ _ _ _ Hiv E). reflexivity.
  - injection E as <-. apply decode_blob_auto.
  - injection E as <-. unfold decode_blob.
    destruct (frame_parts MAGIC_UNCOMPRESSED data (crc32 data) eq_refl) as (Em & _).
    unfold encode_uncompressed at 2 3. rewrite Em.
    replace (bool_decide _ || bool_decide _) with false by reflexivity.
    rewrite andb_false_r. apply decode_uncompressed.
Qed.

(** ** The download pipeline *)

(** A download task, and the result it has once it is done. *)
Record dl_task := { dl_digest : bytes; dl_result : option (result PbsError bytes) }.

Record pipe := {
  p_todo : list bytes;
  p_inflight : list dl_task;
  p_sent : list bytes;
  p_open : bool;
  p_ended : option (result PbsError unit) }.

Section Pipeline.
Variable crypt : option CryptConfig.
Variable width : Z.
Variable digests : list bytes.

(** [spawn_one]: download a chunk, then decode and verify it. *)
Definition task_result (d : bytes) (o : h2_outcome) : result PbsError bytes :=
  blob ← call_result (download_chunk d) o; decode_and_verify_chunk blob crypt d.

Definition spawn_one (d : bytes) : dl_task := {| dl_digest := d; dl_result := None |}.

Definition pipe_init : pipe :=
  {| p_todo := drop (Z.to_nat width) digests;
     p_inflight := map spawn_one (take (Z.to_nat width) digests);
     p_sent := []; p_open := true; p_ended := None |}.

(** Behind a chunk that was sent, the next digest enters the window. *)
Definition refill (p : pipe) (c : bytes) (q : list dl_task) : pipe :=
  match p_todo p with
  | d :: ds => {| p_todo := ds; p_inflight := q ++ [spawn_one d]; p_sent := p_sent p ++ [c];
                  p_open := p_open p; p_ended := None |}
  | [] => {| p_todo := []; p_inflight := q; p_sent := p_sent p ++ [c];
             p_open := p_open p; p_ended := None |}
  end.

Definition ended (p : pipe) (q : list dl_task) (r : result PbsError unit) : pipe :=
  {| p_todo := p_todo p; p_inflight := q; p_sent := p_sent p; p_open := p_open p;
     p_ended := Some r |}.

Inductive pipe_step : pipe -> pipe -> Prop :=
| pipe_task p l1 d l2 r :
    p_inflight p = l1 ++ spawn_one d :: l2 ->
    (exists o, r = task_result d o)
    \/ (exists e, r = Err (Protocol (L "decode task failed: " ++ e))
                  \/ r = Err (Protocol (L "download task failed: " ++ e))) ->
    pipe_step p {| p_todo := p_todo p;
                   p_inflight := l1 ++ {| dl_digest := d; dl_result := Some r |} :: l2;
                   p_sent := p_sent p; p_open := p_open p; p_ended := p_ended p |}
| pipe_consumer_gone p :
    pipe_step p {| p_todo := p_todo p; p_inflight := p_inflight p; p_sent := p_sent p;
                   p_open := false; p_ended := p_ended p |}
| pipe_send p d c q :
    p_ended p = None -> p_inflight p = {| dl_digest := d; dl_result := Some (Ok c) |} :: q ->
    p_open p = true -> pipe_step p (refill p c q)
| pipe_send_failed p d c q :
    p_ended p = None -> p_inflight p = {| dl_digest := d; dl_result := Some (Ok c) |} :: q ->
    p_open p = false -> pipe_step p (ended p q (Ok tt))
| pipe_error p d e q :
    p_ended p = None -> p_inflight p = {| dl_digest := d; dl_result := Some (Err e) |} :: q ->
    pipe_step p (ended p q (Err e))
| pipe_done p :
    p_ended p = None -> p_inflight p = [] -> pipe_step p (ended p [] (Ok tt)).

(** What has been sent is a verified prefix of the archive; what follows is in
    the window and then in the iterator. *)
Record pipe_inv (p : pipe) : Prop := {
  pi_prefix : exists ds, verified crypt (p_sent p) ds
    /\ (p_ended p = None -> digests = ds ++ map dl_digest (p_inflight p) ++ p_todo p)
    /\ exists rest, digests = ds ++ rest;
  pi_results : forall t c, t ∈ p_inflight p -> dl_result t = Some (Ok c) ->
    plain_digest crypt c = dl_digest t;
  pi_window : p_ended p = None -> p_inflight p = [] -> p_todo p = [];
  pi_done : p_open p = true -> p_ended p = Some (Ok tt) -> verified crypt (p_sent p) digests }.

Lemma pipe_inv_init : 1 <= width -> pipe_inv pipe_init.
Proof.
  intros Hw. split; cbn.
  - exists []. split; [constructor|]. rewrite map_map, map_id, take_drop. eauto.
  - intros t c Hin Hr. apply list_elem_of_In, in_map_iff in Hin as (d & <- & _). discriminate.
  - intros _ Hn. destruct digests as [|d ds]; [apply drop_nil|].
    destruct (Z.to_nat width) eqn:E; [lia | discriminate].
  - discriminate.
Qed.

Lemma task_result_verified d o c : task_result d o = Ok c -> plain_digest crypt c = d.
Proof. unfold task_result. intros E. inv_ok. eapply verified_digest; eassumption. Qed.

Lemma pipe_inv_step p p' : pipe_step p p' -> pipe_inv p -> pipe_inv p'.
Proof.
  intros Hs [(ds & Hv & Hd & Hrest) Hres Hwin Hdone]. destruct Hs as
    [p l1 d l2 r Hi Hr | p | p d c q He Hi Ho | p d c q He Hi Ho | p d e q He Hi | p He Hi].
  - split; cbn.
    + exists ds. split; [exact Hv|]. split; [|exact Hrest]. intros He. rewrite (Hd He), Hi.
      rewrite !map_app. reflexivity.
    + intros t c Hin Hc. apply elem_of_app in Hin as [Hin|Hin].
      2: apply elem_of_cons in Hin as [->|Hin].
      2:{ cbn in *. injection Hc as ->. destruct Hr as [[o Hr]|(e & [Hr|Hr])]; try discriminate.
          symmetry in Hr. apply (task_result_verified d o c Hr). }
      all: apply Hres; [rewrite Hi; apply elem_of_app | exact Hc].
      * left; exact Hin.
      * right; right; exact Hin.
    + intros _ Hn. destruct l1; discriminate.
    + exact Hdone.
  - split; cbn; [eauto | exact Hres | exact Hwin | discriminate].
  - assert (Hc : plain_digest crypt c = d).
    { apply (Hres {| dl_digest := d; dl_result := Some (Ok c) |} c); [rewrite Hi; left | reflexivity]. }
    assert (Hq : forall t, t ∈ q -> t ∈ p_inflight p) by (rewrite Hi; right; assumption).
    assert (Ed : digests = (ds ++ [d]) ++ map dl_digest q ++ p_todo p).
    { rewrite (Hd He), Hi, <- app_assoc. reflexivity. }
    assert (Hv' : verified crypt (p_sent p ++ [c]) (ds ++ [d])).
    { apply Forall2_app; [exact Hv | constructor; [exact Hc | constructor]]. }
    unfold refill. destruct (p_todo p) as [|x xs] eqn:Et; split; cbn; try discriminate.
    + exists (ds ++ [d]). eauto.
    + intros t c' Hin. apply Hres, Hq, Hin.
    + auto.
    + exists (ds ++ [d]). split; [exact Hv'|]. rewrite Ed. rewrite map_app, <- (app_assoc (map _ q)).
      eauto.
    + intros t c' Hin Hr'. apply elem_of_app in Hin as [Hin|Hin]; [apply Hres; auto|].
      apply list_elem_of_singleton in Hin as ->. discriminate.
    + intros _ Hn. destruct q; discriminate.
  - split; cbn; [exists ds; split; [exact Hv | split; [discriminate | exact Hrest]] | | discriminate |].
    + intros t c' Hin. apply Hres. rewrite Hi. right. exact Hin.
    + congruence.
  - split; cbn; [exists ds; split; [exact Hv | split; [discriminate | exact Hrest]] | | discriminate |].
    + intros t c' Hin. apply Hres. rewrite Hi. right. exact Hin.
    + discriminate.
  - split; cbn; [exists ds; split; [exact Hv | split; [discriminate | exact Hrest]] | | discriminate |].
    + intros t c' Hin. apply elem_of_nil in Hin as [].
    + intros _ _. rewrite (Hd He), Hi, (Hwin He Hi), app_nil_r. exact Hv.
Qed.

Lemma pipe_inv_reachable p : 1 <= width -> rtc pipe_step pipe_init p -> pipe_inv p.
Proof.
  intros Hw. apply (rtc_ind_r pipe_inv pipe_init); [apply pipe_inv_init, Hw|].
  intros p1 p2 _ Hs. apply pipe_inv_step, Hs.
Qed.

End Pipeline.

(** *** Consumers *)

(** The loop of the streamed restores: every chunk received is handed to the
    sink, whose failure ends the restore. *)
Fixpoint consume (sink : bytes -> result io_error unit) (chunks : list bytes) (n : Z) :
    result PbsError Z :=
  match chunks with
  | [] => Ok n
  | c :: cs =>
      _ ← map_err Io (sink c);
      consume sink cs (n + Z.of_nat (length c))
  end.

(** [join_pipeline]: the producer's own result, or a panic of its task. *)
Definition join_pipeline (joined : result str (result PbsError unit)) : result PbsError unit :=
  match joined with
  | Ok r => r
  | Err e => Err (Protocol (L "download pipeline task failed: " ++ e))
  end.

(** [restore_dynamic_archive_streamed], by what the pipeline sent and how its
    task ended. *)
Definition streamed_result (sink : bytes -> result io_error unit) (sent : list bytes)
    (joined : result str (result PbsError unit)) : result PbsError Z :=
  n ← consume sink sent 0;
  _ ← join_pipeline joined;
  Ok n.

(** [restore_dynamic_archive_to_writer] flushes the writer at the end. *)
Definition to_writer_result (write : bytes -> result io_error unit) (flush : result io_error unit)
    (sent : list bytes) (joined : result str (result PbsError unit)) : result PbsError Z :=
  n ← consume write sent 0;
  _ ← join_pipeline joined;
  _ ← map_err Io flush;
  Ok n.

Lemma consume_ok sink chunks n m :
  consume sink chunks n = Ok m ->
  m = n + Z.of_nat (length (concat chunks)) /\ Forall (fun c => sink c = Ok tt) chunks.
Proof.
  revert n; induction chunks as [|c cs IH]; intros n E; cbn [consume] in E.
  - injection E as <-. cbn. split; [lia | constructor].
  - destruct (sink c) as [[]|e] eqn:Es; [|discriminate]. cbn in E.
    destruct (IH _ E) as [-> Hf]. cbn. rewrite length_app. split; [lia | constructor; assumption].
Qed.

(** ** Properties *)

(** Chunks with the same digest are the same bytes, for the chunks of a
    stream. *)
Definition collision_free (crypt : option CryptConfig) (chunks : list bytes) : Prop :=
  forall a b, a ∈ chunks -> plain_digest crypt a = plain_digest crypt b -> a = b.

Lemma verified_same crypt stream chunks :
  collision_free crypt stream -> verified crypt chunks (map (plain_digest crypt) stream) ->
  chunks = stream.
Proof.
  revert chunks. induction stream as [|a l IH]; intros chunks Hcf Hv; inversion Hv as [|c d cs ds E Hv']; subst; [reflexivity|].
  f_equal.
  - symmetry. apply Hcf; [left | congruence].
  - apply IH; [|assumption]. intros x y Hx. apply Hcf. right. exact Hx.
Qed.

(** C10: integrity of a restore: whatever the server answers, bytes are returned only
    if its answer to the request for the archive's index is an index that parses and
    passes its checksum, and they are the chunks of that index in its order, each of
    which is the decoded body of the server's answer to the request for its digest and
    has that digest. *)
Theorem restore_integrity {S} `{Server S} archive crypt s out s' :
  restore_dynamic_archive archive crypt s = (Ok out, s') ->
  exists o s1 raw i chunks answers,
    serve (index_request archive) s = (o, s1) /\
    call_result (download archive) o = Ok raw /\ Dynamic.dyn_parse raw = Ok i /\
    Dynamic.dyn_verify_csum i = true /\
    serve_all (map chunk_request (Dynamic.dyn_digests i)) s1 = (answers, s') /\
    Forall3 (chunk_of_answer crypt) chunks (Dynamic.dyn_digests i) answers /\
    out = concat chunks.
Proof.
  unfold restore_dynamic_archive. intros E. apply session_bind_ok in E as (i & s1 & Ei & E).
  apply archive_index_ok in Ei as (o & raw & Es & Er & Ep & Hv).
  apply fetch_chunks_answers in E as (chunks & answers & Ea & Hc & ->).
  exists o, s1, raw, i, chunks, answers. auto 10.
Qed.

(** A restore from an index that lists the digests of a backed-up stream
    returns, if it returns anything, exactly the stream's bytes, as long as the
    stream's chunks have no digest collisions. *)
Theorem restore_same_bytes {S} `{Server S} archive crypt stream s i s1 out s' :
  archive_index archive s = (Ok i, s1) ->
  Dynamic.dyn_digests i = map (plain_digest crypt) stream ->
  collision_free crypt stream ->
  restore_dynamic_archive archive crypt s = (Ok out, s') -> out = concat stream.
Proof.
  intros Hi Hd Hcf E. unfold restore_dynamic_archive in E. unfold mbind, session_bind in E.
  rewrite Hi in E. apply fetch_chunks_verified in E as (chunks & Hc & ->).
  rewrite Hd in Hc. rewrite (verified_same crypt stream chunks Hcf Hc). reflexivity.
Qed.

(** Backing up and restoring is the identity: from a server that serves the
    index of a finished upload and, for every chunk, a blob the upload's
    encoding produced, the restore returns the whole stream. *)
Theorem backup_restore_roundtrip `{!ZstdLaws} `{!AeadLaws} {S} `{Server S} (cfg : config) (s : S) :
  Dynamic.dyn_builder_wf (stream_builder cfg) ->
  serves s (plain GET (L "/download?file-name=" ++ enc (cfg_archive cfg)))
    (Dynamic.dyn_serialize (stream_builder cfg)) ->
  Forall (fun c => exists iv blob, length iv = 16%nat
    /\ encode_chunk (cfg_crypt cfg) (cfg_compress cfg) (Ok iv) c = Ok blob
    /\ serves s (plain GET (L "/chunk?digest=" ++ hex_encode (plain_digest (cfg_crypt cfg) c))) blob)
    (cfg_stream cfg) ->
  restore_dynamic_archive (cfg_archive cfg) (cfg_crypt cfg) s = (Ok (concat (cfg_stream cfg)), s).
Proof.
  intros Hwf Hidx Hch. unfold restore_dynamic_archive, mbind, session_bind.
  rewrite (archive_index_served _ s _ Hwf Hidx).
  unfold Dynamic.dyn_digests. cbn [Dynamic.dyn_of_builder Dynamic.entries stream_builder Dynamic.b_entries].
  rewrite digests_entries_from. apply (fetch_chunks_served (cfg_crypt cfg) (cfg_stream cfg) [] s).
  eapply Forall_impl; [exact Hch|]. intros c (iv & blob & Hiv & He & Hs). exists blob.
  split; [eapply decode_encode_chunk; eassumption | exact Hs].
Qed.

(** The fixed-image backup: on success it returns the checksum of the index
    over the image's 4 MiB chunks, and from a server that serves that index and
    the encoded chunks the restore returns the image. *)
Theorem fixed_image_roundtrip `{!ZstdLaws} `{ManifestJson} {S} `{Server S}
    (p : SessionParams) (uuid : bytes) (archive : str) (image : bytes) (s : S) :
  (forall s1 csum s2, backup_fixed_image p uuid archive image s1 = (Ok csum, s2) ->
     csum = Fixed.fixed_index_csum (image_builder p uuid image))
  /\ (Fixed.fixed_builder_wf (image_builder p uuid image) ->
      serves s (plain GET (L "/download?file-name=" ++ enc archive))
        (Fixed.fixed_serialize (image_builder p uuid image)) ->
      Forall (fun c => serves s (plain GET (L "/chunk?digest=" ++ hex_encode (chunk_digest c)))
                         (encode_auto c)) (image_chunks image) ->
      restore_fixed_image archive None s = (Ok image, s)).
Proof.
  split.
  - intros s1 csum s2 E. unfold backup_fixed_image in E.
    apply session_bind_ok in E as (wid & s3 & _ & E).
    apply session_bind_ok in E as (b & s4 & Eb & E).
    apply session_bind_ok in E as (u & s5 & _ & E). apply session_bind_ok in E as (js & s6 & _ & E).
    apply session_bind_ok in E as (u' & s7 & _ & E). apply session_bind_ok in E as (u'' & s8 & _ & E).
    injection E as <- _. apply upload_fixed_digests in Eb as [Hd _].
    unfold Fixed.fixed_index_csum. rewrite Hd. reflexivity.
  - intros Hwf Hidx Hch. unfold restore_fixed_image, mbind, session_bind.
    rewrite (exec_download s _ _ Hidx). unfold lift. rewrite Fixed.fixed_parse_serialize by exact Hwf.
    replace (Fixed.fixed_verify_csum _) with true
      by (symmetry; apply bool_decide_true; reflexivity). cbn [ensure].
    cbn [Fixed.fixed_of_builder Fixed.f_digests Fixed.f_size image_builder Fixed.b_digests Fixed.b_size].
    rewrite (fetch_chunks_served None (image_chunks image) [] s).
    + cbn [app]. rewrite Nat2Z.id. unfold image_chunks.
      rewrite concat_chunks_of by (unfold DEFAULT_CHUNK_SIZE; lia).
      rewrite take_ge by lia. reflexivity.
    + eapply Forall_impl; [exact Hch|]. intros c Hc. exists (encode_auto c).
      split; [apply decode_blob_auto | exact Hc].
Qed.

(** C26: the download pipeline delivers in order: at any moment what it has sent
    are verified chunks of a prefix of the archive, however the downloads
    interleave; and when it ends well with its consumer still there, everything
    was sent. *)
Theorem pipeline_in_order crypt width digests p :
  1 <= width -> rtc (pipe_step crypt) (pipe_init width digests) p ->
  (exists ds rest, digests = ds ++ rest
     /\ Forall2 (fun c d => plain_digest crypt c = d) (p_sent p) ds)
  /\ (p_open p = true -> p_ended p = Some (Ok tt) ->
      Forall2 (fun c d => plain_digest crypt c = d) (p_sent p) digests).
Proof.
  intros Hw Hr. destruct (pipe_inv_reachable crypt width digests p Hw Hr)
    as [(ds & Hv & _ & rest & Hd) _ _ Hdone]. split; [eauto | exact Hdone].
Qed.

(** A streamed restore that reports success has handed the sink the whole
    archive: the bytes counted are those of verified chunks for every digest. *)
Theorem streamed_restore_complete crypt width digests p sink n :
  1 <= width -> rtc (pipe_step crypt) (pipe_init width digests) p -> p_open p = true ->
  forall r, p_ended p = Some r -> streamed_result sink (p_sent p) (Ok r) = Ok n ->
  Forall2 (fun c d => plain_digest crypt c = d) (p_sent p) digests
  /\ n = Z.of_nat (length (concat (p_sent p)))
  /\ Forall (fun c => sink c = Ok tt) (p_sent p).
Proof.
  intros Hw Hr Ho r He E. unfold streamed_result in E. cbn in E.
  apply result_bind_ok in E as (m & Ec & E). apply result_bind_ok in E as ([] & -> & [= <-]).
  apply consume_ok in Ec as [-> Hf]. split; [|split; [lia | exact Hf]].
  apply (pi_done _ _ _ (pipe_inv_reachable crypt width digests p Hw Hr) Ho He).
Qed.

End Restore.

(** ** A server that keeps a table of answers *)

Import Sample.
#[local] Existing Instance sample_percent.
#[local] Existing Instance sample_libs.

Definition table : Type := list (request * bytes).

#[local] Instance table_server : Server table := fun rq t =>
  (match find (fun e => bool_decide (e.1 = rq)) t with
   | Some (_, body) => H2Answer 200 [Ok body]
   | None => H2Answer 404 []
   end, t).

(** The store behind the upload of Upload.v's sample run. *)
Definition sample_store : table :=
  [(plain GET (L "/download?file-name=" ++ enc (L "db.didx")),
    Dynamic.dyn_serialize (stream_builder sample_cfg));
   (plain GET (L "/chunk?digest=" ++ hex_encode hello_digest), hello_blob)].

Lemma sample_builder_wf : Dynamic.dyn_builder_wf (stream_builder sample_cfg).
Proof.
  split; [reflexivity | range |].
  apply Forall_cons_2; [split; [range | reflexivity] | apply Forall_nil_2].
Qed.

Lemma sample_restore :
  restore_dynamic_archive (L "db.didx") None sample_store = (Ok (bstr "hello"), sample_store).
Proof. vm_compute. reflexivity. Qed.

Lemma restore_integrity_witness : exists o s1 raw i chunks answers,
  serve (index_request (L "db.didx")) sample_store = (o, s1) /\
  call_result (download (L "db.didx")) o = Ok raw /\ Dynamic.dyn_parse raw = Ok i /\
  Dynamic.dyn_verify_csum i = true /\
  serve_all (map chunk_request (Dynamic.dyn_digests i)) s1 = (answers, sample_store) /\
  Forall3 (chunk_of_answer None) chunks (Dynamic.dyn_digests i) answers /\
  bstr "hello" = concat chunks.
Proof. exact (restore_integrity _ _ _ _ _ sample_restore). Defined.

Lemma restore_same_bytes_witness : bstr "hello" = concat [bstr "hello"].
Proof.
  apply (restore_same_bytes (L "db.didx") None [bstr "hello"] sample_store
           (Dynamic.dyn_of_builder (stream_builder sample_cfg)) sample_store _ sample_store).
  - vm_compute. reflexivity.
  - vm_compute. reflexivity.
  - intros a b Ha%list_elem_of_singleton. subst a. apply pad_digest_inj. apply Nat.leb_le. reflexivity.
  - exact sample_restore.
Defined.

Lemma backup_restore_roundtrip_witness :
  restore_dynamic_archive (L "db.didx") None sample_store = (Ok (bstr "hello"), sample_store).
Proof.
  apply (backup_restore_roundtrip sample_cfg sample_store).
  - exact sample_builder_wf.
  - vm_compute. reflexivity.
  - constructor; [|constructor]. exists (replicate 16 x00), hello_blob.
    split; [reflexivity | split; vm_compute; reflexivity].
Defined.

Definition image_store : table :=
  [(plain GET (L "/download?file-name=" ++ enc (L "disk.fidx")),
    Fixed.fixed_serialize (image_builder sample_params (replicate 16 x00) (bstr "hello")));
   (plain GET (L "/chunk?digest=" ++ hex_encode hello_digest), hello_blob)].

#[local] Existing Instance sample_manifest_json.

Lemma fixed_image_roundtrip_witness :
  restore_fixed_image (L "disk.fidx") None image_store = (Ok (bstr "hello"), image_store).
Proof.
  apply (fixed_image_roundtrip sample_params (replicate 16 x00) (L "disk.fidx") (bstr "hello")
           image_store).
  - split; [reflexivity | range | range | range | constructor; [reflexivity | constructor]].
  - vm_compute. reflexivity.
  - constructor; [vm_compute; reflexivity | constructor].
Defined.

Definition sample_pipe (r : option (result PbsError bytes)) : pipe :=
  {| p_todo := []; p_inflight := [{| dl_digest := hello_digest; dl_result := r |}];
     p_sent := []; p_open := true; p_ended := None |}.

Definition sample_pipe_end : pipe :=
  {| p_todo := []; p_inflight := []; p_sent := [bstr "hello"]; p_open := true;
     p_ended := Some (Ok tt) |}.

Lemma sample_pipe_run :
  rtc (pipe_step None) (pipe_init 2 [hello_digest]) sample_pipe_end.
Proof.
  eapply rtc_l; [apply (pipe_task None (sample_pipe None) [] hello_digest []
    (Ok (bstr "hello"))); [reflexivity|]; left; exists (H2Answer 200 [Ok hello_blob]);
    vm_compute; reflexivity|].
  eapply rtc_l; [apply (pipe_send None (sample_pipe (Some (Ok (bstr "hello")))) hello_digest
    (bstr "hello") []); reflexivity|].
  eapply rtc_l; [apply (pipe_done None); reflexivity|].
  apply rtc_refl.
Qed.

Lemma pipeline_in_order_witness :
  (exists ds rest, [hello_digest] = ds ++ rest
     /\ Forall2 (fun c d => plain_digest None c = d) [bstr "hello"] ds)
  /\ (true = true -> Some (Ok tt) = Some (@Ok PbsError unit tt) ->
      Forall2 (fun c d => plain_digest None c = d) [bstr "hello"] [hello_digest]).
Proof.
  apply (pipeline_in_order None 2 [hello_digest] sample_pipe_end); [lia | exact sample_pipe_run].
Defined.

Lemma streamed_restore_complete_witness :
  Forall2 (fun c d => plain_digest None c = d) [bstr "hello"] [hello_digest]
  /\ 5 = Z.of_nat (length (concat [bstr "hello"]))
  /\ Forall (fun c => Ok tt = @Ok io_error unit tt) [bstr "hello"].
Proof.
  apply (streamed_restore_complete None 2 [hello_digest] sample_pipe_end (fun _ => Ok tt) 5
           ltac:(lia) sample_pipe_run eq_refl (Ok tt) eq_refl eq_refl).
Defined.
