(* ===== verification/Snapshot.v ===== *)
(** A snapshot from the reader to the restore ([pbs-client/src/chunker.rs] and
    [session.rs]).

    The chunker cuts what a reader delivers; [Upload]'s steps send the chunks; the server
    keeps what it acknowledged; [Restore] reads it back.  Shown here: every blob that goes
    out is the encoding of a chunk of the stream under that chunk's digest and fits the
    server's limit; and, with a server that keeps its promises, restoring a finished
    snapshot gives exactly the bytes the reader delivered, whatever the interleaving of
    the upload was and whatever the server had before. *)

From Stdlib Require Import ZArith Lia Strings.Byte Ascii String.
From stdpp Require Import base tactics option numbers list relations.
From S2P Require Import Prelude Text Base Blob Index Repository HttpApi Session Upload Restore.
Open Scope Z_scope.

(** ** The chunker *)

(** The reader: what it delivers, and the error it ends with, if any. *)
Record source := Source { src_bytes : bytes; src_error : option str }.

(** The fastcdc crate: the cuts of a buffer, as offset and length, and the items of the
    streaming chunker. *)
Class FastCdc := {
  cdc_new : Z -> Z -> Z -> bytes -> list (Z * Z);
  cdc_stream : Z -> Z -> Z -> source -> list (result str bytes) }.

(** Cuts that follow each other from an offset to the end. *)
Fixpoint covers (from upto : Z) (cuts : list (Z * Z)) : Prop :=
  match cuts with
  | [] => from = upto
  | (o, n) :: cuts => o = from /\ 0 < n /\ covers (from + n) upto cuts
  end.

Definition MIN_CHUNK : Z := 1024 * 1024.
Definition AVG_CHUNK : Z := 4 * 1024 * 1024.
Definition MAX_CHUNK : Z := 8 * 1024 * 1024.

Section chunker.
Context `{FastCdc}.

Definition chunk_all_with (data : bytes) (min avg max : Z) : list bytes :=
  map (fun '(o, n) => slice (Z.to_nat o) (Z.to_nat (o + n)) data) (cdc_new min avg max data).

Definition chunk_all (data : bytes) : list bytes := chunk_all_with data MIN_CHUNK AVG_CHUNK MAX_CHUNK.

Definition chunk_reader (r : source) : list (result str bytes) := cdc_stream MIN_CHUNK AVG_CHUNK MAX_CHUNK r.

(** The chunker thread of [backup_dynamic_reader]: it sends chunks until one is an
    error. *)
Fixpoint chunker_task (items : list (result str bytes)) : list bytes * result str unit :=
  match items with
  | [] => ([], Ok tt)
  | Err e :: _ => ([], Err e)
  | Ok c :: items => let '(cs, r) := chunker_task items in (c :: cs, r)
  end.

End chunker.

(** What the crate documents: the cuts cover the buffer with pieces of at most the
    maximal size, and the streaming chunker cuts a whole stream as the buffer; a reader
    that fails gives a beginning of what it delivered, and then its error. *)
Class FastCdcLaws `{FastCdc} := {
  cdc_covers : forall min avg max data, 0 < min <= max ->
    covers 0 (Z.of_nat (length data)) (cdc_new min avg max data) /\
    Forall (fun x => x.2 <= max) (cdc_new min avg max data);
  cdc_whole : forall min avg max data, 0 < min <= max ->
    cdc_stream min avg max (Source data None) = map Ok (chunk_all_with data min avg max);
  cdc_broken : forall min avg max data e, 0 < min <= max ->
    exists cs items, cdc_stream min avg max (Source data (Some e)) = map Ok cs ++ Err e :: items /\
      concat cs `prefix_of` data /\ Forall (fun c => Z.of_nat (length c) <= max) cs }.

Section cuts.
Context `{FastCdcLaws}.

Lemma covers_concat (data : bytes) cuts from : 0 <= from -> covers from (Z.of_nat (length data)) cuts ->
  from <= Z.of_nat (length data) /\
  concat (map (fun '(o, n) => slice (Z.to_nat o) (Z.to_nat (o + n)) data) cuts) = drop (Z.to_nat from) data /\
  Forall2 (fun c x => Z.of_nat (length c) = x.2)
    (map (fun '(o, n) => slice (Z.to_nat o) (Z.to_nat (o + n)) data) cuts) cuts.
Proof.
  revert from. induction cuts as [|[o n] cuts IH]; intros from Hf Hc; cbn in Hc.
  - subst from. split; [lia|]. split; [|constructor]. cbn. rewrite Nat2Z.id, drop_all. reflexivity.
  - destruct Hc as (-> & Hn & Hc). destruct (IH (from + n) ltac:(lia) Hc) as (Hle & Ec & Hl).
    split; [lia|]. cbn [map concat]. split.
    + rewrite Ec. unfold slice.
      replace (Z.to_nat (from + n)) with (Z.to_nat from + Z.to_nat n)%nat by lia.
      replace (Z.to_nat from + Z.to_nat n - Z.to_nat from)%nat with (Z.to_nat n) by lia.
      rewrite <- (take_drop (Z.to_nat n) (drop (Z.to_nat from) data)) at 2.
      rewrite drop_drop. reflexivity.
    + constructor; [|exact Hl]. cbn [snd]. unfold slice. rewrite length_take, length_drop.
      lia.
Qed.

(** Cutting a buffer loses nothing, and no piece is too large. *)
Lemma chunk_all_with_ok data min avg max : 0 < min <= max ->
  concat (chunk_all_with data min avg max) = data /\
  Forall (fun c => Z.of_nat (length c) <= max) (chunk_all_with data min avg max).
Proof.
  intros Hm. destruct (cdc_covers min avg max data Hm) as [Hc Hs]. unfold chunk_all_with.
  destruct (covers_concat data _ 0 ltac:(lia) Hc) as (_ & Ec & Hl). split; [exact Ec|].
  set (cs := map _ _) in *. clearbody cs. clear - Hl Hs. induction Hl as [|c x cs xs E Hl IH]; [constructor|].
  inversion Hs as [|? ? Hx Hs']; subst. cbv beta in *. constructor; [lia | auto].
Qed.

Lemma chunker_task_ok cs : chunker_task (map Ok cs) = (cs, Ok tt).
Proof. induction cs as [|c cs IH]; [reflexivity|]. cbn. rewrite IH. reflexivity. Qed.

Lemma chunker_task_err cs e items : chunker_task (map Ok cs ++ Err e :: items) = (cs, Err e).
Proof. induction cs as [|c cs IH]; [reflexivity|]. cbn. rewrite IH. reflexivity. Qed.

(** The chunks of a reader, whole or broken. *)
Lemma chunk_reader_ok r :
  let '(cs, res) := chunker_task (chunk_reader r) in
  concat cs `prefix_of` src_bytes r /\ Forall (fun c => Z.of_nat (length c) <= MAX_CHUNK) cs /\
  match src_error r with None => res = Ok tt /\ concat cs = src_bytes r | Some e => res = Err e end.
Proof.
  assert (0 < MIN_CHUNK <= MAX_CHUNK) as Hm by (unfold MIN_CHUNK, MAX_CHUNK; lia).
  destruct r as [data [e|]]; unfold chunk_reader.
  - destruct (cdc_broken MIN_CHUNK AVG_CHUNK MAX_CHUNK data e Hm) as (cs & items & -> & Hp & Hs).
    rewrite chunker_task_err. cbn. auto.
  - rewrite cdc_whole, chunker_task_ok by exact Hm.
    destruct (chunk_all_with_ok data MIN_CHUNK AVG_CHUNK MAX_CHUNK Hm) as [Ec Hs].
    cbn. rewrite Ec. auto.
Qed.

End cuts.

(** ** What is sent *)

Section sent.
Context `{PercentLib} `{HexLib} `{SessionLibs} `{Crc32Lib} `{HashLib} `{ZstdLib} `{AeadLib} `{ManifestJson}.
Variable cfg : config.

(** The blob is the encoding of a chunk of the stream with this digest. *)
Definition encodes (d enc : bytes) : Prop :=
  exists data rnd, data ∈ cfg_stream cfg /\ d = plain_digest (cfg_crypt cfg) data /\
    encode_chunk (cfg_crypt cfg) (cfg_compress cfg) rnd data = Ok enc.

(** A chunk of the stream with its digest. *)
Definition of_stream (d data : bytes) : Prop :=
  data ∈ cfg_stream cfg /\ d = plain_digest (cfg_crypt cfg) data.

Definition task_sound (t : task) : Prop :=
  of_stream (t_digest t) (t_data t) /\
  forall enc, t_state t = Uploading enc -> encodes (t_digest t) enc.

Record sent_inv (s : up_state) : Prop := {
  si_log : forall d enc ok, EvChunk d enc ok ∈ u_log s -> encodes d enc;
  si_tasks : Forall task_sound (u_inflight s);
  si_stream : Forall (fun c => c ∈ cfg_stream cfg) (u_stream s);
  si_next : match u_phase s with Acquire d data _ => of_stream d data | _ => True end }.

Lemma task_step_sound wid t t' n evs : task_step cfg wid t t' n evs -> task_sound t ->
  task_sound t' /\ forall d enc ok, EvChunk d enc ok ∈ evs -> encodes d enc.
Proof.
  intros Hs [Hof Henc]. destruct Hs as [d data rnd enc E|d data rnd e E|d data enc o r E|t e Hr]; cbn in *.
  - split; [|intros ? ? ? Hin; inversion Hin]. split; [exact Hof|]. cbn. intros enc' [= <-].
    destruct Hof as [Hin Hd]. exists data, rnd. auto.
  - split; [|intros ? ? ? Hin; inversion Hin]. split; [exact Hof|]. discriminate.
  - split; [split; [exact Hof | discriminate]|].
    intros d' enc' ok Hin. apply list_elem_of_singleton in Hin as [= -> -> ->]. apply Henc. reflexivity.
  - split; [|intros ? ? ? Hin; inversion Hin]. split; [exact Hof | discriminate].
Qed.

(** A step that adds no chunk to the log, no task and nothing to the stream. *)
Lemma sent_inv_moved s s' : sent_inv s ->
  (forall d enc ok, EvChunk d enc ok ∈ u_log s' -> EvChunk d enc ok ∈ u_log s) ->
  (forall t, t ∈ u_inflight s' -> t ∈ u_inflight s) -> (forall c, c ∈ u_stream s' -> c ∈ u_stream s) ->
  match u_phase s' with Acquire d data _ => of_stream d data | _ => True end -> sent_inv s'.
Proof.
  intros [Hl Ht Hs Hn] El Et Es En. split; [eauto | | |exact En].
  - apply Forall_forall. intros t Hin. exact (proj1 (Forall_forall _ _) Ht t (Et t Hin)).
  - apply Forall_forall. intros c Hin. exact (proj1 (Forall_forall _ _) Hs c (Es c Hin)).
Qed.

Definition acquires (p : phase) : bool := match p with Acquire _ _ _ => true | _ => false end.

Lemma sent_inv_phase p s : acquires p = false -> sent_inv s -> sent_inv (set_phase p s).
Proof. intros Hp Hi. apply (sent_inv_moved s); auto. destruct p; (exact I || discriminate). Qed.

Lemma sent_inv_answered ev r next s : (forall b d enc ok, ev b <> EvChunk d enc ok) -> acquires next = false ->
  sent_inv s -> sent_inv (answered ev r next s).
Proof.
  intros Hev Hn Hi. unfold answered. apply sent_inv_phase; [destruct r; auto|].
  apply (sent_inv_moved s); auto; [|apply (si_next _ Hi)]. cbn. intros d enc ok Hin.
  apply elem_of_app in Hin as [Hin|Hin]; [exact Hin|].
  apply list_elem_of_singleton in Hin. destruct (Hev (is_ok r) d enc ok). auto.
Qed.

(** Taking a finished task out of the set. *)
Lemma sent_inv_joined s r rest p : joins s r rest -> acquires p = false -> sent_inv s ->
  sent_inv (set_phase p (with_tasks rest 0 [] s)).
Proof.
  intros (l1 & t & l2 & E & _ & ->) Hp Hi. apply sent_inv_phase; [exact Hp|].
  apply (sent_inv_moved s); auto; cbn; [|intros u|apply (si_next _ Hi)].
  - intros d enc ok. rewrite app_nil_r. auto.
  - rewrite E, !elem_of_app, elem_of_cons. tauto.
Qed.

Lemma sent_inv_step s s' : step cfg s s' -> sent_inv s -> sent_inv s'.
Proof.
  intros Hs Hi.
  destruct Hs as [s l1 t l2 t' n evs E Ht| | | |s data rest Hp E Hk|s data rest Hp E Hk|s d data start Hp Hr
    |s d start r rest Hp Hj|s d start Hp Hn| |s r rest Hp Hj| | | | | | | | | | |];
    try (apply sent_inv_phase; [repeat case_match; reflexivity | exact Hi]);
    try (apply sent_inv_answered; [discriminate | reflexivity | exact Hi]).
  - destruct Hi as [Hl Hts Hst Hnx]. rewrite E in Hts.
    apply Forall_app in Hts as [Hleft Hts]. apply Forall_cons in Hts as [Hsound Hright].
    destruct (task_step_sound _ _ _ _ _ Ht Hsound) as [Hsound' Hev].
    split; cbn; [|apply Forall_app; auto | exact Hst | exact Hnx].
    intros d enc ok Hin. apply elem_of_app in Hin as [Hin|Hin]; eauto.
  - destruct (call_result _ o); apply sent_inv_phase; auto. apply (sent_inv_moved s); auto. apply (si_next _ Hi).
  - destruct (call_result _ o); apply sent_inv_phase; auto. apply (sent_inv_moved s); auto. apply (si_next _ Hi).
  - apply (sent_inv_moved s); auto; cbn; [|rewrite Hp; exact I].
    intros c Hc. rewrite E. right. exact Hc.
  - apply (sent_inv_moved s); auto; cbn.
    + intros c Hc. rewrite E. right. exact Hc.
    + split; [|reflexivity]. apply (proj1 (Forall_forall _ _) (si_stream _ Hi)). rewrite E. left.
  - pose proof (si_next _ Hi) as Hnx. rewrite Hp in Hnx. destruct Hi as [Hl Hts Hst _].
    split; cbn; auto. apply Forall_app. split; [exact Hts|]. repeat constructor; auto.
    + apply Hnx.
    + apply Hnx.
    + discriminate.
  - apply (sent_inv_joined s r); auto. destruct r; reflexivity.
  - apply sent_inv_phase; [reflexivity|]. apply (sent_inv_moved s); auto. cbn. rewrite Hp. exact I.
  - apply (sent_inv_joined s r); auto. destruct r; reflexivity.
Qed.

Lemma sent_inv_reachable s : reachable cfg s -> sent_inv s.
Proof.
  apply (rtc_ind_r sent_inv (init cfg)).
  - split; cbn; [intros d enc ok Hin; inversion Hin | constructor | apply Forall_forall; auto | exact I].
  - intros s1 s2 _ Hs. apply sent_inv_step, Hs.
Qed.

(** A blob is its payload and at most 44 bytes more, however it is encoded. *)
Lemma encode_chunk_size `{!AeadLaws} `{!AeadSizes} crypt compress rnd data enc :
  encode_chunk crypt compress rnd data = Ok enc -> (length enc <= length data + 44)%nat.
Proof.
  assert (forall c r p magic b, length magic = 8%nat -> encrypt_with_magic c r p magic = Ok b ->
            length b = (length p + 44)%nat) as Henc.
  { intros c r p magic b Hm E. unfold encrypt_with_magic in E. inv_ok.
    match goal with H : (let '(_, _) := ?t in _) = _ |- _ => destruct t as [buffer tag] end. inv_ok.
    match goal with H : aead_encrypt _ _ _ = Some _ |- _ =>
      pose proof (aead_tag_len _ _ _ _ _ H); destruct (aead_sizes _ _ _ _ _ H) end.
    rewrite !length_app, length_le_bytes, Hm. lia. }
  destruct crypt as [c|], compress; cbn [encode_chunk]; intros E.
  - unfold encrypt_compressed_blob in E. destruct (Nat.ltb_spec (length (zstd_compress data)) (length data)).
    + apply Henc in E; [lia | reflexivity].
    + apply Henc in E; [lia | reflexivity].
  - apply Henc in E; [lia | reflexivity].
  - injection E as <-. unfold encode_auto. destruct (Nat.ltb_spec (length (zstd_compress data)) (length data)).
    + unfold frame_zstd. rewrite !length_app, length_le_bytes. change (length MAGIC_ZSTD) with 8%nat. lia.
    + unfold encode_uncompressed. rewrite !length_app, length_le_bytes. change (length MAGIC_UNCOMPRESSED) with 8%nat. lia.
  - injection E as <-. unfold encode_uncompressed. rewrite !length_app, length_le_bytes.
    change (length MAGIC_UNCOMPRESSED) with 8%nat. lia.
Qed.

(** What was sent decodes to the chunk. *)
Lemma encode_chunk_decodes `{!ZstdLaws} `{!AeadLaws} `{!AeadSizes} crypt compress rnd data enc :
  encode_chunk crypt compress rnd data = Ok enc -> decode_blob enc crypt = Ok data.
Proof.
  intros E. destruct crypt as [c|].
  - assert (exists iv, rnd = Ok iv /\ length iv = 16%nat) as (iv & -> & Hiv).
    { assert (exists p magic, encrypt_with_magic c rnd p magic = Ok enc) as (p & magic & E').
      { destruct compress; cbn in E; [unfold encrypt_compressed_blob in E; case_match|]; eauto. }
      unfold encrypt_with_magic in E'. destruct rnd as [iv|e]; [|discriminate]. exists iv. split; [reflexivity|].
      cbn in E'. inv_ok. match goal with H : (let '(_, _) := ?t in _) = _ |- _ => destruct t end. inv_ok.
      match goal with H : aead_encrypt _ _ _ = Some _ |- _ => apply (aead_sizes _ _ _ _ _ H) end. }
    exact (decode_encode_chunk (Some c) compress iv data enc Hiv E).
  - apply (decode_encode_chunk None compress (replicate 16 x00) data enc); [reflexivity|].
    destruct compress; exact E.
Qed.

End sent.

(** ** What the server keeps *)

Section snapshot.
Context `{PercentLib} `{HexLib} `{SessionLibs} `{Crc32Lib} `{HashLib} `{ZstdLib} `{AeadLib} `{ManifestJson}.

(** The entries of an index to which these digests were appended at these start offsets,
    closed at this size: each ends where the next begins. *)
Definition index_entries (pairs : list (bytes * Z)) (size : Z) : list (Z * bytes) :=
  combine (drop 1 (map snd pairs ++ [size])) (map fst pairs).

(** The promises of the server about a session whose requests it answered as the log
    says: an index that was closed is served with the entries that were appended, in a
    file of the server's own time and identifier; and for a chunk that it acknowledged,
    or that a previous snapshot has, it serves a blob of that chunk, one that it was sent
    or an older one with the same digest. *)
Record kept {S} `{Server S} (srv : S) (cfg : config) (known : list bytes) (log : list event) : Prop := {
  kp_index : forall count size csum, EvClose count size csum true ∈ log -> exists b,
    Dynamic.dyn_builder_wf b /\ Dynamic.b_entries b = index_entries (appended log) size /\
    serves srv (plain GET (L "/download?file-name=" ++ enc (cfg_archive cfg))) (Dynamic.dyn_serialize b);
  kp_chunks : forall d, stored known log d -> exists blob,
    serves srv (plain GET (L "/chunk?digest=" ++ hex_encode d)) blob /\
    (EvChunk d blob true ∈ log \/
     exists data, decode_blob blob (cfg_crypt cfg) = Ok data /\ plain_digest (cfg_crypt cfg) data = d) }.

(** The backup of a reader. *)
Definition reads `{FastCdc} (cfg : config) (r : source) : Prop :=
  (cfg_stream cfg, cfg_reader_end cfg)
  = (let '(cs, res) := chunker_task (chunk_reader r) in
     (cs, map_err (fun e => Io (IoError OtherIo e)) res)).

(** The backup of a file: its size is an estimate for the progress only; the catalog, if
    there is one, is sent before the upload starts. *)
Definition backup_dynamic_file_with_progress `{FastCdc} (width : Z) (uuid : bytes) (params : SessionParams)
    (archive_name path : str) (dedup compress : bool) (catalog : option (str * bytes)) (crypt : option CryptConfig)
    (metadata : result str Z) (opened : result str source) : result PbsError config :=
  match opened with
  | Err e => Err (Protocol (L "opening " ++ path ++ L ": " ++ e))
  | Ok file =>
      let '(chunks, res) := chunker_task (chunk_reader file) in
      Ok {| cfg_params := params; cfg_archive := archive_name; cfg_dedup := dedup; cfg_compress := compress;
            cfg_total_bytes := match metadata with Ok n => n | Err _ => 0 end; cfg_crypt := crypt;
            cfg_catalog := Some <$> catalog; cfg_width := width; cfg_uuid := uuid; cfg_stream := chunks;
            cfg_reader_end := map_err (fun e => Io (IoError OtherIo e)) res |}
  end.

Definition backup_dynamic_file `{FastCdc} (width : Z) (uuid : bytes) (params : SessionParams)
    (archive_name path : str) (dedup : bool) :=
  backup_dynamic_file_with_progress width uuid params archive_name path dedup true None None.

(** It is the backup of a reader, the opened file. *)
Lemma file_reads `{FastCdc} width uuid params archive path dedup compress catalog crypt metadata opened cfg :
  backup_dynamic_file_with_progress width uuid params archive path dedup compress catalog crypt metadata opened = Ok cfg ->
  exists file, opened = Ok file /\ reads cfg file.
Proof.
  unfold backup_dynamic_file_with_progress, reads. destruct opened as [file|e]; [|discriminate].
  intros E. exists file. split; [reflexivity|]. destruct (chunker_task (chunk_reader file)) as [cs res].
  injection E as <-. reflexivity.
Qed.

Lemma starts_ends cfg o l :
  starts_from o l ++ [o + total l] = o :: map fst (entries_from cfg o l).
Proof.
  revert o. induction l as [|c l IH]; intros o; cbn [starts_from entries_from map app fst].
  - f_equal. unfold total. cbn. lia.
  - f_equal. rewrite <- IH. do 2 f_equal. unfold total. cbn. rewrite length_app. lia.
Qed.

Lemma index_entries_stream cfg :
  index_entries (combine (map (plain_digest (cfg_crypt cfg)) (cfg_stream cfg)) (starts_from 0 (cfg_stream cfg)))
    (total (cfg_stream cfg)) = entries_from cfg 0 (cfg_stream cfg).
Proof.
  unfold index_entries. set (l := cfg_stream cfg).
  assert (length (map (plain_digest (cfg_crypt cfg)) l) = length (starts_from 0 l)) as Hl
    by (rewrite length_map, length_starts_from; reflexivity).
  assert (map fst (combine (map (plain_digest (cfg_crypt cfg)) l) (starts_from 0 l)) = map (plain_digest (cfg_crypt cfg)) l) as ->
    by (apply fst_zip; lia).
  assert (map snd (combine (map (plain_digest (cfg_crypt cfg)) l) (starts_from 0 l)) = starts_from 0 l) as ->
    by (apply snd_zip; lia).
  pose proof (starts_ends cfg 0 l) as E. rewrite Z.add_0_l in E. rewrite E. cbn [drop].
  rewrite <- (digests_entries_from cfg 0 l). rewrite drop_0.
  generalize (entries_from cfg 0 l). clear. intros es.
  induction es as [|[x d] es IH]; cbn; [reflexivity|]. rewrite IH. reflexivity.
Qed.

(** The round trip, for the compositions that use it. *)
Lemma snapshot_restores `{!ZstdLaws} `{!AeadLaws} `{!AeadSizes} `{FastCdcLaws} {S} `{Server S}
    (cfg : config) (r : source) u l1 ok l2 (srv : S) :
  reads cfg r -> reachable cfg u -> u_log u = l1 ++ EvFinish ok :: l2 ->
  kept srv cfg (u_known u) l1 -> collision_free (cfg_crypt cfg) (cfg_stream cfg) ->
  src_error r = None /\
  (forall d enc sent, EvChunk d enc sent ∈ u_log u -> Z.of_nat (length enc) <= 16 * 1024 * 1024) /\
  restore_dynamic_archive (cfg_archive cfg) (cfg_crypt cfg) srv = (Ok (src_bytes r), srv).
Proof.
  intros Hrd Hr El Hk Hcf. destruct (inv_reachable cfg u Hr) as (Hl & _).
  destruct (Hl _ _ _ El) as (Hc & (Hre & Hst & Ha) & _). pose proof (sent_inv_reachable cfg u Hr) as Hsent.
  pose proof (chunk_reader_ok r) as Hcr. unfold reads in Hrd.
  destruct (chunker_task (chunk_reader r)) as [cs res]. injection Hrd as Ecs Eres.
  destruct Hcr as (_ & Hsize & Hend). rewrite Hre in Eres.
  destruct res as [[]|e]; [|discriminate]. destruct (src_error r) as [e|]; [discriminate|].
  destruct Hend as [_ Ebytes]. split; [reflexivity|]. split.
  - intros d enc sent Hin. destruct (si_log _ _ Hsent d enc sent Hin) as (data & rnd & Hd & _ & E).
    apply encode_chunk_size in E. rewrite Ecs in Hd.
    pose proof (proj1 (Forall_forall _ _) Hsize data Hd) as Hb. cbv beta in Hb. unfold MAX_CHUNK in Hb. lia.
  - destruct (kp_index _ _ _ _ Hk _ _ _ Hc) as (b & Hwf & Hb & Hsv). rewrite Ha, index_entries_stream in Hb.
    unfold restore_dynamic_archive, mbind, session_bind.
    rewrite (archive_index_served _ srv b Hwf Hsv). unfold Dynamic.dyn_digests.
    cbn [Dynamic.dyn_of_builder Dynamic.entries]. rewrite Hb, digests_entries_from.
    rewrite <- Ebytes, <- Ecs. apply (fetch_chunks_served (cfg_crypt cfg) (cfg_stream cfg) [] srv).
    apply Forall_forall. intros c Hin.
    pose proof (proj1 (Forall_forall _ _) Hst c Hin) as Hs. cbv beta in Hs.
    destruct (kp_chunks _ _ _ _ Hk _ Hs) as (blob & Hsb & Hor). exists blob. split; [|exact Hsb].
    assert (exists data, decode_blob blob (cfg_crypt cfg) = Ok data /\
              plain_digest (cfg_crypt cfg) data = plain_digest (cfg_crypt cfg) c) as (data & Hdec & Hdg).
    { destruct Hor as [Hev|Hd]; [|exact Hd].
      assert (EvChunk (plain_digest (cfg_crypt cfg) c) blob true ∈ u_log u) as Hev'
        by (rewrite El; apply elem_of_app; left; exact Hev).
      destruct (si_log _ _ Hsent _ _ _ Hev') as (data & rnd & _ & Edg & E).
      exists data. split; [exact (encode_chunk_decodes _ _ _ _ _ E) | symmetry; exact Edg]. }
    rewrite (Hcf c data Hin (eq_sym Hdg)). exact Hdec.
Qed.

(** C3: from the reader to the restore.  Whatever the interleaving of the uploads, the
    answers of the server, and the chunks it had before: if the snapshot was finished,
    the reader had ended without an error, every blob that was sent fits the server's
    limit of 16 MiB, and restoring the archive from a server that keeps its promises
    gives exactly the bytes the reader delivered (collisions of SHA-256 apart). *)
Theorem finished_snapshot_restores `{!ZstdLaws} `{!AeadLaws} `{!AeadSizes} `{FastCdcLaws} {S} `{Server S}
    (cfg : config) (r : source) u l1 ok l2 (srv : S) :
  reads cfg r -> reachable cfg u -> u_log u = l1 ++ EvFinish ok :: l2 ->
  kept srv cfg (u_known u) l1 -> collision_free (cfg_crypt cfg) (cfg_stream cfg) ->
  src_error r = None /\
  (forall d enc sent, EvChunk d enc sent ∈ u_log u -> Z.of_nat (length enc) <= 16 * 1024 * 1024) /\
  restore_dynamic_archive (cfg_archive cfg) (cfg_crypt cfg) srv = (Ok (src_bytes r), srv).
Proof. apply snapshot_restores. Qed.

End snapshot.

(** ** Samples *)

Module SampleSnapshot.
Import Sample.
#[local] Existing Instance sample_percent.
#[local] Existing Instance sample_libs.
#[local] Existing Instance sample_manifest_json.
#[local] Existing Instance table_server.

(** A chunker that cuts at the maximal size. *)
Fixpoint cut (fuel : nat) (max from len : Z) : list (Z * Z) :=
  match fuel with
  | O => []
  | S fuel =>
      if len =? 0 then []
      else if len <=? max then [(from, len)]
      else (from, max) :: cut fuel max (from + max) (len - max)
  end.

Definition cuts (max : Z) (data : bytes) : list (Z * Z) := cut (length data) max 0 (Z.of_nat (length data)).

#[export] Instance cdc : FastCdc := {|
  cdc_new := fun _ _ max data => cuts max data;
  cdc_stream := fun _ _ max r =>
    match src_error r with
    | Some e => [Err e]
    | None => map Ok (map (fun '(o, n) => slice (Z.to_nat o) (Z.to_nat (o + n)) (src_bytes r)) (cuts max (src_bytes r)))
    end |}.

Lemma cut_covers fuel max from len : 0 < max -> 0 <= len <= Z.of_nat fuel ->
  covers from (from + len) (cut fuel max from len) /\ Forall (fun x => x.2 <= max) (cut fuel max from len).
Proof.
  intros Hm. revert from len. induction fuel as [|fuel IH]; intros from len Hl; cbn [cut].
  { split; [cbn; lia | constructor]. }
  destruct (Z.eqb_spec len 0); [split; [cbn; lia | constructor]|].
  destruct (Z.leb_spec len max).
  - split; [cbn; lia | repeat constructor; cbn; lia].
  - destruct (IH (from + max) (len - max) ltac:(lia)) as [Hc Hs].
    replace (from + max + (len - max)) with (from + len) in Hc by lia.
    split; [cbn; auto | constructor; [cbn; lia | exact Hs]].
Qed.

#[export] Instance cdc_laws : FastCdcLaws.
Proof.
  split; cbn.
  - intros min avg max data Hm. apply (cut_covers _ max 0 (Z.of_nat (length data))); lia.
  - reflexivity.
  - intros min avg max data e Hm. exists [], []. cbn. split; [reflexivity|]. split; [apply prefix_nil | constructor].
Qed.

(** The sample run of [Upload] backs up a reader that delivers five bytes; the store of
    [Restore] keeps what it sent. *)
Definition hello : source := Source (bstr "hello") None.

Lemma hello_read : reads sample_cfg hello.
Proof. vm_compute. reflexivity. Qed.

Lemma hello_kept csum : kept sample_store sample_cfg [] (take 4 (sample_log csum)).
Proof.
  split.
  - intros count size cs Hin. assert (size = 5) as ->.
    { repeat (apply elem_of_cons in Hin as [Hin|Hin]; [try discriminate Hin; injection Hin; auto|]). inversion Hin. }
    exists (stream_builder sample_cfg). split; [exact sample_builder_wf|]. split; vm_compute; reflexivity.
  - intros d [Hd|[enc Hin]]; [inversion Hd|]. exists hello_blob.
    assert (d = hello_digest /\ enc = encode_auto (bstr "hello")) as [-> ->].
    { repeat (apply elem_of_cons in Hin as [Hin|Hin]; [try discriminate Hin; injection Hin; auto|]). inversion Hin. }
    split; [vm_compute; reflexivity|]. left. left.
Qed.

Lemma finished_snapshot_restores_witness :
  restore_dynamic_archive (L "db.didx") None sample_store = (Ok (bstr "hello"), sample_store).
Proof.
  destruct sample_run as (u & st & csum & Hr & _ & Hl & Hk).
  apply (finished_snapshot_restores sample_cfg hello u (take 4 (sample_log csum)) true [] sample_store).
  - exact hello_read.
  - exact Hr.
  - exact Hl.
  - rewrite Hk. apply hello_kept.
  - intros a b Ha%list_elem_of_singleton. subst a. apply pad_digest_inj. apply Nat.leb_le. reflexivity.
Defined.

End SampleSnapshot.
