(* ===== verification/Chain.v ===== *)
(** Restore chains of SQL backups: [pbsgui-engine/src/sql/backupmeta.rs].

    [select_chain] picks, for a point in time, the latest full backup and the
    log backups behind it; [chain_covers] says whether a chain reaches that
    point.  The theorems specify the selection completely (which full, which
    logs, in which order, and where it stops) and show what it is for: on the
    log backups of an unbroken log chain, restoring the selected backups in
    order is accepted by a server that applies a log only when it starts at or
    before the point the database is at, and ends behind it. *)

From Stdlib Require Import ZArith Lia Strings.Byte Ascii String Sorting.Permutation Sorting.Sorted.
From stdpp Require Import base tactics option numbers list.
From S2P Require Import Prelude Text.
Open Scope Z_scope.

Definition META_BLOB_NAME : str := L "meta.json.blob".

Record SqlBackupFile := { bf_logical : str; bf_physical : str; bf_is_log : bool }.

Record SqlBackupMeta := {
  m_kind : str; m_backup_time : Z; m_first_lsn : str; m_last_lsn : str;
  m_database_backup_lsn : str; m_files : list SqlBackupFile }.

Definition is_log (m : SqlBackupMeta) : bool := eq_ignore_ascii_case (m_kind m) (L "log").

Record ChainItem := { snapshot_time : Z; meta : SqlBackupMeta }.

Definition parse_lsn (s : str) : Z := default 0 (parse_uint 128 (trim s)).

Definition item_is_log (i : ChainItem) : bool := is_log (meta i).
Definition time_of (i : ChainItem) : Z := m_backup_time (meta i).
Definition first_lsn (i : ChainItem) : Z := parse_lsn (m_first_lsn (meta i)).
Definition last_lsn (i : ChainItem) : Z := parse_lsn (m_last_lsn (meta i)).

(** [Iterator::max_by_key]: the last of the elements with the greatest key. *)
Fixpoint max_by_key {A} (key : A -> Z) (l : list A) : option A :=
  match l with
  | [] => None
  | x :: l' =>
      match max_by_key key l' with
      | Some y => if key y <? key x then Some x else Some y
      | None => Some x
      end
  end.

(** [slice::sort_by_key], which is stable. *)
Fixpoint insert_by {A} (key : A -> Z) (x : A) (l : list A) : list A :=
  match l with
  | [] => [x]
  | y :: l' => if key x <=? key y then x :: y :: l' else y :: insert_by key x l'
  end.
Definition sort_by_key {A} (key : A -> Z) (l : list A) : list A :=
  fold_right (insert_by key) [] l.

(** The logs pushed on the chain: up to the first that reaches the target. *)
Fixpoint take_logs (target : Z) (logs : list ChainItem) : list ChainItem :=
  match logs with
  | [] => []
  | l :: ls => l :: if target <=? time_of l then [] else take_logs target ls
  end.

Definition is_full_by (target : Z) (i : ChainItem) : bool :=
  negb (item_is_log i) && (time_of i <=? target).

Definition extends (base : Z) (i : ChainItem) : bool := item_is_log i && (base <? last_lsn i).

Definition select_chain (items : list ChainItem) (target : Z) : list ChainItem :=
  match max_by_key time_of (List.filter (is_full_by target) items) with
  | None => []
  | Some full =>
      let base_lsn := last_lsn full in
      let logs := sort_by_key first_lsn (List.filter (extends base_lsn) items) in
      full :: take_logs target logs
  end.

Definition chain_covers (chain : list ChainItem) (target : Z) : bool :=
  match last chain with Some i => target <=? time_of i | None => false end.

(** ** Lemmas *)

Lemma max_by_key_none {A} (key : A -> Z) l : max_by_key key l = None -> l = [].
Proof.
  destruct l as [|a l]; [reflexivity|]. cbn.
  destruct (max_by_key key l) as [y|]; [destruct (key y <? key a)|]; discriminate.
Qed.

Lemma max_by_key_some {A} (key : A -> Z) l x :
  max_by_key key l = Some x -> In x l /\ Forall (fun y => key y <= key x) l.
Proof.
  revert x; induction l as [|a l IH]; intros x; cbn; [discriminate|].
  destruct (max_by_key key l) as [y|] eqn:Em.
  - destruct (IH y eq_refl) as [Hin Hall]. destruct (Z.ltb_spec (key y) (key a)); intros [= <-].
    + split; [auto|]. constructor; [lia|]. eapply Forall_impl; [exact Hall|]. cbn. lia.
    + split; [auto|]. constructor; [lia | exact Hall].
  - apply max_by_key_none in Em as ->. intros [= <-]. split; [auto|]. repeat constructor. lia.
Qed.

Definition key_le {A} (key : A -> Z) (x y : A) : Prop := key x <= key y.

Lemma insert_by_perm {A} (key : A -> Z) x l : Permutation (x :: l) (insert_by key x l).
Proof.
  induction l as [|y l IH]; cbn; [reflexivity|].
  destruct (key x <=? key y); [reflexivity|].
  rewrite <- IH. apply perm_swap.
Qed.

Lemma sort_by_key_perm {A} (key : A -> Z) l : Permutation l (sort_by_key key l).
Proof. induction l as [|x l IH]; cbn; [constructor|]. rewrite <- insert_by_perm. auto. Qed.

Lemma insert_by_sorted {A} (key : A -> Z) x l :
  StronglySorted (key_le key) l -> StronglySorted (key_le key) (insert_by key x l).
Proof.
  induction 1 as [|y l Hl IH Hy]; cbn; [repeat constructor|].
  destruct (Z.leb_spec (key x) (key y)).
  - constructor; [constructor; assumption|]. constructor; [exact H|].
    eapply Forall_impl; [exact Hy|]. unfold key_le. intros z Hz. cbn in *. lia.
  - constructor; [exact IH|]. rewrite <- insert_by_perm. constructor; [unfold key_le; lia | exact Hy].
Qed.

Lemma sort_by_key_sorted {A} (key : A -> Z) l : StronglySorted (key_le key) (sort_by_key key l).
Proof. induction l as [|x l IH]; cbn; [constructor | apply insert_by_sorted, IH]. Qed.

(** Lists with strictly increasing keys and the same elements are equal. *)
Lemma sorted_unique {A} (key : A -> Z) (l1 l2 : list A) :
  Permutation l1 l2 -> StronglySorted (key_le key) l1 ->
  StronglySorted (fun x y => key x < key y) l2 -> l1 = l2.
Proof.
  intros Hp Hs1 Hs2. revert l1 Hp Hs1. induction Hs2 as [|b l2 Hl2 IH Hb]; intros l1 Hp Hs1.
  - apply Permutation_sym, Permutation_nil in Hp. exact Hp.
  - destruct l1 as [|a l1]; [apply Permutation_nil in Hp; discriminate|].
    apply StronglySorted_inv in Hs1 as [Hs1 Ha].
    assert (Eab : a = b).
    { assert (Hin : In a (b :: l2)) by (rewrite <- Hp; left; reflexivity).
      destruct Hin as [->|Hin]; [reflexivity|].
      assert (Hin' : In b (a :: l1)) by (rewrite Hp; left; reflexivity).
      destruct Hin' as [->|Hin']; [reflexivity|].
      rewrite List.Forall_forall in Ha, Hb. specialize (Ha b Hin'). specialize (Hb a Hin).
      unfold key_le in Ha. lia. }
    subst b. f_equal. apply IH; [|exact Hs1]. apply (Permutation_cons_inv Hp).
Qed.

Lemma filter_perm {A} (f : A -> bool) l1 l2 :
  Permutation l1 l2 -> Permutation (List.filter f l1) (List.filter f l2).
Proof.
  induction 1 as [|x l1 l2 _ IH|x y l|l1 l2 l3 _ IH1 _ IH2]; cbn; [constructor| | |etransitivity; eassumption].
  - destruct (f x); [constructor; exact IH | exact IH].
  - destruct (f x), (f y); try reflexivity. apply perm_swap.
Qed.

Lemma take_logs_prefix target ls :
  exists rest, ls = take_logs target ls ++ rest
    /\ (rest <> [] -> chain_covers (take_logs target ls) target = true).
Proof.
  induction ls as [|l ls (rest & E & Hc)]; cbn [take_logs]; [exists []; split; [reflexivity | congruence]|].
  destruct (Z.leb_spec target (time_of l)) as [Ht|Ht].
  - exists ls. split; [reflexivity|]. intros _. unfold chain_covers. cbn. apply Z.leb_le, Ht.
  - exists rest. split; [cbn; congruence|]. intros Hr. specialize (Hc Hr).
    unfold chain_covers in *. destruct (take_logs target ls); [discriminate|]. exact Hc.
Qed.

(** Every log but the last one falls short of the target. *)
Lemma take_logs_short target ls l1 x l2 :
  take_logs target ls = l1 ++ x :: l2 -> l2 <> [] -> time_of x < target.
Proof.
  revert l1; induction ls as [|l ls IH]; intros l1 E Hn; cbn [take_logs] in E; [destruct l1; discriminate|].
  destruct (Z.leb_spec target (time_of l)).
  - destruct l1 as [|? [|? ?]]; injection E as ? E; try discriminate; congruence.
  - destruct l1 as [|? l1]; injection E as -> E; [assumption | apply (IH l1 E Hn)].
Qed.

(** ** Restoring a chain

    The point a database is at moves from the full's last LSN to each log's;
    the server refuses a log that starts behind the point (a gap) or brings
    nothing new. *)

Fixpoint apply_logs (at_lsn : Z) (logs : list ChainItem) : option Z :=
  match logs with
  | [] => Some at_lsn
  | l :: ls =>
      if (first_lsn l <=? at_lsn) && (at_lsn <? last_lsn l) then apply_logs (last_lsn l) ls else None
  end.

(** The log backups of one database: each starts where the one before ended. *)
Inductive unbroken : list ChainItem -> Prop :=
| unbroken_nil : unbroken []
| unbroken_one l : first_lsn l < last_lsn l -> unbroken [l]
| unbroken_cons l l' ls :
    first_lsn l < last_lsn l -> last_lsn l = first_lsn l' -> unbroken (l' :: ls) ->
    unbroken (l :: l' :: ls).

Lemma unbroken_sorted ls :
  unbroken ls -> StronglySorted (fun x y => first_lsn x < first_lsn y) ls
                 /\ match ls with l :: ls' => Forall (fun y => last_lsn l <= first_lsn y) ls' | [] => True end.
Proof.
  induction 1 as [|l Hl|l l' ls Hl He Hu [IHs IHf]]; [split; constructor | repeat constructor |].
  assert (Hf : Forall (fun y => last_lsn l <= first_lsn y) (l' :: ls)).
  { constructor; [lia|]. eapply Forall_impl; [exact IHf|]. cbn.
    assert (first_lsn l' < last_lsn l') by (inversion Hu; assumption). intros; lia. }
  split; [|exact Hf]. constructor; [exact IHs|]. eapply Forall_impl; [exact Hf|]. cbn. lia.
Qed.

Lemma lfilter_cons {A} (f : A -> bool) x l :
  List.filter f (x :: l) = if f x then x :: List.filter f l else List.filter f l.
Proof. reflexivity. Qed.

Lemma unbroken_bounds l ls :
  unbroken (l :: ls) -> Forall (fun y => first_lsn l <= first_lsn y < last_lsn y) (l :: ls).
Proof.
  revert l; induction ls as [|l' ls IH]; intros l Hu; inversion Hu; subst.
  - repeat constructor; lia.
  - constructor; [lia|]. eapply Forall_impl; [apply IH; assumption|]. cbn. lia.
Qed.

Lemma unbroken_filter base ls :
  unbroken ls -> (forall l ls', ls = l :: ls' -> first_lsn l <= base) ->
  forall n, apply_logs base (take n (List.filter (fun l => base <? last_lsn l) ls)) <> None.
Proof.
  intros Hu. revert base. induction Hu as [|l Hl|l l' ls Hl He Hu IH]; intros base Hb n.
  - destruct n; discriminate.
  - cbn. specialize (Hb l [] eq_refl). destruct (Z.ltb_spec base (last_lsn l)); destruct n; cbn; try discriminate.
    destruct n; (destruct (Z.leb_spec (first_lsn l) base); [|lia]);
      destruct (Z.ltb_spec base (last_lsn l)); cbn; try discriminate; lia.
  - specialize (Hb l _ eq_refl). rewrite (lfilter_cons _ l).
    destruct (Z.ltb_spec base (last_lsn l)) as [Hlt|Hge].
    + (* the bridging log: everything behind it is kept *)
      assert (Ef : List.filter (fun x => base <? last_lsn x) (l' :: ls) =
                   List.filter (fun x => last_lsn l <? last_lsn x) (l' :: ls)).
      { assert (Hall := unbroken_bounds l' ls Hu). rewrite <- He in Hall.
        clear -Hall Hlt. induction Hall as [|y ys [Hy1 Hy2] _ IHy]; [reflexivity|]. cbn [List.filter].
        destruct (Z.ltb_spec base (last_lsn y)), (Z.ltb_spec (last_lsn l) (last_lsn y)); try lia.
        rewrite IHy. reflexivity. }
      destruct n as [|n]; [discriminate|]. cbn [take apply_logs].
      destruct (Z.leb_spec (first_lsn l) base); [|lia].
      destruct (Z.ltb_spec base (last_lsn l)); [|lia]. cbn [andb].
      rewrite Ef. apply IH. intros x xs [= -> _]. lia.
    + apply (IH base). intros x xs [= -> _]. lia.
Qed.

Lemma take_logs_take target ls : exists n, take_logs target ls = take n ls.
Proof.
  destruct (take_logs_prefix target ls) as (rest & E & _). exists (length (take_logs target ls)).
  set (t := take_logs target ls) in *. rewrite E. symmetry. apply take_app_length.
Qed.

Lemma filter_filter_and {A} (f g : A -> bool) l :
  List.filter (fun x => f x && g x) l = List.filter g (List.filter f l).
Proof.
  induction l as [|x l IH]; [reflexivity|]. cbn. destruct (f x); cbn; [|exact IH].
  destruct (g x); rewrite IH; reflexivity.
Qed.

(** ** Properties *)

(** Which chain is selected: none exactly when no full backup finished at or
    before the target; otherwise the latest such full, then log backups that end
    behind the full's last LSN in the order of their first LSN, up to the first
    one that reaches the target, and all of them if none does. *)
Theorem select_chain_spec items target :
  match select_chain items target with
  | [] => forall i, In i items -> item_is_log i = false -> target < time_of i
  | full :: logs =>
      In full items /\ item_is_log full = false /\ time_of full <= target
      /\ (forall i, In i items -> item_is_log i = false -> time_of i <= target ->
            time_of i <= time_of full)
      /\ (forall l, In l logs -> In l items /\ item_is_log l = true /\ last_lsn full < last_lsn l)
      /\ StronglySorted (fun x y => first_lsn x <= first_lsn y) logs
      /\ (forall l1 x l2, logs = l1 ++ x :: l2 -> l2 <> [] -> time_of x < target)
      /\ (chain_covers (full :: logs) target = false ->
          Permutation logs (List.filter (extends (last_lsn full)) items))
  end.
Proof.
  unfold select_chain.
  destruct (max_by_key time_of (List.filter (is_full_by target) items)) as [full|] eqn:Em.
  2:{ apply max_by_key_none in Em. intros i Hin Hl.
      destruct (Z.ltb_spec target (time_of i)) as [|Ht]; [assumption|]. exfalso.
      assert (Hi : In i (List.filter (is_full_by target) items)).
      { apply filter_In. split; [exact Hin|]. unfold is_full_by. rewrite Hl. apply Z.leb_le, Ht. }
      rewrite Em in Hi. destruct Hi. }
  apply max_by_key_some in Em as [Hin Hmax]. apply filter_In in Hin as [Hin Hf].
  unfold is_full_by in Hf. apply andb_prop in Hf as [Hf1%negb_true_iff Hf2%Z.leb_le].
  set (cand := List.filter (extends (last_lsn full)) items).
  destruct (take_logs_prefix target (sort_by_key first_lsn cand)) as (rest & E & Hrest).
  set (logs := take_logs target (sort_by_key first_lsn cand)) in *.
  assert (Hsorted := sort_by_key_sorted first_lsn cand).
  split; [exact Hin | split; [exact Hf1 | split; [exact Hf2 | split; [|split; [|split; [|split]]]]]].
  - intros i Hi Hl Ht. rewrite List.Forall_forall in Hmax. apply Hmax, filter_In. split; [exact Hi|].
    unfold is_full_by. rewrite Hl. apply Z.leb_le, Ht.
  - intros l Hl. assert (Hc : In l cand).
    { rewrite (sort_by_key_perm first_lsn cand), E. apply in_or_app. left. exact Hl. }
    apply filter_In in Hc as [Hi He]. unfold extends in He. apply andb_prop in He as [H1 H2%Z.ltb_lt].
    auto.
  - rewrite E in Hsorted. clear -Hsorted. induction logs as [|x xs IH]; [constructor|].
    cbn in Hsorted. apply StronglySorted_inv in Hsorted as [Hs Hx]. constructor; [apply IH, Hs|].
    apply Forall_app in Hx. apply Hx.
  - intros l1 x l2. apply take_logs_short.
  - intros Hc. destruct rest as [|r rest].
    + rewrite app_nil_r in E. rewrite <- E. symmetry. apply sort_by_key_perm.
    + assert (Hcov : chain_covers logs target = true) by (apply Hrest; discriminate).
      exfalso. revert Hc Hcov. unfold chain_covers. destruct logs as [|x xs]; [discriminate|].
      cbn [last]. congruence.
Qed.

(** A chain that covers the target ends with a backup that finished at or
    behind it, so trimming the last log with STOPAT reaches the target. *)
Theorem covered_chain_reaches items target :
  chain_covers (select_chain items target) target = true ->
  exists pre i, select_chain items target = pre ++ [i] /\ In i items /\ target <= time_of i.
Proof.
  intros Hc. assert (Hc' := Hc). unfold chain_covers in Hc.
  destruct (last (select_chain items target)) as [i|] eqn:El; [|discriminate].
  apply last_Some in El as [pre Ep]. exists pre, i. split; [exact Ep|]. split; [|lia].
  unfold select_chain in Ep. destruct (max_by_key time_of _) as [full|] eqn:Em; [|destruct pre; discriminate].
  apply max_by_key_some in Em as [Hin _]. apply filter_In in Hin as [Hin _].
  destruct pre as [|x pre]; injection Ep as -> Ep; [exact Hin|].
  destruct (take_logs_prefix target (sort_by_key first_lsn (List.filter (extends (last_lsn x)) items)))
    as (rest & E & _). rewrite Ep in E.
  assert (Hi : In i (List.filter (extends (last_lsn x)) items)).
  { rewrite (sort_by_key_perm first_lsn), E, <- app_assoc. apply in_or_app. right. left. reflexivity. }
  apply filter_In in Hi. apply Hi.
Qed.

(** C14: the selected chain restores without a gap: if the log backups among the
    items are those of an unbroken log chain that starts no later than where
    the selected full ends, every log of the chain is accepted in order,
    including the one that began before the full finished. *)
Theorem select_chain_restores items target full logs ls :
  select_chain items target = full :: logs ->
  Permutation (List.filter item_is_log items) ls -> unbroken ls ->
  (forall l ls', ls = l :: ls' -> first_lsn l <= last_lsn full) ->
  exists lsn, apply_logs (last_lsn full) logs = Some lsn.
Proof.
  intros Hsel Hp Hu Hb. unfold select_chain in Hsel.
  destruct (max_by_key time_of _) as [f|]; [|discriminate]. injection Hsel as -> <-.
  assert (E : sort_by_key first_lsn (List.filter (extends (last_lsn full)) items)
              = List.filter (fun l => last_lsn full <? last_lsn l) ls).
  { apply (sorted_unique first_lsn); [|apply sort_by_key_sorted|].
    - rewrite <- (sort_by_key_perm first_lsn). unfold extends. rewrite filter_filter_and.
      apply filter_perm, Hp.
    - destruct (unbroken_sorted ls Hu) as [Hs _]. clear -Hs.
      induction Hs as [|x xs Hs IH Hx]; cbn; [constructor|]. destruct (last_lsn full <? last_lsn x); [|exact IH].
      constructor; [exact IH|]. rewrite List.Forall_forall in *. intros y Hy%filter_In. apply Hx, Hy. }
  rewrite E. destruct (take_logs_take target (List.filter (fun l => last_lsn full <? last_lsn l) ls)) as [n ->].
  destruct (apply_logs _ _) as [lsn|] eqn:Ea; [eauto|].
  destruct (unbroken_filter (last_lsn full) ls Hu Hb n Ea).
Qed.

(** ** Examples *)

Definition sample_item (kind first_l last_l : string) (time : Z) : ChainItem :=
  {| snapshot_time := time;
     meta := {| m_kind := L kind; m_backup_time := time; m_first_lsn := L first_l;
                m_last_lsn := L last_l; m_database_backup_lsn := []; m_files := [] |} |}.

Definition sample_full := sample_item "full" "100" "150" 1000.
Definition sample_log1 := sample_item "log" "90" "140" 900.
Definition sample_log2 := sample_item "log" "140" "200" 1100.
Definition sample_log3 := sample_item "Log" "200" "260" 1200.
Definition sample_items := [sample_log3; sample_full; sample_log1; sample_log2].

Example sample_chain : select_chain sample_items 1150 = [sample_full; sample_log2; sample_log3].
Proof. reflexivity. Qed.

Lemma covered_chain_reaches_witness :
  exists pre i, select_chain sample_items 1150 = pre ++ [i] /\ In i sample_items /\ 1150 <= time_of i.
Proof. apply (covered_chain_reaches sample_items 1150). reflexivity. Defined.

Lemma select_chain_restores_witness :
  exists lsn, apply_logs (last_lsn sample_full) [sample_log2; sample_log3] = Some lsn.
Proof.
  apply (select_chain_restores sample_items 1150 sample_full _ [sample_log1; sample_log2; sample_log3]).
  - reflexivity.
  - apply (Permutation_app_comm [sample_log3] [sample_log1; sample_log2]).
  - repeat constructor.
  - intros l ls' [= <- _]. discriminate.
Defined.
