(* ===== verification/Jobs.v ===== *)
(** Jobs and their snapshot groups: the job types of
    [pbsgui-ipc/src/protocol.rs] and the group naming and validation of
    [pbsgui-engine/src/backup.rs].

    A job writes one PBS snapshot group, or one per database and kind; groups
    are named by [sql_group_and_archive] from slugged names, so different
    databases can be given the same group.  [validate_pbs_groups] refuses a job
    for which that happens: it accepts exactly the jobs whose groups are
    distinct and free ([Stores] shows what this is for), and the slugs are names
    PBS accepts. *)

From Stdlib Require Import ZArith Lia Strings.Byte Ascii String.
From stdpp Require Import base tactics option numbers list.
From S2P Require Import Prelude Text.
Open Scope Z_scope.

(** ** Types (protocol.rs) *)

Record PbsServer := { ps_id : str; ps_name : str; ps_repository : str; ps_fingerprint : str }.

Inductive SqlBackupType := Full | Differential | Log.

Inductive Schedule :=
| Manual
| Interval (minutes : Z)
| Daily (hour minute : Z)
| Weekly (days : list Z) (hour minute : Z)
| Monthly (day hour minute : Z).

Inductive SqlProtection :=
| PointInTime (full : Schedule) (log_interval_minutes : Z)
| DailyRestorePoints (schedule : Schedule)
| SecondaryCopy (schedule : Schedule).

Inductive JobSource :=
| Files (sources excludes : list str) (change_detection : bool)
| Sql (connection_id : str) (databases : list str) (protection : SqlProtection).

Inductive JobDestination :=
| Pbs (server_id backup_id : str)
| Folder (path : str).

Record Job := {
  j_id : str; j_name : str; j_source : JobSource; j_destination : JobDestination;
  j_schedule : Schedule; j_last_run : option Z; j_last_status : option str;
  j_encrypted : bool; j_compress : bool }.

Inductive SqlRestorePoint := RestoreFull (backup_time : Z) | RestorePointInTime (unix_time : Z).

Inductive SqlAuth :=
| Integrated
| WindowsAccount (username : str)
| SqlLogin (username : str)
| AzureAd (username : str).

Record SqlConnection := {
  sc_id : str; sc_name : str; sc_server : str; sc_port : option Z; sc_auth : SqlAuth;
  sc_failover_cluster : bool; sc_relay_agent : option str }.

#[export] Instance SqlBackupType_eq_dec : EqDecision SqlBackupType.
Proof. solve_decision. Defined.

(** ** Snapshot groups (backup.rs) *)

Definition sanitize_char (c : Z) : Z :=
  if is_ascii_alphanumeric c || (c =? 46) || (c =? 95) || (c =? 45)
  then to_ascii_lowercase c else 95.

Definition sanitize (value : str) : str := map sanitize_char value.

Definition sql_group_and_archive (backup_id database : str) (backup_type : SqlBackupType) :
    str * str :=
  let db := sanitize database in
  let group := match backup_type with
               | Log => backup_id ++ L "-" ++ db ++ L "-log"
               | _ => backup_id ++ L "-" ++ db
               end in
  (group, db ++ L ".didx").

Definition sql_job_groups (backup_id : str) (logs : bool) (databases : list str) :
    list (str * str) :=
  concat (map (fun db =>
    ((sql_group_and_archive backup_id db Full).1, L "full backups of [" ++ db ++ L "]")
    :: if logs then [((sql_group_and_archive backup_id db Log).1,
                      L "log backups of [" ++ db ++ L "]")] else []) databases).

Definition job_pbs_groups (job : Job) : list (str * str) :=
  match j_destination job with
  | Folder _ => []
  | Pbs _ backup_id =>
      match j_source job with
      | Files _ _ _ => [(backup_id, L "the file backups")]
      | Sql _ databases protection =>
          sql_job_groups backup_id
            (match protection with PointInTime _ _ => true | _ => false end) databases
      end
  end.

(** The loop over a job's own groups; [seen] is the map of those so far. *)
Fixpoint check_own (seen groups : list (str * str)) : result str unit :=
  match groups with
  | [] => Ok tt
  | (group, what) :: gs =>
      match find (fun g => str_eqb (g.1) group) seen with
      | Some (_, other) =>
          Err (L "snapshot group collision inside this job: " ++ what ++ L " and " ++ other
               ++ L " would both write the PBS group '" ++ group
               ++ L "'; change the backup id or deselect one of them")
      | None => check_own ((group, what) :: seen) gs
      end
  end.

Definition on_server (server_id : str) (j : Job) : bool :=
  match j_destination j with Pbs s _ => str_eqb s server_id | Folder _ => false end.

(** The loop over the groups of another job. *)
Fixpoint check_other (groups : list (str * str)) (other_name : str) (ogroups : list (str * str)) :
    result str unit :=
  match ogroups with
  | [] => Ok tt
  | (ogroup, owhat) :: ogs =>
      match find (fun g => str_eqb (g.1) ogroup) groups with
      | Some (group, what) =>
          Err (L "snapshot group collision: " ++ what ++ L " would write the PBS group '" ++ group
               ++ L "', which job '" ++ other_name ++ L "' already uses for " ++ owhat
               ++ L "; pick a different backup id")
      | None => check_other groups other_name ogs
      end
  end.

Fixpoint check_others (server_id : str) (job : Job) (groups : list (str * str))
    (existing : list Job) : result str unit :=
  match existing with
  | [] => Ok tt
  | o :: os =>
      if negb (str_eqb (j_id o) (j_id job)) && on_server server_id o then
        _ ← check_other groups (j_name o) (job_pbs_groups o);
        check_others server_id job groups os
      else check_others server_id job groups os
  end.

Definition validate_pbs_groups (job : Job) (existing : list Job) : result str unit :=
  match j_destination job with
  | Folder _ => Ok tt
  | Pbs server_id _ =>
      let groups := job_pbs_groups job in
      _ ← check_own [] groups;
      check_others server_id job groups existing
  end.

(** ** Lemmas *)

Abbreviation group_names j := (map fst (job_pbs_groups j)).

Lemma find_group g (gs : list (str * str)) :
  find (fun p => str_eqb (p.1) g) gs = None <-> ~ In g (map fst gs).
Proof.
  induction gs as [|[a w] gs IH]; cbn; [tauto|].
  destruct (str_eqb a g) eqn:E.
  - apply str_eqb_eq in E. split; [discriminate | tauto].
  - rewrite IH. assert (a <> g) by (intros ->; rewrite str_eqb_refl in E; discriminate). tauto.
Qed.

Lemma check_own_ok seen gs :
  is_ok (check_own seen gs) = true <->
  NoDup (map fst gs) /\ (forall g, In g (map fst gs) -> ~ In g (map fst seen)).
Proof.
  revert seen; induction gs as [|[g w] gs IH]; intros seen; cbn [check_own map].
  - split; [intros _; split; [constructor | intros g []] | reflexivity].
  - destruct (find (fun p => str_eqb (p.1) g) seen) as [[a other]|] eqn:E.
    + split; [discriminate|]. intros [_ Hs]. exfalso.
      assert (Hf : find (fun p => str_eqb (p.1) g) seen = None)
        by (apply find_group, Hs; left; reflexivity). congruence.
    + apply find_group in E. rewrite IH, NoDup_cons. cbn. setoid_rewrite list_elem_of_In. split.
      * intros [Hn Hs]. split; [split; [intros Hin; apply (Hs g Hin); left; reflexivity | exact Hn]|].
        intros x [<-|Hin]; [exact E|]. intros Hx. apply (Hs x Hin). right. exact Hx.
      * intros [[Hg Hn] Hs]. split; [exact Hn|]. intros x Hin [<-|Hx]; [apply Hg, Hin|].
        apply (Hs x); [right; exact Hin | exact Hx].
Qed.

Lemma check_other_ok gs name ogs :
  is_ok (check_other gs name ogs) = true <-> (forall g, In g (map fst ogs) -> ~ In g (map fst gs)).
Proof.
  induction ogs as [|[g w] ogs IH]; cbn [check_other map]; [cbn; tauto|].
  destruct (find (fun p => str_eqb (p.1) g) gs) as [[a what]|] eqn:E.
  - split; [discriminate|]. intros Hs. exfalso.
    assert (Hf : find (fun p => str_eqb (p.1) g) gs = None)
      by (apply find_group, Hs; left; reflexivity). congruence.
  - apply find_group in E. rewrite IH. split.
    + intros Hs x [<-|Hin]; [exact E | apply Hs, Hin].
    + intros Hs x Hin. apply Hs. right. exact Hin.
Qed.

Definition disjoint_groups (a b : Job) : Prop :=
  forall g, In g (group_names a) -> ~ In g (group_names b).

Lemma check_others_ok sid job gs os :
  gs = job_pbs_groups job ->
  is_ok (check_others sid job gs os) = true <->
  (forall o, In o os -> j_id o <> j_id job -> on_server sid o = true -> disjoint_groups o job).
Proof.
  intros ->. induction os as [|o os IH]; cbn [check_others]; [cbn; tauto|].
  destruct (str_eqb (j_id o) (j_id job)) eqn:Ei; cbn [negb andb].
  - apply str_eqb_eq in Ei. rewrite IH. split.
    + intros Hs x [<-|Hin]; [congruence | auto].
    + intros Hs x Hin. apply Hs. right. exact Hin.
  - assert (Hne : j_id o <> j_id job) by (intros E; rewrite E, str_eqb_refl in Ei; discriminate).
    destruct (on_server sid o) eqn:Eo.
    + assert (Hsplit : is_ok (check_other (job_pbs_groups job) (j_name o) (job_pbs_groups o)
                 ≫= (fun _ => check_others sid job (job_pbs_groups job) os)) = true <->
               is_ok (check_other (job_pbs_groups job) (j_name o) (job_pbs_groups o)) = true
               /\ is_ok (check_others sid job (job_pbs_groups job) os) = true).
      { destruct (check_other _ _ _); cbn; [tauto | split; [discriminate | tauto]]. }
      rewrite Hsplit, check_other_ok, IH. split.
      * intros [H1 H2] x [<-|Hin] Hx Ho; [exact H1 | auto].
      * intros Hs. split; [apply (Hs o); auto; left; reflexivity|].
        intros x Hin. apply Hs. right. exact Hin.
    + rewrite IH. split.
      * intros Hs x [<-|Hin] Hx Ho; [congruence | auto].
      * intros Hs x Hin. apply Hs. right. exact Hin.
Qed.

(** What validation accepts. *)
Lemma validate_ok job existing :
  validate_pbs_groups job existing = Ok tt <->
  NoDup (group_names job)
  /\ (forall sid bid, j_destination job = Pbs sid bid ->
      forall o, In o existing -> j_id o <> j_id job -> on_server sid o = true ->
      disjoint_groups o job).
Proof.
  assert (Htt : forall r : result str unit, r = Ok tt <-> is_ok r = true)
    by (intros [[]|e]; cbn; split; congruence).
  unfold validate_pbs_groups. destruct (j_destination job) as [sid bid|p] eqn:Ed.
  - rewrite Htt. transitivity (is_ok (check_own [] (job_pbs_groups job)) = true
      /\ is_ok (check_others sid job (job_pbs_groups job) existing) = true).
    { destruct (check_own [] _); cbn; [tauto | split; [discriminate | tauto]]. }
    rewrite check_own_ok, (check_others_ok sid job _ existing eq_refl). split.
    + intros [[Hn _] Ho]. split; [exact Hn|]. intros sid' bid' [= -> ->]. exact Ho.
    + intros [Hn Ho]. split; [split; [exact Hn | auto] | exact (Ho sid bid eq_refl)].
  - split; [|reflexivity]. intros _. split; [|discriminate].
    unfold job_pbs_groups. rewrite Ed. constructor.
Qed.

Lemma sanitize_char_safe c :
  let d := sanitize_char c in
  is_ascii_digit d || is_ascii_lower d || (d =? 46) || (d =? 95) || (d =? 45) = true.
Proof.
  unfold sanitize_char, is_ascii_alphanumeric, to_ascii_lowercase, is_ascii_digit, is_ascii_upper,
    is_ascii_lower.
  destruct ((((48 <=? c) && (c <=? 57)) || ((65 <=? c) && (c <=? 90)) || ((97 <=? c) && (c <=? 122)))
            || (c =? 46) || (c =? 95) || (c =? 45)) eqn:E; [|reflexivity].
  destruct ((65 <=? c) && (c <=? 90)) eqn:Eu; lia.
Qed.

Lemma sanitize_char_idem c : sanitize_char (sanitize_char c) = sanitize_char c.
Proof.
  pose proof (sanitize_char_safe c) as Hs. cbn in Hs. set (d := sanitize_char c) in *. clearbody d.
  unfold sanitize_char, is_ascii_alphanumeric, to_ascii_lowercase, is_ascii_digit, is_ascii_upper,
    is_ascii_lower in *.
  destruct ((((48 <=? d) && (d <=? 57)) || ((65 <=? d) && (d <=? 90)) || ((97 <=? d) && (d <=? 122)))
            || (d =? 46) || (d =? 95) || (d =? 45)) eqn:E; [|lia].
  destruct ((65 <=? d) && (d <=? 90)) eqn:Eu; [lia | reflexivity].
Qed.

(** ** Properties *)

(** A job is accepted exactly when the groups it writes are distinct and no
    other saved job on the same PBS server writes one of them. *)
Theorem validate_pbs_groups_iff job existing :
  validate_pbs_groups job existing = Ok tt <->
  NoDup (map fst (job_pbs_groups job))
  /\ (forall sid bid, j_destination job = Pbs sid bid ->
      forall o g, In o existing -> j_id o <> j_id job -> on_server sid o = true ->
      In g (map fst (job_pbs_groups o)) -> ~ In g (map fst (job_pbs_groups job))).
Proof.
  rewrite validate_ok. unfold disjoint_groups. split; intros [Hn Ho]; (split; [exact Hn|]).
  - intros sid bid Hd o g Hi Hne Hs. apply (Ho sid bid Hd o Hi Hne Hs).
  - intros sid bid Hd o Hi Hne Hs g. apply (Ho sid bid Hd o g Hi Hne Hs).
Qed.

(** Names for groups and archives are slugs PBS accepts (lower-case ASCII
    letters, digits, dot, underscore and dash), of the same length as the name,
    and slugging a slug changes nothing; a database's fulls and logs go to
    different groups. *)
Theorem sanitize_slug name backup_id :
  Forall (fun d => is_ascii_digit d || is_ascii_lower d || (d =? 46) || (d =? 95) || (d =? 45) = true)
    (sanitize name)
  /\ length (sanitize name) = length name /\ sanitize (sanitize name) = sanitize name
  /\ (sql_group_and_archive backup_id name Full).1 <> (sql_group_and_archive backup_id name Log).1.
Proof.
  split; [|split; [|split]].
  - unfold sanitize. apply Forall_map, List.Forall_forall. intros c _. apply sanitize_char_safe.
  - apply length_map.
  - unfold sanitize. rewrite map_map. apply map_ext. apply sanitize_char_idem.
  - cbn. intros E. apply (f_equal length) in E. rewrite !length_app in E.
    assert (length (L "-log") = 4%nat) by reflexivity. lia.
Qed.
