(* ===== verification/Sched.v ===== *)
(** Schedules: [pbsgui-engine/src/sqlsched.rs] (the timers of SQL jobs) and
    [pbsgui-engine/src/scheduler.rs] (when a job is due).

    The calendar and the local time zone are chrono's; they are the class
    [Chrono], with the laws the theorems use in [ChronoLaws], and an instance
    (the proleptic Gregorian calendar in UTC from 1970 on) in [SampleChrono].
    The timers live in one JSON file per job; the file system is the map [disk]
    and serde is the class [SchedJson].

    The theorems: which occurrence [latest_occurrence] returns; a recorded
    attempt is never due again before a later occurrence or a whole interval;
    a full has precedence over a log; every timed schedule [validate] accepts
    has an occurrence within the days searched, so it is not silently skipped. *)

From Stdlib Require Import ZArith Lia Strings.Byte Ascii String.
From stdpp Require Import base tactics option numbers gmap list.
From S2P Require Import Prelude Text Jobs.
Open Scope Z_scope.

(** ** Timers of a SQL job (sqlsched.rs) *)

Record State := {
  s_full : option Z; s_log : option Z; s_full_attempt : option Z; s_log_attempt : option Z;
  s_no_chain_since : gmap str Z }.

Definition default_state : State :=
  {| s_full := None; s_log := None; s_full_attempt := None; s_log_attempt := None;
     s_no_chain_since := ∅ |}.

Class SchedJson := { to_vec : State -> bytes; from_slice : bytes -> option State }.
Class SchedJsonLaws `{SchedJson} := { from_to : forall s, from_slice (to_vec s) = Some s }.

(** The state directory: its files, and whether writing to it works. *)
Record disk := { d_files : gmap str bytes; d_writable : bool }.

Section sqlsched.
Context `{SchedJson}.

Definition sched_path (job_id : str) : str := job_id ++ L ".sqlsched".

Definition sched_load (d : disk) (job_id : str) : State :=
  default default_state (d_files d !! sched_path job_id ≫= from_slice).

(** The callers ignore the error a failed write returns. *)
Definition sched_store (d : disk) (job_id : str) (s : State) : disk :=
  if d_writable d
  then {| d_files := <[sched_path job_id := to_vec s]> (d_files d); d_writable := true |}
  else d.

Definition last_full (d : disk) (job_id : str) : option Z := s_full (sched_load d job_id).

Definition or_else {A} (x y : option A) : option A :=
  match x with Some a => Some a | None => y end.

Definition last_full_attempt (d : disk) (job_id : str) : option Z :=
  let s := sched_load d job_id in or_else (s_full_attempt s) (s_full s).

Definition last_log_attempt (d : disk) (job_id : str) : option Z :=
  let s := sched_load d job_id in or_else (s_log_attempt s) (s_log s).

Definition record_full (d : disk) (job_id : str) (time : Z) : disk :=
  let s := sched_load d job_id in
  sched_store d job_id
    {| s_full := Some time; s_log := Some time; s_full_attempt := Some time;
       s_log_attempt := Some time; s_no_chain_since := s_no_chain_since s |}.

Definition record_log (d : disk) (job_id : str) (time : Z) : disk :=
  let s := sched_load d job_id in
  sched_store d job_id
    {| s_full := s_full s; s_log := Some time; s_full_attempt := s_full_attempt s;
       s_log_attempt := Some time; s_no_chain_since := s_no_chain_since s |}.

Definition with_no_chain (s : State) (m : gmap str Z) : State :=
  {| s_full := s_full s; s_log := s_log s; s_full_attempt := s_full_attempt s;
     s_log_attempt := s_log_attempt s; s_no_chain_since := m |}.

Definition note_no_chain (d : disk) (job_id database : str) (now : Z) : Z * disk :=
  let s := sched_load d job_id in
  let since := default now (s_no_chain_since s !! database) in
  (since, sched_store d job_id (with_no_chain s (<[database := since]> (s_no_chain_since s)))).

Definition clear_no_chain (d : disk) (job_id database : str) : disk :=
  let s := sched_load d job_id in
  match s_no_chain_since s !! database with
  | Some _ => sched_store d job_id (with_no_chain s (delete database (s_no_chain_since s)))
  | None => d
  end.

Definition record_full_attempt (d : disk) (job_id : str) (time : Z) : disk :=
  let s := sched_load d job_id in
  sched_store d job_id
    {| s_full := s_full s; s_log := s_log s; s_full_attempt := Some time;
       s_log_attempt := s_log_attempt s; s_no_chain_since := s_no_chain_since s |}.

Definition record_log_attempt (d : disk) (job_id : str) (time : Z) : disk :=
  let s := sched_load d job_id in
  sched_store d job_id
    {| s_full := s_full s; s_log := s_log s; s_full_attempt := s_full_attempt s;
       s_log_attempt := Some time; s_no_chain_since := s_no_chain_since s |}.

End sqlsched.

(** ** The calendar and clock (chrono) *)

Inductive LocalResult := LSingle (t : Z) | LAmbiguous (first second : Z) | LNone.

Class Chrono := {
  date : Type;  (* NaiveDate *)
  datetime : Type;  (* NaiveDateTime *)
  local_date : Z -> option date;  (* Local.timestamp_opt(t, 0).single()?.date_naive() *)
  checked_sub_days : date -> Z -> option date;
  pred_opt : date -> option date;
  from_ymd_opt : Z -> Z -> Z -> option date;
  year : date -> Z; month : date -> Z; day : date -> Z;
  num_days_from_sunday : date -> Z;  (* weekday().num_days_from_sunday() *)
  and_hms_opt : date -> Z -> Z -> Z -> option datetime;
  add_hours : datetime -> Z -> datetime;
  from_local_datetime : datetime -> LocalResult }.

Inductive SqlRun := RunFull | RunLog.

#[export] Instance SqlRun_eq_dec : EqDecision SqlRun.
Proof. solve_decision. Defined.

Section scheduler.
Context `{Chrono}.

(** [u as u8] and [u32::from(day)] keep the values, which are in range. *)
Definition days_in_month (d : date) : Z :=
  let y := year d in
  let m := month d in
  let next := if m =? 12 then from_ymd_opt (y + 1) 1 1 else from_ymd_opt y (m + 1) 1 in
  match next ≫= pred_opt with Some e => day e | None => 28 end.

Definition runs_on (schedule : Schedule) (d : date) : bool :=
  match schedule with
  | Daily _ _ => true
  | Weekly days _ _ => existsb (Z.eqb (num_days_from_sunday d)) days
  | Monthly dom _ _ => day d =? Z.min dom (days_in_month d)
  | Manual | Interval _ => false
  end.

(** [LocalResult::earliest]. *)
Definition earliest (r : LocalResult) : option Z :=
  match r with LSingle t => Some t | LAmbiguous t _ => Some t | LNone => None end.

Definition local_unix (d : date) (hour minute : Z) : option Z :=
  naive ← and_hms_opt d hour minute 0;
  match from_local_datetime naive with
  | LSingle t => Some t
  | LAmbiguous first _ => Some first
  | LNone => earliest (from_local_datetime (add_hours naive 1))
  end.

(** The days searched: [for back in 0..=62]. *)
Definition search_days : nat := 63.

Fixpoint occurrence_back (schedule : Schedule) (hour minute : Z) (today : date) (now : Z)
    (n : nat) (back : Z) : option (Z * bool) :=
  match n with
  | O => None
  | S n' =>
      d ← checked_sub_days today back;
      if negb (runs_on schedule d) then
        occurrence_back schedule hour minute today now n' (back + 1)
      else
        at_ ← local_unix d hour minute;
        if at_ <=? now then Some (at_, back =? 0)
        else occurrence_back schedule hour minute today now n' (back + 1)
  end.

Definition schedule_time (schedule : Schedule) : option (Z * Z) :=
  match schedule with
  | Daily hour minute | Weekly _ hour minute | Monthly _ hour minute => Some (hour, minute)
  | Manual | Interval _ => None
  end.

Definition latest_occurrence (schedule : Schedule) (now : Z) : option (Z * bool) :=
  '(hour, minute) ← schedule_time schedule;
  today ← local_date now;
  occurrence_back schedule hour minute today now search_days 0.

Definition schedule_due (schedule : Schedule) (last_run : option Z) (now : Z) : bool :=
  match schedule with
  | Manual => false
  | Interval minutes =>
      let interval := Z.max minutes 1 * 60 in
      match last_run with None => true | Some last => interval <=? now - last end
  | _ =>
      match latest_occurrence schedule now with
      | None => false
      | Some (occurrence, today) =>
          match last_run with None => today | Some last => last <? occurrence end
      end
  end.

Definition log_due (baseline : option Z) (interval_minutes now : Z) : bool :=
  let interval := Z.max interval_minutes 1 * 60 in
  match baseline with None => true | Some b => interval <=? now - b end.

Context `{SchedJson}.

Definition sql_due_kind (dk : disk) (job_id : str) (protection : SqlProtection) (now : Z) :
    option SqlRun :=
  match protection with
  | PointInTime full log_interval_minutes =>
      if schedule_due full (last_full_attempt dk job_id) now then Some RunFull
      else
        let baseline := or_else (last_log_attempt dk job_id) (last_full dk job_id) in
        if log_due baseline log_interval_minutes now then Some RunLog else None
  | DailyRestorePoints schedule | SecondaryCopy schedule =>
      if schedule_due schedule (last_full_attempt dk job_id) now then Some RunFull else None
  end.

Definition due_kind (dk : disk) (job : Job) (now : Z) : option SqlRun :=
  match j_source job with
  | Sql _ _ protection => sql_due_kind dk (j_id job) protection now
  | Files _ _ _ => if schedule_due (j_schedule job) (j_last_run job) now then Some RunFull else None
  end.

End scheduler.

(** [{:02}] of a [u8]. *)
Definition dec02 (n : Z) : str := if n <? 10 then L "0" ++ dec n else dec n.

Definition check_time (hour minute : Z) : result str unit :=
  if (23 <? hour) || (59 <? minute)
  then Err (L "the schedule time " ++ dec02 hour ++ L ":" ++ dec02 minute
            ++ L " is not a valid time of day")
  else Ok tt.

Definition validate (schedule : Schedule) : result str unit :=
  match schedule with
  | Manual => Ok tt
  | Interval minutes =>
      if minutes =? 0 then Err (L "the interval must be at least one minute") else Ok tt
  | Daily hour minute => check_time hour minute
  | Weekly days hour minute =>
      if bool_decide (days = []) then Err (L "a weekly schedule needs at least one day")
      else match find (fun d => 6 <? d) days with
           | Some d => Err (dec d ++ L " is not a weekday (0 = Sunday .. 6 = Saturday)")
           | None => check_time hour minute
           end
  | Monthly dom hour minute =>
      if negb ((1 <=? dom) && (dom <=? 31))
      then Err (L "the day of the month must be between 1 and 31")
      else check_time hour minute
  end.

Definition validate_job (job : Job) : result str unit :=
  match j_source job with
  | Sql _ _ (PointInTime full log_interval_minutes) =>
      if log_interval_minutes =? 0
      then Err (L "the log backup interval must be at least one minute")
      else validate full
  | Sql _ _ (DailyRestorePoints schedule) | Sql _ _ (SecondaryCopy schedule) => validate schedule
  | Files _ _ _ => validate (j_schedule job)
  end.

(** What the run registry records when a SQL run ends ([run_job_kind]). *)
Definition record_outcome `{SchedJson} (dk : disk) (job_id : str) (run : SqlRun) (ok : bool)
    (now : Z) : disk :=
  match run, ok with
  | RunFull, true => record_full dk job_id now
  | RunFull, false => record_full_attempt dk job_id now
  | RunLog, true => record_log dk job_id now
  | RunLog, false => record_log_attempt dk job_id now
  end.

#[global] Strategy 1000 [search_days].

(** ** Laws of the calendar *)

Definition next_month (ym : Z * Z) : Z * Z :=
  if ym.2 =? 12 then (ym.1 + 1, 1) else (ym.1, ym.2 + 1).

Class ChronoLaws `{Chrono} := {
  sub_zero : forall d, checked_sub_days d 0 = Some d;
  sub_succ : forall d k, 0 <= k -> checked_sub_days d (k + 1) = checked_sub_days d k ≫= pred_opt;
  weekday_range : forall d, 0 <= num_days_from_sunday d < 7;
  weekday_pred : forall d e, pred_opt d = Some e ->
    num_days_from_sunday e = (num_days_from_sunday d - 1) mod 7;
  day_range : forall d, 1 <= day d <= 31;
  pred_same_month : forall d e, pred_opt d = Some e -> 1 < day d ->
    year e = year d /\ month e = month d /\ day e = day d - 1;
  pred_prev_month : forall d e, pred_opt d = Some e -> day d = 1 ->
    (year d, month d) = next_month (year e, month e) /\ 28 <= day e;
  ymd_self : forall d, from_ymd_opt (year d) (month d) (day d) = Some d;
  hms_valid : forall d h m, 0 <= h <= 23 -> 0 <= m <= 59 -> is_Some (and_hms_opt d h m 0);
  local_inverse : forall d h m n t, 0 <= h -> 0 <= m -> and_hms_opt d h m 0 = Some n ->
    earliest (from_local_datetime n) = Some t -> local_date t = Some d;
  earlier_day : forall t1 t2 d1 d2 k, local_date t1 = Some d1 -> 1 <= k ->
    checked_sub_days d1 k = Some d2 -> local_date t2 = Some d2 -> t2 < t1 }.

(** ** Lemmas *)

Section timers.
Context `{SchedJsonLaws}.

Lemma load_store dk id s :
  d_writable dk = true -> sched_load (sched_store dk id s) id = s.
Proof.
  intros Hw. unfold sched_load, sched_store. rewrite Hw. cbn. rewrite lookup_insert_eq. cbn.
  rewrite from_to. reflexivity.
Qed.

Lemma load_store_other dk id id' s :
  id <> id' -> sched_load (sched_store dk id s) id' = sched_load dk id'.
Proof.
  intros Hn. unfold sched_load, sched_store. destruct (d_writable dk); [|reflexivity]. cbn.
  rewrite lookup_insert_ne; [reflexivity|]. unfold sched_path. intros E.
  apply app_inv_tail in E. contradiction.
Qed.

Lemma recorded_full_attempt dk id ok t :
  d_writable dk = true -> last_full_attempt (record_outcome dk id RunFull ok t) id = Some t.
Proof.
  intros Hw. destruct ok; cbn; unfold last_full_attempt, record_full, record_full_attempt;
    rewrite load_store by exact Hw; reflexivity.
Qed.

Lemma recorded_log_attempt dk id ok t :
  d_writable dk = true -> last_log_attempt (record_outcome dk id RunLog ok t) id = Some t.
Proof.
  intros Hw. destruct ok; cbn; unfold last_log_attempt, record_log, record_log_attempt;
    rewrite load_store by exact Hw; reflexivity.
Qed.

Lemma log_keeps_full_attempt dk id ok t :
  d_writable dk = true ->
  last_full_attempt (record_outcome dk id RunLog ok t) id = last_full_attempt dk id.
Proof.
  intros Hw. destruct ok; cbn; unfold last_full_attempt, record_log, record_log_attempt;
    rewrite load_store by exact Hw; reflexivity.
Qed.

End timers.

Section occurrences.
Context `{Chrono}.

(** The time since a run at [t] a schedule asks for has passed. *)
Definition elapsed (s : Schedule) (t now : Z) : Prop :=
  match s with
  | Manual => False
  | Interval minutes => Z.max minutes 1 * 60 <= now - t
  | _ => exists occ today, latest_occurrence s now = Some (occ, today) /\ t < occ
  end.

Lemma schedule_due_elapsed s t now : schedule_due s (Some t) now = true <-> elapsed s t now.
Proof.
  assert (Ht : match latest_occurrence s now with
               | None => false
               | Some (occurrence, _) => t <? occurrence
               end = true
               <-> exists occ today, latest_occurrence s now = Some (occ, today) /\ t < occ).
  { destruct (latest_occurrence s now) as [[occ td]|]; split; try discriminate.
    - intros Hl. exists occ, td. split; [reflexivity | lia].
    - intros (o & b & [= <- <-] & Hl). lia.
    - intros (o & b & E & _). discriminate. }
  destruct s; cbn -[latest_occurrence]; try exact Ht; lia.
Qed.

(** [r] is the schedule's occurrence on the [k]-th day before today for some
    [k] from [back] on, and every occurrence on the days between is after [now]. *)
Definition found s h m today now (back len : Z) (r : Z * bool) : Prop :=
  exists k d, back <= k < back + len /\ checked_sub_days today k = Some d
    /\ runs_on s d = true /\ local_unix d h m = Some (r.1) /\ r.1 <= now /\ r.2 = (k =? 0)
    /\ forall j e, back <= j < k -> checked_sub_days today j = Some e -> runs_on s e = true ->
       exists t, local_unix e h m = Some t /\ now < t.

Lemma found_later s h m today now back len r d :
  checked_sub_days today back = Some d ->
  (runs_on s d = true -> exists t, local_unix d h m = Some t /\ now < t) ->
  found s h m today now (back + 1) len r -> found s h m today now back (len + 1) r.
Proof.
  intros Ed Hd (k & d' & Hk & Hs & Hr & Hl & Hn & Ht & Hj).
  exists k, d'. split; [lia|]. repeat (split; [assumption|]). intros j e Hjk He.
  destruct (decide (j = back)) as [->|]; [|apply (Hj j e); [lia | exact He]].
  rewrite Ed in He. injection He as <-. exact Hd.
Qed.

Lemma occurrence_back_spec s h m today now n : forall back r,
  occurrence_back s h m today now n back = Some r ->
  found s h m today now back (Z.of_nat n) r.
Proof.
  induction n as [|n IH]; intros back r E; [discriminate|].
  cbn [occurrence_back] in E. rewrite Nat2Z.inj_succ, <- Z.add_1_r.
  destruct (checked_sub_days today back) as [d|] eqn:Ed; [|discriminate]. cbn in E.
  destruct (runs_on s d) eqn:Er; cbn in E;
    [|apply (found_later _ _ _ _ _ _ _ _ d); [assumption | congruence | auto]].
  destruct (local_unix d h m) as [t|] eqn:El; [|discriminate]. cbn in E.
  destruct (t <=? now) eqn:Etn.
  - injection E as <-. exists back, d. repeat (split; [assumption || reflexivity || (cbn; lia)|]).
    intros j e Hjk. lia.
  - apply (found_later _ _ _ _ _ _ _ _ d); [assumption | | auto].
    intros _. exists t. split; [exact El | lia].
Qed.

(** It finds one if the schedule runs on day [k] at a time not after [now]. *)
Lemma occurrence_back_some s h m today now n : forall back k d t,
  back <= k < back + Z.of_nat n ->
  (forall j, back <= j <= k -> exists e, checked_sub_days today j = Some e
     /\ is_Some (local_unix e h m)) ->
  checked_sub_days today k = Some d -> runs_on s d = true -> local_unix d h m = Some t -> t <= now ->
  is_Some (occurrence_back s h m today now n back).
Proof.
  induction n as [|n IH]; intros back k d t Hk Hall Hd Hr Hl Hn; [lia|].
  cbn [occurrence_back]. destruct (Hall back ltac:(lia)) as (e & He & [u Hu]). rewrite He. cbn.
  destruct (decide (k = back)) as [->|Hne].
  - replace e with d by congruence. rewrite Hr. cbn. rewrite Hl. cbn.
    replace (t <=? now) with true by lia. eauto.
  - assert (Hrec : is_Some (occurrence_back s h m today now n (back + 1))).
    { apply (IH (back + 1) k d t); auto; [lia|]. intros j Hj. apply Hall. lia. }
    destruct (runs_on s e); cbn; [|exact Hrec]. rewrite Hu. cbn. destruct (u <=? now); eauto.
Qed.

End occurrences.

Section calendar.
Context `{ChronoLaws}.

Lemma sub_before d k j :
  0 <= j <= k -> is_Some (checked_sub_days d k) -> is_Some (checked_sub_days d j).
Proof.
  intros Hj. replace k with (j + Z.of_nat (Z.to_nat (k - j))) by lia.
  induction (Z.to_nat (k - j)) as [|n IH]; intros Hs; [now rewrite Z.add_0_r in Hs|].
  apply IH. rewrite Nat2Z.inj_succ, <- Z.add_1_r, Z.add_assoc, sub_succ in Hs by lia.
  destruct (checked_sub_days d (j + Z.of_nat n)); [eauto | destruct Hs; discriminate].
Qed.

(** Going back [i] days inside a month. *)
Lemma walk_month d k e i :
  0 <= k -> checked_sub_days d k = Some e -> 0 <= i < day e ->
  is_Some (checked_sub_days d (k + i)) ->
  exists f, checked_sub_days d (k + i) = Some f
    /\ year f = year e /\ month f = month e /\ day f = day e - i.
Proof.
  intros Hk He Hi. replace i with (Z.of_nat (Z.to_nat i)) in * by lia.
  induction (Z.to_nat i) as [|n IH]; intros Hs.
  - exists e. rewrite Z.add_0_r. repeat split; [exact He|lia].
  - replace (k + Z.of_nat (S n)) with (k + Z.of_nat n + 1) in * by lia.
    destruct IH as (f & Hf & Hy & Hm & Hd); [lia | apply (sub_before _ (k + Z.of_nat n + 1)); [lia | exact Hs]|].
    rewrite sub_succ, Hf in * by lia. cbn in *. destruct Hs as [g Hg]. exists g.
    destruct (pred_same_month f g Hg) as (? & ? & ?); [lia|]. repeat split; [exact Hg|congruence|congruence|lia].
Qed.

Lemma weekday_back d k e :
  0 <= k -> checked_sub_days d k = Some e ->
  num_days_from_sunday e = (num_days_from_sunday d - k) mod 7.
Proof.
  intros Hk. replace k with (Z.of_nat (Z.to_nat k)) by lia. clear Hk. revert e.
  induction (Z.to_nat k) as [|n IH]; intros e He.
  - rewrite sub_zero in He. injection He as <-. pose proof (weekday_range d).
    rewrite Z.sub_0_r, Z.mod_small; lia.
  - rewrite Nat2Z.inj_succ, <- Z.add_1_r, sub_succ in He by lia.
    destruct (checked_sub_days d (Z.of_nat n)) as [f|]; [|discriminate]. cbn in He.
    rewrite (weekday_pred f e He), (IH f eq_refl). rewrite Zminus_mod_idemp_l. f_equal. lia.
Qed.

(** The last day of the month before [d]'s, which [days_in_month] gives for
    every day of that month. *)
Lemma prev_month_end d :
  is_Some (checked_sub_days d (day d)) ->
  exists l, checked_sub_days d (day d) = Some l /\ 28 <= day l <= 31
    /\ forall x, year x = year l -> month x = month l -> days_in_month x = day l.
Proof.
  intros Hs. pose proof (day_range d) as Hr.
  destruct (walk_month d 0 d (day d - 1)) as (f & Hf & Hy & Hm & Hd);
    [lia | apply sub_zero | lia | apply (sub_before d (day d)); [lia | exact Hs]|].
  replace (day d) with (day d - 1 + 1) in Hs |- * by lia.
  rewrite sub_succ in Hs |- * by lia. rewrite Z.add_0_l in Hf. rewrite Hf in Hs |- *. cbn in Hs |- *. destruct Hs as [l Hl].
  exists l. destruct (pred_prev_month f l Hl) as [Hym H28]; [lia|].
  pose proof (day_range l). split; [exact Hl|]. split; [lia|]. intros x Hxy Hxm.
  unfold days_in_month. pose proof (ymd_self f) as Hself. replace (day f) with 1 in Hself by lia.
  unfold next_month in Hym. cbn in Hym. rewrite Hxm, Hxy.
  destruct (month l =? 12); injection Hym as E1 E2; rewrite E1, E2 in Hself;
    rewrite Hself; cbn; now rewrite Hl.
Qed.

(** Every validated timed schedule runs on one of the 62 days before today. *)
Lemma validated_runs s today h m :
  validate s = Ok tt -> schedule_time s = Some (h, m) ->
  (forall days h' m', s = Weekly days h' m' -> Forall (fun w => 0 <= w) days) ->
  is_Some (checked_sub_days today 62) ->
  exists k d, 1 <= k <= 62 /\ checked_sub_days today k = Some d /\ runs_on s d = true.
Proof.
  intros Hv Ht Hw H62. destruct s as [|mi|h' m'|days h' m'|dom h' m']; try discriminate.
  - destruct (sub_before today 62 1 ltac:(lia) H62) as [d Hd]. exists 1, d. repeat split; [lia..|exact Hd].
  - cbn in Hv. case_bool_decide as En; [discriminate|].
    destruct (find _ days) eqn:Ef; [discriminate|]. destruct days as [|w days']; [contradiction|].
    pose proof (List.find_none _ _ Ef w (or_introl eq_refl)) as Hle. cbn in Hle.
    pose proof (Hw _ _ _ eq_refl) as Hall. apply Forall_inv in Hall.
    pose proof (weekday_range today) as Hr.
    set (k := (num_days_from_sunday today - w - 1) mod 7 + 1).
    pose proof (Z.mod_pos_bound (num_days_from_sunday today - w - 1) 7 ltac:(lia)).
    destruct (sub_before today 62 k ltac:(lia) H62) as [d Hd]. exists k, d.
    split; [lia|]. split; [exact Hd|]. cbn. apply orb_true_iff. left.
    rewrite (weekday_back today k d ltac:(lia) Hd). subst k. apply Z.eqb_eq.
    Z.to_euclidean_division_equations. lia.
  - cbn in Hv. destruct (negb _) eqn:Ed; [discriminate|].
    pose proof (day_range today) as Hr.
    destruct (prev_month_end today) as (l & Hl & Hlr & Hdim);
      [apply (sub_before today 62); [lia | exact H62]|].
    set (i := day l - Z.min dom (day l)).
    destruct (walk_month today (day today) l i) as (f & Hf & Hy & Hm & Hd);
      [lia | exact Hl | lia | apply (sub_before today 62); [lia | exact H62] |].
    exists (day today + i), f. split; [lia|]. split; [exact Hf|]. cbn.
    rewrite (Hdim f Hy Hm). lia.
Qed.

(** A time of day that is skipped on [d] exists an hour later on the same day. *)
Definition short_gap (d : date) (h m : Z) : Prop :=
  forall n, and_hms_opt d h m 0 = Some n -> from_local_datetime n = LNone ->
  exists t, earliest (from_local_datetime (add_hours n 1)) = Some t /\ local_date t = Some d.

Lemma local_unix_some d h m :
  0 <= h <= 23 -> 0 <= m <= 59 -> short_gap d h m ->
  exists t, local_unix d h m = Some t /\ local_date t = Some d.
Proof.
  intros Hh Hm Hg. destruct (hms_valid d h m Hh Hm) as [n Hn]. unfold local_unix. rewrite Hn. cbn.
  pose proof (fun t => local_inverse d h m n t ltac:(lia) ltac:(lia) Hn) as Hi.
  destruct (from_local_datetime n) eqn:Ef; cbn in Hi; eauto.
Qed.

Lemma valid_time s h m :
  validate s = Ok tt -> schedule_time s = Some (h, m) -> h <= 23 /\ m <= 59.
Proof.
  assert (Hc : forall a b, check_time a b = Ok tt -> a <= 23 /\ b <= 59).
  { intros a b. unfold check_time. destruct (_ || _) eqn:E; [discriminate | lia]. }
  destruct s; cbn; try discriminate; intros Hv [= <- <-]; apply Hc; repeat case_match; congruence.
Qed.

End calendar.

(** ** A calendar for the witnesses: the Gregorian one from 1970-01-01, in UTC *)

Module SampleChrono.

Definition leap (y : Z) : bool :=
  (y mod 4 =? 0) && (negb (y mod 100 =? 0) || (y mod 400 =? 0)).
Definition month_days (y m : Z) : Z :=
  if m =? 2 then (if leap y then 29 else 28)
  else if (m =? 4) || (m =? 6) || (m =? 9) || (m =? 11) then 30 else 31.

Definition civil := (Z * Z * Z)%type.
Definition next_day (c : civil) : civil :=
  let '(y, m, d) := c in
  if d <? month_days y m then (y, m, d + 1)
  else if m =? 12 then (y + 1, 1, 1) else (y, m + 1, 1).
Definition civil_of (n : nat) : civil := Nat.iter n next_day (1970, 1, 1).

Fixpoint search_day (fuel n : nat) (c target : civil) : option nat :=
  if bool_decide (c = target) then Some n
  else match fuel with O => None | S f => search_day f (S n) (next_day c) target end.

Definition key (c : civil) : Z := let '(y, m, d) := c in y * 372 + m * 31 + d.

#[export] Instance chrono : Chrono := {|
  date := nat; datetime := Z;
  local_date t := if 0 <=? t then Some (Z.to_nat (t / 86400)) else None;
  checked_sub_days d k := if k <=? Z.of_nat d then Some (d - Z.to_nat k)%nat else None;
  pred_opt d := match d with O => None | S n => Some n end;
  from_ymd_opt y m d :=
    search_day (Z.to_nat (key (y, m, d) - key (1970, 1, 1))) 0 (1970, 1, 1) (y, m, d);
  year d := (civil_of d).1.1; month d := (civil_of d).1.2; day d := (civil_of d).2;
  num_days_from_sunday d := (Z.of_nat d + 4) mod 7;
  and_hms_opt d h m s :=
    if (h <=? 23) && (m <=? 59) && (s <=? 59)
    then Some (Z.of_nat d * 86400 + h * 3600 + m * 60 + s) else None;
  add_hours n k := n + k * 3600;
  from_local_datetime n := LSingle n |}.

Lemma month_days_range y m : 28 <= month_days y m <= 31.
Proof. unfold month_days. repeat case_match; lia. Qed.

Definition valid_day (c : civil) : Prop :=
  let '(y, m, d) := c in 1 <= m <= 12 /\ 1 <= d <= month_days y m.

Lemma next_valid c : valid_day c -> valid_day (next_day c) /\ key c < key (next_day c).
Proof.
  destruct c as [[y m] d]. cbn. intros [Hm Hd]. pose proof (month_days_range y m).
  pose proof (month_days_range y (m + 1)). pose proof (month_days_range (y + 1) 1).
  destruct (d <? month_days y m) eqn:E; [cbn; lia|]. destruct (m =? 12) eqn:Em; cbn; lia.
Qed.

Lemma civil_S n : civil_of (S n) = next_day (civil_of n).
Proof. reflexivity. Qed.

Lemma civil_valid n : valid_day (civil_of n).
Proof. induction n; [cbn; lia|]. rewrite civil_S. now apply next_valid. Qed.

Lemma civil_key n k : key (civil_of n) + Z.of_nat k <= key (civil_of (k + n)).
Proof.
  induction k as [|k IH]; [rewrite Z.add_0_r; apply Z.le_refl|]. change (S k + n)%nat with (S (k + n)). rewrite civil_S.
  pose proof (proj2 (next_valid _ (civil_valid (k + n)))). lia.
Qed.

Lemma search_day_found fuel : forall n k,
  (k <= fuel)%nat -> search_day fuel n (civil_of n) (civil_of (k + n)) = Some (k + n)%nat.
Proof.
  induction fuel as [|f IH]; intros n k Hk; cbn [search_day]; case_bool_decide as E.
  1, 3: pose proof (civil_key n k) as Hc; rewrite <- E in Hc; f_equal; lia.
  - exfalso. apply E. now replace k with 0%nat by lia.
  - destruct k as [|k]; [contradiction|]. rewrite <- civil_S.
    replace (S k + n)%nat with (k + S n)%nat by lia. apply IH. lia.
Qed.

#[export] Instance chrono_laws : ChronoLaws.
Proof.
  split.
  - intros d. cbn -[Z.leb] in *. destruct (0 <=? Z.of_nat d) eqn:E; [f_equal; cbn; apply Nat.sub_0_r | apply Z.leb_gt in E; exfalso; lia].
  - intros d k Hk. cbn -[Z.leb] in *. destruct (k <=? Z.of_nat d) eqn:E1, (k + 1 <=? Z.of_nat d) eqn:E2; cbn;
      try reflexivity; try (exfalso; lia).
    + destruct (d - Z.to_nat k)%nat eqn:E; [lia|]. f_equal. lia.
    + destruct (d - Z.to_nat k)%nat eqn:E; [reflexivity | lia].
  - intros d. cbn in *. apply Z.mod_pos_bound. lia.
  - intros [|d] e; cbn -[Z.of_nat]; [discriminate|]. intros [= <-].
    Z.to_euclidean_division_equations. lia.
  - intros d. cbn in *. pose proof (civil_valid d) as Hv. destruct (civil_of d) as [[y m] dd].
    cbn in *. pose proof (month_days_range y m). lia.
  - intros [|d] e; cbn [pred_opt chrono]; [discriminate|]. intros [= <-]. cbn -[civil_of].
    rewrite civil_S. pose proof (civil_valid d) as Hv. destruct (civil_of d) as [[y m] dd]. cbn in *.
    repeat case_match; cbn; lia.
  - intros [|d] e; cbn [pred_opt chrono]; [discriminate|]. intros [= <-]. cbn -[civil_of].
    rewrite civil_S. pose proof (civil_valid d) as Hv. destruct (civil_of d) as [[y m] dd]. cbn in *.
    pose proof (month_days_range y m). unfold next_month. cbn.
    destruct (dd <? month_days y m) eqn:E; cbn; [lia|]. intros _. split; [|lia].
    destruct (m =? 12); reflexivity.
  - intros d. cbn -[search_day key]. pose proof (civil_key 0 d) as Hk. rewrite Nat.add_0_r in Hk.
    pose proof (search_day_found (Z.to_nat (key (civil_of d) - key (civil_of 0))) 0 d) as Hs.
    rewrite Nat.add_0_r in Hs. destruct (civil_of d) as [[y m] dd]. apply Hs. lia.
  - intros d h m Hh Hm. cbn. replace ((h <=? 23) && (m <=? 59) && true) with true by lia. eauto.
  - intros d h m n t Hh Hm Hn [= <-]. cbn -[Z.leb] in *. destruct (_ && _) eqn:E in Hn; [|discriminate].
    injection Hn as <-. rewrite (proj2 (Z.leb_le 0 (Z.of_nat d * 86400 + h * 3600 + m * 60 + 0))) by lia.
    f_equal. enough ((Z.of_nat d * 86400 + h * 3600 + m * 60 + 0) / 86400 = Z.of_nat d) by lia.
    Z.to_euclidean_division_equations. lia.
  - intros t1 t2 d1 d2 k E1 Hk Ek E2. cbn -[Z.leb] in *.
    destruct (0 <=? t1) eqn:L1, (0 <=? t2) eqn:L2; try discriminate.
    destruct (k <=? Z.of_nat d1) eqn:L3; [|discriminate]. apply Z.leb_le in L1, L2, L3.
    injection E1 as <-. injection E2 as <-. injection Ek as Ek.
    assert (0 <= t1 / 86400) by (apply Z.div_pos; lia).
    assert (0 <= t2 / 86400) by (apply Z.div_pos; lia).
    assert (t2 / 86400 < t1 / 86400) by lia.
    destruct (Z_lt_le_dec t2 t1) as [|Hle]; [assumption|].
    apply (Z.div_le_mono _ _ 86400) in Hle; lia.
Qed.

End SampleChrono.

(** A codec for the witnesses: the bits of stdpp's encoding of the fields. *)
Module SampleJson.

Fixpoint pos_bytes (p : positive) : bytes :=
  match p with xH => [] | xO q => x00 :: pos_bytes q | xI q => x01 :: pos_bytes q end.
Fixpoint bytes_pos (l : bytes) : positive :=
  match l with [] => xH | x00 :: l' => xO (bytes_pos l') | _ :: l' => xI (bytes_pos l') end.

Definition fields (s : State) :=
  (s_full s, s_log s, s_full_attempt s, s_log_attempt s, s_no_chain_since s).
Definition of_fields t : State :=
  let '(f, l, fa, la, m) := t in
  {| s_full := f; s_log := l; s_full_attempt := fa; s_log_attempt := la; s_no_chain_since := m |}.

Definition state_of (b : bytes) : option State := of_fields <$> decode (bytes_pos b).
#[export] Instance json : SchedJson := {|
  to_vec s := pos_bytes (encode (fields s)); from_slice := state_of |}.

Lemma pos_bytes_inv p : bytes_pos (pos_bytes p) = p.
Proof. induction p; cbn; congruence. Qed.

#[export] Instance json_laws : SchedJsonLaws.
Proof.
  split. intros s. change (state_of (pos_bytes (encode (fields s))) = Some s).
  unfold state_of. rewrite pos_bytes_inv. generalize (decode_encode (fields s)).
  destruct (decode _) as [t|]; intros [= ->]. now destruct s.
Qed.

End SampleJson.

(** ** Properties *)

(** The schedule of a plan's full backups. *)
Definition full_schedule (p : SqlProtection) : Schedule :=
  match p with PointInTime full _ => full | DailyRestorePoints s | SecondaryCopy s => s end.

(** The occurrence the scheduler compares with is on a day the schedule
    runs on, at its local time, not after now; every occurrence on a later day
    of those searched is still to come; and the flag says whether it is
    today's. *)
Theorem latest_occurrence_spec `{Chrono} s now occ today :
  latest_occurrence s now = Some (occ, today) ->
  exists h m d0, schedule_time s = Some (h, m) /\ local_date now = Some d0
    /\ found s h m d0 now 0 63 (occ, today).
Proof.
  unfold latest_occurrence. intros E.
  destruct (schedule_time s) as [[h m]|]; [|discriminate]. cbn [mbind option_bind] in E.
  destruct (local_date now) as [d0|]; [|discriminate]. cbn [mbind option_bind] in E.
  exists h, m, d0. split; [reflexivity|]. split; [reflexivity|].
  change 63 with (Z.of_nat search_days). apply occurrence_back_spec, E.
Qed.

(** A daily, weekly or monthly schedule that validation accepts always has
    an occurrence within the days the scheduler searches, so a saved schedule is
    never silently dead: for any clock reading not within 62 days of the
    calendar's start, in a time zone whose skipped times last at most an hour. *)
Theorem validated_schedule_occurs `{ChronoLaws} s now today h m :
  validate s = Ok tt -> schedule_time s = Some (h, m) -> 0 <= h -> 0 <= m ->
  (forall days h' m', s = Weekly days h' m' -> Forall (fun w => 0 <= w) days) ->
  local_date now = Some today -> is_Some (checked_sub_days today 62) ->
  (forall k d, 0 <= k <= 62 -> checked_sub_days today k = Some d -> short_gap d h m) ->
  is_Some (latest_occurrence s now).
Proof.
  intros Hv Ht Hh Hm Hw Hn H62 Hg. destruct (valid_time s h m Hv Ht).
  destruct (validated_runs s today h m Hv Ht Hw H62) as (k & d & Hk & Hd & Hr).
  destruct (local_unix_some d h m) as (t & Hl & Hld); [lia.. | apply (Hg k); [lia | exact Hd]|].
  unfold latest_occurrence. rewrite Ht, Hn. cbn [mbind option_bind].
  apply (occurrence_back_some s h m today now search_days 0 k d t); auto.
  - change (0 + Z.of_nat search_days) with 63. lia.
  - intros j Hj. destruct (sub_before today 62 j ltac:(lia) H62) as [e He]. exists e.
    split; [exact He|]. destruct (local_unix_some e h m) as (u & Hu & _); [lia.. | | eauto].
    apply (Hg j); [lia | exact He].
  - apply Z.lt_le_incl, (earlier_day now t today d k); auto. lia.
Qed.

(** Once a SQL run is recorded, successful or not, the same kind of run is
    due again exactly when its schedule's next occurrence or interval has come:
    a failing backup is neither repeated at once nor forgotten.  A log run is
    due only when no full is; a successful full also restarts the log interval;
    and no other job's timers move. *)
Theorem recorded_run_due `{Chrono, SchedJsonLaws} dk id run ok t p now :
  d_writable dk = true ->
  let dk' := record_outcome dk id run ok t in
  match run with
  | RunFull => (sql_due_kind dk' id p now = Some RunFull <-> elapsed (full_schedule p) t now)
      /\ (ok = true -> sql_due_kind dk' id p now = Some RunLog ->
          exists full i, p = PointInTime full i /\ Z.max i 1 * 60 <= now - t)
  | RunLog => sql_due_kind dk' id p now = Some RunLog <->
      exists full i, p = PointInTime full i
        /\ schedule_due full (last_full_attempt dk id) now = false /\ Z.max i 1 * 60 <= now - t
  end /\ forall id', id' <> id -> sql_due_kind dk' id' p now = sql_due_kind dk id' p now.
Proof.
  intros Hw dk'. split.
  - destruct run.
    + pose proof (recorded_full_attempt dk id ok t Hw) as Hf. fold dk' in Hf.
      rewrite <- schedule_due_elapsed. split.
      * destruct p; cbn [sql_due_kind full_schedule]; rewrite Hf; repeat case_match; split; congruence.
      * intros ->. destruct p as [full i|s|s]; cbn [sql_due_kind]; rewrite Hf; repeat case_match; try discriminate.
        intros _. exists full, i. split; [reflexivity|].
        assert (Hl : last_log_attempt dk' id = Some t)
          by (unfold dk', last_log_attempt; cbn; unfold record_full; now rewrite load_store).
        rewrite Hl in *. cbn [or_else log_due] in *. lia.
    + pose proof (recorded_log_attempt dk id ok t Hw) as Hl. fold dk' in Hl.
      pose proof (log_keeps_full_attempt dk id ok t Hw) as Hf. fold dk' in Hf.
      split.
      * destruct p as [full i|s|s]; cbn [sql_due_kind]; rewrite Hf, ?Hl; repeat case_match; try discriminate.
        intros _. exists full, i. cbn [or_else log_due] in *. split; [reflexivity|]. split; [assumption | lia].
      * intros (full & i & -> & Hd & Hi). cbn [sql_due_kind]. rewrite Hf, Hd, Hl. cbn [or_else log_due].
        now replace (_ <=? _) with true by lia.
  - intros id' Hne.
    assert (Hs : sched_load dk' id' = sched_load dk id').
    { subst dk'. destruct run, ok; cbn; apply load_store_other; congruence. }
    unfold sql_due_kind, last_full_attempt, last_log_attempt, last_full. now rewrite Hs.
Qed.

Section witnesses.
Import SampleChrono SampleJson.

(** 1970-03-31, 03:00: a schedule for the 31st at 02:30 last ran that day, and
    one for the 30th at 04:00 ran on the day before. *)
Definition clock : Z := 89 * 86400 + 10800.

Lemma latest_occurrence_spec_witness :
  latest_occurrence (Monthly 31 2 30) clock = Some (89 * 86400 + 9000, true)
  /\ latest_occurrence (Monthly 30 4 0) clock = Some (88 * 86400 + 14400, false)
  /\ exists h m d0, schedule_time (Monthly 30 4 0) = Some (h, m) /\ local_date clock = Some d0
     /\ found (Monthly 30 4 0) h m d0 clock 0 63 (88 * 86400 + 14400, false).
Proof.
  split; [vm_compute; reflexivity|]. split; [vm_compute; reflexivity|].
  apply (latest_occurrence_spec (Monthly 30 4 0) clock). vm_compute. reflexivity.
Defined.

Lemma validated_schedule_occurs_witness :
  is_Some (latest_occurrence (Weekly [0; 6] 23 15) clock).
Proof.
  apply (@validated_schedule_occurs chrono chrono_laws (Weekly [0; 6] 23 15) clock 89%nat 23 15);
    try reflexivity; try lia.
  - intros days h m [= <- _ _]. repeat constructor; lia.
  - vm_compute. eauto.
  - intros k d _ _ n _ E. discriminate E.
Defined.

Definition sample_disk : disk := {| d_files := ∅; d_writable := true |}.

Lemma recorded_run_due_witness :
  let p := PointInTime (Daily 2 30) 15 in
  let dk' := record_outcome sample_disk (L "job") RunLog false clock in
  (sql_due_kind dk' (L "job") p (clock + 899) = Some RunLog <->
   exists full i, p = PointInTime full i
     /\ schedule_due full (last_full_attempt sample_disk (L "job")) (clock + 899) = false
     /\ Z.max i 1 * 60 <= clock + 899 - clock)
  /\ forall id', id' <> L "job" ->
     sql_due_kind dk' id' p (clock + 899) = sql_due_kind sample_disk id' p (clock + 899).
Proof.
  exact (recorded_run_due sample_disk (L "job") RunLog false clock
           (PointInTime (Daily 2 30) 15) (clock + 899) eq_refl).
Defined.

End witnesses.
