(* ===== verification/Stores.v ===== *)
(** Configuration on disk: [pbsgui-core/src/signed.rs] and [secrets.rs], the
    stores of [pbsgui-engine/src/jobstore.rs] and [connstore.rs], the keys of
    [enckey.rs], and the requests of [handler.rs] that change any of them.

    A [world] is what these outlive the process in (the files of the
    configuration directory, the credential store) with the errors they may
    answer; [io] is the monad of functions that run in it.  The theorems: a
    store file is replaced as a whole or not at all, and what is saved is what
    the next start loads; a store that did not load is never written; ids and
    snapshot groups of the saved jobs stay distinct under every request; keys
    are not overwritten, and an encrypted job never runs without its key. *)

From Stdlib Require Import ZArith Lia Strings.Byte Ascii String.
From stdpp Require Import base tactics option numbers gmap list.
From S2P Require Import Prelude Text Base Blob Jobs Sched.
Open Scope Z_scope.

(** ** The world *)

Record world := {
  w_files : gmap str bytes;  (* by file name in the configuration directory *)
  w_read_error : option str; w_mkdir_error : option str; w_tmp_error : option str;
  w_rename_error : option str;
  w_pid : Z; w_seq : Z;
  w_secrets : gmap str str; w_cred_error : option str;
  w_random : result str bytes;
  w_account : str;
  w_key_cache : option bytes; w_key_created : bool }.

Definition io (A : Type) : Type := world -> result str A * world.
#[export] Instance io_ret : MRet io := fun A a w => (Ok a, w).
#[export] Instance io_bind : MBind io := fun A B f m w =>
  match m w with (Ok a, w') => f a w' | (Err e, w') => (Err e, w') end.

Definition io_lift {A} (r : result str A) : io A := fun w => (r, w).

Definition set_files (f : gmap str bytes) (w : world) : world :=
  {| w_files := f; w_read_error := w_read_error w; w_mkdir_error := w_mkdir_error w;
     w_tmp_error := w_tmp_error w; w_rename_error := w_rename_error w; w_pid := w_pid w;
     w_seq := w_seq w; w_secrets := w_secrets w; w_cred_error := w_cred_error w;
     w_random := w_random w; w_account := w_account w; w_key_cache := w_key_cache w;
     w_key_created := w_key_created w |}.
Definition set_secrets (s : gmap str str) (w : world) : world :=
  {| w_files := w_files w; w_read_error := w_read_error w; w_mkdir_error := w_mkdir_error w;
     w_tmp_error := w_tmp_error w; w_rename_error := w_rename_error w; w_pid := w_pid w;
     w_seq := w_seq w; w_secrets := s; w_cred_error := w_cred_error w;
     w_random := w_random w; w_account := w_account w; w_key_cache := w_key_cache w;
     w_key_created := w_key_created w |}.
Definition set_seq (n : Z) (w : world) : world :=
  {| w_files := w_files w; w_read_error := w_read_error w; w_mkdir_error := w_mkdir_error w;
     w_tmp_error := w_tmp_error w; w_rename_error := w_rename_error w; w_pid := w_pid w;
     w_seq := n; w_secrets := w_secrets w; w_cred_error := w_cred_error w;
     w_random := w_random w; w_account := w_account w; w_key_cache := w_key_cache w;
     w_key_created := w_key_created w |}.
Definition set_key (k : option bytes) (created : bool) (w : world) : world :=
  {| w_files := w_files w; w_read_error := w_read_error w; w_mkdir_error := w_mkdir_error w;
     w_tmp_error := w_tmp_error w; w_rename_error := w_rename_error w; w_pid := w_pid w;
     w_seq := w_seq w; w_secrets := w_secrets w; w_cred_error := w_cred_error w;
     w_random := w_random w; w_account := w_account w; w_key_cache := k;
     w_key_created := created |}.

(** A restart of the process: its caches and counters start over. *)
Definition restart (pid : Z) (w : world) : world :=
  {| w_files := w_files w; w_read_error := w_read_error w; w_mkdir_error := w_mkdir_error w;
     w_tmp_error := w_tmp_error w; w_rename_error := w_rename_error w; w_pid := pid;
     w_seq := 0; w_secrets := w_secrets w; w_cred_error := w_cred_error w;
     w_random := w_random w; w_account := w_account w; w_key_cache := None;
     w_key_created := false |}.

(** ** Secrets (secrets.rs on the operating system's credential store) *)

Definition secrets_get (key : str) : io (option str) := fun w =>
  match w_cred_error w with Some e => (Err e, w) | None => (Ok (w_secrets w !! key), w) end.
Definition secrets_set (key secret : str) : io unit := fun w =>
  match w_cred_error w with
  | Some e => (Err e, w)
  | None => (Ok tt, set_secrets (<[key := secret]> (w_secrets w)) w)
  end.
Definition secrets_delete (key : str) : io unit := fun w =>
  match w_cred_error w with
  | Some e => (Err e, w)
  | None => (Ok tt, set_secrets (delete key (w_secrets w)) w)
  end.

(** [PbsError]'s messages. *)
Definition show_error (e : PbsError) : str :=
  match e with
  | InvalidRepository m => L "invalid repository string: " ++ m
  | Auth m => L "authentication failed: " ++ m
  | FingerprintMismatch x a => L "server fingerprint mismatch: expected " ++ x ++ L ", got " ++ a
  | Protocol m => L "protocol error: " ++ m
  | Io e => io_text e
  end.

(** ** Signed files (signed.rs) *)

Class Base64 := { b64_encode : bytes -> str; b64_decode : str -> result str bytes }.
Class Base64Laws `{Base64} := {
  b64_inverse : forall b, b64_decode (b64_encode b) = Ok b;
  b64_trim : forall b, trim (b64_encode b) = b64_encode b }.
Class HmacLib := { hmac_sha256 : bytes -> bytes -> bytes }.

Record Envelope := { env_mac : str; env_data : bytes }.

(** serde_json, for the envelope and for the lists the stores hold. *)
Class EnvelopeJson := {
  env_pretty : Envelope -> result str bytes; env_parse : bytes -> option Envelope }.
Class EnvelopeLaws `{EnvelopeJson} :=
  env_inverse : forall e b, env_pretty e = Ok b -> env_parse b = Some e.
Class ListJson (T : Type) := {
  json_pretty : list T -> result str bytes; json_parse : bytes -> result str (list T) }.
Class ListLaws (T : Type) `{ListJson T} :=
  list_inverse : forall l b, json_pretty l = Ok b -> json_parse b = Ok l.

Definition HMAC_KEY_NAME : str := L "store-hmac".

Section signed.
Context `{Base64} `{HmacLib} `{EnvelopeJson}.

Definition fresh_key : io bytes := fun w => (map_err show_error (random_key (w_random w)), w).
Definition note_created : io unit := fun w => (Ok tt, set_key (w_key_cache w) true w).
Definition cache_key (key : bytes) : io unit := fun w =>
  (Ok tt, set_key (Some key) (w_key_created w) w).

Definition read_key : io bytes :=
  stored ← secrets_get HMAC_KEY_NAME;
  match stored with
  | Some b64 => io_lift (b64_decode b64)
  | None =>
      key ← fresh_key;
      _ ← secrets_set HMAC_KEY_NAME (b64_encode key);
      _ ← note_created;
      mret key
  end.

Definition signing_key : io bytes := fun w =>
  match w_key_cache w with
  | Some key => (Ok key, w)
  | None => (key ← read_key; _ ← cache_key key; mret key) w
  end.

Definition tag (key data : bytes) : bytes := hmac_sha256 key data.

Definition signed_serialize {T} `{ListJson T} (value : list T) : io bytes :=
  data ← io_lift (json_pretty value);
  key ← signing_key;
  io_lift (env_pretty {| env_mac := b64_encode (tag key data); env_data := data |}).

Definition signed_deserialize {T} `{ListJson T} (b : bytes) : io (list T) :=
  match env_parse b with
  | Some env =>
      key ← signing_key;
      expected ← io_lift (map_err (fun e => L "store MAC is not valid base64: " ++ e)
                            (b64_decode (env_mac env)));
      _ ← io_lift (ensure (bool_decide (tag key (env_data env) = expected))
                     (L "store signature mismatch: corrupt or tampered with"));
      io_lift (json_parse (env_data env))
  | None => io_lift (json_parse b)
  end.

Definition refused_message (w : world) (path err : str) : str :=
  L "could not load " ++ path ++ L ": " ++ err
  ++ L ". pbsgui will not change this file until the problem is fixed."
  ++ (if w_key_created w then
        L " This Windows account (" ++ w_account w ++ L ") had no pbsgui signing key, which usually means the pbsgui-engine service now runs as a different account from the one that saved the configuration. Set the service to log on as Local System again and restart it to get the configuration back."
      else [])
  ++ L " To discard the file and start empty instead, move it out of the folder and restart the service.".

Definition load_list {T} `{ListJson T} (path : str) (w : world) :
    list T * option str * world :=
  let refuse (r : result str (list T)) (w' : world) :=
    match r with
    | Ok items => (items, None, w')
    | Err e => ([], Some (refused_message w' path e), w')
    end in
  match w_read_error w with
  | Some e => refuse (Err e) w
  | None =>
      match w_files w !! path with
      | None => ([], None, w)
      | Some b => let '(r, w') := signed_deserialize b w in refuse r w'
      end
  end.

End signed.

(** [Path::with_extension] of a file name. *)
Definition with_extension (name ext : str) : str :=
  match rsplit_once 46 name with
  | Some (stem, _) => if is_empty stem then name ++ L "." ++ ext else stem ++ L "." ++ ext
  | None => name ++ L "." ++ ext
  end.

Definition write_atomic (path : str) (b : bytes) : io unit := fun w =>
  match w_mkdir_error w with
  | Some e => (Err e, w)
  | None =>
      let n := w_seq w in
      let w := set_seq (n + 1) w in
      let tmp := with_extension path (L "tmp." ++ dec (w_pid w) ++ L "." ++ dec n) in
      match w_tmp_error w with
      | Some e => (Err e, w)
      | None =>
          let w := set_files (<[tmp := b]> (w_files w)) w in
          match w_rename_error w with
          | Some e => (Err e, set_files (delete tmp (w_files w)) w)
          | None => (Ok tt, set_files (<[path := b]> (delete tmp (w_files w))) w)
          end
      end
  end.

(** ** Stores (jobstore.rs, connstore.rs) *)

Class HasId (T : Type) := id_of : T -> str.
#[export] Instance job_id : HasId Job := j_id.
#[export] Instance sql_id : HasId SqlConnection := sc_id.
#[export] Instance pbs_id : HasId PbsServer := ps_id.

Record JsonStore (T : Type) := {
  js_path : str; js_items : list T; js_load_error : option str }.
Arguments js_path {T} _.
Arguments js_items {T} _.
Arguments js_load_error {T} _.

Definition with_items {T} (items : list T) (s : JsonStore T) : JsonStore T :=
  {| js_path := js_path s; js_items := items; js_load_error := js_load_error s |}.

Definition has_id {T} `{HasId T} (id : str) (x : T) : bool := str_eqb (id_of x) id.

Definition js_get {T} `{HasId T} (s : JsonStore T) (id : str) : option T :=
  find (has_id id) (js_items s).

(** [match items.iter_mut().find(..) { Some(slot) => *slot = item, None => push }]. *)
Fixpoint upsert {T} `{HasId T} (item : T) (items : list T) : list T :=
  match items with
  | [] => [item]
  | x :: xs => if has_id (id_of item) x then item :: xs else x :: upsert item xs
  end.

Definition js_ensure_writable {T} (s : JsonStore T) : result str unit :=
  match js_load_error s with Some e => Err e | None => Ok tt end.

Section stores.
Context `{Base64} `{HmacLib} `{EnvelopeJson}.
Context {T : Type} `{HasId T} `{ListJson T}.

Definition js_with_path (path : str) (w : world) : JsonStore T * world :=
  let '(items, err, w') := load_list path w in
  ({| js_path := path; js_items := items; js_load_error := err |}, w').

Definition js_persist (s : JsonStore T) : io unit :=
  _ ← io_lift (js_ensure_writable s);
  data ← signed_serialize (js_items s);
  write_atomic (js_path s) data.

(** A mutator: refused on a read-only store, else the change in memory and a
    write of the whole list. *)
Definition js_update (f : list T -> list T) (s : JsonStore T) (w : world) :
    result str unit * JsonStore T * world :=
  match js_ensure_writable s with
  | Err e => (Err e, s, w)
  | Ok _ =>
      let s' := with_items (f (js_items s)) s in
      let '(r, w') := js_persist s' w in (r, s', w')
  end.

Definition js_save (item : T) : JsonStore T -> world -> result str unit * JsonStore T * world :=
  js_update (upsert item).

Definition js_delete (id : str) : JsonStore T -> world -> result str unit * JsonStore T * world :=
  js_update (List.filter (fun i => negb (has_id id i))).

End stores.

Section jobs.
Context `{Base64} `{HmacLib} `{EnvelopeJson} `{ListJson Job}.

Definition JobStore := JsonStore Job.
Definition save_job (job : Job) : JobStore -> world -> result str unit * JobStore * world :=
  js_save job.
Definition job_delete (id : str) : JobStore -> world -> result str unit * JobStore * world :=
  js_delete id.

Definition with_run (time : Z) (status : str) (j : Job) : Job :=
  {| j_id := j_id j; j_name := j_name j; j_source := j_source j;
     j_destination := j_destination j; j_schedule := j_schedule j; j_last_run := Some time;
     j_last_status := Some status; j_encrypted := j_encrypted j; j_compress := j_compress j |}.

Fixpoint update_first (id : str) (f : Job -> Job) (jobs : list Job) : list Job :=
  match jobs with
  | [] => []
  | j :: js => if has_id id j then f j :: js else j :: update_first id f js
  end.

Definition record_run (id : str) (time : Z) (status : str) :
    JobStore -> world -> result str unit * JobStore * world :=
  js_update (update_first id (with_run time status)).

End jobs.

(** ** Encryption keys (enckey.rs) *)

Record EncryptionKeyInfo := { ki_key : str; ki_fingerprint : str }.

Definition enc_secret_key (job_id : str) : str := L "enc:" ++ job_id.
Definition sql_secret_key (id : str) : str := L "sql:" ++ id.
Definition pbs_secret_key (id : str) : str := L "pbs:" ++ id.

Definition colon_hex (b : bytes) : str := join (L ":") (map hex_byte b).

Section enckey.
Context `{Base64} `{HashLib}.

Definition enc_store (job_id : str) (key : bytes) : io unit :=
  secrets_set (enc_secret_key job_id) (b64_encode key).

Definition decode_key (key_base64 : str) : result str bytes :=
  b ← map_err (fun e => L "the key is not valid base64: " ++ e) (b64_decode (trim key_base64));
  _ ← ensure (length b =? 32)%nat
        (L "a key must be 32 bytes; got " ++ dec (Z.of_nat (length b)));
  Ok b.

Definition info_from_key (key : bytes) : EncryptionKeyInfo :=
  {| ki_key := b64_encode key; ki_fingerprint := colon_hex (fingerprint (crypt_new key)) |}.

Definition generate (job_id : str) : io EncryptionKeyInfo :=
  cur ← secrets_get (enc_secret_key job_id);
  match cur with
  | Some _ =>
      io_lift (Err (L "this job already has an encryption key; clear it first to replace it"))
  | None =>
      key ← fresh_key;
      _ ← enc_store job_id key;
      mret (info_from_key key)
  end.

Definition import (job_id key_base64 : str) : io EncryptionKeyInfo :=
  key ← io_lift (decode_key key_base64);
  _ ← enc_store job_id key;
  mret (info_from_key key).

Definition enc_get (job_id : str) : io (option EncryptionKeyInfo) :=
  cur ← secrets_get (enc_secret_key job_id);
  match cur with
  | Some b64 =>
      key ← io_lift (decode_key b64);
      mret (Some {| ki_key := []; ki_fingerprint := ki_fingerprint (info_from_key key) |})
  | None => mret None
  end.

Definition enc_clear (job_id : str) : io unit := secrets_delete (enc_secret_key job_id).

Definition load_config (job_id : str) : io (option CryptConfig) :=
  cur ← secrets_get (enc_secret_key job_id);
  match cur with
  | Some b64 => key ← io_lift (decode_key b64); mret (Some (crypt_new key))
  | None => mret None
  end.

Definition for_job (job : Job) : io (option CryptConfig) :=
  if negb (j_encrypted job) then mret None
  else
    cfg ← load_config (j_id job);
    match cfg with
    | Some c => mret (Some c)
    | None => io_lift (Err (L "job is marked encrypted but its key is not stored"))
    end.

End enckey.

(** ** The requests that change configuration (handler.rs) *)

Record config_state := {
  c_jobs : JobStore; c_sql : JsonStore SqlConnection; c_pbs : JsonStore PbsServer;
  c_world : world }.

Inductive Request :=
| ListJobs
| SaveJob (job : Job)
| DeleteJob (id : str)
| ListSqlConnections
| SaveSqlConnection (connection : SqlConnection) (secret : option str)
| DeleteSqlConnection (id : str)
| ListPbsServers
| SavePbsServer (server : PbsServer) (secret : option str)
| DeletePbsServer (id : str)
| GenerateEncryptionKey (job_id : str)
| ImportEncryptionKey (job_id key : str)
| GetEncryptionKey (job_id : str)
| ClearEncryptionKey (job_id : str).

Inductive Reply :=
| RJobs (jobs : list Job)
| RSqlConnections (connections : list SqlConnection)
| RPbsServers (servers : list PbsServer)
| RSaved (id : str)
| RDeleted
| REncryptionKey (info : option EncryptionKeyInfo)
| RError (message : str).

Definition saved_reply (id : str) (r : result str unit) : Reply :=
  match r with Ok _ => RSaved id | Err e => RError e end.
Definition deleted_reply (r : result str unit) : Reply :=
  match r with Ok _ => RDeleted | Err e => RError e end.
Definition enc_key_reply (r : result str EncryptionKeyInfo) : Reply :=
  match r with Ok info => REncryptionKey (Some info) | Err e => RError e end.

Definition list_reply {T} (s : JsonStore T) (mk : list T -> Reply) : Reply :=
  match js_load_error s with Some e => RError e | None => mk (js_items s) end.

Section handle.
Context `{Base64} `{HmacLib} `{EnvelopeJson} `{HashLib}.
Context `{ListJson Job} `{ListJson SqlConnection} `{ListJson PbsServer}.

(** Storing a connection: the check, the secret, then the item. *)
Definition save_with_secret {T} `{HasId T} `{ListJson T} (secret_key : str) (secret : option str)
    (item : T) (s : JsonStore T) (w : world) : result str unit * JsonStore T * world :=
  match js_ensure_writable s with
  | Err e => (Err e, s, w)
  | Ok _ =>
      match match secret with
            | Some x => secrets_set secret_key x w
            | None => (Ok tt, w)
            end with
      | (Err e, w') => (Err e, s, w')
      | (Ok _, w') => js_save item s w'
      end
  end.

Definition delete_with_secret {T} `{HasId T} `{ListJson T} (secret_key : str) (id : str)
    (s : JsonStore T) (w : world) : result str unit * JsonStore T * world :=
  let '(r, s', w') := js_delete id s w in
  (r, s', match r with Ok _ => (secrets_delete secret_key w').2 | Err _ => w' end).

Definition with_world (c : config_state) (w : world) : config_state :=
  {| c_jobs := c_jobs c; c_sql := c_sql c; c_pbs := c_pbs c; c_world := w |}.

Definition save_job_request (job : Job) (c : config_state) : Reply * config_state :=
  match (_ ← validate_job job; validate_pbs_groups job (js_items (c_jobs c))) with
  | Err e => (RError e, c)
  | Ok _ =>
      let '(res, jobs', w') := save_job job (c_jobs c) (c_world c) in
      (saved_reply (j_id job) res,
       {| c_jobs := jobs'; c_sql := c_sql c; c_pbs := c_pbs c; c_world := w' |})
  end.

(** The key is cleared first, and the result of that ignored. *)
Definition delete_job_request (id : str) (c : config_state) : Reply * config_state :=
  let w1 := (enc_clear id (c_world c)).2 in
  let '(res, jobs', w') := job_delete id (c_jobs c) w1 in
  (deleted_reply res, {| c_jobs := jobs'; c_sql := c_sql c; c_pbs := c_pbs c; c_world := w' |}).

Definition save_sql_request (conn : SqlConnection) (secret : option str) (c : config_state) :
    Reply * config_state :=
  let '(res, sql', w') :=
    save_with_secret (sql_secret_key (sc_id conn)) secret conn (c_sql c) (c_world c) in
  (saved_reply (sc_id conn) res,
   {| c_jobs := c_jobs c; c_sql := sql'; c_pbs := c_pbs c; c_world := w' |}).

Definition delete_sql_request (id : str) (c : config_state) : Reply * config_state :=
  let '(res, sql', w') := delete_with_secret (sql_secret_key id) id (c_sql c) (c_world c) in
  (deleted_reply res, {| c_jobs := c_jobs c; c_sql := sql'; c_pbs := c_pbs c; c_world := w' |}).

Definition save_pbs_request (server : PbsServer) (secret : option str) (c : config_state) :
    Reply * config_state :=
  let '(res, pbs', w') :=
    save_with_secret (pbs_secret_key (ps_id server)) secret server (c_pbs c) (c_world c) in
  (saved_reply (ps_id server) res,
   {| c_jobs := c_jobs c; c_sql := c_sql c; c_pbs := pbs'; c_world := w' |}).

Definition delete_pbs_request (id : str) (c : config_state) : Reply * config_state :=
  let '(res, pbs', w') := delete_with_secret (pbs_secret_key id) id (c_pbs c) (c_world c) in
  (deleted_reply res, {| c_jobs := c_jobs c; c_sql := c_sql c; c_pbs := pbs'; c_world := w' |}).

Definition get_key_request (id : str) (c : config_state) : Reply * config_state :=
  let '(res, w') := enc_get id (c_world c) in
  (match res with Ok info => REncryptionKey info | Err e => RError e end, with_world c w').

Definition clear_key_request (id : str) (c : config_state) : Reply * config_state :=
  let '(res, w') := enc_clear id (c_world c) in
  (match res with Ok _ => REncryptionKey None | Err e => RError e end, with_world c w').

Definition handle (r : Request) (c : config_state) : Reply * config_state :=
  match r with
  | ListJobs => (list_reply (c_jobs c) RJobs, c)
  | SaveJob job => save_job_request job c
  | DeleteJob id => delete_job_request id c
  | ListSqlConnections => (list_reply (c_sql c) RSqlConnections, c)
  | SaveSqlConnection conn secret => save_sql_request conn secret c
  | DeleteSqlConnection id => delete_sql_request id c
  | ListPbsServers => (list_reply (c_pbs c) RPbsServers, c)
  | SavePbsServer server secret => save_pbs_request server secret c
  | DeletePbsServer id => delete_pbs_request id c
  | GenerateEncryptionKey id =>
      let '(res, w') := generate id (c_world c) in (enc_key_reply res, with_world c w')
  | ImportEncryptionKey id key =>
      let '(res, w') := import id key (c_world c) in (enc_key_reply res, with_world c w')
  | GetEncryptionKey id => get_key_request id c
  | ClearEncryptionKey id => clear_key_request id c
  end.

End handle.

(** ** Lemmas: lists of jobs *)

(** The groups the saved jobs write on a server. *)
Definition server_groups (sid : str) (jobs : list Job) : list str :=
  concat (map (fun j => map fst (job_pbs_groups j)) (List.filter (on_server sid) jobs)).
#[global] Arguments server_groups : simpl never.

Definition jobs_ok (jobs : list Job) : Prop :=
  NoDup (map j_id jobs) /\ forall sid, NoDup (server_groups sid jobs).

Lemma server_groups_app sid a b :
  server_groups sid (a ++ b) = server_groups sid a ++ server_groups sid b.
Proof. unfold server_groups. now rewrite List.filter_app, map_app, concat_app. Qed.

Lemma server_groups_cons sid j b :
  server_groups sid (j :: b)
  = (if on_server sid j then map fst (job_pbs_groups j) else []) ++ server_groups sid b.
Proof. unfold server_groups. cbn. now destruct (on_server sid j). Qed.

Lemma server_groups_In sid g jobs :
  In g (server_groups sid jobs) <->
  exists j, In j jobs /\ on_server sid j = true /\ In g (map fst (job_pbs_groups j)).
Proof.
  unfold server_groups. rewrite in_concat. split.
  - intros (l & Hl & Hg). apply in_map_iff in Hl as (j & <- & Hj).
    apply filter_In in Hj as [Hj Ho]. eauto.
  - intros (j & Hj & Ho & Hg). eexists. split; [|exact Hg].
    apply in_map_iff. exists j. split; [reflexivity|]. now apply filter_In.
Qed.

Lemma has_id_eq {T} `{HasId T} id (x : T) : has_id id x = true <-> id_of x = id.
Proof. apply str_eqb_eq. Qed.

(** An insertion replaces the item of that id where it is, or adds one. *)
Lemma upsert_split {T} `{HasId T} (item : T) items :
  (exists a x b, items = a ++ x :: b /\ id_of x = id_of item /\ upsert item items = a ++ item :: b)
  \/ (upsert item items = items ++ [item] /\ Forall (fun x => id_of x <> id_of item) items).
Proof.
  induction items as [|x xs IH]; cbn; [right; auto|].
  destruct (has_id (id_of item) x) eqn:E.
  - apply has_id_eq in E. left. exists [], x, xs. auto.
  - assert (Hx : id_of x <> id_of item) by (intros Hx; apply has_id_eq in Hx; congruence).
    destruct IH as [(a & y & b & -> & Hy & ->) | [-> Hf]].
    + left. exists (x :: a), y, b. auto.
    + right. auto.
Qed.

Lemma NoDup_map_middle {A B} (f : A -> B) a x y b :
  f x = f y -> NoDup (map f (a ++ x :: b)) -> NoDup (map f (a ++ y :: b)).
Proof. intros E. rewrite !map_app. cbn. now rewrite E. Qed.

Lemma NoDup_middle {A} (x y z : list A) : NoDup (x ++ y ++ z) <-> NoDup (y ++ x ++ z).
Proof. now rewrite (Permutation_app_swap_app x y z). Qed.

Lemma NoDup_drop_middle {A} (x y z : list A) : NoDup (x ++ y ++ z) -> NoDup (x ++ z).
Proof. rewrite NoDup_middle. intros H. now apply NoDup_app in H. Qed.

(** A validated job fits among other jobs. *)
Lemma add_job_groups sid a b job existing :
  validate_pbs_groups job existing = Ok tt ->
  (forall o, In o (a ++ b) -> In o existing /\ j_id o <> j_id job) ->
  NoDup (server_groups sid (a ++ b)) -> NoDup (server_groups sid (a ++ job :: b)).
Proof.
  intros Hv Ho. rewrite !server_groups_app, server_groups_cons. apply validate_ok in Hv as [Hn Hd].
  intros Hr. apply NoDup_middle. destruct (on_server sid job) eqn:Es; [|exact Hr].
  apply NoDup_app. split; [exact Hn|]. split; [|exact Hr].
  intros g Hg Hg'. apply list_elem_of_In in Hg, Hg'. rewrite <- server_groups_app in Hg'.
  apply server_groups_In in Hg' as (o & Hin & Hos & Hgo). destruct (Ho o Hin) as [Hex Hne].
  unfold on_server in Es. destruct (j_destination job) as [s bid|p] eqn:Ed; [|discriminate].
  apply str_eqb_eq in Es as ->. exact (Hd sid bid eq_refl o Hex Hne Hos g Hgo Hg).
Qed.

Lemma jobs_ok_upsert job jobs :
  validate_pbs_groups job jobs = Ok tt -> jobs_ok jobs -> jobs_ok (upsert job jobs).
Proof.
  intros Hv [Hi Hg].
  destruct (upsert_split job jobs) as [(a & x & b & -> & Hx & ->) | [-> Hf]].
  - unfold id_of, job_id in Hx. split; [exact (NoDup_map_middle j_id a x job b Hx Hi)|].
    intros sid. apply (add_job_groups sid a b job _ Hv).
    + intros o Hin. apply in_app_iff in Hin. split; [apply in_app_iff; cbn; tauto|].
      rewrite <- Hx. rewrite map_app in Hi. cbn in Hi. apply NoDup_app in Hi as (_ & Hd & Hb).
      apply NoDup_cons in Hb as [Hnx _]. rewrite list_elem_of_In in Hnx.
      intros E. destruct Hin as [Ha|Hb'].
      * apply (Hd (j_id o)); [apply list_elem_of_In, in_map, Ha|]. rewrite E. constructor.
      * apply Hnx. rewrite <- E. apply in_map, Hb'.
    + specialize (Hg sid). rewrite server_groups_app, server_groups_cons in Hg.
      rewrite server_groups_app. exact (NoDup_drop_middle _ _ _ Hg).
  - rewrite List.Forall_forall in Hf. split.
    + rewrite map_app. apply NoDup_app. split; [exact Hi|]. split; [|apply NoDup_singleton].
      intros i Hin Hin'. apply list_elem_of_In in Hin. apply list_elem_of_singleton in Hin' as ->.
      apply in_map_iff in Hin as (o & Ho & Hin). exact (Hf o Hin Ho).
    + intros sid. apply (add_job_groups sid jobs [] job _ Hv); rewrite app_nil_r; [|apply Hg].
      intros o Hin. split; [exact Hin | exact (Hf o Hin)].
Qed.

Lemma NoDup_map_filter {A B} (f : A -> B) p l : NoDup (map f l) -> NoDup (map f (List.filter p l)).
Proof.
  induction l as [|x l IH]; cbn; [auto|]. rewrite NoDup_cons. intros [Hx Hl].
  destruct (p x); [|auto]. cbn. apply NoDup_cons. split; [|auto].
  rewrite list_elem_of_In in Hx |- *. intros Hin. apply Hx.
  apply in_map_iff in Hin as (y & <- & Hy). apply filter_In in Hy as [Hy _]. now apply in_map.
Qed.

Lemma jobs_ok_filter p jobs : jobs_ok jobs -> jobs_ok (List.filter p jobs).
Proof.
  intros [Hi Hg]. split; [now apply NoDup_map_filter|]. intros sid. specialize (Hg sid). clear Hi.
  induction jobs as [|j jobs IH]; [exact Hg|]. rewrite server_groups_cons in Hg.
  pose proof Hg as Hall. apply NoDup_app in Hg as (Hj & Hd & Hr). cbn. destruct (p j); [|auto].
  rewrite server_groups_cons. apply NoDup_app. split; [exact Hj|]. split; [|auto].
  intros g Hg Hin. apply (Hd g Hg). apply list_elem_of_In. apply list_elem_of_In in Hin.
  apply server_groups_In in Hin as (o & Ho & Hs & Hgo). apply filter_In in Ho as [Ho _].
  apply server_groups_In. eauto.
Qed.

(** Recording a run changes no id and no group. *)
Lemma jobs_ok_update id t st jobs :
  jobs_ok jobs -> jobs_ok (update_first id (with_run t st) jobs).
Proof.
  assert (Hi : map j_id (update_first id (with_run t st) jobs) = map j_id jobs).
  { induction jobs as [|j js IH]; cbn; [reflexivity|]. destruct (has_id id j); cbn; [reflexivity|].
    now rewrite IH. }
  assert (Hg : forall sid, server_groups sid (update_first id (with_run t st) jobs)
                           = server_groups sid jobs).
  { clear Hi. intros sid. induction jobs as [|j js IH]; [reflexivity|]. cbn.
    destruct (has_id id j); rewrite !server_groups_cons; [reflexivity|].
    now rewrite IH. }
  unfold jobs_ok. rewrite Hi. intros [Hn Hs]. split; [exact Hn|]. intros sid. now rewrite Hg.
Qed.

(** ** Lemmas: the world *)

(** The cached signing key is the one the credential store has. *)
Definition key_ok `{Base64} (w : world) : Prop :=
  forall k, w_key_cache w = Some k ->
  exists b64, w_secrets w !! HMAC_KEY_NAME = Some b64 /\ b64_decode b64 = Ok k.

(** What signing leaves as it was. *)
Definition same_disk (w w' : world) : Prop :=
  w_files w' = w_files w /\ w_read_error w' = w_read_error w
  /\ w_cred_error w' = w_cred_error w.

Section world_lemmas.
Context `{Base64Laws} `{HmacLib} `{EnvelopeLaws}.

Lemma signing_key_spec w r w' :
  key_ok w -> signing_key w = (r, w') ->
  same_disk w w' /\ key_ok w' /\ (forall k, r = Ok k -> w_key_cache w' = Some k)
  /\ (forall k, w_key_cache w = Some k -> r = Ok k /\ w' = w).
Proof.
  intros Hk. unfold signing_key. destruct (w_key_cache w) as [k|] eqn:Ec.
  { intros [= <- <-]. split_and!; auto; try (intros ? [= <-]; auto). by repeat split. }
  unfold mbind, io_bind, read_key, secrets_get, mbind, io_bind.
  destruct (w_cred_error w) as [e|] eqn:Ee.
  { intros [= <- <-]. split_and!; [by repeat split | exact Hk | discriminate | discriminate]. }
  destruct (w_secrets w !! HMAC_KEY_NAME) as [b64|] eqn:Es.
  - unfold io_lift. destruct (b64_decode b64) as [k|e] eqn:Ed; intros [= <- <-].
    + split_and!; [by repeat split | | cbn; congruence | discriminate].
      intros k' [= <-]. exists b64. auto.
    + split_and!; [by repeat split | exact Hk | discriminate | discriminate].
  - unfold fresh_key. destruct (map_err show_error (random_key (w_random w))) as [k|e].
    + unfold secrets_set. rewrite Ee. intros [= <- <-].
      split_and!; [by repeat split | | cbn; congruence | discriminate].
      intros k' [= <-]. exists (b64_encode k). cbn. rewrite lookup_insert_eq. split; [reflexivity|].
      apply b64_inverse.
    + intros [= <- <-]. split_and!; [by repeat split | exact Hk | discriminate | discriminate].
Qed.

Lemma with_extension_ne name ext : has_char 46 ext = true -> with_extension name ext <> name.
Proof.
  intros He. unfold with_extension. destruct (rsplit_once 46 name) as [[stem x]|] eqn:E.
  - apply rsplit_once_some in E as [-> Hx]. destruct (is_empty stem) eqn:Es.
    + intros E. apply (f_equal length) in E. rewrite !length_app in E.
      assert (length (L ".") = 1%nat) by reflexivity. lia.
    + intros E. apply app_inv_head in E. injection E as E. congruence.
  - intros E'. apply (f_equal length) in E'. rewrite !length_app in E'.
    assert (length (L ".") = 1%nat) by reflexivity. lia.
Qed.

(** A temporary name of the process. *)
Definition is_tmp (path q : str) : Prop :=
  exists pid n, q = with_extension path (L "tmp." ++ dec pid ++ L "." ++ dec n).

Lemma tmp_ne path q : is_tmp path q -> q <> path.
Proof. intros (pid & n & ->). apply with_extension_ne. reflexivity. Qed.

(** The file is replaced as a whole, or left alone; no other file but the
    process's temporary ones changes. *)
Lemma write_atomic_spec path b w r w' :
  write_atomic path b w = (r, w') ->
  w_files w' !! path = (if is_ok r then Some b else w_files w !! path)
  /\ (forall q, q <> path -> ~ is_tmp path q -> w_files w' !! q = w_files w !! q)
  /\ w_secrets w' = w_secrets w /\ w_key_cache w' = w_key_cache w
  /\ w_read_error w' = w_read_error w /\ w_cred_error w' = w_cred_error w.
Proof.
  unfold write_atomic. destruct (w_mkdir_error w); [intros [= <- <-]; split_and!; auto|]. cbn zeta.
  set (tmp := with_extension path _).
  assert (Ht : is_tmp path tmp) by (eexists _, _; reflexivity).
  pose proof (tmp_ne path tmp Ht) as Hne.
  cbn. destruct (w_tmp_error w); [intros [= <- <-]; split_and!; auto|].
  destruct (w_rename_error w); intros [= <- <-]; cbn.
  - rewrite lookup_delete_ne, lookup_insert_ne by exact Hne. split; [reflexivity|]. split; [|auto].
    intros q Hq Hnt. assert (tmp <> q) by (intros <-; contradiction).
    now rewrite lookup_delete_ne, lookup_insert_ne.
  - rewrite lookup_insert_eq. split; [reflexivity|]. split; [|auto].
    intros q Hq Hnt. assert (tmp <> q) by (intros <-; contradiction).
    rewrite lookup_insert_ne by congruence. now rewrite lookup_delete_ne, lookup_insert_ne.
Qed.

End world_lemmas.

Section store_lemmas.
Context `{Base64Laws} `{HmacLib} `{EnvelopeLaws}.
Context {T : Type} `{HasId T} `{ListLaws T}.

Lemma serialize_spec (items : list T) w r w' :
  key_ok w -> signed_serialize items w = (r, w') ->
  same_disk w w' /\ key_ok w'
  /\ forall b, r = Ok b -> exists k data, w_key_cache w' = Some k /\ json_pretty items = Ok data
     /\ env_parse b = Some {| env_mac := b64_encode (tag k data); env_data := data |}.
Proof.
  intros Hk. unfold signed_serialize, mbind, io_bind, io_lift.
  destruct (json_pretty items) as [data|e].
  2:{ intros [= <- <-]. split_and!; [by repeat split | exact Hk | discriminate]. }
  destruct (signing_key w) as [rk w1] eqn:Es.
  destruct (signing_key_spec w rk w1 Hk Es) as (Hd & Hk1 & Hc & _).
  destruct rk as [k|e]; intros [= <- <-]; split_and!; auto; try discriminate.
  intros b Hb. exists k, data. split_and!; eauto.
Qed.

(** A key is read back from the credential store after a restart. *)
Lemma key_after_restart w k :
  key_ok w -> w_key_cache w = Some k -> w_cred_error w = None ->
  forall pid, exists w', signing_key (restart pid w) = (Ok k, w').
Proof.
  intros Hk Hc He pid. destruct (Hk k Hc) as (b64 & Hs & Hd). eexists.
  unfold signing_key, read_key, mbind, io_bind, secrets_get, io_lift. cbn. rewrite He, Hs, Hd.
  reflexivity.
Qed.

Lemma persist_spec (s : JsonStore T) w r w' :
  js_load_error s = None -> key_ok w -> js_persist s w = (r, w') ->
  key_ok w' /\ w_read_error w' = w_read_error w /\ w_cred_error w' = w_cred_error w
  /\ (forall q, q <> js_path s -> ~ is_tmp (js_path s) q -> w_files w' !! q = w_files w !! q)
  /\ match r with
     | Err _ => w_files w' !! js_path s = w_files w !! js_path s
     | Ok _ => w_read_error w = None -> w_cred_error w = None -> forall pid,
         (js_with_path (T := T) (js_path s) (restart pid w')).1 = s
     end.
Proof.
  intros Hw Hk. unfold js_persist, mbind, io_bind, io_lift, js_ensure_writable. rewrite Hw.
  destruct (signed_serialize (js_items s) w) as [rs w1] eqn:Es.
  destruct (serialize_spec _ _ _ _ Hk Es) as ((Hf & Hr & Hc) & Hk1 & Hb).
  destruct rs as [b|e].
  2:{ intros [= <- <-]. split_and!; auto; [intros q _ _|]; now rewrite Hf. }
  intros Ew. destruct (write_atomic_spec _ _ _ _ _ Ew) as (Hp & Hq & Hs & Hkc & Hre & Hce).
  destruct (Hb b eq_refl) as (k & data & Hcache & Hdata & Henv).
  split_and!; try congruence.
  - intros k' Hk'. rewrite Hs. apply Hk1. congruence.
  - intros q Hq1 Hq2. rewrite <- Hf. auto.
  - destruct r as [[]|e]; [|cbn in Hp; congruence]. intros Hre0 Hce0 pid.
    destruct (key_after_restart w' k ltac:(intros k' Hk'; rewrite Hs; apply Hk1; congruence)
                ltac:(congruence) ltac:(congruence) pid) as [w2 Hk2].
    unfold js_with_path, load_list. cbn [restart w_read_error w_files]. rewrite Hre, Hr, Hre0, Hp.
    cbn [is_ok]. unfold signed_deserialize. rewrite Henv.
    unfold mbind, io_bind, io_lift. rewrite Hk2. cbn [env_mac env_data]. rewrite b64_inverse. cbn.
    rewrite bool_decide_true by reflexivity. cbn. rewrite (list_inverse _ _ Hdata).
    destruct s; cbn in *. now subst.
Qed.

Lemma update_spec (f : list T -> list T) s w r s' w' :
  key_ok w -> js_update f s w = (r, s', w') ->
  key_ok w' /\ js_path s' = js_path s /\ js_load_error s' = js_load_error s
  /\ w_read_error w' = w_read_error w /\ w_cred_error w' = w_cred_error w
  /\ (forall q, q <> js_path s -> ~ is_tmp (js_path s) q -> w_files w' !! q = w_files w !! q)
  /\ match js_load_error s with
     | Some e => r = Err e /\ s' = s /\ w' = w
     | None => js_items s' = f (js_items s)
         /\ match r with
            | Err _ => w_files w' !! js_path s = w_files w !! js_path s
            | Ok _ => w_read_error w = None -> w_cred_error w = None -> forall pid,
                (js_with_path (T := T) (js_path s) (restart pid w')).1 = s'
            end
     end.
Proof.
  intros Hk. unfold js_update, js_ensure_writable. destruct (js_load_error s) as [e|] eqn:El.
  { intros [= <- <- <-]. split_and!; auto. }
  destruct (js_persist _ w) as [rp w1] eqn:Ep. intros [= <- <- <-].
  destruct (persist_spec (with_items (f (js_items s)) s) w rp w1 El Hk Ep)
    as (? & ? & ? & ? & ?). split_and!; auto.
Qed.

End store_lemmas.

(** ** Lemmas: requests *)

(** How an operation on a store may change it and the world: a refused store
    and its file stay, and only this store's files are written. *)
Definition store_step {T} `{Base64} (s s' : JsonStore T) (w w' : world) : Prop :=
  key_ok w' /\ js_path s' = js_path s /\ js_load_error s' = js_load_error s
  /\ (forall q, q <> js_path s -> ~ is_tmp (js_path s) q -> w_files w' !! q = w_files w !! q)
  /\ (js_load_error s <> None -> s' = s /\ w_files w' = w_files w).

Definition is_hmac_key (k : str) : bool := str_eqb k HMAC_KEY_NAME.

Section request_lemmas.
Context `{Base64Laws} `{HmacLib} `{EnvelopeLaws}.

Lemma key_ok_secrets k m w :
  is_hmac_key k = false -> key_ok w -> (forall q, q <> k -> m !! q = w_secrets w !! q) ->
  key_ok (set_secrets m w).
Proof.
  intros Hk Hw Hm c Hc. destruct (Hw c Hc) as (b & Hb & Hd). exists b. cbn. split; [|exact Hd].
  rewrite Hm; [exact Hb|]. intros E. rewrite <- E in Hk. discriminate.
Qed.

Lemma secrets_set_step k v w :
  is_hmac_key k = false -> key_ok w ->
  key_ok (secrets_set k v w).2 /\ w_files (secrets_set k v w).2 = w_files w.
Proof.
  intros Hk Hw. unfold secrets_set. destruct (w_cred_error w); cbn; [auto|]. split; [|reflexivity].
  apply (key_ok_secrets k); auto. intros q Hq. now rewrite lookup_insert_ne.
Qed.

Lemma secrets_delete_step k w :
  is_hmac_key k = false -> key_ok w ->
  key_ok (secrets_delete k w).2 /\ w_files (secrets_delete k w).2 = w_files w.
Proof.
  intros Hk Hw. unfold secrets_delete. destruct (w_cred_error w); cbn; [auto|]. split; [|reflexivity].
  apply (key_ok_secrets k); auto. intros q Hq. now rewrite lookup_delete_ne.
Qed.

Lemma secrets_get_world k w r w' : secrets_get k w = (r, w') -> w' = w.
Proof. unfold secrets_get. destruct (w_cred_error w); congruence. Qed.

Context {T : Type} `{HasId T} `{ListLaws T}.

Lemma update_step f (s : JsonStore T) w r s' w' :
  key_ok w -> js_update f s w = (r, s', w') -> store_step s s' w w'.
Proof.
  intros Hk E. destruct (update_spec f s w r s' w' Hk E) as (? & ? & ? & _ & _ & ? & Hm).
  split_and!; auto. intros Hn. destruct (js_load_error s); [|contradiction].
  destruct Hm as (_ & -> & ->). auto.
Qed.

Lemma save_step key secret item (s : JsonStore T) w r s' w' :
  is_hmac_key key = false -> key_ok w -> save_with_secret key secret item s w = (r, s', w') ->
  store_step s s' w w'.
Proof.
  intros Hh Hk. unfold save_with_secret, js_ensure_writable.
  destruct (js_load_error s) as [e|] eqn:El; [intros [= <- <- <-]; split_and!; auto|].
  assert (Hs : forall w1, key_ok w1 -> w_files w1 = w_files w ->
    store_step s s w w1 /\ (js_save item s w1 = (r, s', w') -> store_step s s' w w')).
  { intros w1 Hk1 Hf. split.
    - split_and!; auto. intros q _ _. now rewrite Hf.
    - intros E. apply update_step in E as (? & ? & ? & Hq & _); [|exact Hk1]. split_and!; auto.
      + intros q Hq1 Hq2. rewrite <- Hf. auto.
      + congruence. }
  destruct secret as [x|]; [|intros E; now apply (Hs w)].
  destruct (secrets_set_step key x w Hh Hk) as [Hk1 Hf].
  destruct (secrets_set key x w) as [[[]|e] w1]; cbn in *; [now apply Hs|].
  intros [= <- <- <-]. now apply Hs.
Qed.

Lemma delete_step key id (s : JsonStore T) w r s' w' :
  is_hmac_key key = false -> key_ok w -> delete_with_secret key id s w = (r, s', w') ->
  store_step s s' w w'.
Proof.
  intros Hh Hk. unfold delete_with_secret, js_delete.
  destruct (js_update _ s w) as [[r1 s1] w1] eqn:E. intros [= <- <- <-].
  apply update_step in E as (Hk1 & ? & ? & Hq & Hn); [|exact Hk].
  destruct r1; [|split_and!; auto].
  destruct (secrets_delete_step key w1 Hh Hk1) as [Hk2 Hf]. split_and!; auto.
  - intros q Hq1 Hq2. rewrite Hf. auto.
  - intros Hl. rewrite Hf. auto.
Qed.

End request_lemmas.

(** ** The whole configuration *)

Definition JOBS : str := L "jobs.json".
Definition SQL : str := L "sql-connections.json".
Definition PBS : str := L "pbs-servers.json".

Definition config_inv `{Base64} (c : config_state) : Prop :=
  js_path (c_jobs c) = JOBS /\ js_path (c_sql c) = SQL /\ js_path (c_pbs c) = PBS
  /\ key_ok (c_world c) /\ jobs_ok (js_items (c_jobs c)).

(** Stores that were refused at start, and their files, are as they were. *)
Definition refused_same {T} (path : str) (s s' : JsonStore T) (w w' : world) : Prop :=
  js_load_error s' = js_load_error s
  /\ (js_load_error s <> None -> s' = s /\ w_files w' !! path = w_files w !! path).

Definition refused_kept (c c' : config_state) : Prop :=
  refused_same JOBS (c_jobs c) (c_jobs c') (c_world c) (c_world c')
  /\ refused_same SQL (c_sql c) (c_sql c') (c_world c) (c_world c')
  /\ refused_same PBS (c_pbs c) (c_pbs c') (c_world c) (c_world c').

Lemma refused_kept_trans a b c : refused_kept a b -> refused_kept b c -> refused_kept a c.
Proof.
  assert (Ht : forall T p (x y z : JsonStore T) u v w,
    refused_same p x y u v -> refused_same p y z v w -> refused_same p x z u w).
  { intros T p x y z u v w [E1 H1] [E2 H2]. split; [congruence|]. intros Hn.
    destruct (H1 Hn) as [-> F1]. destruct (H2 Hn) as [-> F2]. split; congruence. }
  intros (? & ? & ?) (? & ? & ?). unfold refused_kept. eauto 10.
Qed.

Lemma refused_other {T U} p (s s' : JsonStore T) (o : JsonStore U) w w' `{Base64} :
  store_step s s' w w' -> p <> js_path s -> ~ is_tmp (js_path s) p -> refused_same p o o w w'.
Proof. intros (_ & _ & _ & Hq & _) H1 H2. split; [reflexivity|]. intros _. auto. Qed.

Lemma refused_own {T} (s s' : JsonStore T) w w' `{Base64} :
  store_step s s' w w' -> refused_same (js_path s) s s' w w'.
Proof. intros (_ & _ & He & _ & Hn). split; [exact He|]. intros Hl. destruct (Hn Hl). split; congruence. Qed.

Lemma refused_files {T} p (s : JsonStore T) w w' : w_files w' = w_files w -> refused_same p s s w w'.
Proof. intros E. split; [reflexivity|]. intros _. now rewrite E. Qed.

(** Names of files of one store are not another's. *)
Lemma other_tmp p q :
  In (p, q) [(JOBS, SQL); (JOBS, PBS); (SQL, JOBS); (SQL, PBS); (PBS, JOBS); (PBS, SQL)] ->
  p <> q /\ ~ is_tmp q p.
Proof.
  intros Hin. cbn in Hin.
  repeat destruct Hin as [[= <- <-]|Hin]; try contradiction; (split; [discriminate|]);
    intros (pid & n & E); cbv in E; discriminate E.
Qed.

Section config.
Context `{Base64Laws} `{HmacLib} `{EnvelopeLaws} `{HashLib}.
Context `{!ListJson Job, !ListLaws Job, !ListJson SqlConnection, !ListLaws SqlConnection,
          !ListJson PbsServer, !ListLaws PbsServer}.

Definition run_requests (rs : list Request) (c : config_state) : config_state :=
  fold_left (fun c r => (handle r c).2) rs c.

(** What each kind of request may touch. *)
Lemma jobs_request c jobs' w' :
  config_inv c -> store_step (c_jobs c) jobs' (c_world c) w' -> jobs_ok (js_items jobs') ->
  let c' := {| c_jobs := jobs'; c_sql := c_sql c; c_pbs := c_pbs c; c_world := w' |} in
  config_inv c' /\ refused_kept c c'.
Proof.
  intros (Hj & Hs & Hp & Hk & Ho) Hst Hok. pose proof Hst as (Hk' & Hpath & _). split.
  - split_and!; auto. cbn. congruence.
  - split_and!; cbn.
    + rewrite <- Hj. exact (refused_own _ _ _ _ Hst).
    + eapply refused_other; [exact Hst | rewrite Hj; apply other_tmp; cbn; tauto..].
    + eapply refused_other; [exact Hst | rewrite Hj; apply other_tmp; cbn; tauto..].
Qed.

Lemma sql_request c sql' w' :
  config_inv c -> store_step (c_sql c) sql' (c_world c) w' ->
  let c' := {| c_jobs := c_jobs c; c_sql := sql'; c_pbs := c_pbs c; c_world := w' |} in
  config_inv c' /\ refused_kept c c'.
Proof.
  intros (Hj & Hs & Hp & Hk & Ho) Hst. pose proof Hst as (Hk' & Hpath & _). split.
  - split_and!; auto. cbn. congruence.
  - split_and!; cbn.
    + eapply refused_other; [exact Hst | rewrite Hs; apply other_tmp; cbn; tauto..].
    + rewrite <- Hs. exact (refused_own _ _ _ _ Hst).
    + eapply refused_other; [exact Hst | rewrite Hs; apply other_tmp; cbn; tauto..].
Qed.

Lemma pbs_request c pbs' w' :
  config_inv c -> store_step (c_pbs c) pbs' (c_world c) w' ->
  let c' := {| c_jobs := c_jobs c; c_sql := c_sql c; c_pbs := pbs'; c_world := w' |} in
  config_inv c' /\ refused_kept c c'.
Proof.
  intros (Hj & Hs & Hp & Hk & Ho) Hst. pose proof Hst as (Hk' & Hpath & _). split.
  - split_and!; auto. cbn. congruence.
  - split_and!; cbn.
    + eapply refused_other; [exact Hst | rewrite Hp; apply other_tmp; cbn; tauto..].
    + eapply refused_other; [exact Hst | rewrite Hp; apply other_tmp; cbn; tauto..].
    + rewrite <- Hp. exact (refused_own _ _ _ _ Hst).
Qed.

Lemma world_request c w' :
  config_inv c -> key_ok w' -> w_files w' = w_files (c_world c) ->
  let c' := {| c_jobs := c_jobs c; c_sql := c_sql c; c_pbs := c_pbs c; c_world := w' |} in
  config_inv c' /\ refused_kept c c'.
Proof.
  intros (Hj & Hs & Hp & Hk & Ho) Hk' Hf. split; [split_and!; auto|].
  split_and!; cbn; now apply refused_files.
Qed.

Lemma enc_not_hmac id : is_hmac_key (enc_secret_key id) = false.
Proof. unfold is_hmac_key, str_eqb. apply bool_decide_false. discriminate. Qed.
Lemma sql_not_hmac id : is_hmac_key (sql_secret_key id) = false.
Proof. unfold is_hmac_key, str_eqb. apply bool_decide_false. discriminate. Qed.
Lemma pbs_not_hmac id : is_hmac_key (pbs_secret_key id) = false.
Proof. unfold is_hmac_key, str_eqb. apply bool_decide_false. discriminate. Qed.

(** The key operations write nothing but the job's key. *)
Lemma generate_step id w :
  key_ok w -> key_ok (generate id w).2 /\ w_files (generate id w).2 = w_files w.
Proof.
  intros Hk. unfold generate, mbind, io_bind. destruct (secrets_get _ w) as [r w1] eqn:Eg.
  apply secrets_get_world in Eg as ->. destruct r as [[b|]|e]; cbn; auto.
  unfold fresh_key. destruct (map_err _ _) as [k|e]; cbn; auto. unfold enc_store.
  pose proof (secrets_set_step (enc_secret_key id) (b64_encode k) w (enc_not_hmac id) Hk) as Hs.
  destruct (secrets_set _ _ w) as [[[]|e] w2]; exact Hs.
Qed.

Lemma import_step id key w :
  key_ok w -> key_ok (import id key w).2 /\ w_files (import id key w).2 = w_files w.
Proof.
  intros Hk. unfold import, mbind, io_bind, io_lift. destruct (decode_key key) as [k|e]; cbn; auto.
  unfold enc_store.
  pose proof (secrets_set_step (enc_secret_key id) (b64_encode k) w (enc_not_hmac id) Hk) as Hs.
  destruct (secrets_set _ _ w) as [[[]|e] w2]; exact Hs.
Qed.

Lemma enc_get_world id w : (enc_get id w).2 = w.
Proof.
  unfold enc_get, mbind, io_bind. destruct (secrets_get _ w) as [r w1] eqn:Eg.
  apply secrets_get_world in Eg as ->. destruct r as [[b|]|e]; cbn; auto.
  unfold io_lift. now destruct (decode_key b).
Qed.

Lemma handle_step r c : config_inv c -> config_inv (handle r c).2 /\ refused_kept c (handle r c).2.
Proof.
  intros Hi. assert (Hid : config_inv c /\ refused_kept c c)
    by (split; [exact Hi | split_and!; now apply refused_files]).
  pose proof Hi as (_ & _ & _ & Hk & Ho).
  destruct c as [jobs sql pbs w]. cbn in Hk, Ho.
  destruct r as [|job|id| |conn sec|id| |srv sec|id|id|id key|id|id]; cbn; try exact Hid;
    unfold save_job_request, delete_job_request, save_sql_request, delete_sql_request,
      save_pbs_request, delete_pbs_request, get_key_request, clear_key_request, with_world; cbn.
  - destruct (_ ← validate_job job; _) as [u|e] eqn:Ev; [|exact Hid]. inv_ok. destruct u.
    destruct (save_job job jobs w) as [[res jobs'] w'] eqn:E. cbn.
    pose proof (update_spec _ jobs w res jobs' w' Hk E) as (_ & _ & _ & _ & _ & _ & Hm).
    apply update_step in E; [|exact Hk]. apply (jobs_request _ _ _ Hi E).
    destruct (js_load_error jobs); [destruct Hm as (_ & -> & _); exact Ho|].
    destruct Hm as [-> _]. now apply jobs_ok_upsert.
  - pose proof (secrets_delete_step (enc_secret_key id) w (enc_not_hmac id) Hk) as [Hk1 Hf].
    unfold enc_clear. set (w1 := (secrets_delete _ w).2) in *.
    destruct (job_delete id jobs w1) as [[res jobs'] w'] eqn:E. cbn.
    pose proof (update_spec _ jobs w1 res jobs' w' Hk1 E) as (_ & _ & _ & _ & _ & _ & Hm).
    apply update_step in E as (? & ? & ? & Hq & Hn); [|exact Hk1]. apply (jobs_request _ _ _ Hi).
    + split_and!; auto; cbn; rewrite <- ?Hf; auto.
    + destruct (js_load_error jobs); [destruct Hm as (_ & -> & _); exact Ho|].
      destruct Hm as [-> _]. now apply jobs_ok_filter.
  - destruct (save_with_secret _ sec conn sql w) as [[res s'] w'] eqn:E. cbn.
    apply (sql_request _ _ _ Hi). exact (save_step _ _ _ _ _ _ _ _ (sql_not_hmac _) Hk E).
  - destruct (delete_with_secret _ id sql w) as [[res s'] w'] eqn:E. cbn.
    apply (sql_request _ _ _ Hi). exact (delete_step _ _ _ _ _ _ _ (sql_not_hmac _) Hk E).
  - destruct (save_with_secret _ sec srv pbs w) as [[res s'] w'] eqn:E. cbn.
    apply (pbs_request _ _ _ Hi). exact (save_step _ _ _ _ _ _ _ _ (pbs_not_hmac _) Hk E).
  - destruct (delete_with_secret _ id pbs w) as [[res s'] w'] eqn:E. cbn.
    apply (pbs_request _ _ _ Hi). exact (delete_step _ _ _ _ _ _ _ (pbs_not_hmac _) Hk E).
  - pose proof (generate_step id w Hk) as [? ?]. destruct (generate id w) as [res w'].
    now apply (world_request _ _ Hi).
  - pose proof (import_step id key w Hk) as [? ?]. destruct (import id key w) as [res w'].
    now apply (world_request _ _ Hi).
  - pose proof (enc_get_world id w) as E. destruct (enc_get id w) as [res w']. cbn in *. subst w'.
    exact Hid.
  - pose proof (secrets_delete_step (enc_secret_key id) w (enc_not_hmac id) Hk) as [? ?].
    unfold enc_clear. destruct (secrets_delete _ w) as [res w']. now apply (world_request _ _ Hi).
Qed.

Lemma run_requests_inv rs : forall c,
  config_inv c -> config_inv (run_requests rs c) /\ refused_kept c (run_requests rs c).
Proof.
  induction rs as [|r rs IH]; intros c Hi; cbn.
  - split; [exact Hi | split_and!; now apply refused_files].
  - destruct (handle_step r c Hi) as [Hc1 Hc2]. destruct (IH _ Hc1) as [Hc3 Hc4].
    split; [exact Hc3 | exact (refused_kept_trans _ _ _ Hc2 Hc4)].
Qed.

End config.

(** ** Instances for the witnesses *)

Module SampleStore.
Import SampleJson.

#[export] Instance Schedule_eq_dec : EqDecision Schedule.
Proof. solve_decision. Defined.
#[export] Instance SqlProtection_eq_dec : EqDecision SqlProtection.
Proof. solve_decision. Defined.
#[export] Instance JobSource_eq_dec : EqDecision JobSource.
Proof. solve_decision. Defined.
#[export] Instance JobDestination_eq_dec : EqDecision JobDestination.
Proof. solve_decision. Defined.
#[export] Instance Job_eq_dec : EqDecision Job.
Proof. solve_decision. Defined.
#[export] Instance SqlAuth_eq_dec : EqDecision SqlAuth.
Proof. solve_decision. Defined.
#[export] Instance SqlConnection_eq_dec : EqDecision SqlConnection.
Proof. solve_decision. Defined.
#[export] Instance PbsServer_eq_dec : EqDecision PbsServer.
Proof. solve_decision. Defined.

#[export] Instance Schedule_countable : Countable Schedule.
Proof.
  refine (inj_countable' (fun s => match s with
      | Manual => (0, [], 0, 0) | Interval m => (1, [], m, 0) | Daily h m => (2, [], h, m)
      | Weekly d h m => (3, d, h, m) | Monthly d h m => (4, [d], h, m) end)
    (fun '(k, d, h, m) => if k =? 0 then Manual else if k =? 1 then Interval h
      else if k =? 2 then Daily h m else if k =? 3 then Weekly d h m
      else Monthly (default 0 (head d)) h m) _).
  by intros [].
Defined.
#[export] Instance SqlProtection_countable : Countable SqlProtection.
Proof.
  refine (inj_countable' (fun p => match p with
      | PointInTime s i => (0, s, i) | DailyRestorePoints s => (1, s, 0)
      | SecondaryCopy s => (2, s, 0) end)
    (fun '(k, s, i) => if k =? 0 then PointInTime s i else if k =? 1 then DailyRestorePoints s
      else SecondaryCopy s) _).
  by intros [].
Defined.
#[export] Instance JobSource_countable : Countable JobSource.
Proof.
  refine (inj_countable' (fun p => match p with
      | Files a b c => inl (a, b, c) | Sql a b c => inr (a, b, c) end)
    (fun x => match x with inl (a, b, c) => Files a b c | inr (a, b, c) => Sql a b c end) _).
  by intros [].
Defined.
#[export] Instance JobDestination_countable : Countable JobDestination.
Proof.
  refine (inj_countable' (fun p => match p with Pbs a b => inl (a, b) | Folder a => inr a end)
    (fun x => match x with inl (a, b) => Pbs a b | inr a => Folder a end) _).
  by intros [].
Defined.
#[export] Instance Job_countable : Countable Job.
Proof.
  refine (inj_countable' (fun j => (j_id j, j_name j, j_source j, j_destination j,
      (j_schedule j, j_last_run j, j_last_status j, j_encrypted j, j_compress j)))
    (fun '(a, b, c, d, (e, f, g, h, i)) => {| j_id := a; j_name := b; j_source := c;
       j_destination := d; j_schedule := e; j_last_run := f; j_last_status := g;
       j_encrypted := h; j_compress := i |}) _).
  by intros [].
Defined.
#[export] Instance SqlAuth_countable : Countable SqlAuth.
Proof.
  refine (inj_countable' (fun p => match p with
      | Integrated => (0, []) | WindowsAccount u => (1, u) | SqlLogin u => (2, u)
      | AzureAd u => (3, u) end)
    (fun '(k, u) => if k =? 0 then Integrated else if k =? 1 then WindowsAccount u
      else if k =? 2 then SqlLogin u else AzureAd u) _).
  by intros [].
Defined.
#[export] Instance SqlConnection_countable : Countable SqlConnection.
Proof.
  refine (inj_countable' (fun c => (sc_id c, sc_name c, sc_server c, sc_port c, sc_auth c,
      sc_failover_cluster c, sc_relay_agent c))
    (fun '(a, b, c, d, e, f, g) => {| sc_id := a; sc_name := b; sc_server := c; sc_port := d;
       sc_auth := e; sc_failover_cluster := f; sc_relay_agent := g |}) _).
  by intros [].
Defined.
#[export] Instance PbsServer_countable : Countable PbsServer.
Proof.
  refine (inj_countable' (fun c => (ps_id c, ps_name c, ps_repository c, ps_fingerprint c))
    (fun '(a, b, c, d) => {| ps_id := a; ps_name := b; ps_repository := c;
       ps_fingerprint := d |}) _).
  by intros [].
Defined.

Definition unjson {T} `{Countable T} (b : bytes) : result str T :=
  match countable.decode (bytes_pos b) with Some l => Ok l | None => Err (L "expected value") end.

#[export] Instance list_json {T} `{Countable T} : ListJson T := {|
  json_pretty l := Ok (pos_bytes (encode l)); json_parse := unjson |}.

#[export] Instance list_laws {T} `{Countable T} : ListLaws T.
Proof.
  intros l b [= <-]. change (unjson (pos_bytes (encode l)) = Ok l). unfold unjson.
  rewrite pos_bytes_inv. generalize (decode_encode l). destruct (countable.decode _); congruence.
Qed.

Definition env_pack (e : Envelope) : list Z * list Z := (env_mac e, map u8_Z (env_data e)).
Definition env_unpack (x : list Z * list Z) : Envelope :=
  {| env_mac := x.1; env_data := octets (x.2) |}.
Definition parse_env (b : bytes) : option Envelope := env_unpack <$> countable.decode (bytes_pos b).

#[export] Instance env_json : EnvelopeJson := {|
  env_pretty e := Ok (pos_bytes (encode (env_pack e))); env_parse := parse_env |}.

#[export] Instance env_laws : EnvelopeLaws.
Proof.
  intros e b [= <-]. change (parse_env (pos_bytes (encode (env_pack e))) = Some e).
  unfold parse_env. rewrite pos_bytes_inv. generalize (decode_encode (env_pack e)).
  destruct (countable.decode _) as [x|]; intros [= ->]. destruct e as [m d].
  unfold env_unpack, env_pack, octets. cbn. do 2 f_equal. rewrite map_map.
  rewrite <- (map_id d) at 2. apply map_ext, Z_u8_Z.
Qed.

#[export] Instance b64 : Base64 := {|
  b64_encode := hex;
  b64_decode s := match unhex s with Some b => Ok b | None => Err (L "Invalid symbol") end |}.

Lemma hex_no_space b : Forall (fun c => is_whitespace c = false) (hex b).
Proof.
  unfold hex. apply List.Forall_concat, Forall_map, List.Forall_forall. intros x _.
  assert (Hd : forall n, is_whitespace (hex_digit n) = false \/ n < 0 \/ 16 <= n).
  { intros n. unfold hex_digit, is_whitespace. destruct (n <? 10) eqn:E; lia. }
  pose proof (u8_Z_range x) as Hx.
  assert (0 <= u8_Z x / 16 < 16) by (Z.to_euclidean_division_equations; lia).
  pose proof (Z.mod_pos_bound (u8_Z x) 16 ltac:(lia)).
  apply List.Forall_cons; [|apply List.Forall_cons; [|apply List.Forall_nil]].
  - destruct (Hd (u8_Z x / 16)) as [E|E]; [exact E | lia].
  - destruct (Hd (u8_Z x mod 16)) as [E|E]; [exact E | lia].
Qed.

#[export] Instance b64_laws : Base64Laws.
Proof.
  split.
  - intros b. cbn. now rewrite unhex_hex.
  - intros b. cbn. pose proof (hex_no_space b) as Hf. rewrite List.Forall_forall in Hf.
    apply trim_id; intros c Hc; apply Hf.
    + destruct (hex b); [discriminate|]. injection Hc as ->. now left.
    + apply list_elem_of_In. now apply last_Some_elem_of.
Qed.

#[export] Instance hmac : HmacLib := {| hmac_sha256 k d := Sample.pad_digest (k ++ d) |}.

Definition world0 : world :=
  {| w_files := ∅; w_read_error := None; w_mkdir_error := None; w_tmp_error := None;
     w_rename_error := None; w_pid := 7; w_seq := 0; w_secrets := ∅; w_cred_error := None;
     w_random := Ok (replicate 32 x2a); w_account := L "SYSTEM"; w_key_cache := None;
     w_key_created := false |}.

Definition store0 {T} (path : str) : JsonStore T :=
  {| js_path := path; js_items := []; js_load_error := None |}.

Definition config0 : config_state :=
  {| c_jobs := store0 JOBS; c_sql := store0 SQL; c_pbs := store0 PBS; c_world := world0 |}.

Definition refused0 : config_state :=
  {| c_jobs := {| js_path := JOBS; js_items := [];
                  js_load_error := Some (L "could not load jobs.json") |};
     c_sql := store0 SQL; c_pbs := store0 PBS;
     c_world := set_secrets {[ enc_secret_key (L "a") := L "00" ]}
                  (set_files {[ JOBS := bstr "tampered" ]} world0) |}.

Definition sql_job (id bid : str) (dbs : list str) : Job :=
  {| j_id := id; j_name := id;
     j_source := Sql (L "c") dbs (PointInTime (Daily 2 30) 15);
     j_destination := Pbs (L "s") bid; j_schedule := Manual; j_last_run := None;
     j_last_status := None; j_encrypted := true; j_compress := true |}.

Lemma config0_inv : config_inv config0.
Proof. split_and!; try reflexivity; [intros k; discriminate|]. repeat constructor. Qed.

Lemma refused0_inv : config_inv refused0.
Proof. split_and!; try reflexivity; [intros k; discriminate|]. repeat constructor. Qed.

End SampleStore.

(** ** Properties *)

Section properties.
Context `{Base64Laws} `{HmacLib} `{EnvelopeLaws} `{HashLib}.
Context `{!ListJson Job, !ListLaws Job, !ListJson SqlConnection, !ListLaws SqlConnection,
          !ListJson PbsServer, !ListLaws PbsServer}.

(** C15: under every sequence of requests the saved jobs keep distinct ids, and
    no two backups (of one job or of two) on a PBS server share a snapshot
    group. *)
Theorem saved_groups_distinct rs c sid :
  config_inv c ->
  let jobs := js_items (c_jobs (run_requests rs c)) in
  NoDup (map j_id jobs) /\ NoDup (server_groups sid jobs).
Proof.
  intros Hi. destruct (run_requests_inv rs c Hi) as [(_ & _ & _ & _ & Hn & Hg) _]. auto.
Qed.

(** A store whose file could not be loaded (corrupt, tampered with, or of
    another account) is never changed, in memory or on disk, whatever is
    requested: the file survives for recovery. *)
Theorem refused_store_kept rs c : config_inv c -> refused_kept c (run_requests rs c).
Proof. intros Hi. apply run_requests_inv, Hi. Qed.

Lemma get_upsert (job : Job) jobs id :
  find (has_id id) (upsert job jobs)
  = if str_eqb id (j_id job) then Some job else find (has_id id) jobs.
Proof.
  induction jobs as [|j jobs IH]; cbn.
  - unfold has_id. change (id_of job) with (j_id job).
    destruct (str_eqb id (j_id job)) eqn:E.
    + apply str_eqb_eq in E as ->. now rewrite str_eqb_refl.
    + destruct (str_eqb (j_id job) id) eqn:E'; [|reflexivity]. apply str_eqb_eq in E' as <-.
      rewrite str_eqb_refl in E. discriminate.
  - destruct (has_id (id_of job) j) eqn:Ej; cbn; [|rewrite IH].
    + apply has_id_eq in Ej. unfold has_id. change (id_of job) with (j_id job) in *. rewrite Ej.
      destruct (str_eqb id (j_id job)) eqn:E.
      * apply str_eqb_eq in E as ->. now rewrite str_eqb_refl.
      * destruct (str_eqb (j_id job) id) eqn:E'; [|reflexivity]. apply str_eqb_eq in E' as <-.
        rewrite str_eqb_refl in E. discriminate.
    + destruct (has_id id j) eqn:Ei; [|reflexivity].
      destruct (str_eqb id (j_id job)) eqn:E; [|reflexivity].
      apply str_eqb_eq in E as ->. change (id_of job) with (j_id job) in Ej. congruence.
Qed.

(** C16: a job reported as saved is saved for good: whenever the engine restarts,
    the store loads exactly what it then held, which is the new job under its
    id and every other job unchanged.  A save that is reported as failed leaves
    the file as it was. *)
Theorem save_job_durable c job rep c' :
  config_inv c -> w_read_error (c_world c) = None -> w_cred_error (c_world c) = None ->
  handle (SaveJob job) c = (rep, c') ->
  match rep with
  | RSaved id => id = j_id job
      /\ (forall pid, (js_with_path JOBS (restart pid (c_world c'))).1 = c_jobs c')
      /\ (forall i, js_get (c_jobs c') i
                    = if str_eqb i (j_id job) then Some job else js_get (c_jobs c) i)
  | _ => w_files (c_world c') !! JOBS = w_files (c_world c) !! JOBS
  end.
Proof.
  intros (Hj & _ & _ & Hk & _) Hr Hc. destruct c as [jobs sql pbs w]. cbn in *.
  unfold save_job_request. cbn.
  destruct (_ ← validate_job job; _) as [u|e]; [|intros [= <- <-]; reflexivity].
  destruct (save_job job jobs w) as [[res jobs'] w'] eqn:E. intros [= <- <-]. cbn.
  destruct (update_spec _ jobs w res jobs' w' Hk E) as (_ & _ & _ & _ & _ & _ & Hm).
  rewrite Hj in Hm. destruct (js_load_error jobs) as [e|]; [destruct Hm as (-> & _ & ->); reflexivity|].
  destruct Hm as [Hi Hm]. destruct res as [u'|e]; cbn; [|exact Hm].
  split; [reflexivity|]. split; [auto|]. intros i. unfold js_get. rewrite Hi. apply get_upsert.
Qed.

(** Deleting a job of a store that is read-only is answered with the error,
    and the job's encryption key is destroyed all the same. *)
Theorem delete_job_loses_key c id e :
  js_load_error (c_jobs c) = Some e -> w_cred_error (c_world c) = None ->
  (handle (DeleteJob id) c).1 = RError e
  /\ c_jobs (handle (DeleteJob id) c).2 = c_jobs c
  /\ w_secrets (c_world (handle (DeleteJob id) c).2) !! enc_secret_key id = None.
Proof.
  intros Hl Hc. destruct c as [jobs sql pbs w]. cbn in *.
  unfold delete_job_request, enc_clear, secrets_delete, job_delete, js_delete, js_update, js_ensure_writable.
  cbn. rewrite Hc, Hl. cbn. split; [reflexivity|]. split; [reflexivity|]. apply lookup_delete_eq.
Qed.

Lemma for_job_stored job w key :
  w_cred_error w = None -> length key = 32%nat -> j_encrypted job = true ->
  w_secrets w !! enc_secret_key (j_id job) = Some (b64_encode key) ->
  for_job job w = (Ok (Some (crypt_new key)), w).
Proof.
  intros Hc Hl Hj Hs. unfold for_job. rewrite Hj. cbn [negb].
  unfold load_config, mbind, io_bind, secrets_get, io_lift, decode_key. rewrite Hc, Hs, b64_trim, b64_inverse.
  cbn. rewrite Hl. reflexivity.
Qed.

(** Generating a key happens only where a job had none, and from then on
    the job is backed up and restored with it; the key shown once to the user
    is enough to read the backups elsewhere: imported for another job on
    another machine, it gives the same encryption configuration. *)
Theorem key_portable id w info w' w2 id2 job job2 :
  (forall k, w_random w = Ok k -> length k = 32%nat) ->
  generate id w = (Ok info, w') -> w_cred_error w2 = None ->
  j_id job = id -> j_encrypted job = true -> j_id job2 = id2 -> j_encrypted job2 = true ->
  w_secrets w !! enc_secret_key id = None
  /\ exists cfg, for_job job w' = (Ok (Some cfg), w')
     /\ exists w2', import id2 (ki_key info) w2 = (Ok info, w2')
        /\ for_job job2 w2' = (Ok (Some cfg), w2').
Proof.
  intros Hr Hg Hc2 <- Hj <- Hj2. unfold generate, mbind, io_bind, secrets_get in Hg.
  destruct (w_cred_error w) eqn:Hc; [discriminate|].
  destruct (w_secrets w !! enc_secret_key (j_id job)) eqn:Hs; [discriminate|]. split; [reflexivity|].
  unfold fresh_key, random_key in Hg. destruct (w_random w) as [key|e]; [|discriminate].
  specialize (Hr key eq_refl). cbn in Hg. unfold enc_store, secrets_set in Hg. rewrite Hc in Hg.
  injection Hg as <- <-. exists (crypt_new key). split.
  - apply for_job_stored; auto. apply lookup_insert_eq.
  - eexists. split.
    + unfold import, mbind, io_bind, io_lift, decode_key. cbn [ki_key info_from_key].
      rewrite b64_trim, b64_inverse. cbn. rewrite Hr. cbn. unfold enc_store, secrets_set.
      rewrite Hc2. reflexivity.
    + apply for_job_stored; auto. apply lookup_insert_eq.
Qed.

(** A job marked as encrypted never runs without a key, and one that is
    not marked never uses one; asking changes nothing. *)
Theorem encrypted_never_plain job w cfg w' :
  for_job job w = (Ok cfg, w') -> w' = w /\ (cfg = None <-> j_encrypted job = false).
Proof.
  unfold for_job. destruct (j_encrypted job); cbn [negb].
  - unfold load_config, mbind, io_bind. destruct (secrets_get _ w) as [r w1] eqn:Eg.
    apply secrets_get_world in Eg as ->. destruct r as [[b|]|e]; cbn; try discriminate.
    unfold io_lift. destruct (decode_key b); cbn; [|discriminate]. intros [= <- <-].
    split; [reflexivity|]. split; discriminate.
  - intros E. apply pair_equal_spec in E as [E ->]. injection E as <-. tauto.
Qed.

End properties.

(** ** Witnesses *)

Section witnesses.
Import SampleStore.
Local Existing Instance Sample.hash.

Definition job_a : Job := sql_job (L "a") (L "prod") [L "sales"; L "hr"].
Definition job_b : Job := sql_job (L "b") (L "prod") [L "Sales"].
Definition job_c : Job := sql_job (L "c") (L "test") [L "sales"].

Lemma saved_groups_distinct_witness :
  let rs := [SaveJob job_a; SaveJob job_b; SaveJob job_c] in
  let jobs := js_items (c_jobs (run_requests rs config0)) in
  map j_id jobs = [L "a"; L "c"] /\ length (server_groups (L "s") jobs) = 6%nat
  /\ NoDup (map j_id jobs) /\ NoDup (server_groups (L "s") jobs).
Proof.
  intros rs jobs. split; [vm_compute; reflexivity|]. split; [vm_compute; reflexivity|].
  apply (saved_groups_distinct rs config0 (L "s")), config0_inv.
Defined.

Lemma refused_store_kept_witness :
  refused_kept refused0 (run_requests [SaveJob job_a; DeleteJob (L "a")] refused0).
Proof. apply (refused_store_kept _ refused0), refused0_inv. Defined.

Lemma save_job_durable_witness :
  let c' := (handle (SaveJob job_a) config0).2 in
  (handle (SaveJob job_a) config0).1 = RSaved (L "a")
  /\ (js_with_path JOBS (restart 8 (c_world c'))).1 = c_jobs c'.
Proof.
  intros c'. assert (E : (handle (SaveJob job_a) config0).1 = RSaved (L "a"))
    by (vm_compute; reflexivity).
  split; [exact E|].
  pose proof (save_job_durable config0 job_a _ c' config0_inv eq_refl eq_refl
                (surjective_pairing _)) as Hd.
  rewrite E in Hd. apply Hd.
Defined.

Lemma delete_job_loses_key_witness :
  w_secrets (c_world refused0) !! enc_secret_key (L "a") = Some (L "00")
  /\ (handle (DeleteJob (L "a")) refused0).1 = RError (L "could not load jobs.json")
  /\ w_secrets (c_world (handle (DeleteJob (L "a")) refused0).2) !! enc_secret_key (L "a") = None.
Proof.
  destruct (delete_job_loses_key refused0 (L "a") (L "could not load jobs.json") eq_refl eq_refl)
    as (E & _ & K).
  split; [vm_compute; reflexivity|]. split; [exact E | exact K].
Defined.

Lemma key_portable_witness :
  exists cfg, for_job job_a (generate (L "a") world0).2 = (Ok (Some cfg), (generate (L "a") world0).2).
Proof.
  destruct (generate (L "a") world0) as [r w'] eqn:E.
  assert (Hr : exists info, r = Ok info) by (vm_compute in E; injection E as <- _; eexists; reflexivity).
  destruct Hr as [info ->].
  destruct (key_portable (L "a") world0 info w' world0 (L "b") job_a job_b) as (_ & cfg & Hf & _);
    auto.
  - intros k [= <-]. reflexivity.
  - exists cfg. exact Hf.
Defined.

Lemma encrypted_never_plain_witness :
  let w := (generate (L "a") world0).2 in
  exists cfg, for_job job_a w = (Ok cfg, w) /\ (cfg = None <-> j_encrypted job_a = false).
Proof.
  intros w. destruct (for_job job_a w) as [[cfg|e] w'] eqn:E; [|vm_compute in E; discriminate].
  exists cfg. destruct (encrypted_never_plain job_a w cfg w' E) as [-> Hi]. split; [reflexivity | exact Hi].
Defined.

End witnesses.
