(* ===== verification/Plan.v ===== *)
(** What a SQL job does on a run: the rules of [pbsgui-engine/src/sql/plan.rs]
    and the loop over databases of [pbsgui-engine/src/backup.rs]
    ([backup_sql_to_pbs], [backup_sql_to_folder]).

    SQL Server, the backup of one database and the clock are the record
    [db_env] of what each call answers.  The theorems: the rules (who takes which
    backup, and that a replica set takes each backup exactly once), that every
    database of a run is accounted for exactly once and that one failure fails
    the run without losing the others, and when a missing log chain turns from
    a warning into a failure. *)

From Stdlib Require Import ZArith Lia Strings.Byte Ascii String.
From stdpp Require Import base tactics option numbers gmap list.
From S2P Require Import Prelude Text Base Blob Index Repository HttpApi Session Upload Jobs Sched Stores.
Open Scope Z_scope.

(** ** The rules (plan.rs) *)

Inductive PlanKind := PkPointInTime | PkRestorePoints | PkSecondaryCopy.
Inductive Role := Standalone | Primary | Secondary.

Record DbState := {
  ds_role : Role; ds_preferred : bool; ds_simple_recovery : bool; ds_read_only : bool;
  ds_log_chain : bool }.

Inductive Action :=
| Backup (kind : SqlBackupType) (copy_only : bool) (note : option str)
| Skip (why : str).

#[export] Instance PlanKind_eq_dec : EqDecision PlanKind.
Proof. solve_decision. Defined.
#[export] Instance Role_eq_dec : EqDecision Role.
Proof. solve_decision. Defined.

Definition NOT_PREFERRED : str := L "not the Always On preferred backup replica".
Definition FULL_ON_PRIMARY : str :=
  L "point-in-time full backups are taken on the Always On primary replica".
Definition SIMPLE : str := L "SIMPLE recovery model (no log backups; log is auto-managed)".
Definition PROMOTED : str :=
  L "no full backup starts the log chain yet, so taking a full backup instead of a log backup".
Definition FIRST_FULL : str :=
  L "this job has no full backup from this machine yet, so taking a full backup before log backups".
Definition READ_ONLY : str :=
  L "read-only database (no log backups; its full backups cover it)".
Definition NO_CHAIN_ON_SECONDARY : str :=
  L "no full backup starts the log chain yet, and a secondary cannot take one; pbsgui on the primary replica takes it on its next run (install pbsgui on every replica with this job)".

Definition decide (plan : PlanKind) (run : SqlRun) (s : DbState) (local_full : bool) : Action :=
  let full copy_only note := Backup Full copy_only note in
  match plan with
  | PkPointInTime =>
      match run with
      | RunFull =>
          match ds_role s with
          | Standalone | Primary => full false None
          | Secondary => Skip FULL_ON_PRIMARY
          end
      | RunLog =>
          if ds_simple_recovery s then Skip SIMPLE
          else if ds_read_only s then Skip READ_ONLY
          else
            let not_secondary := match ds_role s with Secondary => false | _ => true end in
            if not_secondary && negb (ds_log_chain s) then full false (Some PROMOTED)
            else if not_secondary && negb local_full then full false (Some FIRST_FULL)
            else if negb (ds_preferred s) then Skip NOT_PREFERRED
            else Backup Log false None
      end
  | PkRestorePoints | PkSecondaryCopy =>
      if negb (ds_preferred s) then Skip NOT_PREFERRED
      else
        let copy_only := bool_decide (plan = PkSecondaryCopy) || bool_decide (ds_role s = Secondary) in
        full copy_only None
  end.

Definition is_no_chain_error (message : str) : bool :=
  contains (L "4214") message || contains (L "no current database backup") message.

(** ** One run over the databases (backup.rs) *)

Definition NO_CHAIN_ESCALATE_SECS : Z := 3600.

Definition run_is_log_but_full (run : SqlRun) (taken : SqlBackupType) : bool :=
  bool_decide (run = RunLog) && bool_decide (taken = Full).

Definition plan_kind (protection : SqlProtection) : PlanKind :=
  match protection with
  | PointInTime _ _ => PkPointInTime
  | DailyRestorePoints _ => PkRestorePoints
  | SecondaryCopy _ => PkSecondaryCopy
  end.

(** What is sent to the run's event stream. *)
Inductive run_event := EvLog (line : str) | EvPhase (message : str).

(** [(summary, stats, warning)]. *)
Definition Outcome : Type := str * option BackupStats * bool.

(** What the calls for one database answer: [probe::db_state], the clock at each
    reading, and the backup itself (in process, or through a relay agent). *)
Record db_env := {
  de_state : result str DbState;
  de_time : Z;
  de_backup : option str -> SessionParams -> str -> option CryptConfig -> bool ->
              SqlBackupType -> bool -> result str BackupStats;
  de_note_time : Z; de_check_time : Z; de_full_time : Z }.

Definition pbs_session_params `{DebugFmt} (c : config_state) (server_id group backup_type : str)
    (backup_time : Z) : result str SessionParams :=
  server ← ok_or (js_get (c_pbs c) server_id) (L "no such PBS server");
  stored ← (secrets_get (pbs_secret_key server_id) (c_world c)).1;
  secret ← ok_or stored (L "no saved secret for the PBS server");
  repo ← map_err show_error (from_str (ps_repository server));
  map_err show_error
    (from_repository repo secret (ps_fingerprint server) backup_type group backup_time).

Definition sql_conn_and_password (c : config_state) (connection_id : str) :
    result str (SqlConnection * option str) :=
  conn ← ok_or (js_get (c_sql c) connection_id) (L "no such SQL connection");
  password ← match sc_auth conn with
             | Integrated => Ok None
             | _ => (secrets_get (sql_secret_key connection_id) (c_world c)).1
             end;
  Ok (conn, password).

(** The mutable variables of the loop. *)
Record tally := {
  t_chunks : Z; t_uploaded : Z; t_reused : Z; t_bytes : Z; t_uploaded_bytes : Z;
  t_stored_bytes : Z; t_backed_up : Z;
  t_skipped : list str; t_warned : list str; t_failed : list str;
  t_local_full : bool; t_disk : disk; t_events : list run_event }.

Definition add64 (a b : Z) : Z := (a + b) mod 2 ^ 64.

Definition emit (ev : list run_event) (t : tally) : tally :=
  {| t_chunks := t_chunks t; t_uploaded := t_uploaded t; t_reused := t_reused t;
     t_bytes := t_bytes t; t_uploaded_bytes := t_uploaded_bytes t;
     t_stored_bytes := t_stored_bytes t; t_backed_up := t_backed_up t;
     t_skipped := t_skipped t; t_warned := t_warned t; t_failed := t_failed t;
     t_local_full := t_local_full t; t_disk := t_disk t; t_events := t_events t ++ ev |}.

Definition set_disk (d : disk) (t : tally) : tally :=
  {| t_chunks := t_chunks t; t_uploaded := t_uploaded t; t_reused := t_reused t;
     t_bytes := t_bytes t; t_uploaded_bytes := t_uploaded_bytes t;
     t_stored_bytes := t_stored_bytes t; t_backed_up := t_backed_up t;
     t_skipped := t_skipped t; t_warned := t_warned t; t_failed := t_failed t;
     t_local_full := t_local_full t; t_disk := d; t_events := t_events t |}.

Definition db_skip (reason : str) (t : tally) : tally :=
  {| t_chunks := t_chunks t; t_uploaded := t_uploaded t; t_reused := t_reused t;
     t_bytes := t_bytes t; t_uploaded_bytes := t_uploaded_bytes t;
     t_stored_bytes := t_stored_bytes t; t_backed_up := t_backed_up t;
     t_skipped := t_skipped t ++ [reason]; t_warned := t_warned t; t_failed := t_failed t;
     t_local_full := t_local_full t; t_disk := t_disk t;
     t_events := t_events t ++ [EvLog (L "skipping " ++ reason)] |}.

Definition db_warn (reason : str) (t : tally) : tally :=
  {| t_chunks := t_chunks t; t_uploaded := t_uploaded t; t_reused := t_reused t;
     t_bytes := t_bytes t; t_uploaded_bytes := t_uploaded_bytes t;
     t_stored_bytes := t_stored_bytes t; t_backed_up := t_backed_up t;
     t_skipped := t_skipped t; t_warned := t_warned t ++ [reason]; t_failed := t_failed t;
     t_local_full := t_local_full t; t_disk := t_disk t;
     t_events := t_events t ++ [EvLog (L "warning: log backup not possible for " ++ reason)] |}.

Definition db_fail (reason : str) (t : tally) : tally :=
  {| t_chunks := t_chunks t; t_uploaded := t_uploaded t; t_reused := t_reused t;
     t_bytes := t_bytes t; t_uploaded_bytes := t_uploaded_bytes t;
     t_stored_bytes := t_stored_bytes t; t_backed_up := t_backed_up t;
     t_skipped := t_skipped t; t_warned := t_warned t; t_failed := t_failed t ++ [reason];
     t_local_full := t_local_full t; t_disk := t_disk t;
     t_events := t_events t ++ [EvLog (L "backup FAILED for " ++ reason)] |}.

Definition in_db (db rest : str) : str := L "[" ++ db ++ L "]: " ++ rest.

(** The log lines for an action that is not the run's usual one. *)
Definition action_notes (plan : PlanKind) (db : str) (s : DbState) (copy_only : bool)
    (note : option str) : list run_event :=
  match note with Some n => [EvLog (in_db db n)] | None => [] end
  ++ (if copy_only && bool_decide (ds_role s = Secondary) && negb (bool_decide (plan = PkSecondaryCopy))
      then [EvLog (L "[" ++ db ++ L "] is an Always On secondary; using a copy-only full")]
      else []).

Section run.
Context `{SchedJson} `{DebugFmt}.
Variable human_bytes : Z -> str.  (* floating-point formatting *)
Variables (c : config_state) (conn : SqlConnection) (plan : PlanKind) (run : SqlRun)
  (server_id backup_id job_id : str) (crypt : option CryptConfig) (compress : bool).

(** A database was backed up. *)
Definition db_done (db : str) (e : db_env) (kind : SqlBackupType) (stats : BackupStats)
    (t : tally) : tally :=
  let d1 := clear_no_chain (t_disk t) job_id db in
  let promoted := run_is_log_but_full run kind in
  {| t_chunks := add64 (t_chunks t) (st_chunks stats);
     t_uploaded := add64 (t_uploaded t) (st_uploaded stats);
     t_reused := add64 (t_reused t) (st_reused stats);
     t_bytes := add64 (t_bytes t) (st_bytes stats);
     t_uploaded_bytes := add64 (t_uploaded_bytes t) (st_uploaded_bytes stats);
     t_stored_bytes := add64 (t_stored_bytes t) (st_stored_bytes stats);
     t_backed_up := (t_backed_up t + 1) mod 2 ^ 32;
     t_skipped := t_skipped t; t_warned := t_warned t; t_failed := t_failed t;
     t_local_full := t_local_full t || promoted;
     t_disk := if promoted then record_full d1 job_id (de_full_time e) else d1;
     t_events := t_events t |}.

(** A database's backup failed with [message]. *)
Definition db_error (db : str) (e : db_env) (s : DbState) (kind : SqlBackupType) (message : str)
    (t : tally) : tally :=
  if bool_decide (kind = Log) && is_no_chain_error message then
    let why := if bool_decide (ds_role s = Secondary) then NO_CHAIN_ON_SECONDARY
               else L "no full backup starts the log chain; the next run takes a full backup" in
    let '(since, d) := note_no_chain (t_disk t) job_id db (de_note_time e) in
    let t := set_disk d t in
    if NO_CHAIN_ESCALATE_SECS <=? de_check_time e - since then
      db_fail (in_db db (L "log backups have found no full backup to start the log chain for over an hour. Check that pbsgui runs this job on the primary replica (see docs/ALWAYS-ON.md)")) t
    else db_warn (in_db db why) t
  else db_fail (in_db db message) t.

Definition backup_db (db : str) (e : db_env) (t : tally) : tally :=
  match de_state e with
  | Err err => db_fail (in_db db err) t
  | Ok s =>
      match decide plan run s (t_local_full t) with
      | Skip why => db_skip (in_db db why) t
      | Backup kind copy_only note =>
          let t := emit (action_notes plan db s copy_only note) t in
          let '(group, archive) := sql_group_and_archive backup_id db kind in
          match pbs_session_params c server_id group (L "host") (de_time e) with
          | Err err => db_fail (in_db db err) t
          | Ok params =>
              let t := emit [EvLog (L "backing up [" ++ db ++ L "] to PBS (group " ++ group ++ L ")");
                             EvPhase (L "reading [" ++ db ++ L "] from SQL Server...")] t in
              match de_backup e (sc_relay_agent conn) params archive crypt compress kind copy_only with
              | Ok stats => db_done db e kind stats t
              | Err message => db_error db e s kind message t
              end
          end
      end
  end.

Definition backup_dbs (dbs : list (str * db_env)) (t : tally) : tally :=
  fold_left (fun t '(db, e) => backup_db db e t) dbs t.

Definition start_tally (d : disk) (ev : list run_event) : tally :=
  {| t_chunks := 0; t_uploaded := 0; t_reused := 0; t_bytes := 0; t_uploaded_bytes := 0;
     t_stored_bytes := 0; t_backed_up := 0; t_skipped := []; t_warned := []; t_failed := [];
     t_local_full := bool_decide (is_Some (last_full d job_id)); t_disk := d; t_events := ev |}.

Definition length_str {A} (l : list A) : str := dec (Z.of_nat (length l)).

(** The end of the run: failed, nothing done, or a summary. *)
Definition conclude (t : tally) : result str Outcome :=
  match t_failed t with
  | _ :: _ =>
      Err ((if 0 <? t_backed_up t then L "backed up " ++ dec (t_backed_up t) ++ L ", but " else [])
           ++ length_str (t_failed t) ++ L " database(s) failed: " ++ join (L "; ") (t_failed t))
  | [] =>
      if t_backed_up t =? 0 then
        let reasons := t_warned t ++ t_skipped t in
        let reason := match reasons with
                      | [] => L "no databases selected"
                      | _ => join (L "; ") reasons
                      end in
        Ok (L "skipped: " ++ reason, None, negb (bool_decide (t_warned t = [])))
      else
        let summary :=
          L "backed up " ++ dec (t_backed_up t) ++ L " database(s) to PBS: "
          ++ human_bytes (t_bytes t) ++ L ", " ++ dec (t_chunks t) ++ L " chunks, "
          ++ dec (t_uploaded t) ++ L " uploaded, " ++ dec (t_reused t) ++ L " reused"
          ++ (if 0 <? t_stored_bytes t then L ", " ++ human_bytes (t_stored_bytes t) ++ L " stored" else [])
          ++ (match t_warned t with
              | [] => []
              | w => L "; " ++ length_str w ++ L " warning(s): " ++ join (L "; ") w
              end)
          ++ (match t_skipped t with
              | [] => []
              | s => L "; skipped " ++ length_str s ++ L ": " ++ join (L ", ") s
              end) in
        Ok (summary,
            Some {| st_chunks := t_chunks t; st_reused := t_reused t; st_uploaded := t_uploaded t;
                    st_bytes := t_bytes t; st_uploaded_bytes := t_uploaded_bytes t;
                    st_stored_bytes := t_stored_bytes t; st_csum := replicate 32 x00 |},
            negb (bool_decide (t_warned t = [])))
  end.

End run.

(** [Path::join] of a relative file name, on Windows. *)
Definition path_join (dir name : str) : str :=
  match last dir with
  | None => name
  | Some c => if (c =? 92) || (c =? 47) then dir ++ name else dir ++ [92] ++ name
  end.

Section backup_sql.
Context `{SchedJson} `{DebugFmt}.
Variable human_bytes : Z -> str.

(** The outcome, the timers and the events of a run.  [connected] is
    [probe::connect]'s answer, [env] what the calls for each database answer. *)
Definition backup_sql_to_pbs (c : config_state) (connection_id : str) (databases : list str)
    (plan : PlanKind) (run : SqlRun) (server_id backup_id : str) (crypt : option CryptConfig)
    (compress : bool) (job_id : str) (connected : result str unit) (env : list db_env) (d : disk) :
    result str Outcome * disk * list run_event :=
  match databases with
  | [] => (Err (L "no databases selected"), d, [])
  | _ =>
      match sql_conn_and_password c connection_id with
      | Err e => (Err e, d, [])
      | Ok (conn, _) =>
          let ev := [EvPhase (L "connecting to SQL Server...")] in
          match connected with
          | Err e =>
              if sc_failover_cluster conn then
                (Ok (L "skipped: the failover cluster instance is not active on this node", None, false),
                 d, ev ++ [EvLog (L "the failover cluster instance is not active on this node; skipping ("
                                  ++ e ++ L ")")])
              else (Err e, d, ev)
          | Ok _ =>
              let t := backup_dbs c conn plan run server_id backup_id job_id crypt compress
                         (zip databases env) (start_tally job_id d ev) in
              (conclude human_bytes t, t_disk t, t_events t)
          end
      end
  end.

(** [backup_sql_to_folder]: a native backup file per database; the first error
    ends the run.  [env] gives the time and the result of each. *)
Fixpoint backup_files (path : str) (databases : list str) (env : list (Z * result str Z))
    (total : Z) (ev : list run_event) : result str Z * list run_event :=
  match databases, env with
  | db :: dbs, (now, r) :: env' =>
      let out := path_join path (sanitize db ++ L "-" ++ dec now ++ L ".bak") in
      let ev := ev ++ [EvLog (L "backing up [" ++ db ++ L "] to " ++ out)] in
      match r with
      | Ok n => backup_files path dbs env' (add64 total n) ev
      | Err e => (Err e, ev)
      end
  | _, _ => (Ok total, ev)
  end.

Definition backup_sql_to_folder (c : config_state) (connection_id : str) (databases : list str)
    (path : str) (env : list (Z * result str Z)) :
    result str (str * option BackupStats) * list run_event :=
  match databases with
  | [] => (Err (L "no databases selected"), [])
  | _ =>
      match sql_conn_and_password c connection_id with
      | Err e => (Err e, [])
      | Ok _ =>
          let '(r, ev) := backup_files path databases env 0 [] in
          (match r with
           | Err e => Err e
           | Ok total =>
               Ok (L "backed up " ++ dec (Z.of_nat (length databases)) ++ L " database(s) to " ++ path
                   ++ L ": " ++ human_bytes total,
                   Some {| st_chunks := 0; st_reused := 0; st_uploaded := 0; st_bytes := total;
                           st_uploaded_bytes := 0; st_stored_bytes := 0;
                           st_csum := replicate 32 x00 |})
           end, ev)
      end
  end.

End backup_sql.

(** ** Lemmas *)

(** The action is a backup of [kind]. *)
Definition takes (kind : SqlBackupType) (a : Action) : bool :=
  match a with Backup k _ _ => bool_decide (k = kind) | Skip _ => false end.

(** How many databases the tally accounts for. *)
Definition accounted (t : tally) : Z :=
  t_backed_up t + Z.of_nat (length (t_skipped t)) + Z.of_nat (length (t_warned t))
  + Z.of_nat (length (t_failed t)).

(** One more database, and no failure is forgotten. *)
Definition one_more (t t' : tally) : Prop :=
  accounted t' = accounted t + 1 /\ t_backed_up t <= t_backed_up t' <= t_backed_up t + 1
  /\ exists l, t_failed t' = t_failed t ++ l.

Lemma one_more_fail r t : one_more t (db_fail r t).
Proof.
  unfold one_more, accounted. cbn. rewrite length_app. cbn. split; [lia|]. split; [lia|]. eauto.
Qed.
Lemma one_more_skip r t : one_more t (db_skip r t).
Proof.
  unfold one_more, accounted. cbn. rewrite length_app. cbn. split; [lia|]. split; [lia|].
  exists []. now rewrite app_nil_r.
Qed.
Lemma one_more_warn r t : one_more t (db_warn r t).
Proof.
  unfold one_more, accounted. cbn. rewrite length_app. cbn. split; [lia|]. split; [lia|].
  exists []. now rewrite app_nil_r.
Qed.
Lemma one_more_emit ev t t' : one_more (emit ev t) t' -> one_more t t'.
Proof. exact id. Qed.
Lemma one_more_disk d t t' : one_more (set_disk d t) t' -> one_more t t'.
Proof. exact id. Qed.
#[local] Hint Resolve one_more_fail one_more_skip one_more_warn : pbs.

Section lemmas.
Context `{SchedJson} `{DebugFmt}.
Variables (c : config_state) (conn : SqlConnection) (plan : PlanKind) (run : SqlRun)
  (server_id backup_id job_id : str) (crypt : option CryptConfig) (compress : bool).
Abbreviation bdb := (backup_db c conn plan run server_id backup_id job_id crypt compress).
Abbreviation bdbs := (backup_dbs c conn plan run server_id backup_id job_id crypt compress).

Lemma db_error_one_more db e s kind m t : one_more t (db_error job_id db e s kind m t).
Proof.
  unfold db_error. destruct (_ && _); [|auto with pbs].
  destruct (note_no_chain _ _ _ _) as [since d].
  destruct (_ <=? _); apply (one_more_disk d); auto with pbs.
Qed.

Lemma db_done_one_more db e kind stats t :
  0 <= t_backed_up t < 2 ^ 32 - 1 -> one_more t (db_done run job_id db e kind stats t).
Proof.
  intros Hr. unfold one_more, accounted. cbn. rewrite Z.mod_small by lia.
  split; [lia|]. split; [lia|]. exists []. now rewrite app_nil_r.
Qed.

Lemma backup_db_one_more db e t :
  0 <= t_backed_up t < 2 ^ 32 - 1 -> one_more t (bdb db e t).
Proof.
  intros Hr. unfold backup_db. destruct (de_state e) as [s|err]; [|auto with pbs].
  destruct (decide _ _ _ _) as [kind co note|why]; [|auto with pbs].
  destruct (sql_group_and_archive backup_id db kind) as [group archive].
  destruct (pbs_session_params _ _ _ _ _) as [params|err];
    [|eapply one_more_emit; auto with pbs].
  destruct (de_backup _ _ _ _ _ _ _ _) as [stats|m]; do 2 eapply one_more_emit;
    [now apply db_done_one_more | apply db_error_one_more].
Qed.

Lemma backup_dbs_accounted dbs : forall t,
  0 <= t_backed_up t -> t_backed_up t + Z.of_nat (length dbs) < 2 ^ 32 ->
  accounted (bdbs dbs t) = accounted t + Z.of_nat (length dbs)
  /\ 0 <= t_backed_up (bdbs dbs t) /\ exists l, t_failed (bdbs dbs t) = t_failed t ++ l.
Proof.
  induction dbs as [|[db e] dbs IH]; intros t Hz Hl.
  - cbn. split; [lia|]. split; [lia|]. exists []. now rewrite app_nil_r.
  - cbn [length] in Hl. change (bdbs ((db, e) :: dbs) t) with (bdbs dbs (bdb db e t)).
    destruct (backup_db_one_more db e t) as (Ha & Hb & [l1 Hf]); [lia|].
    destruct (IH (bdb db e t)) as (Ha' & Hb' & [l2 Hf']); [lia..|].
    cbn [length]. split; [lia|]. split; [lia|]. exists (l1 ++ l2). rewrite Hf', Hf. now rewrite app_assoc.
Qed.

(** A failed probe or a failed backup is listed as failed. *)
Lemma state_error_fails dbs db e err : forall t,
  0 <= t_backed_up t -> t_backed_up t + Z.of_nat (length dbs) < 2 ^ 32 ->
  In (db, e) dbs -> de_state e = Err err -> In (in_db db err) (t_failed (bdbs dbs t)).
Proof.
  induction dbs as [|[db' e'] dbs IH]; intros t Hz Hl Hin He; [destruct Hin|].
  cbn [length] in Hl. change (bdbs ((db', e') :: dbs) t) with (bdbs dbs (bdb db' e' t)).
  destruct (backup_db_one_more db' e' t) as (_ & Hb & _); [lia|].
  destruct Hin as [[= -> ->]|Hin]; [|apply IH; auto; lia].
  destruct (backup_dbs_accounted dbs (bdb db e t)) as (_ & _ & [l Hf]); [lia..|]. rewrite Hf.
  apply in_app_iff. left. unfold backup_db. rewrite He. cbn. apply in_app_iff. right. now left.
Qed.

End lemmas.

(** ** Properties *)

(** The rules for one database.  A log backup is taken exactly in a
    point-in-time log run, of a database with log backups that is not
    read-only, on the preferred replica, and off a secondary only when the
    chain exists and the job has its full; a full that starts a chain is taken
    on the primary or a standalone instance only, and on a secondary every full
    is copy-only; differentials are never taken. *)
Theorem decide_rules plan run s lf co note :
  (decide plan run s lf = Backup Log co note <->
   plan = PkPointInTime /\ run = RunLog /\ ds_simple_recovery s = false /\ ds_read_only s = false
   /\ ds_preferred s = true
   /\ (ds_role s = Secondary \/ ds_log_chain s = true /\ lf = true) /\ co = false /\ note = None)
  /\ (decide plan run s lf = Backup Full co note ->
      (ds_role s = Secondary -> co = true) /\ (plan = PkPointInTime -> co = false)
      /\ (plan <> PkPointInTime -> ds_preferred s = true))
  /\ decide plan run s lf <> Backup Differential co note.
Proof.
  unfold decide. destruct s as [role pref simple ro chain]. cbn.
  destruct plan, run, role, pref, simple, ro, chain, lf; cbn;
    (split; [split; [intros [=]; subst; intuition congruence | intuition congruence]
            | split; [intros [=]; subst; intuition congruence | discriminate]]).
Qed.

Lemma filter_one {A} (p q : A -> bool) l :
  (forall x, In x l -> p x = q x) -> List.filter p l = List.filter q l.
Proof.
  induction l as [|x l IH]; intros Hx; cbn; [reflexivity|].
  rewrite (Hx x) by now left. rewrite IH by (intros y Hy; apply Hx; now right). reflexivity.
Qed.

(** When the same point-in-time job runs on every replica of an availability
    group with one primary and one preferred replica, and the primary's chain
    and full exist, each full run backs the database up on exactly one replica,
    and each log run takes exactly one log backup and no full. *)
Theorem one_replica_backs_up (l : list (DbState * bool)) :
  let run_on r := fun x : DbState * bool => decide PkPointInTime r (x.1) (x.2) in
  length (List.filter (fun x => bool_decide (ds_role (x.1) = Primary)) l) = 1%nat ->
  length (List.filter (fun x => ds_preferred (x.1)) l) = 1%nat ->
  (forall x, In x l -> ds_role (x.1) <> Standalone /\ ds_simple_recovery (x.1) = false
     /\ ds_read_only (x.1) = false
     /\ (ds_role (x.1) = Primary -> ds_log_chain (x.1) = true /\ x.2 = true)) ->
  length (List.filter (fun x => takes Full (run_on RunFull x)) l) = 1%nat
  /\ List.filter (fun x => takes Log (run_on RunFull x)) l = []
  /\ length (List.filter (fun x => takes Log (run_on RunLog x)) l) = 1%nat
  /\ List.filter (fun x => takes Full (run_on RunLog x)) l = [].
Proof.
  intros run_on Hp Hq Hall.
  assert (Hcase : forall x, In x l ->
    takes Full (run_on RunFull x) = bool_decide (ds_role (x.1) = Primary)
    /\ takes Log (run_on RunFull x) = false
    /\ takes Log (run_on RunLog x) = ds_preferred (x.1)
    /\ takes Full (run_on RunLog x) = false).
  { intros [[role pref simple ro chain] lf] Hx. destruct (Hall _ Hx) as (Hs & E1 & E2 & Hpr).
    cbn in *. subst. unfold run_on, decide. cbn.
    destruct role; [contradiction | destruct (Hpr eq_refl); subst |]; cbn; destruct pref; auto. }
  assert (Hnil : forall p, (forall x, In x l -> p x = false) -> List.filter p l = []).
  { intros p Hf. rewrite (filter_one p (fun _ => false) l Hf). clear. induction l; auto. }
  split; [|split; [|split]].
  - rewrite (filter_one _ _ l (fun x Hx => proj1 (Hcase x Hx))). exact Hp.
  - apply Hnil. intros x Hx. now destruct (Hcase x Hx) as (_ & -> & _).
  - rewrite (filter_one _ _ l (fun x Hx => proj1 (proj2 (proj2 (Hcase x Hx))))). exact Hq.
  - apply Hnil. intros x Hx. now destruct (Hcase x Hx) as (_ & _ & _ & ->).
Qed.

Section runs.
Context `{SchedJsonLaws} `{DebugFmt}.

(** Once SQL Server is reached, a run accounts for every selected database
    exactly once, as backed up, skipped, warned about or failed; it fails if and
    only if some database failed, a database whose state could not be read among
    them; otherwise it carries statistics exactly when a database was backed up,
    and is a warning exactly when one was warned about. *)
Theorem sql_run_accounts (human_bytes : Z -> str) c cid databases plan run sid bid crypt compress job_id env d conn pw :
  databases <> [] -> length env = length databases -> Z.of_nat (length databases) < 2 ^ 32 ->
  sql_conn_and_password c cid = Ok (conn, pw) ->
  exists t, backup_sql_to_pbs human_bytes c cid databases plan run sid bid crypt compress job_id
              (Ok tt) env d = (conclude human_bytes t, t_disk t, t_events t)
    /\ accounted t = Z.of_nat (length databases)
    /\ (is_ok (conclude human_bytes t) = true <-> t_failed t = [])
    /\ (forall m stats w, conclude human_bytes t = Ok (m, stats, w) ->
        (is_Some stats <-> 0 < t_backed_up t) /\ (w = true <-> t_warned t <> []))
    /\ (forall db e err, In (db, e) (zip databases env) -> de_state e = Err err ->
        is_ok (conclude human_bytes t) = false).
Proof.
  intros Hne Hlen Hmax Hconn. unfold backup_sql_to_pbs. rewrite Hconn.
  set (ev := [EvPhase _]).
  set (t := backup_dbs c conn plan run sid bid job_id crypt compress (zip databases env)
              (start_tally job_id d ev)).
  exists t. split; [destruct databases; [contradiction | reflexivity]|].
  assert (Hz : length (zip databases env) = length databases) by (rewrite length_zip_with; lia).
  destruct (backup_dbs_accounted c conn plan run sid bid job_id crypt compress
              (zip databases env) (start_tally job_id d ev)) as (Ha & Hb & _);
    [cbn; lia | rewrite Hz; cbn [start_tally t_backed_up]; lia|]. fold t in Ha, Hb.
  assert (Hok : is_ok (conclude human_bytes t) = true <-> t_failed t = []).
  { unfold conclude. destruct (t_failed t); [|split; discriminate].
    split; [reflexivity|]. now destruct (t_backed_up t =? 0). }
  split; [rewrite Ha, Hz; unfold accounted; cbn [start_tally t_backed_up t_skipped t_warned t_failed length]; lia|].
  split; [exact Hok|]. split.
  - intros m stats w. unfold conclude. destruct (t_failed t); [|discriminate].
    assert (Hw : negb (bool_decide (t_warned t = [])) = true <-> t_warned t <> [])
      by (now rewrite negb_true_iff, bool_decide_eq_false).
    destruct (t_backed_up t =? 0) eqn:E; intros [= <- <- <-]; (split; [|exact Hw]).
    + split; [intros [? ?]; discriminate | lia].
    + split; [lia | eauto].
  - intros db e err Hin He.
    assert (Hf : In (in_db db err) (t_failed t))
      by (apply (state_error_fails c conn plan run sid bid job_id crypt compress _ db e err);
          auto; [cbn; lia | rewrite Hz; cbn [start_tally t_backed_up]; lia]).
    apply not_true_is_false. intros E. apply Hok in E. rewrite E in Hf. destruct Hf.
Qed.

(** A log backup that finds no chain is a warning at first; from the first
    such finding on, it is a failure once an hour has passed, and a warning
    before, until the database is backed up. *)
Theorem no_chain_escalates job_id db s e1 e2 m1 m2 t :
  d_writable (t_disk t) = true ->
  s_no_chain_since (sched_load (t_disk t) job_id) !! db = None ->
  is_no_chain_error m1 = true -> is_no_chain_error m2 = true ->
  de_check_time e1 - de_note_time e1 < 3600 ->
  let t1 := db_error job_id db e1 s Log m1 t in
  let t2 := db_error job_id db e2 s Log m2 t1 in
  t_failed t1 = t_failed t /\ (exists r, t_warned t1 = t_warned t ++ [r])
  /\ if 3600 <=? de_check_time e2 - de_note_time e1
     then exists r, t_failed t2 = t_failed t1 ++ [r]
     else t_failed t2 = t_failed t1 /\ exists r, t_warned t2 = t_warned t1 ++ [r].
Proof.
  intros Hw Hn Hm1 Hm2 He t1 t2.
  assert (E1 : t1 = db_warn (in_db db (if bool_decide (ds_role s = Secondary)
                 then NO_CHAIN_ON_SECONDARY
                 else L "no full backup starts the log chain; the next run takes a full backup"))
                 (set_disk (note_no_chain (t_disk t) job_id db (de_note_time e1)).2 t)).
  { unfold t1, db_error. rewrite Hm1. cbn [bool_decide andb]. rewrite bool_decide_true by reflexivity.
    cbn [andb]. unfold note_no_chain. rewrite Hn. cbn [default].
    unfold NO_CHAIN_ESCALATE_SECS. replace (3600 <=? _) with false by lia. reflexivity. }
  split; [rewrite E1; reflexivity|]. split; [rewrite E1; eexists; reflexivity|].
  assert (Hs : s_no_chain_since (sched_load (t_disk t1) job_id) !! db = Some (de_note_time e1)).
  { rewrite E1. unfold note_no_chain. cbn [snd t_disk db_warn set_disk]. rewrite load_store by exact Hw.
    cbn. rewrite Hn. apply lookup_insert_eq. }
  unfold t2. clearbody t1. unfold db_error. rewrite Hm2, bool_decide_true by reflexivity. cbn [andb].
  unfold note_no_chain. rewrite Hs. cbn [default]. unfold NO_CHAIN_ESCALATE_SECS.
  destruct (3600 <=? _); cbn; eauto.
Qed.

(** The full that a log run takes for one database counts for the whole
    job: a database behind it, whose log chain some other tool started, gets a
    log backup though the job holds no full backup of it. *)
Theorem promoted_full_counts_for_all c conn sid bid job_id crypt compress db1 db2 e1 e2 s1 s2 p1 p2
    stats d :
  last_full d job_id = None ->
  de_state e1 = Ok s1 -> de_state e2 = Ok s2 ->
  ds_role s1 = Standalone -> ds_simple_recovery s1 = false -> ds_read_only s1 = false ->
  ds_role s2 = Standalone -> ds_simple_recovery s2 = false -> ds_read_only s2 = false ->
  ds_preferred s2 = true -> ds_log_chain s2 = true ->
  pbs_session_params c sid (sql_group_and_archive bid db1 Full).1 (L "host") (de_time e1) = Ok p1 ->
  pbs_session_params c sid (sql_group_and_archive bid db2 Log).1 (L "host") (de_time e2) = Ok p2 ->
  de_backup e1 (sc_relay_agent conn) p1 (sql_group_and_archive bid db1 Full).2 crypt compress Full false
    = Ok stats ->
  In (EvLog (L "backing up [" ++ db2 ++ L "] to PBS (group "
             ++ (sql_group_and_archive bid db2 Log).1 ++ L ")"))
    (t_events (backup_dbs c conn PkPointInTime RunLog sid bid job_id crypt compress
                 [(db1, e1); (db2, e2)] (start_tally job_id d []))).
Proof.
  intros Hl He1 He2 R1 S1 O1 R2 S2 O2 P2 C2 Hp1 Hp2 Hb.
  set (t1 := backup_db c conn PkPointInTime RunLog sid bid job_id crypt compress db1 e1
               (start_tally job_id d [])).
  change (backup_dbs _ _ _ _ _ _ _ _ _ _ _)
    with (backup_db c conn PkPointInTime RunLog sid bid job_id crypt compress db2 e2 t1).
  assert (Hlf : t_local_full t1 = true).
  { unfold t1, backup_db. rewrite He1. unfold decide at 1. rewrite S1, O1, R1.
    cbn [start_tally t_local_full]. rewrite Hl, bool_decide_false by (intros [? ?]; discriminate).
    destruct (ds_log_chain s1); cbn [andb negb];
      destruct (sql_group_and_archive bid db1 Full) as [g a]; cbn [fst snd] in Hp1, Hb;
      rewrite Hp1, Hb; cbn; now rewrite ?orb_true_r. }
  clear Hb Hp1. clearbody t1. unfold backup_db. rewrite He2. unfold decide at 1. rewrite S2, O2, R2, P2, C2, Hlf.
  cbn [andb negb]. destruct (sql_group_and_archive bid db2 Log) as [g a] eqn:Eg. cbn in Hp2.
  rewrite Hp2. cbn [fst].
  destruct (de_backup _ _ _ _ _ _ _ _); [cbn | unfold db_error;
    destruct (_ && _); [destruct (note_no_chain _ _ _ _); destruct (_ <=? _)|]; cbn];
    rewrite ?in_app_iff; cbn; tauto.
Qed.

End runs.

(** ** Witnesses *)

Section witnesses.
Import SampleStore SampleJson.
Local Existing Instance sample_debug.

Definition replica (role : Role) (preferred chain : bool) : DbState :=
  {| ds_role := role; ds_preferred := preferred; ds_simple_recovery := false;
     ds_read_only := false; ds_log_chain := chain |}.

Lemma one_replica_backs_up_witness :
  let l := [(replica Primary false true, true); (replica Secondary true false, false);
            (replica Secondary false false, false)] in
  length (List.filter (fun x => takes Log (decide PkPointInTime RunLog (x.1) (x.2))) l) = 1%nat.
Proof.
  intros l. refine (proj1 (proj2 (proj2 (one_replica_backs_up l eq_refl eq_refl _)))).
  intros x Hx. cbn in Hx. repeat destruct Hx as [<-|Hx]; try contradiction; cbn;
    repeat split; discriminate.
Defined.

Definition sample_conn : SqlConnection :=
  {| sc_id := L "c"; sc_name := L "c"; sc_server := L "SQL1"; sc_port := None;
     sc_auth := Integrated; sc_failover_cluster := false; sc_relay_agent := None |}.
Definition sample_pbs : PbsServer :=
  {| ps_id := L "s"; ps_name := L "s"; ps_repository := L "root@pam!t@host:store";
     ps_fingerprint := L "00" |}.
Definition sample_config : config_state :=
  {| c_jobs := store0 JOBS;
     c_sql := with_items [sample_conn] (store0 SQL); c_pbs := with_items [sample_pbs] (store0 PBS);
     c_world := set_secrets {[ pbs_secret_key (L "s") := L "secret" ]} world0 |}.
Definition sample_stats : BackupStats :=
  {| st_chunks := 2; st_reused := 1; st_uploaded := 1; st_bytes := 10; st_uploaded_bytes := 5;
     st_stored_bytes := 3; st_csum := replicate 32 x00 |}.
Definition sample_env (st : result str DbState) (r : result str BackupStats) (now : Z) : db_env :=
  {| de_state := st; de_time := now; de_backup := fun _ _ _ _ _ _ _ => r; de_note_time := now;
     de_check_time := now; de_full_time := now |}.

Definition standalone : DbState := replica Standalone true true.

Lemma sql_run_accounts_witness :
  exists t, accounted t = 3
    /\ backup_sql_to_pbs dec sample_config (L "c") [L "a"; L "b"; L "d"] PkPointInTime RunFull
         (L "s") (L "bk") None true (L "job") (Ok tt)
         [sample_env (Ok standalone) (Ok sample_stats) 100;
          sample_env (Err (L "login failed")) (Ok sample_stats) 101;
          sample_env (Ok (replica Secondary true true)) (Ok sample_stats) 102] sample_disk
       = (conclude dec t, t_disk t, t_events t)
    /\ conclude dec t = Err (L "backed up 1, but 1 database(s) failed: [b]: login failed").
Proof.
  destruct (sql_run_accounts dec sample_config (L "c") [L "a"; L "b"; L "d"] PkPointInTime RunFull
    (L "s") (L "bk") None true (L "job")
    [sample_env (Ok standalone) (Ok sample_stats) 100;
     sample_env (Err (L "login failed")) (Ok sample_stats) 101;
     sample_env (Ok (replica Secondary true true)) (Ok sample_stats) 102]
    sample_disk sample_conn None) as (t & E & Ha & _).
  - discriminate.
  - reflexivity.
  - reflexivity.
  - vm_compute. reflexivity.
  - exists t. split; [exact Ha|]. split; [exact E|].
    apply (f_equal (fun x => x.1.1)) in E. cbn [fst] in E. rewrite <- E. vm_compute. reflexivity.
Defined.

Definition no_chain_msg : str := L "(code: 4214, state: 1)".

Lemma no_chain_escalates_witness :
  let e1 := sample_env (Ok standalone) (Err no_chain_msg) 1000 in
  let e2 := sample_env (Ok standalone) (Err no_chain_msg) 4600 in
  let t := start_tally (L "job") sample_disk [] in
  let t1 := db_error (L "job") (L "a") e1 standalone Log no_chain_msg t in
  length (t_warned t1) = 1%nat
  /\ exists r, t_failed (db_error (L "job") (L "a") e2 standalone Log no_chain_msg t1)
               = t_failed t1 ++ [r].
Proof.
  intros e1 e2 t t1. split; [vm_compute; reflexivity|].
  pose proof (no_chain_escalates (L "job") (L "a") standalone e1 e2 no_chain_msg no_chain_msg t
                eq_refl eq_refl eq_refl eq_refl eq_refl) as (_ & _ & Hr).
  exact Hr.
Defined.

Lemma promoted_full_counts_for_all_witness :
  let e1 := sample_env (Ok (replica Standalone true false)) (Ok sample_stats) 100 in
  let e2 := sample_env (Ok standalone) (Ok sample_stats) 101 in
  In (EvLog (L "backing up [hr] to PBS (group bk-hr-log)"))
    (t_events (backup_dbs sample_config sample_conn PkPointInTime RunLog (L "s") (L "bk") (L "job")
                 None true [(L "sales", e1); (L "hr", e2)] (start_tally (L "job") sample_disk []))).
Proof.
  intros e1 e2.
  destruct (pbs_session_params sample_config (L "s") (sql_group_and_archive (L "bk") (L "sales") Full).1
              (L "host") 100) as [p1|] eqn:E1; [|vm_compute in E1; discriminate].
  destruct (pbs_session_params sample_config (L "s") (sql_group_and_archive (L "bk") (L "hr") Log).1
              (L "host") 101) as [p2|] eqn:E2; [|vm_compute in E2; discriminate].
  apply (promoted_full_counts_for_all sample_config sample_conn (L "s") (L "bk") (L "job") None true
           (L "sales") (L "hr") e1 e2 (replica Standalone true false) standalone p1 p2 sample_stats
           sample_disk); try reflexivity; assumption.
Defined.

End witnesses.
