(* ===== verification/Runs.v ===== *)
(** Runs of jobs: the run registry, [run_job_kind], [run_inner] and [do_backup]
    of [pbsgui-engine/src/backup.rs], the counters of [metrics.rs], the
    notification of [notify.rs], change detection ([changedet.rs]) and how
    [scheduler.rs] and [handler.rs] record a run.

    What a run does with the outside world is the record [run_env]; [run_inner]
    is then a function of it.  The registry is shared by concurrent runs and
    requests: [reg_step] is its step relation, one step per critical section.
    The theorems: at most one run of a job holds the registry at a time; a
    status entry is never left behind; the entry of a run can get lost to the
    end of the run before it; what each outcome records, in particular that a
    cancellation never hides a backup that was committed; and that change
    detection skips only after a backup that succeeded. *)

From Stdlib Require Import ZArith Lia Strings.Byte Ascii String.
From stdpp Require Import base tactics option numbers gmap sets list relations.
From S2P Require Import Prelude Text Base Blob Index Repository HttpApi Session Upload Jobs Sched Stores Plan.
Open Scope Z_scope.

(** ** A file backup *)

Record Skipped := { sk_path : str; sk_reason : str }.
Record ArchiveReport := {
  ar_entries : list (str * Z); ar_skipped : list Skipped; ar_warnings : list str }.

Definition ARCHIVE_NAME : str := L "files.didx".
Definition MAX_SKIPPED_LOGGED : nat := 100.
Definition MAX_SKIPPED_NAMED : nat := 3.

Definition skipped_summary (skipped : list Skipped) : str :=
  let named := map (fun s => sk_path s ++ L " (" ++ sk_reason s ++ L ")")
                 (take MAX_SKIPPED_NAMED skipped) in
  let more := (length skipped - MAX_SKIPPED_NAMED)%nat in
  L "skipped " ++ length_str skipped ++ L " file(s) that could not be read: "
  ++ join (L "; ") named
  ++ (if (0 <? more)%nat then L "; and " ++ dec (Z.of_nat more) ++ L " more (see the run log)"
      else []).

Definition log_report (r : ArchiveReport) : list run_event :=
  map (fun w => EvLog (L "warning: " ++ w)) (ar_warnings r)
  ++ map (fun s => EvLog (L "skipped " ++ sk_path s ++ L ": " ++ sk_reason s))
       (take MAX_SKIPPED_LOGGED (ar_skipped r))
  ++ (if (MAX_SKIPPED_LOGGED <? length (ar_skipped r))%nat
      then [EvLog (L "... and " ++ dec (Z.of_nat (length (ar_skipped r) - MAX_SKIPPED_LOGGED))
                   ++ L " more skipped")]
      else []).

(** Why archiving failed; [is_broken_pipe] looks for a broken pipe in the chain
    of causes. *)
Record archive_error := { ae_text : str; ae_broken_pipe : bool }.

(** What the calls of a file backup answer: the clock, the upload, and the
    archiver thread ([Err] if it panicked). *)
Record files_env := {
  fe_time : Z;
  fe_upload : SessionParams -> option CryptConfig -> bool -> result PbsError BackupStats;
  fe_archived : result str (result archive_error ArchiveReport) }.

Definition is_broken_pipe (e : archive_error) : bool := ae_broken_pipe e.

Definition backup_files_to_pbs `{DebugFmt} (c : config_state) (job : Job) (sources : list str)
    (server_id backup_id : str) (crypt : option CryptConfig) (e : files_env) :
    result str (BackupStats * ArchiveReport) * list run_event :=
  match sources with
  | [] => (Err (L "job has no sources"), [])
  | _ =>
      let n := length_str sources in
      let ev1 := [EvLog (L "archiving " ++ n ++ L " source(s)");
                  EvPhase (L "scanning " ++ n ++ L " source(s)...")] in
      match pbs_session_params c server_id backup_id (L "host") (fe_time e) with
      | Err x => (Err x, ev1)
      | Ok params =>
          let ev2 := ev1 ++ [EvPhase (L "archiving " ++ n ++ L " source(s)...")] in
          let upload := fe_upload e params crypt (j_compress job) in
          match fe_archived e with
          | Err x => (Err (L "archive task failed: " ++ x), ev2)
          | Ok archived =>
              match archived, upload with
              | Ok report, Ok stats => (Ok (stats, report), ev2 ++ log_report report)
              | Err a, Err u =>
                  if is_broken_pipe a then (Err (show_error u), ev2)
                  else (Err (L "archiving the sources failed: " ++ ae_text a), ev2)
              | Err a, Ok _ => (Err (L "archiving the sources failed: " ++ ae_text a), ev2)
              | Ok _, Err u => (Err (show_error u), ev2)
              end
          end
      end
  end.

(** ** Change detection (changedet.rs) *)

Definition fp_path (job_id : str) : str := job_id ++ L ".fp".

(** The recorded fingerprint, if the file holds 32 bytes. *)
Definition fp_load (d : disk) (job_id : str) : option bytes :=
  b ← d_files d !! fp_path job_id;
  if (length b =? 32)%nat then Some b else None.

Definition fp_save (d : disk) (job_id : str) (fp : bytes) : disk :=
  if d_writable d
  then {| d_files := <[fp_path job_id := fp]> (d_files d); d_writable := true |} else d.

(** ** One run *)

Record run_env := {
  re_fingerprint : list str -> list str -> result str bytes;
  re_files : files_env;
  re_connected : result str unit;
  re_dbs : list db_env;
  re_folder : list (Z * result str Z) }.

Section inner.
Context `{SchedJson} `{DebugFmt} `{Base64} `{HashLib}.
Variable human_bytes : Z -> str.

Definition do_backup (c : config_state) (job : Job) (run : SqlRun) (e : run_env) (d : disk) :
    result str Outcome * disk * list run_event :=
  match j_source job, j_destination job with
  | Files sources excludes _, Pbs server_id backup_id =>
      match (for_job job (c_world c)).1 with
      | Err x => (Err x, d, [])
      | Ok crypt =>
          let '(r, ev) := backup_files_to_pbs c job sources server_id backup_id crypt (re_files e) in
          (match r with
           | Err x => Err x
           | Ok (stats, report) =>
               let summary :=
                 L "backed up " ++ human_bytes (st_bytes stats) ++ L ": " ++ dec (st_chunks stats)
                 ++ L " chunks, " ++ dec (st_uploaded stats) ++ L " uploaded, "
                 ++ dec (st_reused stats) ++ L " reused"
                 ++ (match ar_skipped report with [] => [] | s => L "; " ++ skipped_summary s end)
                 ++ (match ar_warnings report with
                     | [] => [] | w => L "; " ++ length_str w ++ L " warning(s)" end) in
               Ok (summary, Some stats,
                   negb (bool_decide (length (ar_skipped report) = 0%nat))
                   || negb (bool_decide (ar_warnings report = [])))
           end, d, ev)
      end
  | Sql connection_id databases protection, Pbs server_id backup_id =>
      match (for_job job (c_world c)).1 with
      | Err x => (Err x, d, [])
      | Ok crypt =>
          backup_sql_to_pbs human_bytes c connection_id databases (plan_kind protection) run
            server_id backup_id crypt (j_compress job) (j_id job) (re_connected e) (re_dbs e) d
      end
  | Sql connection_id databases _, Folder path =>
      let '(r, ev) := backup_sql_to_folder human_bytes c connection_id databases path (re_folder e) in
      (match r with Ok (m, st) => Ok (m, st, false) | Err x => Err x end, d, ev)
  | Files _ _ _, Folder _ =>
      (Err (L "backing up files to a folder is not supported yet"), d, [])
  end.

Definition job_fingerprint (job : Job) (e : run_env) : result str (option bytes) :=
  match j_source job with
  | Files sources excludes true => fp ← re_fingerprint e sources excludes; Ok (Some fp)
  | _ => Ok None
  end.

Definition run_inner (c : config_state) (job : Job) (run : SqlRun) (e : run_env) (d : disk) :
    result str Outcome * disk * list run_event :=
  match job_fingerprint job e with
  | Err x => (Err x, d, [])
  | Ok fingerprint =>
      if bool_decide (is_Some fingerprint /\ fp_load d (j_id job) = fingerprint) then
        (Ok (L "no changes since last run; skipped", None, false), d,
         [EvLog (L "no source changes since last run; skipping backup")])
      else
        match do_backup c job run e d with
        | (Err x, d1, ev) => (Err x, d1, ev)
        | (Ok (summary, stats, warning), d1, ev) =>
            let d2 := match fingerprint with
                      | Some fp => fp_save d1 (j_id job) fp
                      | None => d1
                      end in
            (Ok (summary, stats, warning), d2, ev ++ [EvLog summary])
        end
  end.

End inner.

(** ** Metrics (metrics.rs) *)

(** The bits of an [f64]; the program only stores and prints these. *)
Definition f64 := Z.
Definition f64_zero : f64 := 0.

Inductive RunResult := Success | RSkipped | Failure.

(** Point-in-time chain status of one database, from the health check. *)
Record SqlDbStatus := {
  sd_database : str; sd_chain_latest : option Z; sd_stalled : bool; sd_full_count : Z;
  sd_log_count : Z; sd_pit_window_secs : option Z }.

Record JobRuntime := {
  jr_last_run : option Z; jr_last_success : option Z; jr_last_ok : option bool;
  jr_last_duration : option f64;
  jr_last_bytes : option Z; jr_last_chunks : option Z; jr_last_uploaded : option Z;
  jr_last_reused : option Z; jr_last_uploaded_bytes : option Z; jr_last_stored_bytes : option Z;
  jr_runs_success : Z; jr_runs_failure : Z; jr_runs_skipped : Z; jr_bytes_total : Z;
  jr_running : bool; jr_progress_bytes : Z; jr_progress_total : Z; jr_throughput : f64;
  jr_databases : list SqlDbStatus }.

Definition runtime0 : JobRuntime :=
  {| jr_last_run := None; jr_last_success := None; jr_last_ok := None; jr_last_duration := None;
     jr_last_bytes := None; jr_last_chunks := None; jr_last_uploaded := None;
     jr_last_reused := None; jr_last_uploaded_bytes := None; jr_last_stored_bytes := None;
     jr_runs_success := 0; jr_runs_failure := 0; jr_runs_skipped := 0; jr_bytes_total := 0;
     jr_running := false; jr_progress_bytes := 0; jr_progress_total := 0;
     jr_throughput := f64_zero; jr_databases := [] |}.

Abbreviation metrics := (gmap str JobRuntime).

(** [entry(job_id).or_default()]. *)
Definition entry (m : metrics) (id : str) : JobRuntime := default runtime0 (m !! id).

Definition set_running (id : str) (running : bool) (m : metrics) : metrics :=
  let j := entry m id in
  <[id := {| jr_last_run := jr_last_run j; jr_last_success := jr_last_success j;
             jr_last_ok := jr_last_ok j; jr_last_duration := jr_last_duration j;
             jr_last_bytes := jr_last_bytes j; jr_last_chunks := jr_last_chunks j;
             jr_last_uploaded := jr_last_uploaded j; jr_last_reused := jr_last_reused j;
             jr_last_uploaded_bytes := jr_last_uploaded_bytes j;
             jr_last_stored_bytes := jr_last_stored_bytes j;
             jr_runs_success := jr_runs_success j; jr_runs_failure := jr_runs_failure j;
             jr_runs_skipped := jr_runs_skipped j; jr_bytes_total := jr_bytes_total j;
             jr_running := running; jr_progress_bytes := jr_progress_bytes j;
             jr_progress_total := jr_progress_total j; jr_throughput := jr_throughput j;
             jr_databases := jr_databases j |}]> m.

Definition record_progress (id : str) (p : BackupProgress) (throughput : f64) (m : metrics) :
    metrics :=
  let j := entry m id in
  <[id := {| jr_last_run := jr_last_run j; jr_last_success := jr_last_success j;
             jr_last_ok := jr_last_ok j; jr_last_duration := jr_last_duration j;
             jr_last_bytes := jr_last_bytes j; jr_last_chunks := jr_last_chunks j;
             jr_last_uploaded := jr_last_uploaded j; jr_last_reused := jr_last_reused j;
             jr_last_uploaded_bytes := jr_last_uploaded_bytes j;
             jr_last_stored_bytes := jr_last_stored_bytes j;
             jr_runs_success := jr_runs_success j; jr_runs_failure := jr_runs_failure j;
             jr_runs_skipped := jr_runs_skipped j; jr_bytes_total := jr_bytes_total j;
             jr_running := true; jr_progress_bytes := bp_bytes_done p;
             jr_progress_total := bp_total_bytes p; jr_throughput := throughput;
             jr_databases := jr_databases j |}]> m.

Definition metrics_record_run (id : str) (result : RunResult) (duration : f64)
    (stats : option BackupStats) (now : Z) (m : metrics) : metrics :=
  let j := entry m id in
  let last f old := match stats with Some s => Some (f s) | None => old end in
  <[id := {| jr_last_run := Some now;
             jr_last_success := match result with Success => Some now | _ => jr_last_success j end;
             jr_last_ok := Some (match result with Failure => false | _ => true end);
             jr_last_duration := Some duration;
             jr_last_bytes := last st_bytes (jr_last_bytes j);
             jr_last_chunks := last st_chunks (jr_last_chunks j);
             jr_last_uploaded := last st_uploaded (jr_last_uploaded j);
             jr_last_reused := last st_reused (jr_last_reused j);
             jr_last_uploaded_bytes := last st_uploaded_bytes (jr_last_uploaded_bytes j);
             jr_last_stored_bytes := last st_stored_bytes (jr_last_stored_bytes j);
             jr_runs_success := match result with
                                | Success => add64 (jr_runs_success j) 1 | _ => jr_runs_success j end;
             jr_runs_failure := match result with
                                | Failure => add64 (jr_runs_failure j) 1 | _ => jr_runs_failure j end;
             jr_runs_skipped := match result with
                                | RSkipped => add64 (jr_runs_skipped j) 1 | _ => jr_runs_skipped j end;
             jr_bytes_total := match stats with
                               | Some s => add64 (jr_bytes_total j) (st_bytes s)
                               | None => jr_bytes_total j end;
             jr_running := false; jr_progress_bytes := 0; jr_progress_total := 0;
             jr_throughput := f64_zero; jr_databases := jr_databases j |}]> m.

Definition set_sql_status (id : str) (databases : list SqlDbStatus) (m : metrics) : metrics :=
  let j := entry m id in
  <[id := {| jr_last_run := jr_last_run j; jr_last_success := jr_last_success j;
             jr_last_ok := jr_last_ok j; jr_last_duration := jr_last_duration j;
             jr_last_bytes := jr_last_bytes j; jr_last_chunks := jr_last_chunks j;
             jr_last_uploaded := jr_last_uploaded j; jr_last_reused := jr_last_reused j;
             jr_last_uploaded_bytes := jr_last_uploaded_bytes j;
             jr_last_stored_bytes := jr_last_stored_bytes j;
             jr_runs_success := jr_runs_success j; jr_runs_failure := jr_runs_failure j;
             jr_runs_skipped := jr_runs_skipped j; jr_bytes_total := jr_bytes_total j;
             jr_running := jr_running j; jr_progress_bytes := jr_progress_bytes j;
             jr_progress_total := jr_progress_total j; jr_throughput := jr_throughput j;
             jr_databases := databases |}]> m.

(** ** Notifications (notify.rs) *)

Record JobOutcome := {
  jo_job_name : str; jo_kind : str; jo_databases : list str; jo_success : bool; jo_status : str;
  jo_message : str; jo_stats : option BackupStats }.

Definition headline (o : JobOutcome) : str :=
  let verb := if jo_success o then L "succeeded" else L "FAILED" in
  let of_ := match jo_databases o with [] => [] | d => L " of " ++ join (L ", ") d end in
  jo_job_name o ++ L ": " ++ jo_kind o ++ of_ ++ L " " ++ verb.

Record NotifySettings := { ns_on_success : bool; ns_on_failure : bool; ns_email : bool; ns_webhook : bool }.

(** The messages sent: a subject by e-mail, the outcome to the webhook. *)
Inductive notification := Email (subject : str) (o : JobOutcome) | Webhook (o : JobOutcome).

Definition job_finished (settings : NotifySettings) (o : JobOutcome) : list notification :=
  let wanted := if jo_success o then ns_on_success settings else ns_on_failure settings in
  if negb wanted then []
  else (if ns_email settings then [Email (L "[pbsgui] " ++ headline o) o] else [])
       ++ (if ns_webhook settings then [Webhook o] else []).

(** What the notification says ([notify_outcome]). *)
Definition outcome_of (job : Job) (run : SqlRun) (outcome : result str Outcome) : JobOutcome :=
  let '(kind, databases) :=
    match j_source job with
    | Sql _ databases _ =>
        (match run with RunFull => L "full backup" | RunLog => L "log backup" end, databases)
    | Files _ _ _ => (L "file backup", [])
    end in
  match outcome with
  | Ok (message, stats, warning) =>
      {| jo_job_name := j_name job; jo_kind := kind; jo_databases := databases; jo_success := true;
         jo_status := if warning then L "warning"
                      else if bool_decide (is_Some stats) then L "ok" else L "no-change";
         jo_message := message; jo_stats := stats |}
  | Err e =>
      {| jo_job_name := j_name job; jo_kind := kind; jo_databases := databases; jo_success := false;
         jo_status := L "error"; jo_message := e; jo_stats := None |}
  end.

Definition notify_outcome (settings : NotifySettings) (job : Job) (run : SqlRun)
    (outcome : result str Outcome) : list notification :=
  job_finished settings (outcome_of job run outcome).

(** ** The end of a run ([run_job_kind], after the run itself) *)

Record RunReport := { rr_message : str; rr_warning : bool }.
Definition plain_report (message : str) : RunReport := {| rr_message := message; rr_warning := false |}.
Definition report_status (r : RunReport) : str :=
  if rr_warning r then L "warning: " ++ rr_message r else L "ok".

Definition is_sql (job : Job) : bool :=
  match j_source job with Sql _ _ _ => true | Files _ _ _ => false end.

Record ended := {
  en_report : result str RunReport; en_disk : disk; en_metrics : metrics;
  en_notified : list notification; en_events : list run_event }.

Definition end_run `{SchedJson} (settings : NotifySettings) (job : Job) (run : SqlRun)
    (cancelled : bool) (outcome : result str Outcome) (now : Z) (duration : f64)
    (d : disk) (m : metrics) : ended :=
  if cancelled && negb (is_ok outcome) then
    {| en_report := Ok (plain_report (L "cancelled"));
       en_disk := if is_sql job then record_outcome d (j_id job) run false now else d;
       en_metrics := metrics_record_run (j_id job) Failure duration None now m;
       en_notified := []; en_events := [EvLog (L "backup cancelled")] |}
  else
    let result := match outcome with
                  | Ok (_, Some _, _) => Success
                  | Ok (_, None, _) => RSkipped
                  | Err _ => Failure
                  end in
    let stats := match outcome with Ok (_, s, _) => s | Err _ => None end in
    {| en_report := match outcome with
                    | Ok (message, _, warning) => Ok {| rr_message := message; rr_warning := warning |}
                    | Err e => Err e
                    end;
       en_disk := if is_sql job then record_outcome d (j_id job) run (is_ok outcome) now else d;
       en_metrics := metrics_record_run (j_id job) result duration stats now m;
       en_notified := notify_outcome settings job run outcome; en_events := [] |}.

(** What [scheduler::run_due] and [handler::run_job] then store for the job. *)
Definition recorded_status (r : result str RunReport) : str :=
  match r with Ok report => report_status report | Err e => e end.

(** ** The registry of runs *)

Record RunStatus := { rs_started : Z; rs_fraction : f64; rs_message : str }.

(** Where a run is: at work, or ended and dropping its guard, which first
    removes the claim and then, under another lock, the status. *)
Inductive run_phase := AtWork | DropClaim | DropStatus.

Record active := { ac_job : Job; ac_run : SqlRun; ac_token : nat; ac_phase : run_phase }.
Definition ac_id (a : active) : str := j_id (ac_job a).
Definition with_phase (p : run_phase) (a : active) : active :=
  {| ac_job := ac_job a; ac_run := ac_run a; ac_token := ac_token a; ac_phase := p |}.

Record registry := {
  g_running : gmap str nat;  (* job id to cancellation token *)
  g_status : gmap str RunStatus;
  g_cancelled : gset nat; g_next : nat;
  g_metrics : metrics; g_disk : disk;
  g_active : list active;
  g_reports : list (str * result str RunReport); g_notified : list notification }.

Definition registry0 (d : disk) : registry :=
  {| g_running := ∅; g_status := ∅; g_cancelled := ∅; g_next := 0; g_metrics := ∅; g_disk := d;
     g_active := []; g_reports := []; g_notified := [] |}.

(** [try_claim_run], with the run it starts and [metrics::set_running]. *)
Definition try_claim_run (job : Job) (run : SqlRun) (now : Z) (g : registry) : option registry :=
  match g_running g !! j_id job with
  | Some _ => None
  | None =>
      Some {| g_running := <[j_id job := g_next g]> (g_running g);
              g_status := <[j_id job := {| rs_started := now; rs_fraction := f64_zero;
                                           rs_message := L "starting..." |}]> (g_status g);
              g_cancelled := g_cancelled g; g_next := S (g_next g);
              g_metrics := set_running (j_id job) true (g_metrics g); g_disk := g_disk g;
              g_active := {| ac_job := job; ac_run := run; ac_token := g_next g; ac_phase := AtWork |}
                          :: g_active g;
              g_reports := g_reports g; g_notified := g_notified g |}
  end.

Definition refuse_run (id : str) (g : registry) : registry :=
  {| g_running := g_running g; g_status := g_status g; g_cancelled := g_cancelled g;
     g_next := g_next g; g_metrics := g_metrics g; g_disk := g_disk g; g_active := g_active g;
     g_reports := (id, Ok (plain_report (L "skipped: a run is already in progress"))) :: g_reports g;
     g_notified := g_notified g |}.

Definition cancel_job (id : str) (g : registry) : bool * registry :=
  match g_running g !! id with
  | Some token =>
      (true, {| g_running := g_running g; g_status := g_status g;
                g_cancelled := {[ token ]} ∪ g_cancelled g; g_next := g_next g;
                g_metrics := g_metrics g; g_disk := g_disk g; g_active := g_active g;
                g_reports := g_reports g; g_notified := g_notified g |})
  | None => (false, g)
  end.

Definition set_run_status (id : str) (fraction : f64) (message : str) (s : gmap str RunStatus) :
    gmap str RunStatus :=
  match s !! id with
  | Some r => <[id := {| rs_started := rs_started r; rs_fraction := fraction;
                         rs_message := message |}]> s
  | None => s
  end.

Definition running_snapshot (g : registry) : list (str * RunStatus) := map_to_list (g_status g).

(** A progress report: the status entry and the live gauges. *)
Definition report_progress (id : str) (fraction : f64) (message : str)
    (p : option (BackupProgress * f64)) (g : registry) : registry :=
  {| g_running := g_running g; g_status := set_run_status id fraction message (g_status g);
     g_cancelled := g_cancelled g; g_next := g_next g;
     g_metrics := match p with
                  | Some (bp, t) => record_progress id bp t (g_metrics g)
                  | None => g_metrics g
                  end;
     g_disk := g_disk g; g_active := g_active g; g_reports := g_reports g;
     g_notified := g_notified g |}.

(** The run [a], between [l1] and [l2], ends. *)
Definition finish_run `{SchedJson} (settings : NotifySettings) (l1 : list active) (a : active)
    (l2 : list active) (outcome : result str Outcome) (now : Z) (duration : f64) (d : disk)
    (g : registry) : registry :=
  let cancelled := bool_decide (ac_token a ∈ g_cancelled g) in
  let e := end_run settings (ac_job a) (ac_run a) cancelled outcome now duration d (g_metrics g) in
  {| g_running := g_running g; g_status := g_status g; g_cancelled := g_cancelled g;
     g_next := g_next g; g_metrics := en_metrics e; g_disk := en_disk e;
     g_active := l1 ++ with_phase DropClaim a :: l2;
     g_reports := (ac_id a, en_report e) :: g_reports g;
     g_notified := g_notified g ++ en_notified e |}.

Definition drop_claim (l1 : list active) (a : active) (l2 : list active) (g : registry) : registry :=
  {| g_running := delete (ac_id a) (g_running g); g_status := g_status g;
     g_cancelled := g_cancelled g; g_next := g_next g; g_metrics := g_metrics g;
     g_disk := g_disk g; g_active := l1 ++ with_phase DropStatus a :: l2;
     g_reports := g_reports g; g_notified := g_notified g |}.

Definition drop_status (l1 : list active) (a : active) (l2 : list active) (g : registry) : registry :=
  {| g_running := g_running g; g_status := delete (ac_id a) (g_status g);
     g_cancelled := g_cancelled g; g_next := g_next g; g_metrics := g_metrics g;
     g_disk := g_disk g; g_active := l1 ++ l2;
     g_reports := g_reports g; g_notified := g_notified g |}.

(** Files of the state directory that are not the job's. *)
Definition other_files_same (id : str) (d d' : disk) : Prop :=
  d_writable d' = d_writable d
  /\ forall q, q <> sched_path id -> q <> fp_path id -> d_files d' !! q = d_files d !! q.

(** One step of the engine.  A run may end with any outcome, having changed only
    its job's state files; or, once its token is cancelled, with the
    cancellation. *)
Inductive reg_step `{SchedJson} (settings : NotifySettings) : registry -> registry -> Prop :=
| reg_start g job run now g' :
    try_claim_run job run now g = Some g' -> reg_step settings g g'
| reg_refuse g job run now :
    try_claim_run job run now g = None -> reg_step settings g (refuse_run (j_id job) g)
| reg_cancel g id : reg_step settings g (cancel_job id g).2
| reg_progress g a fraction message p :
    a ∈ g_active g -> ac_phase a = AtWork ->
    reg_step settings g (report_progress (ac_id a) fraction message p g)
| reg_finish g l1 a l2 outcome now duration d :
    g_active g = l1 ++ a :: l2 -> ac_phase a = AtWork ->
    other_files_same (ac_id a) (g_disk g) d ->
    (outcome = Err (L "cancelled by request") -> ac_token a ∈ g_cancelled g) ->
    reg_step settings g (finish_run settings l1 a l2 outcome now duration d g)
| reg_drop_claim g l1 a l2 :
    g_active g = l1 ++ a :: l2 -> ac_phase a = DropClaim ->
    reg_step settings g (drop_claim l1 a l2 g)
| reg_drop_status g l1 a l2 :
    g_active g = l1 ++ a :: l2 -> ac_phase a = DropStatus ->
    reg_step settings g (drop_status l1 a l2 g).

(** ** Lemmas: the registry *)

(** The runs that hold their job's claim. *)
Definition holds (a : active) : bool :=
  match ac_phase a with DropStatus => false | _ => true end.
Definition claim_of (a : active) : str * nat := (ac_id a, ac_token a).
Definition claims (l : list active) : list (str * nat) := map claim_of (List.filter holds l).
#[global] Arguments claims : simpl never.

Record reg_inv (g : registry) : Prop := {
  inv_one : NoDup (map fst (claims (g_active g)));
  inv_running : forall id tok, g_running g !! id = Some tok <-> In (id, tok) (claims (g_active g));
  inv_fresh : Forall (fun t => (t < g_next g)%nat) (map ac_token (g_active g));
  inv_tokens : NoDup (map ac_token (g_active g));
  inv_status : forall id, is_Some (g_status g !! id) -> In id (map ac_id (g_active g)) }.

Lemma claims_split l1 a l2 :
  claims (l1 ++ a :: l2) = claims l1 ++ (if holds a then [claim_of a] else []) ++ claims l2.
Proof.
  unfold claims. rewrite List.filter_app, map_app. cbn. destruct (holds a); reflexivity.
Qed.

(** A change of phase that keeps the claim. *)
Lemma claims_phase l1 a l2 p :
  holds a = true -> holds (with_phase p a) = true ->
  claims (l1 ++ with_phase p a :: l2) = claims (l1 ++ a :: l2).
Proof. intros H1 H2. now rewrite !claims_split, H1, H2. Qed.

Lemma map_phase {B} (f : active -> B) l1 a l2 p :
  f (with_phase p a) = f a -> map f (l1 ++ with_phase p a :: l2) = map f (l1 ++ a :: l2).
Proof. intros E. rewrite !map_app. cbn. now rewrite E. Qed.

Lemma claims_cons a l :
  claims (a :: l) = (if holds a then [claim_of a] else []) ++ claims l.
Proof. exact (claims_split [] a l). Qed.

Lemma set_run_status_dom id f m s id' :
  is_Some (set_run_status id f m s !! id') -> is_Some (s !! id').
Proof.
  unfold set_run_status. destruct (s !! id) as [r|] eqn:E; [|auto].
  destruct (base.decide (id = id')) as [<-|Hne]; [rewrite E; eauto|]. now rewrite lookup_insert_ne.
Qed.

Section registry_lemmas.
Context `{SchedJson}.

Lemma inv_registry0 d : reg_inv (registry0 d).
Proof.
  split; cbn; try constructor.
  - rewrite lookup_empty. discriminate.
  - intros [].
  - intros id [s Hs]. rewrite lookup_empty in Hs. discriminate.
Qed.

Lemma inv_start job run now g g' :
  reg_inv g -> try_claim_run job run now g = Some g' -> reg_inv g'.
Proof.
  intros [H1 H2 H3 H4 H5]. unfold try_claim_run.
  destruct (g_running g !! j_id job) eqn:Er; [discriminate|]. intros [= <-].
  split; cbn; rewrite ?claims_cons; cbn.
  - apply NoDup_cons. split; [|exact H1]. rewrite list_elem_of_In. intros Hin.
    apply in_map_iff in Hin as ((id & tok) & E & Hin). change (id = j_id job) in E. subst id.
    apply H2 in Hin. congruence.
  - intros id tok. destruct (base.decide (j_id job = id)) as [<-|Hne].
    + rewrite lookup_insert_eq. split; [intros [= <-]; now left|]. intros [[= ->]|Hin]; [reflexivity|].
      apply H2 in Hin. congruence.
    + rewrite lookup_insert_ne by exact Hne. rewrite H2. split; [now right|].
      intros [[= E _]|Hin]; [contradiction | exact Hin].
  - constructor; [lia|]. eapply Forall_impl; [exact H3|]. cbn. lia.
  - apply NoDup_cons. split; [|exact H4]. rewrite list_elem_of_In. intros Hin.
    rewrite List.Forall_forall in H3. specialize (H3 _ Hin). lia.
  - intros id Hs. destruct (base.decide (j_id job = id)) as [<-|Hne]; [now left|]. right. apply H5.
    now rewrite lookup_insert_ne in Hs.
Qed.

Lemma inv_end settings l1 a l2 o now dur d g :
  reg_inv g -> g_active g = l1 ++ a :: l2 -> ac_phase a = AtWork ->
  reg_inv (finish_run settings l1 a l2 o now dur d g).
Proof.
  intros [H1 H2 H3 H4 H5] Ea Hp. rewrite Ea in *.
  assert (Hc : claims (l1 ++ with_phase DropClaim a :: l2) = claims (l1 ++ a :: l2))
    by (apply claims_phase; [unfold holds; now rewrite Hp | reflexivity]).
  split; cbn; rewrite ?Hc, ?(map_phase ac_token), ?(map_phase ac_id) by reflexivity; auto.
Qed.

Lemma inv_drop_claim l1 a l2 g :
  reg_inv g -> g_active g = l1 ++ a :: l2 -> ac_phase a = DropClaim -> reg_inv (drop_claim l1 a l2 g).
Proof.
  intros [H1 H2 H3 H4 H5] Ea Hp. rewrite Ea in *.
  assert (Hh : holds a = true) by (unfold holds; now rewrite Hp).
  rewrite claims_split, Hh in H1, H2. cbn [app] in H1, H2. rewrite map_app in H1. cbn [map] in H1.
  assert (Hc : claims (l1 ++ with_phase DropStatus a :: l2) = claims l1 ++ claims l2)
    by now rewrite claims_split.
  split; cbn; rewrite ?Hc, ?(map_phase ac_token), ?(map_phase ac_id) by reflexivity; auto.
  - rewrite map_app. change (_ :: ?l) with ([(claim_of a).1] ++ l) in H1.
    exact (NoDup_drop_middle _ _ _ H1).
  - intros id tok. destruct (base.decide (ac_id a = id)) as [<-|Hne].
    + rewrite lookup_delete_eq. split; [discriminate|]. intros Hin. exfalso.
      apply (in_map fst) in Hin. cbn in Hin. rewrite map_app in Hin. apply list_elem_of_In in Hin.
      apply (NoDup_middle _ [ac_id a]) in H1. apply NoDup_cons in H1 as [Hn _]. contradiction.
    + rewrite lookup_delete_ne by exact Hne. rewrite H2, !in_app_iff. cbn.
      unfold claim_of at 1. split; [intros [?|[[= E _]|?]]; tauto | tauto].
Qed.

Lemma inv_drop_status l1 a l2 g :
  reg_inv g -> g_active g = l1 ++ a :: l2 -> ac_phase a = DropStatus -> reg_inv (drop_status l1 a l2 g).
Proof.
  intros [H1 H2 H3 H4 H5] Ea Hp. rewrite Ea in *.
  assert (Hc : claims (l1 ++ a :: l2) = claims (l1 ++ l2)).
  { rewrite claims_split. unfold holds. rewrite Hp. unfold claims. now rewrite List.filter_app, map_app. }
  rewrite Hc in *. split; cbn; auto.
  - rewrite map_app in *. cbn in H3. apply Forall_app in H3 as [Ha Hb]. apply Forall_app.
    split; [exact Ha|]. now apply Forall_inv_tail in Hb.
  - rewrite map_app in *. cbn in H4. change (?x :: ?l) with ([x] ++ l) in H4.
    exact (NoDup_drop_middle _ _ _ H4).
  - intros id Hs. destruct (base.decide (ac_id a = id)) as [<-|Hne].
    + rewrite lookup_delete_eq in Hs. destruct Hs. discriminate.
    + rewrite lookup_delete_ne in Hs by exact Hne. specialize (H5 id Hs).
      rewrite map_app in H5 |- *. cbn in H5. rewrite in_app_iff in H5 |- *. cbn in H5. tauto.
Qed.

Lemma reg_inv_step settings g g' : reg_inv g -> reg_step settings g g' -> reg_inv g'.
Proof.
  intros Hi Hs. destruct Hs as [g job run now g' E | g job run now E | g id
    | g a f m p Ha Hp | g l1 a l2 o now dur d Ea Hp _ _ | g l1 a l2 Ea Hp | g l1 a l2 Ea Hp].
  - exact (inv_start _ _ _ _ _ Hi E).
  - destruct Hi. now split.
  - unfold cancel_job. destruct (g_running g !! id); [|exact Hi]. destruct Hi. now split.
  - destruct Hi. split; auto. intros id Hs. cbn in Hs. apply set_run_status_dom in Hs. auto.
  - now apply inv_end.
  - now apply inv_drop_claim.
  - now apply inv_drop_status.
Qed.

Definition reg_reachable (settings : NotifySettings) (d : disk) (g : registry) : Prop :=
  rtc (reg_step settings) (registry0 d) g.

Lemma reachable_inv settings d g : reg_reachable settings d g -> reg_inv g.
Proof.
  revert g. apply (rtc_ind_r (R := reg_step settings) reg_inv (registry0 d));
    [apply inv_registry0|].
  intros x y _ Hs Hi. exact (reg_inv_step settings x y Hi Hs).
Qed.

End registry_lemmas.

(** ** Lemmas: runs *)

(** Calls that agree on every backup done with a key. *)
Definition db_env_agree (e e' : db_env) : Prop :=
  de_state e = de_state e' /\ de_time e = de_time e' /\ de_note_time e = de_note_time e'
  /\ de_check_time e = de_check_time e' /\ de_full_time e = de_full_time e'
  /\ forall a p n k z t co, de_backup e a p n (Some k) z t co = de_backup e' a p n (Some k) z t co.

Definition env_agree (e e' : run_env) : Prop :=
  re_fingerprint e = re_fingerprint e' /\ re_connected e = re_connected e'
  /\ re_folder e = re_folder e' /\ Forall2 db_env_agree (re_dbs e) (re_dbs e')
  /\ fe_time (re_files e) = fe_time (re_files e')
  /\ fe_archived (re_files e) = fe_archived (re_files e')
  /\ forall p k z, fe_upload (re_files e) p (Some k) z = fe_upload (re_files e') p (Some k) z.

Section run_lemmas.
Context `{SchedJson} `{DebugFmt}.

Lemma backup_db_agree c conn plan run sid bid job_id k z db e e' t :
  db_env_agree e e' ->
  backup_db c conn plan run sid bid job_id (Some k) z db e t
  = backup_db c conn plan run sid bid job_id (Some k) z db e' t.
Proof.
  intros (E1 & E2 & E3 & E4 & E5 & E6). unfold backup_db, db_done, db_error.
  rewrite E1. destruct (de_state e') as [s|]; [|reflexivity].
  destruct (Plan.decide _ _ _ _) as [kind co note|]; [|reflexivity].
  destruct (sql_group_and_archive _ _ _) as [g a]. rewrite E2.
  destruct (pbs_session_params _ _ _ _ _) as [p|]; [|reflexivity]. rewrite E6.
  destruct (de_backup e' _ _ _ _ _ _ _); [now rewrite E5|]. now rewrite E3, E4.
Qed.

Lemma backup_dbs_agree c conn plan run sid bid job_id k z dbs env env' :
  Forall2 db_env_agree env env' -> forall t,
  backup_dbs c conn plan run sid bid job_id (Some k) z (zip dbs env) t
  = backup_dbs c conn plan run sid bid job_id (Some k) z (zip dbs env') t.
Proof.
  intros Hf. revert dbs. induction Hf as [|e e' env env' He Hf IH]; intros [|db dbs] t;
    try reflexivity.
  cbn. rewrite (backup_db_agree _ _ _ _ _ _ _ _ _ _ _ _ t He). apply IH.
Qed.

Context `{Base64} `{HashLib}.
Variable human_bytes : Z -> str.

(** A file backup touches no state file. *)
Lemma do_backup_files_disk c job run e d sources excludes cd o d' ev :
  j_source job = Files sources excludes cd ->
  do_backup human_bytes c job run e d = (o, d', ev) -> d' = d.
Proof.
  intros Es. unfold do_backup. rewrite Es. destruct (j_destination job); [|congruence].
  destruct (for_job _ _).1; [|congruence].
  destruct (backup_files_to_pbs _ _ _ _ _ _ _) as [r ev1]. congruence.
Qed.

End run_lemmas.

(** ** Properties *)

Section properties.
Context `{SchedJsonLaws}.

Lemma NoDup_map_inj {A B} (f : A -> B) l x y :
  NoDup (map f l) -> In x l -> In y l -> f x = f y -> x = y.
Proof.
  induction l as [|z l IH]; [intros _ []|]. cbn [map]. intros [Hz Hn]%NoDup_cons.
  assert (forall w, In w l -> f w <> f z) as Hw
    by (intros w Hw E; apply Hz, list_elem_of_In; rewrite <- E; apply in_map, Hw).
  intros [->|Hx] [->|Hy] E; [reflexivity | | |auto]; exfalso; eapply Hw; eauto.
Qed.

(** A run that holds its claim is the only one of its token. *)
Lemma holder_of g id tok :
  reg_inv g -> g_running g !! id = Some tok ->
  exists a, a ∈ g_active g /\ holds a = true /\ ac_id a = id /\ ac_token a = tok /\
    forall b, b ∈ g_active g -> ac_token b = tok -> b = a.
Proof.
  intros [H1 H2 H3 H4 H5] E. apply H2 in E. unfold claims in E.
  apply in_map_iff in E as (a & [= <- <-] & Hin). apply filter_In in Hin as [Hin Hh].
  exists a. split_and!; auto; [now apply list_elem_of_In|].
  intros b Hb Et. apply list_elem_of_In in Hb. exact (NoDup_map_inj _ _ _ _ H4 Hb Hin Et).
Qed.

(** C22: in every interleaving of runs, cancellations and progress reports, at
    most one run of a job holds its claim; cancelling a job trips the token of the
    run that holds its claim and of no other run, or changes nothing when no run
    does; every status entry belongs to a run that has not fully ended, and when all
    have, nothing is left. *)
Theorem one_run_per_job settings d g :
  reg_reachable settings d g ->
  NoDup (map fst (claims (g_active g))) /\ NoDup (map ac_token (g_active g))
  /\ (forall id, (cancel_job id g).1 = true <-> In id (map fst (claims (g_active g))))
  /\ (forall id, match cancel_job id g with
       | (true, g') =>
           g_active g' = g_active g /\ g_running g' = g_running g /\
           exists a, a ∈ g_active g /\ holds a = true /\ ac_id a = id /\
             forall b, b ∈ g_active g ->
               (ac_token b ∈ g_cancelled g' <-> b = a \/ ac_token b ∈ g_cancelled g)
       | (false, g') => g' = g
       end)
  /\ (forall id, is_Some (g_status g !! id) -> In id (map ac_id (g_active g)))
  /\ (g_active g = [] -> g_running g = ∅ /\ g_status g = ∅).
Proof.
  intros Hr. pose proof (reachable_inv _ _ _ Hr) as Hi. pose proof Hi as [H1 H2 H3 H4 H5].
  split_and!; auto.
  - intros id. unfold cancel_job. rewrite in_map_iff. split.
    + destruct (g_running g !! id) as [tok|] eqn:E; [|discriminate]. intros _.
      exists (id, tok). split; [reflexivity | now apply H2].
    + intros ([i tok] & <- & Hin). apply H2 in Hin. cbn. now rewrite Hin.
  - intros id. unfold cancel_job. destruct (g_running g !! id) as [tok|] eqn:E; [|reflexivity].
    split_and!; [reflexivity..|]. destruct (holder_of g id tok Hi E) as (a & Ha & Hh & Hid & <- & Hu).
    exists a. split_and!; auto. intros b Hb. cbn. rewrite elem_of_union, elem_of_singleton.
    split; (intros [Ht|Ht]; [left|right; exact Ht]); [exact (Hu b Hb Ht) | congruence].
  - intros E. rewrite E in *. split; apply map_empty.
    + intros id. destruct (g_running g !! id) as [tok|] eqn:Et; [|reflexivity].
      apply H2 in Et. destruct Et.
    + intros id. destruct (g_status g !! id) eqn:Et; [|reflexivity].
      destruct (H5 id); eauto.
Qed.

(** The status of a run is not always there while it runs: when a run of a
    job starts between the two removals at the end of the one before it, the
    second removal takes the new run's entry, and the run stays invisible. *)
Theorem status_can_be_lost settings d job :
  exists g a, reg_reachable settings d g /\ a ∈ g_active g /\ ac_id a = j_id job
    /\ ac_phase a = AtWork /\ is_Some (g_running g !! j_id job)
    /\ g_status g !! j_id job = None.
Proof.
  pose (run := RunFull). pose (now := 0).
  set (o := Ok (L "done", None, false) : result str Outcome).
  destruct (try_claim_run job run now (registry0 d)) as [g1|] eqn:E1; [|discriminate].
  assert (S1 : reg_step settings (registry0 d) g1) by (eapply reg_start, E1).
  injection E1 as <-. set (g1 := {| g_running := _ |}) in S1.
  pose (a := {| ac_job := job; ac_run := run; ac_token := 0; ac_phase := AtWork |}).
  pose (g2 := finish_run settings [] a [] o now f64_zero d g1).
  assert (S2 : reg_step settings g1 g2)
    by (apply reg_finish; [reflexivity | reflexivity | split; auto | discriminate]).
  pose (g3 := drop_claim [] (with_phase DropClaim a) [] g2).
  assert (S3 : reg_step settings g2 g3) by (apply reg_drop_claim; reflexivity).
  assert (Hfree : g_running g3 !! j_id job = None) by apply lookup_delete_eq.
  destruct (try_claim_run job run now g3) as [g4|] eqn:E4;
    [|unfold try_claim_run in E4; rewrite Hfree in E4; discriminate].
  assert (S4 : reg_step settings g3 g4) by (eapply reg_start, E4).
  unfold try_claim_run in E4. rewrite Hfree in E4. injection E4 as <-.
  set (g4 := {| g_running := _ |}) in S4.
  pose (b := {| ac_job := job; ac_run := run; ac_token := g_next g3; ac_phase := AtWork |}).
  pose (g5 := drop_status [b] (with_phase DropStatus a) [] g4).
  assert (S5 : reg_step settings g4 g5) by (apply reg_drop_status; reflexivity).
  exists g5, b. split_and!.
  - exact (rtc_l _ _ _ _ S1 (rtc_l _ _ _ _ S2 (rtc_l _ _ _ _ S3 (rtc_l _ _ _ _ S4 (rtc_once _ _ S5))))).
  - apply list_elem_of_In. now left.
  - reflexivity.
  - reflexivity.
  - exists (g_next g3). apply lookup_insert_eq.
  - apply lookup_delete_eq.
Qed.

(** A cancellation never hides a backup: a run that finished is recorded and
    reported as without the cancellation.  A run that a cancellation stopped is
    reported without notifying anyone and leaves the last successful full where
    it was, counting as an attempt only. *)
Theorem cancel_never_hides_success settings job run outcome now dur d m :
  (is_ok outcome = true ->
   end_run settings job run true outcome now dur d m
   = end_run settings job run false outcome now dur d m)
  /\ (is_ok outcome = false ->
      let e := end_run settings job run true outcome now dur d m in
      en_report e = Ok (plain_report (L "cancelled")) /\ en_notified e = []
      /\ (d_writable d = true -> last_full (en_disk e) (j_id job) = last_full d (j_id job))).
Proof.
  unfold end_run. split; intros E; rewrite E; cbn [andb negb]; [reflexivity|].
  cbn. split_and!; auto. intros Hw. destruct (is_sql job); [|reflexivity].
  destruct run; cbn; unfold last_full, record_full_attempt, record_log_attempt;
    now rewrite load_store.
Qed.

(** A run that a cancellation stopped is stored as the job's last status
    "ok", though the counters call it a failure. *)
Theorem cancelled_recorded_ok settings job run x now dur d m :
  let e := end_run settings job run true (Err x) now dur d m in
  recorded_status (en_report e) = L "ok"
  /\ jr_last_ok (entry (en_metrics e) (j_id job)) = Some false.
Proof.
  intros e. split; [reflexivity|]. unfold e, end_run. cbn [andb negb is_ok en_metrics].
  unfold entry, metrics_record_run. now rewrite lookup_insert_eq.
Qed.

(** A full run in which every database was skipped (no statistics) still
    moves the job's full timer, after which a log run takes a log backup of a
    database that was never backed up in full. *)
Theorem skipped_full_counts settings job m0 w now dur d m s :
  is_sql job = true -> d_writable d = true ->
  ds_role s = Standalone -> ds_simple_recovery s = false -> ds_read_only s = false ->
  ds_preferred s = true -> ds_log_chain s = true ->
  let d' := en_disk (end_run settings job RunFull false (Ok (m0, None, w)) now dur d m) in
  last_full d' (j_id job) = Some now
  /\ Plan.decide PkPointInTime RunLog s (bool_decide (is_Some (last_full d' (j_id job))))
     = Backup Log false None.
Proof.
  intros Hs Hw R1 R2 R3 R4 R5 d'.
  assert (Hl : last_full d' (j_id job) = Some now).
  { unfold d', end_run. rewrite Hs. cbn. unfold last_full, record_full. now rewrite load_store. }
  split; [exact Hl|]. rewrite Hl, bool_decide_true by eauto.
  unfold Plan.decide. now rewrite R1, R2, R3, R4, R5.
Qed.

End properties.

Section inner_properties.
Context `{SchedJson} `{DebugFmt} `{Base64} `{HashLib}.
Variable human_bytes : Z -> str.

(** With change detection a run is skipped exactly when the sources have the
    fingerprint of the last successful backup: a failed backup leaves the
    recorded fingerprint alone, so that it is repeated, and a successful one
    records the new fingerprint. *)
Theorem change_detection c job run e d sources excludes fp o d' ev :
  j_source job = Files sources excludes true -> re_fingerprint e sources excludes = Ok fp ->
  length fp = 32%nat -> d_writable d = true ->
  run_inner human_bytes c job run e d = (o, d', ev) ->
  if bool_decide (fp_load d (j_id job) = Some fp)
  then o = Ok (L "no changes since last run; skipped", None, false) /\ d' = d
  else fp_load d' (j_id job) = (if is_ok o then Some fp else fp_load d (j_id job)).
Proof.
  intros Es Ef Hl Hw. unfold run_inner, job_fingerprint. rewrite Es, Ef. cbn [mbind result_bind].
  destruct (base.decide (fp_load d (j_id job) = Some fp)) as [E|E].
  - rewrite E, !bool_decide_true by (split; eauto || reflexivity). intros [= <- <- _]. auto.
  - rewrite !bool_decide_false by tauto.
    destruct (do_backup human_bytes c job run e d) as [[[[[sm st] wn]|x] d1] ev1] eqn:Eb;
      pose proof (do_backup_files_disk human_bytes c job run e d sources excludes true _ _ _ Es Eb) as ->;
      intros [= <- <- _]; [|reflexivity].
    cbn. unfold fp_load, fp_save. rewrite Hw. cbn. rewrite lookup_insert_eq. cbn. now rewrite Hl.
Qed.

(** An encrypted job never hands anything to an uploader without a key: its
    runs do not depend on what a backup without a key would do. *)
Theorem encrypted_job_needs_key c job run e e' d :
  j_encrypted job = true -> env_agree e e' ->
  run_inner human_bytes c job run e d = run_inner human_bytes c job run e' d.
Proof.
  intros Hj (Ef & Ec & Eo & Ed & Et & Ea & Eu).
  assert (Hb : do_backup human_bytes c job run e d = do_backup human_bytes c job run e' d).
  { unfold do_backup. destruct (for_job job (c_world c)) as [[cfg|x] w'] eqn:Ek.
    2:{ cbn. rewrite Eo. destruct (j_source job), (j_destination job); reflexivity. }
    destruct cfg as [k|].
    2:{ exfalso. destruct (j_encrypted job) eqn:Hc; [|discriminate].
        unfold for_job in Ek. rewrite Hc in Ek. cbn [negb] in Ek.
        unfold load_config, mbind, io_bind in Ek.
        destruct (secrets_get _ _) as [[[b|]|x] w1]; cbn in Ek; try discriminate.
        unfold io_lift in Ek. destruct (decode_key b); discriminate. }
    cbn. destruct (j_source job) as [sources excludes cd|cid dbs prot], (j_destination job); auto.
    - unfold backup_files_to_pbs. rewrite Et. destruct sources; [reflexivity|].
      destruct (pbs_session_params _ _ _ _ _); [|reflexivity]. now rewrite Eu, Ea.
    - unfold backup_sql_to_pbs. rewrite Ec. destruct dbs as [|db dbs]; [reflexivity|].
      destruct (sql_conn_and_password _ _) as [[conn pw]|]; [|reflexivity].
      destruct (re_connected e'); [|reflexivity].
      now rewrite (backup_dbs_agree _ _ _ _ _ _ _ _ _ _ _ _ Ed).
    - now rewrite Eo. }
  unfold run_inner, job_fingerprint. rewrite Ef, Hb. reflexivity.
Qed.

End inner_properties.

(** ** Witnesses *)

Section witnesses.
Import SampleStore SampleJson.
Local Existing Instance sample_debug.
Local Existing Instance Sample.hash.

Definition sample_settings : NotifySettings :=
  {| ns_on_success := true; ns_on_failure := true; ns_email := true; ns_webhook := false |}.

Lemma one_run_per_job_witness :
  exists g, g_active g <> [] /\ (cancel_job (L "a") g).1 = true
    /\ NoDup (map fst (claims (g_active g))).
Proof.
  destruct (try_claim_run job_a RunFull 5 (registry0 sample_disk)) as [g|] eqn:E; [|discriminate].
  assert (Hr : reg_reachable sample_settings sample_disk g)
    by (apply rtc_once; eapply reg_start, E).
  injection E as <-. eexists. split; [|split].
  3: exact (proj1 (one_run_per_job sample_settings sample_disk _ Hr)).
  - discriminate.
  - vm_compute. reflexivity.
Defined.

Lemma cancel_never_hides_success_witness :
  let o := Ok (L "done", Some sample_stats, false) : result str Outcome in
  end_run sample_settings job_a RunFull true o 1000 f64_zero sample_disk ∅
  = end_run sample_settings job_a RunFull false o 1000 f64_zero sample_disk ∅
  /\ en_notified (end_run sample_settings job_a RunLog true (Err (L "cancelled by request")) 1000
                    f64_zero sample_disk ∅) = [].
Proof.
  intros o. split.
  - apply (proj1 (cancel_never_hides_success sample_settings job_a RunFull o 1000 f64_zero
                    sample_disk ∅)). reflexivity.
  - apply (proj2 (cancel_never_hides_success sample_settings job_a RunLog _ 1000 f64_zero
                    sample_disk ∅)). reflexivity.
Defined.

Lemma skipped_full_counts_witness :
  let d' := en_disk (end_run sample_settings job_a RunFull false
              (Ok (L "skipped: [sales]: not the preferred replica", None, false)) 1000 f64_zero
              sample_disk ∅) in
  last_full d' (L "a") = Some 1000.
Proof.
  exact (proj1 (skipped_full_counts sample_settings job_a _ false 1000 f64_zero sample_disk ∅
                  standalone eq_refl eq_refl eq_refl eq_refl eq_refl eq_refl eq_refl)).
Defined.

Definition files_job : Job :=
  {| j_id := L "f"; j_name := L "f"; j_source := Files [L "/data"] [] true;
     j_destination := Pbs (L "s") (L "host1"); j_schedule := Manual; j_last_run := None;
     j_last_status := None; j_encrypted := false; j_compress := true |}.

Definition sample_fp : bytes := replicate 32 x07.
Definition sample_report : ArchiveReport :=
  {| ar_entries := [(L "data/a.txt", 10)]; ar_warnings := [];
     ar_skipped := [{| sk_path := L "/data/b"; sk_reason := L "locked" |}] |}.
Definition sample_run (upload : option CryptConfig -> result PbsError BackupStats) : run_env :=
  {| re_fingerprint := fun _ _ => Ok sample_fp;
     re_files := {| fe_time := 100; fe_upload := fun _ k _ => upload k;
                    fe_archived := Ok (Ok sample_report) |};
     re_connected := Ok tt; re_dbs := []; re_folder := [] |}.

Lemma change_detection_witness :
  let e := sample_run (fun _ => Ok sample_stats) in
  let r := run_inner dec sample_config files_job RunFull e sample_disk in
  is_ok (r.1.1) = true /\ fp_load (r.1.2) (L "f") = Some sample_fp
  /\ (run_inner dec sample_config files_job RunFull e (r.1.2)).1.1
     = Ok (L "no changes since last run; skipped", None, false).
Proof.
  intros e r.
  assert (E1 : is_ok (r.1.1) = true) by (vm_compute; reflexivity).
  assert (E2 : fp_load (r.1.2) (L "f") = Some sample_fp).
  { assert (Er : run_inner dec sample_config files_job RunFull e sample_disk
                 = (r.1.1, r.1.2, r.2)) by (unfold r; now destruct (run_inner _ _ _ _ _ _) as [[? ?] ?]).
    pose proof (change_detection dec sample_config files_job RunFull e sample_disk [L "/data"] []
                  sample_fp (r.1.1) (r.1.2) (r.2) eq_refl eq_refl eq_refl eq_refl Er) as Hc.
    rewrite E1 in Hc. exact Hc. }
  split; [exact E1|]. split; [exact E2|]. vm_compute. reflexivity.
Defined.

Lemma encrypted_job_needs_key_witness :
  let w := (generate (L "f") world0).2 in
  let c := {| c_jobs := c_jobs sample_config; c_sql := c_sql sample_config;
              c_pbs := c_pbs sample_config;
              c_world := set_secrets (<[pbs_secret_key (L "s") := L "secret"]> (w_secrets w)) w |} in
  let job := {| j_id := L "f"; j_name := L "f"; j_source := Files [L "/data"] [] false;
                j_destination := Pbs (L "s") (L "host1"); j_schedule := Manual; j_last_run := None;
                j_last_status := None; j_encrypted := true; j_compress := true |} in
  let guarded k := match k with Some _ => Ok sample_stats | None => Err (Protocol (L "plain")) end in
  is_ok (run_inner dec c job RunFull (sample_run guarded) sample_disk).1.1 = true
  /\ run_inner dec c job RunFull (sample_run (fun _ => Ok sample_stats)) sample_disk
     = run_inner dec c job RunFull (sample_run guarded) sample_disk.
Proof.
  intros w c job guarded. split; [vm_compute; reflexivity|].
  apply (encrypted_job_needs_key dec c job); [reflexivity|]. repeat split. constructor.
Defined.

End witnesses.
