(* ===== verification/Channels.v ===== *)
(** Readers and writers over channels.

    A backup's bytes go from the thread that produces them to the uploader through
    a bounded channel, and the producer's verdict through another
    ([ChannelReader] of [pbsgui-engine/src/sql/vdi.rs] and of
    [pbsgui-ad-engine/src/stream.rs]); tar archives are cut into pieces on the way
    ([ChannelWriter] of [pbsgui-engine/src/archive.rs] and of [stream.rs]).  The
    abstract reader says what all of them promise the uploader; [VerdictReader] is
    that promise as an interface, and what a client that reads to the end gets is
    proved from it alone. *)

From Stdlib Require Import ZArith Lia Strings.Byte Ascii String.
From stdpp Require Import base tactics option numbers list.
From S2P Require Import Prelude Text Base.
Open Scope Z_scope.

(** ** The abstract reader

    What is left of the data, and whether the producer confirmed it; [fail] is the
    error of a stream that ends unconfirmed.  A read has the length of its buffer
    and its result. *)
Inductive spec_read (fail : io_error) :
    bytes * bool -> nat * result io_error bytes -> bytes * bool -> Prop :=
| spec_data d left n ok :
    d ++ left <> [] -> (length d <= n)%nat -> (d = [] -> n = O) ->
    spec_read fail (d ++ left, ok) (n, Ok d) (left, ok)
| spec_eof n : spec_read fail ([], true) (n, Ok []) ([], true)
| spec_truncated n : spec_read fail ([], false) (n, Err fail) ([], false).

Inductive spec_trace (fail : io_error) :
    bytes * bool -> list (nat * result io_error bytes) -> Prop :=
| trace_nil a : spec_trace fail a []
| trace_cons a ev a' evs :
    spec_read fail a ev a' -> spec_trace fail a' evs -> spec_trace fail a (ev :: evs).

(** The data of a read. *)
Definition data_of (ev : nat * result io_error bytes) : bytes :=
  match ev.2 with Ok d => d | Err _ => [] end.

(** An end of file comes after all of the data, of a confirmed stream. *)
Lemma trace_eof fail a evs n :
  spec_trace fail a (evs ++ [(n, Ok [])]) -> (0 < n)%nat ->
  a = (concat (map data_of evs), true).
Proof.
  intros Ht Hn. remember (evs ++ [(n, Ok [])]) as l eqn:El. revert evs El.
  induction Ht as [a|a ev a' l' Hr Ht IH]; intros evs El; [destruct evs; discriminate|].
  destruct evs as [|ev' evs]; injection El as -> ->.
  - inversion Hr; subst; [|reflexivity].
    match goal with Hz : [] = [] -> _ |- _ => rewrite (Hz eq_refl) in Hn end. lia.
  - specialize (IH evs eq_refl). subst a'. cbn.
    inversion Hr; subst; cbn; reflexivity.
Qed.

(** ** Readers *)

(** What a reader promises its client: its reads are those of the abstract reader. *)
Class VerdictReader (R : Type) := {
  reader_read : nat -> R -> result io_error bytes * R;
  reader_left : R -> bytes * bool;
  reader_fail : R -> io_error;
  reader_spec : forall n r,
    spec_read (reader_fail r) (reader_left r) (n, (reader_read n r).1)
      (reader_left (reader_read n r).2) /\
    reader_fail (reader_read n r).2 = reader_fail r;
}.

(** A client that reads to the end with a buffer of [n] bytes, as [read_to_end]
    does; each read but the last takes at least a byte. *)
Fixpoint drain {R} `{VerdictReader R} (fuel n : nat) (r : R) : option (result io_error bytes) :=
  match fuel with
  | O => None
  | S fuel =>
      match reader_read n r with
      | (Err e, _) => Some (Err e)
      | (Ok [], _) => Some (Ok [])
      | (Ok d, r) =>
          match drain fuel n r with
          | Some (Ok rest) => Some (Ok (d ++ rest))
          | x => x
          end
      end
  end.

(** The client gets all of the data of a confirmed stream, and an error otherwise;
    the number of bytes is enough fuel. *)
Lemma drain_all {R} `{VerdictReader R} fuel n (r : R) :
  (0 < n)%nat -> (length (reader_left r).1 < fuel)%nat ->
  drain fuel n r = Some (if (reader_left r).2 then Ok (reader_left r).1 else Err (reader_fail r)).
Proof.
  intros Hn. revert r; induction fuel as [|fuel IH]; intros r Hf; [lia|]. cbn [drain].
  destruct (reader_spec n r) as [Hs Hfail].
  destruct (reader_read n r) as [res r']; cbn [fst snd] in *.
  inversion Hs as [d left m ok Hne Hl Hz E1 E2 E3|m E1 E2 E3|m E1 E2 E3]; subst; cbn.
  - destruct d as [|b d]; [rewrite (Hz eq_refl) in Hn; lia|].
    rewrite <- E1 in Hf. cbn in Hf. rewrite length_app in Hf.
    rewrite IH by (rewrite <- E3; cbn; lia). rewrite <- E3, Hfail. cbn. destruct ok; reflexivity.
  - reflexivity.
  - reflexivity.
Qed.

(** The channel reader: what will arrive on the data channel before its senders are
    gone, what will arrive on the verdict channel ([None]: its sender is dropped),
    and the fields of the source. *)
Record ChannelReader := {
  cr_rx : list bytes; cr_done : option bool;
  cr_buf : bytes; cr_pos : nat; cr_verdict : option bool; cr_failure : str }.

Definition channel_reader_with_failure (rx : list bytes) (done : option bool) (failure : str) :
    ChannelReader :=
  {| cr_rx := rx; cr_done := done; cr_buf := []; cr_pos := 0; cr_verdict := None;
     cr_failure := failure |}.

Definition BACKUP_INCOMPLETE : str :=
  L "the SQL Server BACKUP did not complete; refusing to upload a truncated backup".

Definition channel_reader_new (rx : list bytes) (done : option bool) : ChannelReader :=
  channel_reader_with_failure rx done BACKUP_INCOMPLETE.

(** The return of [read], once the buffer has data. *)
Definition take_buffered (n : nat) (rx : list bytes) (r : ChannelReader) (buf : bytes) (pos : nat) :
    result io_error bytes * ChannelReader :=
  let k := Nat.min (length buf - pos) n in
  (Ok (slice pos (pos + k) buf),
   {| cr_rx := rx; cr_done := cr_done r; cr_buf := buf; cr_pos := pos + k;
      cr_verdict := cr_verdict r; cr_failure := cr_failure r |}).

(** The loop of [read] on an empty buffer: the next buffer that is not empty, or
    the verdict. *)
Fixpoint next_buffer (n : nat) (rx : list bytes) (r : ChannelReader) (buf : bytes) (pos : nat) :
    result io_error bytes * ChannelReader :=
  match rx with
  | next :: rx =>
      if (0 <? length next)%nat then take_buffered n rx r next 0
      else next_buffer n rx r next 0
  | [] =>
      let ok := match cr_verdict r with
        | Some v => v
        | None => match cr_done r with Some v => v | None => false end
        end in
      (if ok then Ok [] else Err (IoError UnexpectedEof (cr_failure r)),
       {| cr_rx := []; cr_done := cr_done r; cr_buf := buf; cr_pos := pos;
          cr_verdict := Some ok; cr_failure := cr_failure r |})
  end.

Definition channel_read (n : nat) (r : ChannelReader) : result io_error bytes * ChannelReader :=
  if (cr_pos r <? length (cr_buf r))%nat
  then take_buffered n (cr_rx r) r (cr_buf r) (cr_pos r)
  else next_buffer n (cr_rx r) r (cr_buf r) (cr_pos r).

Definition channel_left (r : ChannelReader) : bytes * bool :=
  (drop (cr_pos r) (cr_buf r) ++ concat (cr_rx r),
   match cr_verdict r with
   | Some v => v
   | None => match cr_done r with Some v => v | None => false end
   end).

Definition channel_fail (r : ChannelReader) : io_error := IoError UnexpectedEof (cr_failure r).

Lemma slice_head (pos k : nat) (buf : bytes) :
  (pos + k <= length buf)%nat ->
  drop pos buf = slice pos (pos + k) buf ++ drop (pos + k) buf /\
  length (slice pos (pos + k) buf) = k.
Proof.
  intros Hk. split.
  - unfold slice. replace (pos + k - pos)%nat with k by lia.
    rewrite <- drop_drop, take_drop. reflexivity.
  - rewrite length_slice by lia. lia.
Qed.

Lemma take_buffered_spec n rx r buf pos ok :
  (pos < length buf)%nat ->
  ok = (channel_left r).2 ->
  spec_read (channel_fail r) (drop pos buf ++ concat rx, ok)
    (n, (take_buffered n rx r buf pos).1) (channel_left (take_buffered n rx r buf pos).2).
Proof.
  intros Hp ->. cbn [take_buffered fst snd channel_left cr_pos cr_buf cr_rx cr_verdict cr_done].
  set (k := Nat.min (length buf - pos) n).
  destruct (slice_head pos k buf) as [Ed El]; [lia|].
  unfold channel_left. cbn. fold k. rewrite Ed, <- app_assoc. constructor; [|lia|].
  - rewrite app_assoc, <- Ed. intros E%(f_equal length). rewrite length_app, length_drop in E.
    cbn in E. lia.
  - intros E%(f_equal length). rewrite El in E. cbn in E. lia.
Qed.

Lemma next_buffer_spec n rx r buf pos :
  (length buf <= pos)%nat ->
  spec_read (channel_fail r) (concat rx, (channel_left r).2)
    (n, (next_buffer n rx r buf pos).1) (channel_left (next_buffer n rx r buf pos).2).
Proof.
  revert buf pos; induction rx as [|next rx IH]; intros buf pos Hp; cbn [next_buffer].
  - unfold channel_left. cbn. rewrite drop_ge by lia. cbn.
    destruct (cr_verdict r) as [[]|]; [| |destruct (cr_done r) as [[]|]]; constructor.
  - cbn [concat]. destruct (Nat.ltb_spec 0 (length next)).
    + rewrite <- (drop_0 next) at 1. apply take_buffered_spec; auto.
    + destruct next; [|cbn in *; lia]. apply IH. cbn. lia.
Qed.

Lemma channel_read_spec n r :
  spec_read (channel_fail r) (channel_left r) (n, (channel_read n r).1)
    (channel_left (channel_read n r).2) /\
  channel_fail (channel_read n r).2 = channel_fail r.
Proof. unfold channel_read. split.
  - destruct (Nat.ltb_spec (cr_pos r) (length (cr_buf r))) as [Hlt|Hge].
    + apply take_buffered_spec; auto.
    + unfold channel_left at 1. rewrite drop_ge by lia. apply next_buffer_spec. lia.
  - assert (Hn : forall rx buf pos, channel_fail (next_buffer n rx r buf pos).2 = channel_fail r).
    { induction rx as [|next rx IH]; intros buf pos; cbn [next_buffer]; [reflexivity|].
      destruct (0 <? length next)%nat; [reflexivity | apply IH]. }
    destruct (_ <? _)%nat; [reflexivity | apply Hn].
Qed.

#[export] Instance channel_verdict_reader : VerdictReader ChannelReader := {
  reader_read := channel_read;
  reader_left := channel_left;
  reader_fail := channel_fail;
  reader_spec := channel_read_spec;
}.

(** ** Writers *)

(** The sending half of a channel: what was sent, and how many more messages go
    through before the receiver is gone ([None]: it stays). *)
Record sender := Sender { tx_sent : list bytes; tx_room : option nat }.

Definition tx_send (piece : bytes) (tx : sender) : option sender :=
  match tx_room tx with
  | Some O => None
  | Some (S k) => Some (Sender (tx_sent tx ++ [piece]) (Some k))
  | None => Some (Sender (tx_sent tx ++ [piece]) None)
  end.

Lemma tx_send_sent piece tx tx' : tx_send piece tx = Some tx' -> tx_sent tx' = tx_sent tx ++ [piece].
Proof. unfold tx_send. destruct (tx_room tx) as [[|k]|]; intros [= <-]; reflexivity. Qed.

Record ChannelWriter := Writing { cw_tx : sender; cw_buf : bytes }.

(** Everything a writer took: what it sent and what it holds. *)
Definition taken (w : ChannelWriter) : bytes := concat (tx_sent (cw_tx w)) ++ cw_buf w.

Lemma taken_sent tx tx' piece rest :
  tx_send piece tx = Some tx' -> taken (Writing tx' rest) = taken (Writing tx (piece ++ rest)).
Proof.
  intros E%tx_send_sent. unfold taken. cbn. rewrite E, concat_app. cbn.
  rewrite app_nil_r, app_assoc. reflexivity.
Qed.

(** The archiver's writer ([archive.rs]): pieces of at least 1 MiB. *)

Definition PIECE : Z := 2 ^ 20.
#[global] Arguments PIECE : simpl never.

Definition archive_send (w : ChannelWriter) : result io_error ChannelWriter :=
  match cw_buf w with
  | [] => Ok w
  | piece =>
      match tx_send piece (cw_tx w) with
      | Some tx => Ok (Writing tx [])
      | None => Err (IoError BrokenPipe (L "the PBS upload stopped"))
      end
  end.

Definition archive_write (data : bytes) (w : ChannelWriter) : result io_error ChannelWriter :=
  let w := Writing (cw_tx w) (cw_buf w ++ data) in
  if PIECE <=? Z.of_nat (length (cw_buf w)) then archive_send w else Ok w.

Definition archive_flush (w : ChannelWriter) : result io_error ChannelWriter := archive_send w.

Lemma send_taken w w' : archive_send w = Ok w' -> taken w' = taken w /\ cw_buf w' = [].
Proof.
  destruct w as [tx buf]. unfold archive_send. cbn. destruct buf as [|b buf]; [intros [= <-]; auto|].
  destruct (tx_send _ tx) as [tx'|] eqn:E; [|discriminate]. intros [= <-]. split; [|reflexivity].
  rewrite (taken_sent _ _ _ _ E), app_nil_r. reflexivity.
Qed.

Lemma write_taken data w w' : archive_write data w = Ok w' -> taken w' = taken w ++ data.
Proof.
  unfold archive_write. cbn [cw_buf]. destruct (PIECE <=? _).
  - intros [E _]%send_taken. rewrite E. unfold taken. cbn. apply app_assoc.
  - intros [= <-]. unfold taken. cbn. apply app_assoc.
Qed.


(** The System State writer ([stream.rs]): pieces of exactly 256 KiB. *)
Definition CHUNK : Z := 256 * 1024.
#[global] Arguments CHUNK : simpl never.

Definition ARCHIVE_INCOMPLETE : str :=
  L "the archive stream ended before the producer confirmed success; refusing to upload a truncated backup".

Definition ad_reader_new (rx : list bytes) (done : option bool) : ChannelReader :=
  channel_reader_with_failure rx done ARCHIVE_INCOMPLETE.

(** The loop of the reader is the engine's. *)
Definition ad_read (n : nat) (r : ChannelReader) : result io_error bytes * ChannelReader :=
  channel_read n r.

Definition closed_error : io_error := IoError OtherIo (L "the upload side closed").

(** The loop of [write]; a pass sends at least a byte, so the length is enough
    fuel. *)
Fixpoint send_chunks (fuel : nat) (w : ChannelWriter) : result io_error ChannelWriter :=
  match fuel with
  | O => Ok w
  | S fuel =>
      if CHUNK <=? Z.of_nat (length (cw_buf w)) then
        match tx_send (take (Z.to_nat CHUNK) (cw_buf w)) (cw_tx w) with
        | Some tx => send_chunks fuel (Writing tx (drop (Z.to_nat CHUNK) (cw_buf w)))
        | None => Err closed_error
        end
      else Ok w
  end.

Definition ad_write (data : bytes) (w : ChannelWriter) : result io_error ChannelWriter :=
  let buf := cw_buf w ++ data in send_chunks (length buf) (Writing (cw_tx w) buf).

Definition ad_flush (w : ChannelWriter) : result io_error ChannelWriter :=
  match cw_buf w with
  | [] => Ok w
  | chunk =>
      match tx_send chunk (cw_tx w) with
      | Some tx => Ok (Writing tx [])
      | None => Err closed_error
      end
  end.

Lemma send_chunks_taken fuel w w' : send_chunks fuel w = Ok w' -> taken w' = taken w.
Proof.
  revert w; induction fuel as [|fuel IH]; intros w; cbn [send_chunks]; [intros [= <-]; reflexivity|].
  destruct (CHUNK <=? _); [|intros [= <-]; reflexivity].
  destruct (tx_send _ _) as [tx|] eqn:E; [|discriminate].
  intros H%IH. rewrite H, (taken_sent _ _ _ _ E), take_drop. destruct w; reflexivity.
Qed.

(** After a ad_write, less than a piece is held: memory stays bounded. *)
Lemma send_chunks_bound fuel w w' :
  (length (cw_buf w) <= fuel)%nat -> send_chunks fuel w = Ok w' ->
  Z.of_nat (length (cw_buf w')) < CHUNK.
Proof.
  revert w; induction fuel as [|fuel IH]; intros w Hl; cbn [send_chunks].
  { intros [= <-]. unfold CHUNK. lia. }
  destruct (Z.leb_spec CHUNK (Z.of_nat (length (cw_buf w)))) as [Hc|Hc]; [|intros [= <-]; lia].
  destruct (tx_send _ _) as [tx|]; [|discriminate]. apply IH. cbn [cw_buf].
  rewrite length_drop. assert (0 < Z.to_nat CHUNK)%nat by (unfold CHUNK; lia). lia.
Qed.

Lemma flush_taken w w' : ad_flush w = Ok w' -> taken w' = taken w /\ cw_buf w' = [].
Proof.
  destruct w as [tx buf]. unfold ad_flush. cbn. destruct buf as [|b buf]; [intros [= <-]; auto|].
  destruct (tx_send _ tx) as [tx'|] eqn:E; [|discriminate]. intros [= <-]. split; [|reflexivity].
  rewrite (taken_sent _ _ _ _ E), app_nil_r. reflexivity.
Qed.

Lemma write_taken_ad data w w' : ad_write data w = Ok w' -> taken w' = taken w ++ data.
Proof.
  unfold ad_write. intros E%send_chunks_taken. rewrite E. unfold taken. cbn. apply app_assoc.
Qed.

(** ** Producer and client *)

(** A producer that writes [ds] and flushes. *)
Fixpoint write_each (wr : bytes -> ChannelWriter -> result io_error ChannelWriter)
    (ds : list bytes) (w : ChannelWriter) : result io_error ChannelWriter :=
  match ds with
  | [] => Ok w
  | d :: ds => w ← wr d w; write_each wr ds w
  end.

Lemma write_each_taken wr ds w w' :
  (forall d w w', wr d w = Ok w' -> taken w' = taken w ++ d) ->
  write_each wr ds w = Ok w' -> taken w' = taken w ++ concat ds.
Proof.
  intros Hwr. revert w; induction ds as [|d ds IH]; intros w; cbn.
  - intros [= <-]. rewrite app_nil_r. reflexivity.
  - intros (w1 & E1 & E2)%result_bind_ok. rewrite (IH _ E2), (Hwr _ _ _ E1), app_assoc. reflexivity.
Qed.

Definition open_writer (room : option nat) : ChannelWriter := Writing (Sender [] room) [].

(** An archive goes through its channel as it was written: whatever pieces the
    producer writes and the channel carries, and whatever buffer the uploader reads
    with, the uploader gets exactly the bytes written if the producer flushed them
    and confirmed, and an error if it did not confirm, in the file archiver and in
    the System State archiver. *)
Theorem archive_channel_roundtrip (ds : list bytes) (room : option nat) (w : ChannelWriter)
    (done : option bool) (n fuel : nat) :
  (0 < n)%nat -> (length (concat ds) < fuel)%nat ->
  (write_each archive_write ds (open_writer room) ≫= archive_flush = Ok w ->
     forall failure, drain fuel n (channel_reader_with_failure (tx_sent (cw_tx w)) done failure)
     = Some (if default false done then Ok (concat ds) else Err (IoError UnexpectedEof failure))) /\
  (write_each ad_write ds (open_writer room) ≫= ad_flush = Ok w ->
     drain fuel n (ad_reader_new (tx_sent (cw_tx w)) done)
     = Some (if default false done then Ok (concat ds)
             else Err (IoError UnexpectedEof ARCHIVE_INCOMPLETE))).
Proof.
  intros Hn Hf.
  assert (Hgo : forall rx failure, concat rx = concat ds ->
    drain fuel n (channel_reader_with_failure rx done failure)
    = Some (if default false done then Ok (concat ds) else Err (IoError UnexpectedEof failure))).
  { intros rx failure E. rewrite drain_all; [|exact Hn|cbn; rewrite E; exact Hf].
    cbn. rewrite E. destruct done as [[]|]; reflexivity. }
  split; intros (w1 & E1 & E2)%result_bind_ok; intros; apply Hgo.
  - destruct (send_taken _ _ E2) as [Ht Hb].
    rewrite (write_each_taken _ _ _ _ write_taken E1) in Ht.
    unfold taken in Ht. rewrite Hb, app_nil_r in Ht. exact Ht.
  - destruct (flush_taken _ _ E2) as [Ht Hb].
    rewrite (write_each_taken _ _ _ _ write_taken_ad E1) in Ht.
    unfold taken in Ht. rewrite Hb, app_nil_r in Ht. exact Ht.
Qed.

Lemma archive_channel_roundtrip_witness :
  drain 4 2 (channel_reader_with_failure [bstr "tar"] (Some true) (L "x")) = Some (Ok (bstr "tar")) /\
  drain 4 2 (ad_reader_new [bstr "tar"] None)
  = Some (Err (IoError UnexpectedEof ARCHIVE_INCOMPLETE)).
Proof.
  split.
  - refine (proj1 (archive_channel_roundtrip [bstr "t"; bstr "ar"] None
      (Writing (Sender [bstr "tar"] None) []) (Some true) 2 4 _ _) _ (L "x")); vm_compute;
      try reflexivity; lia.
  - refine (proj2 (archive_channel_roundtrip [bstr "t"; bstr "ar"] None
      (Writing (Sender [bstr "tar"] None) []) None 2 4 _ _) _); vm_compute;
      try reflexivity; lia.
Defined.
