(* ===== verification/Frames.v ===== *)
(** The wire protocol between a proxy and its relay agents
    ([pbsgui-engine/src/relay/proto.rs]).

    A frame is a kind byte, a little-endian length and a payload: a control
    message in JSON or a slice of the raw backup stream.  A connection is
    modelled by its two ends: a [writer], which has what was put on the wire and
    how much more the connection takes before it breaks, and a [reader], which
    has the bytes that will arrive and how they end.  The theorems: frames
    written one after the other are read back as they were, no frame is larger
    than [MAX_FRAME] in either direction, and cutting the connection anywhere
    loses frames from the end but never alters or forges one. *)

From Stdlib Require Import ZArith Lia Strings.Byte Ascii String.
From stdpp Require Import base tactics option numbers list countable.
From S2P Require Import Prelude Text Base Sched.
Open Scope Z_scope.

(** ** Messages *)

Definition RELAY_PROTO_VERSION : Z := 1.
Definition DEFAULT_RELAY_PORT : Z := 8317.
Definition MAX_FRAME : Z := 16 * 1024 * 1024.
Definition KIND_CONTROL : byte := x00.
Definition KIND_DATA : byte := x01.

#[global] Arguments MAX_FRAME : simpl never.

Inductive ControlMsg :=
| Register (agent_name host token version : str) (proto : Z)
| SessionDone (session_id : str) (ok : bool) (error : option str) (bytes_ : Z)
| Pong
| Registered (ok : bool) (message : str)
| StartBackup (session_id : str) (instance : option str) (set_name : str)
| StartRestore (session_id : str) (instance : option str) (set_name : str)
| Cancel (session_id : str)
| Ping
| Hello (session_id token : str)
| End (ok : bool) (error : option str).

Inductive Frame :=
| Control (msg : ControlMsg)
| Data (payload : bytes).

#[export] Instance ControlMsg_eq_dec : EqDecision ControlMsg.
Proof. solve_decision. Defined.
#[export] Instance Frame_eq_dec : EqDecision Frame.
Proof. solve_decision. Defined.

(** [serde_json] at the type [ControlMsg]. *)
Class ControlJson := {
  ctl_to_vec : ControlMsg -> result io_error bytes;
  ctl_from_slice : bytes -> result str ControlMsg;
}.

(** What was serialized parses back. *)
Class ControlLaws `{ControlJson} :=
  ctl_inverse : forall m b, ctl_to_vec m = Ok b -> ctl_from_slice b = Ok m.

(** ** The two ends of a connection *)

(** [w_room] is the number of bytes the connection still takes before it breaks
    ([None]: it does not break); [w_flush] says whether a flush right at the
    break still succeeds. *)
Record writer := Writer { w_sent : bytes; w_room : option nat; w_flush : bool }.

(** [r_bytes] is what arrives, [r_tail] the error it ends with ([None]: the peer
    closes). *)
Record reader := Reader { r_bytes : bytes; r_tail : option io_error }.

Definition broken_pipe : io_error := IoError BrokenPipe (L "broken pipe").

(** [AsyncWriteExt::write_all]. *)
Definition write_all (data : bytes) (w : writer) : result io_error unit * writer :=
  match w_room w with
  | None => (Ok tt, Writer (w_sent w ++ data) None (w_flush w))
  | Some r =>
      if (length data <=? r)%nat
      then (Ok tt, Writer (w_sent w ++ data) (Some (r - length data)%nat) (w_flush w))
      else (Err broken_pipe, Writer (w_sent w ++ take r data) (Some O) (w_flush w))
  end.

(** [AsyncWriteExt::flush]. *)
Definition flush (w : writer) : result io_error unit * writer :=
  match w_room w with
  | Some O => (if w_flush w then Ok tt else Err broken_pipe, w)
  | _ => (Ok tt, w)
  end.

(** [AsyncReadExt::read] into a buffer of one byte: [None] is end of stream. *)
Definition read_one (r : reader) : result io_error (option byte) * reader :=
  match r_bytes r with
  | b :: rest => (Ok (Some b), Reader rest (r_tail r))
  | [] => (match r_tail r with None => Ok None | Some e => Err e end, r)
  end.

(** [AsyncReadExt::read_exact] into a buffer of [n] bytes. *)
Definition read_exact (n : nat) (r : reader) : result io_error bytes * reader :=
  if (n <=? length (r_bytes r))%nat
  then (Ok (take n (r_bytes r)), Reader (drop n (r_bytes r)) (r_tail r))
  else (Err (default (IoError UnexpectedEof (L "early eof")) (r_tail r)),
        Reader [] (r_tail r)).

(** [a().await?; b().await] on a connection. *)
Definition conn_bind {S A B} (m : S -> result io_error A * S)
    (f : A -> S -> result io_error B * S) (s : S) : result io_error B * S :=
  match m s with
  | (Ok a, s') => f a s'
  | (Err e, s') => (Err e, s')
  end.

(** ** Frames *)

Definition write_raw (kind : byte) (payload : bytes) (w : writer) :
    result io_error unit * writer :=
  let len := Z.of_nat (length payload) in
  if (len <? 2 ^ 32) && (len <=? MAX_FRAME) then
    conn_bind (write_all (kind :: le_bytes 4 len)) (fun _ =>
    conn_bind (write_all payload) (fun _ => flush)) w
  else (Err (IoError InvalidInput (L "relay frame too large")), w).

Definition write_data (payload : bytes) (w : writer) : result io_error unit * writer :=
  write_raw KIND_DATA payload w.

Section Codec.
Context `{ControlJson}.

Definition write_control (msg : ControlMsg) (w : writer) :
    result io_error unit * writer :=
  match ctl_to_vec msg with
  | Err e => (Err e, w)
  | Ok payload => write_raw KIND_CONTROL payload w
  end.

Definition write_frame (f : Frame) (w : writer) : result io_error unit * writer :=
  match f with
  | Control msg =>
      match ctl_to_vec msg with
      | Err e => (Err e, w)
      | Ok payload => write_raw KIND_CONTROL payload w
      end
  | Data payload => write_raw KIND_DATA payload w
  end.

(** The frame of a kind and a payload, once both have arrived. *)
Definition decode_frame (kind : byte) (payload : bytes) : result io_error (option Frame) :=
  if Byte.eqb kind KIND_CONTROL then
    match ctl_from_slice payload with
    | Ok msg => Ok (Some (Control msg))
    | Err e => Err (IoError InvalidData (L "bad relay control frame: " ++ e))
    end
  else if Byte.eqb kind KIND_DATA then Ok (Some (Data payload))
  else Err (IoError InvalidData (L "unknown relay frame kind " ++ dec (u8_Z kind))).

Definition read_frame (r : reader) : result io_error (option Frame) * reader :=
  conn_bind read_one (fun first r =>
    match first with
    | None => (Ok None, r)
    | Some kind =>
        conn_bind (read_exact 4) (fun header r =>
          let len := le_value header in
          if MAX_FRAME <? len then
            (Err (IoError InvalidData (L "relay frame of " ++ dec len ++
                    L " bytes exceeds the " ++ dec MAX_FRAME ++ L " limit")), r)
          else
            conn_bind (read_exact (Z.to_nat len)) (fun payload r =>
              (decode_frame kind payload, r)) r) r
    end) r.

(** How a sequence of frames ends. *)
Inductive stream_end := Closed | Broken (e : io_error) | OutOfFuel.

(** A task that reads frames until it cannot. *)
Fixpoint read_frames (fuel : nat) (r : reader) : list Frame * stream_end :=
  match fuel with
  | O => ([], OutOfFuel)
  | S fuel =>
      match read_frame r with
      | (Ok None, _) => ([], Closed)
      | (Err e, _) => ([], Broken e)
      | (Ok (Some f), r') => let '(fs, e) := read_frames fuel r' in (f :: fs, e)
      end
  end.

Fixpoint write_frames (fs : list Frame) (w : writer) : result io_error unit * writer :=
  match fs with
  | [] => (Ok tt, w)
  | f :: fs => conn_bind (write_frame f) (fun _ => write_frames fs) w
  end.

End Codec.

(** ** What is on the wire *)

Definition frame_bytes (kind : byte) (payload : bytes) : bytes :=
  kind :: le_bytes 4 (Z.of_nat (length payload)) ++ payload.

Definition small (payload : bytes) : bool := Z.of_nat (length payload) <=? MAX_FRAME.

#[global] Arguments frame_bytes : simpl never.
#[global] Arguments small : simpl never.

(** A write that failed put a beginning of its bytes on the wire; one that
    succeeded put them all. *)
Definition sends (m : writer -> result io_error unit * writer) (d : bytes) : Prop :=
  forall w, exists d',
    w_sent (m w).2 = w_sent w ++ d' /\ d' `prefix_of` d /\
    ((m w).1 = Ok tt -> d' = d) /\ (w_room w = None -> (m w).1 = Ok tt /\ w_room (m w).2 = None).

Lemma sends_nil : sends (fun w => (Ok tt, w)) [].
Proof. intros w. exists []. cbn. rewrite app_nil_r. auto. Qed.

Lemma sends_flush : sends flush [].
Proof.
  intros w. exists []. unfold flush. destruct (w_room w) as [[|r]|] eqn:E;
    cbn; rewrite app_nil_r; repeat split; auto; discriminate.
Qed.

Lemma sends_write_all d : sends (write_all d) d.
Proof.
  intros w. unfold write_all. destruct (w_room w) as [r|]; [|exists d; cbn; auto].
  destruct (Nat.leb_spec (length d) r); cbn; [exists d | exists (take r d)]; cbn.
  - repeat split; auto; discriminate.
  - repeat split; auto using prefix_take; discriminate.
Qed.

Lemma sends_bind m f d1 d2 :
  sends m d1 -> sends f d2 -> sends (conn_bind m (fun _ => f)) (d1 ++ d2).
Proof.
  intros Hm Hf w. destruct (Hm w) as (p1 & E1 & P1 & O1 & R1). unfold conn_bind.
  destruct (m w) as [[[]|e] w1]; cbn in *.
  - destruct (Hf w1) as (p2 & E2 & P2 & O2 & R2). rewrite (O1 eq_refl) in *.
    exists (d1 ++ p2). rewrite E2, E1, app_assoc. split_and!; auto.
    + apply prefix_app, P2.
    + intros Hok. rewrite O2 by exact Hok. reflexivity.
    + intros Hr. apply R2, R1, Hr.
  - exists p1. rewrite E1. split_and!; auto; [apply prefix_app_r, P1 | discriminate].
Qed.

Lemma sends_write_raw k p : small p = true -> sends (write_raw k p) (frame_bytes k p).
Proof.
  unfold small. intros Hs w. unfold write_raw.
  rewrite Hs, (proj2 (Z.ltb_lt _ _)) by (unfold MAX_FRAME in Hs; lia). cbn [andb].
  pose proof (sends_bind _ _ _ _ (sends_write_all (k :: le_bytes 4 (Z.of_nat (length p))))
    (sends_bind _ _ _ _ (sends_write_all p) sends_flush)) as Hb.
  rewrite app_nil_r in Hb. exact (Hb w).
Qed.

Lemma write_raw_large k p w :
  small p = false ->
  write_raw k p w = (Err (IoError InvalidInput (L "relay frame too large")), w).
Proof. unfold small, write_raw. intros ->. rewrite andb_false_r. reflexivity. Qed.

Lemma read_exact_app d rest tl :
  read_exact (length d) (Reader (d ++ rest) tl) = (Ok d, Reader rest tl).
Proof.
  unfold read_exact. cbn. rewrite (proj2 (Nat.leb_le _ _)) by len.
  rewrite take_app_length, drop_app_length. reflexivity.
Qed.

Lemma read_exact_short n d tl :
  (length d < n)%nat -> exists e, read_exact n (Reader d tl) = (Err e, Reader [] tl).
Proof.
  intros Hn. unfold read_exact. cbn. rewrite (proj2 (Nat.leb_gt _ _)) by lia. eauto.
Qed.

Section CodecLemmas.
Context `{ControlJson}.

(** The bytes of a frame on a connection that does not break; [None] when
    [write_frame] refuses it. *)
Definition encode_frame (f : Frame) : option bytes :=
  match f with
  | Control msg =>
      match ctl_to_vec msg with
      | Ok p => if small p then Some (frame_bytes KIND_CONTROL p) else None
      | Err _ => None
      end
  | Data p => if small p then Some (frame_bytes KIND_DATA p) else None
  end.

(** What a writer of frames sends: up to the first one that is refused. *)
Fixpoint encode_frames (fs : list Frame) : bytes :=
  match fs with
  | [] => []
  | f :: fs => match encode_frame f with Some d => d ++ encode_frames fs | None => [] end
  end.

Lemma write_frame_sends f d : encode_frame f = Some d -> sends (write_frame f) d.
Proof.
  destruct f as [m|p]; cbn.
  - destruct (ctl_to_vec m) as [p|e] eqn:Em; [|discriminate].
    destruct (small p) eqn:E; [|discriminate]. intros [= <-] w.
    unfold write_frame. rewrite Em. apply sends_write_raw, E.
  - destruct (small p) eqn:E; [|discriminate]. intros [= <-]. apply sends_write_raw, E.
Qed.

Lemma write_frame_refused f w :
  encode_frame f = None -> exists e, write_frame f w = (Err e, w).
Proof.
  destruct f as [m|p]; cbn.
  - destruct (ctl_to_vec m) as [p|e]; [|eauto].
    destruct (small p) eqn:E; [discriminate|]. rewrite write_raw_large by exact E. eauto.
  - destruct (small p) eqn:E; [discriminate|]. rewrite write_raw_large by exact E. eauto.
Qed.

Lemma write_frame_ok f w w' :
  write_frame f w = (Ok tt, w') ->
  exists d, encode_frame f = Some d /\ w_sent w' = w_sent w ++ d.
Proof.
  intros E. destruct (encode_frame f) as [d|] eqn:Ef.
  - destruct (write_frame_sends f d Ef w) as (d' & Ed & _ & Ho & _). rewrite E in *. cbn in *.
    exists d. rewrite Ed, Ho by reflexivity. auto.
  - destruct (write_frame_refused f w Ef) as [e He]. congruence.
Qed.

(** A connection that broke takes nothing more. *)
Definition dead (w : writer) : Prop := w_room w = Some O.

Lemma write_all_err d w e w' : write_all d w = (Err e, w') -> dead w'.
Proof.
  unfold write_all. destruct (w_room w) as [r|]; [|discriminate].
  destruct (_ <=? _)%nat; [discriminate|]. intros [= <- <-]. reflexivity.
Qed.

Lemma write_raw_err k p w e w' : small p = true -> write_raw k p w = (Err e, w') -> dead w'.
Proof.
  unfold small, write_raw. intros Hs.
  rewrite Hs, (proj2 (Z.ltb_lt _ _)) by (unfold MAX_FRAME in Hs; lia). cbn [andb].
  unfold conn_bind. destruct (write_all _ w) as [[[]|e1] w1] eqn:E1;
    [|intros [= <- <-]; eapply write_all_err; exact E1].
  destruct (write_all p w1) as [[[]|e2] w2] eqn:E2;
    [|intros [= <- <-]; eapply write_all_err; exact E2].
  unfold flush, dead. destruct (w_room w2) as [[|r]|] eqn:Er; try discriminate.
  destruct (w_flush w2); [discriminate|]. intros [= <- <-]. exact Er.
Qed.

Lemma write_raw_dead k p w : dead w ->
  w_sent (write_raw k p w).2 = w_sent w /\ (write_raw k p w).1 <> Ok tt.
Proof.
  unfold dead, write_raw, conn_bind, write_all. intros ->.
  destruct (_ && _); cbn; [|auto]. rewrite app_nil_r. split; [reflexivity | discriminate].
Qed.

Lemma write_frame_err f w e w' :
  write_frame f w = (Err e, w') ->
  (encode_frame f = None /\ w' = w) \/
  (dead w' /\ exists d d', encode_frame f = Some d /\ d' `prefix_of` d /\
                          w_sent w' = w_sent w ++ d').
Proof.
  intros E. destruct (encode_frame f) as [d|] eqn:Ef.
  - right. destruct (write_frame_sends f d Ef w) as (d' & Ed & Hp & _). rewrite E in Ed.
    split; [|eauto 6]. destruct f as [m|p]; cbn in Ef, E.
    + destruct (ctl_to_vec m) as [p|]; [|discriminate].
      destruct (small p) eqn:Es; [|discriminate]. eapply write_raw_err; eassumption.
    + destruct (small p) eqn:Es; [|discriminate]. eapply write_raw_err; eassumption.
  - destruct (write_frame_refused f w Ef) as [e' He]. left. split; congruence.
Qed.

Lemma write_frame_dead f w : dead w -> w_sent (write_frame f w).2 = w_sent w.
Proof.
  intros Hd. destruct f as [m|p]; cbn.
  - destruct (ctl_to_vec m); [apply write_raw_dead, Hd | reflexivity].
  - apply write_raw_dead, Hd.
Qed.

Lemma encode_frames_app fs gs :
  Forall (fun f => is_Some (encode_frame f)) fs ->
  encode_frames (fs ++ gs) = encode_frames fs ++ encode_frames gs.
Proof.
  induction 1 as [|f fs [d Hd] _ IH]; [reflexivity|]. cbn. rewrite Hd, IH, app_assoc. reflexivity.
Qed.

Lemma encode_frames_prefix fs gs : encode_frames fs `prefix_of` encode_frames (fs ++ gs).
Proof.
  induction fs as [|f fs IH]; cbn; [apply prefix_nil|].
  destruct (encode_frame f); [apply prefix_app, IH | reflexivity].
Qed.

(** Any write, broken or not, puts a beginning of [encode_frames] on the wire. *)
Lemma write_frames_sends fs w : exists d',
  w_sent (write_frames fs w).2 = w_sent w ++ d' /\ d' `prefix_of` encode_frames fs /\
  ((write_frames fs w).1 = Ok tt ->
    d' = encode_frames fs /\ Forall (fun f => is_Some (encode_frame f)) fs).
Proof.
  revert w; induction fs as [|f fs IH]; intros w.
  - exists []. cbn. rewrite app_nil_r. auto.
  - cbn [write_frames encode_frames]. unfold conn_bind.
    destruct (encode_frame f) as [d|] eqn:E.
    + destruct (write_frame_sends f d E w) as (p & Ep & Hp & Ho & _).
      destruct (write_frame f w) as [[[]|e] w1]; cbn in *.
      * destruct (IH w1) as (d2 & E2 & P2 & O2). rewrite (Ho eq_refl) in Ep.
        exists (d ++ d2). rewrite E2, Ep, app_assoc. split_and!; auto.
        { apply prefix_app, P2. }
        intros Hok. destruct (O2 Hok) as [-> HF]. split; [reflexivity|].
        constructor; [eauto | exact HF].
      * exists p. rewrite Ep. split_and!; auto; [apply prefix_app_r, Hp | discriminate].
    + destruct (write_frame_refused f w E) as [e ->]. exists []. cbn.
      rewrite app_nil_r. split_and!; auto; discriminate.
Qed.

Lemma read_header k len rest tl :
  0 <= len < 2 ^ 32 ->
  read_frame (Reader (k :: le_bytes 4 len ++ rest) tl) =
  (if MAX_FRAME <? len then
     (Err (IoError InvalidData (L "relay frame of " ++ dec len ++
             L " bytes exceeds the " ++ dec MAX_FRAME ++ L " limit")), Reader rest tl)
   else conn_bind (read_exact (Z.to_nat len)) (fun payload r =>
          (decode_frame k payload, r)) (Reader rest tl)).
Proof.
  intros Hl. unfold read_frame, conn_bind at 1. cbn [read_one r_bytes r_tail].
  unfold conn_bind at 1.
  pose proof (read_exact_app (le_bytes 4 len) rest tl) as E.
  rewrite length_le_bytes in E. rewrite E.
  rewrite (le_value_bytes_u 4 32) by (reflexivity || exact Hl). reflexivity.
Qed.

Lemma read_frame_bytes k p rest tl :
  small p = true ->
  read_frame (Reader (frame_bytes k p ++ rest) tl) = (decode_frame k p, Reader rest tl).
Proof.
  unfold small. intros Hs%Z.leb_le. unfold frame_bytes. rewrite <- app_comm_cons, <- app_assoc.
  rewrite read_header by (unfold MAX_FRAME in Hs; lia).
  destruct (Z.ltb_spec MAX_FRAME (Z.of_nat (length p))); [lia|].
  unfold conn_bind. rewrite Nat2Z.id, read_exact_app. reflexivity.
Qed.

(** A header that promises too much is refused before the payload is read. *)
Lemma read_frame_oversized k len rest tl :
  MAX_FRAME < len < 2 ^ 32 ->
  exists msg, read_frame (Reader (k :: le_bytes 4 len ++ rest) tl)
              = (Err (IoError InvalidData msg), Reader rest tl).
Proof.
  intros Hl. rewrite read_header by (unfold MAX_FRAME in Hl; lia).
  destruct (Z.ltb_spec MAX_FRAME len); [eauto | lia].
Qed.

(** A frame that was cut short is an error, not a frame. *)
Lemma read_frame_cut k p d tl :
  small p = true -> d `prefix_of` frame_bytes k p -> d <> frame_bytes k p ->
  (d = [] /\ read_frame (Reader d tl)
             = (match tl with None => Ok None | Some e => Err e end, Reader d tl)) \/
  exists e, (read_frame (Reader d tl)).1 = Err e.
Proof.
  intros Hs%Z.leb_le [q Eq] Hne. destruct d as [|b d].
  { left. split; [reflexivity|]. unfold read_frame, conn_bind. cbn. destruct tl; reflexivity. }
  right. assert (b = k /\ le_bytes 4 (Z.of_nat (length p)) ++ p = d ++ q) as [-> Eq']
    by (unfold frame_bytes in Eq; rewrite <- app_comm_cons in Eq; split; congruence).
  clear Eq. rename Eq' into Eq.
  destruct (decide (length d < 4)%nat) as [H4|H4].
  - destruct (read_exact_short 4 d tl H4) as [e He]. exists e.
    unfold read_frame, conn_bind. cbn [read_one r_bytes r_tail]. rewrite He. reflexivity.
  - set (h := le_bytes 4 (Z.of_nat (length p))) in *.
    assert (Ed : exists t, d = h ++ t).
    { exists (drop 4 d). rewrite <- (take_drop 4 d) at 1. f_equal.
      apply (f_equal (take 4)) in Eq. rewrite (take_app_length' h) in Eq by (unfold h; len).
      rewrite Eq, take_app_le by lia. reflexivity. }
    destruct Ed as [t ->]. subst h. rewrite read_header by (unfold MAX_FRAME in Hs; lia).
    destruct (Z.ltb_spec MAX_FRAME (Z.of_nat (length p))); [lia|].
    rewrite Nat2Z.id. rewrite <- app_assoc in Eq. apply app_inv_head in Eq.
    destruct (decide (length t < length p)%nat) as [Hlt|Hge].
    + destruct (read_exact_short (length p) t tl Hlt) as [e He]. exists e.
      unfold conn_bind. rewrite He. reflexivity.
    + assert (q = []) as ->.
      { apply (f_equal length) in Eq. rewrite length_app in Eq. destruct q; [reflexivity|].
        cbn in Eq. lia. }
      rewrite app_nil_r in Eq. exfalso. apply Hne. unfold frame_bytes. rewrite Eq. reflexivity.
Qed.

(** A frame that was read is its bytes, all of them and nothing behind. *)
Lemma read_frame_inv r f r' :
  read_frame r = (Ok (Some f), r') ->
  exists k p, r_bytes r = frame_bytes k p ++ r_bytes r' /\ r_tail r' = r_tail r /\
              small p = true /\ decode_frame k p = Ok (Some f).
Proof.
  destruct r as [[|k d] tl]; unfold read_frame, conn_bind at 1; cbn [read_one r_bytes r_tail].
  { destruct tl; discriminate. }
  unfold conn_bind, read_exact. cbn [r_bytes r_tail].
  destruct (Nat.leb_spec 4 (length d)) as [H4|]; [|discriminate].
  set (len := le_value (take 4 d)).
  destruct (Z.ltb_spec MAX_FRAME len) as [|Hm]; [discriminate|]. cbn [r_bytes r_tail].
  destruct (Nat.leb_spec (Z.to_nat len) (length (drop 4 d))) as [Hl|]; [|discriminate].
  intros [= Hd <-]. exists k, (take (Z.to_nat len) (drop 4 d)). cbn [r_bytes r_tail].
  assert (Hr : 0 <= len) by (apply (le_value_range (take 4 d))).
  assert (Hlen : Z.of_nat (length (take (Z.to_nat len) (drop 4 d))) = len)
    by (rewrite length_take; lia).
  split_and!; auto.
  - unfold frame_bytes. rewrite Hlen. unfold len.
    rewrite <- app_comm_cons. f_equal. rewrite <- app_assoc, take_drop.
    pose proof (le_bytes_value (take 4 d)) as E. rewrite length_take, Nat.min_l in E by lia.
    rewrite E, take_drop. reflexivity.
  - unfold small. rewrite Hlen. apply Z.leb_le. lia.
Qed.

(** Reading never adds to what is left. *)
Lemma read_frame_le r x r' :
  read_frame r = (x, r') -> (length (r_bytes r') <= length (r_bytes r))%nat.
Proof.
  assert (Hx : forall n q, (length (r_bytes (read_exact n q).2) <= length (r_bytes q))%nat).
  { intros n q. unfold read_exact. destruct (_ <=? _)%nat; cbn; [rewrite length_drop|]; lia. }
  destruct r as [[|k d] tl]; unfold read_frame, conn_bind at 1; cbn [read_one r_bytes r_tail].
  { destruct tl; intros [= <- <-]; cbn; lia. }
  unfold conn_bind. pose proof (Hx 4%nat (Reader d tl)) as H4.
  destruct (read_exact 4 (Reader d tl)) as [[h|e] r1]; cbn in H4 |- *; [|intros [= <- <-]; lia].
  destruct (_ <? _); [intros [= <- <-]; lia|].
  pose proof (Hx (Z.to_nat (le_value h)) r1) as Hp.
  destruct (read_exact _ r1) as [[p|e] r2]; cbn in Hp |- *; intros [= <- <-]; lia.
Qed.

End CodecLemmas.

(** ** Properties *)

Section CodecTheorems.
Context `{ControlLaws}.

Lemma read_encoded f d rest tl :
  encode_frame f = Some d ->
  read_frame (Reader (d ++ rest) tl) = (Ok (Some f), Reader rest tl).
Proof.
  destruct f as [m|p]; cbn.
  - destruct (ctl_to_vec m) as [p|e] eqn:Em; [|discriminate].
    destruct (small p) eqn:Es; [|discriminate]. intros [= <-].
    rewrite read_frame_bytes by exact Es. unfold decode_frame.
    rewrite (ctl_inverse m p Em). reflexivity.
  - destruct (small p) eqn:Es; [|discriminate]. intros [= <-].
    rewrite read_frame_bytes by exact Es. reflexivity.
Qed.

Lemma encode_frame_shape f d : encode_frame f = Some d ->
  exists k p, small p = true /\ d = frame_bytes k p.
Proof.
  destruct f as [m|p]; cbn.
  - destruct (ctl_to_vec m) as [p|]; [|discriminate].
    destruct (small p) eqn:Es; [|discriminate]. intros [= <-]. eauto.
  - destruct (small p) eqn:Es; [|discriminate]. intros [= <-]. eauto.
Qed.

(** The end of a connection on which nothing is left. *)
Definition end_of (tl : option io_error) : stream_end :=
  match tl with None => Closed | Some e => Broken e end.

(** Reading a beginning of what was sent. *)
Lemma read_frames_cut fs d tl :
  d `prefix_of` encode_frames fs ->
  exists n e, read_frames (S (length fs)) (Reader d tl) = (take n fs, e) /\ e <> OutOfFuel /\
    (Forall (fun f => is_Some (encode_frame f)) fs ->
      (d = encode_frames fs -> take n fs = fs /\ e = end_of tl) /\
      (d <> encode_frames fs -> (n < length fs)%nat)).
Proof.
  revert d; induction fs as [|f fs IH]; intros d Hp.
  - apply prefix_nil_inv in Hp as ->. exists O, (end_of tl).
    unfold read_frames, read_frame, conn_bind. cbn. destruct tl; cbn; split_and!; easy.
  - cbn [encode_frames length] in *. destruct (encode_frame f) as [df|] eqn:Ef.
    + destruct (decide (df `prefix_of` d)) as [[d2 ->]|Hnp].
      * apply prefix_app_inv in Hp. destruct (IH d2 Hp) as (n & e & Er & Hne & Hall).
        exists (S n), e. cbn [read_frames]. rewrite (read_encoded f df d2 tl Ef).
        cbn [read_frames] in Er |- *. rewrite Er. split; [reflexivity|]. split; [exact Hne|].
        intros HF. inversion_clear HF as [|? ? _ HF']. destruct (Hall HF') as [Hw Hc]. split.
        { intros E%app_inv_head. destruct (Hw E) as [E1 ->]. cbn. rewrite E1. auto. }
        intros E. assert (d2 <> encode_frames fs) by congruence. cbn. pose proof (Hc H1). lia.
      * assert (Hd : d `prefix_of` df /\ d <> df).
        { split; [|intros ->; apply Hnp; reflexivity].
          destruct (prefix_weak_total d df (df ++ encode_frames fs) Hp) as [?|?];
            [apply prefix_app_r; reflexivity | assumption | contradiction]. }
        assert (Hno : d <> df ++ encode_frames fs) by (intros E; apply Hnp; eexists; exact E).
        destruct Hd as [Hd Hdn]. destruct (encode_frame_shape f df Ef) as (k & p & Hs & ->).
        assert (Hr : exists e, read_frames (S (S (length fs))) (Reader d tl) = ([], e)
                               /\ e <> OutOfFuel).
        { cbn [read_frames]. destruct (read_frame_cut k p d tl Hs Hd Hdn) as [[_ ->]|[e Er]].
          - exists (end_of tl). destruct tl; auto.
          - exists (Broken e). destruct (read_frame (Reader d tl)) as [x r']; cbn in Er; subst x.
            auto. }
        destruct Hr as (e & -> & He). exists O, e. split_and!; auto. intros _. cbn.
        split; [contradiction | lia].
    + apply prefix_nil_inv in Hp as ->. exists O, (end_of tl). cbn [read_frames].
      unfold read_frame, conn_bind. cbn [read_one r_bytes r_tail].
      destruct tl; cbn; split_and!; auto; try discriminate;
        intros HF; inversion_clear HF as [|? ? [? HS] _]; congruence.
Qed.

(** C27: whatever is written to a connection, wherever the connection breaks and
    however much of what was sent arrives, the peer reads a beginning of the
    frames that were written, each as it was, and then an end; it reads all of
    them when all of it arrived, and misses some otherwise. *)
Theorem frames_survive_cuts fs room fl tl p :
  p `prefix_of` w_sent (write_frames fs (Writer [] room fl)).2 ->
  exists n e, read_frames (S (length fs)) (Reader p tl) = (take n fs, e) /\ e <> OutOfFuel /\
    ((write_frames fs (Writer [] room fl)).1 = Ok tt ->
      (p = w_sent (write_frames fs (Writer [] room fl)).2 -> take n fs = fs /\ e = end_of tl) /\
      (p <> w_sent (write_frames fs (Writer [] room fl)).2 -> (n < length fs)%nat)).
Proof.
  intros Hp. destruct (write_frames_sends fs (Writer [] room fl)) as (d & Ed & Hd & Hok).
  cbn in Ed. rewrite Ed in *.
  destruct (read_frames_cut fs p tl) as (n & e & Er & Hne & Hall).
  { etransitivity; eassumption. }
  exists n, e. split_and!; auto. intros Hw. destruct (Hok Hw) as [-> HF]. exact (Hall HF).
Qed.

(** No frame is larger than [MAX_FRAME]: [write_raw] refuses it before
    anything is on the wire, [read_frame] refuses the header that announces it
    before reading the payload, and a frame that is read is exactly the next
    bytes of the stream. *)
Theorem frame_bounds :
  (forall k p w, MAX_FRAME < Z.of_nat (length p) ->
     write_raw k p w = (Err (IoError InvalidInput (L "relay frame too large")), w)) /\
  (forall k n rest tl, MAX_FRAME < n < 2 ^ 32 -> exists msg,
     read_frame (Reader (k :: le_bytes 4 n ++ rest) tl)
     = (Err (IoError InvalidData msg), Reader rest tl)) /\
  (forall r f r', read_frame r = (Ok (Some f), r') -> exists k p,
     r_bytes r = frame_bytes k p ++ r_bytes r' /\ Z.of_nat (length p) <= MAX_FRAME /\
     decode_frame k p = Ok (Some f)).
Proof.
  split_and!.
  - intros k p w Hl. apply write_raw_large. apply Z.leb_gt, Hl.
  - intros. apply read_frame_oversized. assumption.
  - intros r f r' Er. destruct (read_frame_inv r f r' Er) as (k & p & E1 & _ & Hs & E2).
    exists k, p. split_and!; auto. apply Z.leb_le, Hs.
Qed.

End CodecTheorems.

(** ** A concrete codec and the witnesses *)

Module SampleControl.
Import SampleJson.

Definition pack (m : ControlMsg) : Z * list str * option str * Z * bool :=
  match m with
  | Register a b c d n => (0, [a; b; c; d], None, n, false)
  | SessionDone a ok e n => (1, [a], e, n, ok)
  | Pong => (2, [], None, 0, false)
  | Registered ok a => (3, [a], None, 0, ok)
  | StartBackup a i b => (4, [a; b], i, 0, false)
  | StartRestore a i b => (5, [a; b], i, 0, false)
  | Cancel a => (6, [a], None, 0, false)
  | Ping => (7, [], None, 0, false)
  | Hello a b => (8, [a; b], None, 0, false)
  | End ok e => (9, [], e, 0, ok)
  end.

Definition unpack (x : Z * list str * option str * Z * bool) : option ControlMsg :=
  let '(k, l, e, n, ok) := x in
  match k, l with
  | 0, [a; b; c; d] => Some (Register a b c d n)
  | 1, [a] => Some (SessionDone a ok e n)
  | 2, [] => Some Pong
  | 3, [a] => Some (Registered ok a)
  | 4, [a; b] => Some (StartBackup a e b)
  | 5, [a; b] => Some (StartRestore a e b)
  | 6, [a] => Some (Cancel a)
  | 7, [] => Some Ping
  | 8, [a; b] => Some (Hello a b)
  | 9, [] => Some (End ok e)
  | _, _ => None
  end.

Definition ctl_parse (b : bytes) : result str ControlMsg :=
  match countable.decode (bytes_pos b) ≫= unpack with
  | Some m => Ok m
  | None => Err (L "expected value")
  end.

#[export] Instance control_json : ControlJson := {|
  ctl_to_vec m := Ok (pos_bytes (encode (pack m))); ctl_from_slice := ctl_parse |}.

#[export] Instance control_laws : ControlLaws.
Proof.
  intros m b [= <-]. change (ctl_parse (pos_bytes (encode (pack m))) = Ok m).
  unfold ctl_parse. rewrite pos_bytes_inv.
  generalize (decode_encode (pack m)). intros ->. destruct m; reflexivity.
Qed.

Definition sample_frames : list Frame :=
  [Control (Hello (L "s1") (L "t")); Data (bstr "BAK"); Control (End true None)].

End SampleControl.
Import SampleControl.

Lemma frames_survive_cuts_witness :
  exists n e, read_frames 4 (Reader (bstr "") None) = (take n sample_frames, e) /\
              e <> OutOfFuel /\ (n < 3)%nat.
Proof.
  destruct (frames_survive_cuts sample_frames None true None []) as (n & e & Er & He & Hw).
  - exists (w_sent (write_frames sample_frames (Writer [] None true)).2). reflexivity.
  - exists n, e. split; [exact Er|]. split; [exact He|].
    destruct Hw as [_ Hc]; [vm_compute; reflexivity|]. apply Hc. vm_compute. discriminate.
Defined.

Lemma frame_bounds_witness :
  exists k p, frame_bytes x01 (bstr "BAK") ++ [x07] = frame_bytes k p ++ [x07] /\
  Z.of_nat (length p) <= MAX_FRAME.
Proof.
  destruct frame_bounds as (_ & _ & Hr).
  destruct (Hr (Reader (frame_bytes x01 (bstr "BAK") ++ [x07]) None) (Data (bstr "BAK"))
              (Reader [x07] None)) as (k & p & E & Hl & _); [vm_compute; reflexivity|].
  exists k, p. auto.
Defined.
