(* ===== verification/Relay.v ===== *)
(** The byte stream of a relayed backup ([pbsgui-engine/src/relay/]).

    An agent on the SQL Server host runs the backup device and sends its bytes in
    frames; the proxy pumps the frames into a bounded channel, from which a
    blocking reader feeds the uploader.  [Backup] and [Device] model the two ends of
    a session ([run_backup_session] and [run_restore_session] of [agent.rs],
    [push_data] of [server.rs]) as functions on the connections of [Frames];
    [pump_data] and [RelayRead] of [server.rs] run concurrently and are a step
    relation, which refines an abstract reader: the bytes of the stream, then
    end of file if the stream was closed cleanly, an error otherwise. *)

From Stdlib Require Import ZArith Lia Strings.Byte Ascii String.
From stdpp Require Import base tactics option numbers list relations.
From S2P Require Import Prelude Text Base Sched Channels Frames.
Open Scope Z_scope.

Definition DATA_QUEUE : nat := 16.
#[global] Arguments DATA_QUEUE : simpl never.

(** ** The proxy's end of a backup stream *)

(** The task [pump_data]: before reading a frame, waiting for room in the
    channel, or returned (both of its senders are dropped then). *)
Inductive pump_state := PumpRead | PumpSend (payload : bytes) | PumpEnded.

(** The channel [done]: nothing sent yet, the verdict sent, or its sender dropped
    without one. *)
Inductive done_state := DoneOpen | DoneSent (ok : bool) | DoneDropped.

(** The stream: the connection, the pump, the two channels and the fields of
    [RelayRead]; [s_call] is the length of [out] during a call of [read]. *)
Record stream := {
  s_conn : reader; s_pump : pump_state; s_chan : list bytes; s_done : done_state;
  s_buf : bytes; s_pos : nat; s_verdict : option bool;
  s_call : option nat; s_dropped : bool }.

(** What [backup_stream] returns, with the task it spawns. *)
Definition backup_stream_init (conn : reader) : stream :=
  {| s_conn := conn; s_pump := PumpRead; s_chan := []; s_done := DoneOpen;
     s_buf := []; s_pos := 0; s_verdict := None; s_call := None; s_dropped := false |}.

Definition set_pump (c : reader) (p : pump_state) (chan : list bytes) (d : done_state)
    (s : stream) : stream :=
  {| s_conn := c; s_pump := p; s_chan := chan; s_done := d; s_buf := s_buf s;
     s_pos := s_pos s; s_verdict := s_verdict s; s_call := s_call s;
     s_dropped := s_dropped s |}.

Definition set_reader (chan : list bytes) (buf : bytes) (pos : nat) (v : option bool)
    (call : option nat) (s : stream) : stream :=
  {| s_conn := s_conn s; s_pump := s_pump s; s_chan := chan; s_done := s_done s;
     s_buf := buf; s_pos := pos; s_verdict := v; s_call := call;
     s_dropped := s_dropped s |}.

Definition truncated_error : io_error :=
  IoError UnexpectedEof (L "the relay data stream did not complete; refusing to treat a truncated backup as whole").

Section pump.
Context `{ControlJson}.

(** One iteration of the loop of [pump_data], up to its next await; [None] when it
    waits for room in the channel. *)
Definition pump_data (s : stream) : option stream :=
  match s_pump s with
  | PumpEnded => None
  | PumpRead =>
      Some match read_frame (s_conn s) with
      | (Ok (Some (Data b)), c) => set_pump c (PumpSend b) (s_chan s) (s_done s) s
      | (Ok (Some (Control (End ok _))), c) =>
          set_pump c PumpEnded (s_chan s) (DoneSent ok) s
      | (_, c) => set_pump c PumpEnded (s_chan s) DoneDropped s
      end
  | PumpSend b =>
      if s_dropped s then Some (set_pump (s_conn s) PumpEnded (s_chan s) DoneDropped s)
      else if (length (s_chan s) <? DATA_QUEUE)%nat
      then Some (set_pump (s_conn s) PumpRead (s_chan s ++ [b]) (s_done s) s)
      else None
  end.

(** [read], in a call with [n] bytes of [out]: an iteration of its loop, with the
    result when it returns; [None] when it blocks on the channel. *)
Definition relay_read (n : nat) (s : stream) :
    option (stream * option (result io_error bytes)) :=
  if (s_pos s <? length (s_buf s))%nat then
    let k := Nat.min (length (s_buf s) - s_pos s) n in
    Some (set_reader (s_chan s) (s_buf s) (s_pos s + k) (s_verdict s) None s,
          Some (Ok (slice (s_pos s) (s_pos s + k) (s_buf s))))
  else
    match s_chan s, s_pump s with
    | next :: chan, _ => Some (set_reader chan next 0 (s_verdict s) (s_call s) s, None)
    | [], PumpEnded =>
        let ok := match s_verdict s with
          | Some v => v
          | None => match s_done s with DoneSent v => v | _ => false end
          end in
        Some (set_reader [] (s_buf s) (s_pos s) (Some ok) None s,
              Some (if ok then Ok [] else Err truncated_error))
    | [], _ => None
    end.

(** The steps of the stream; a step that ends a call of [read] is labelled with
    the length of [out] and the result. *)
Inductive stream_step : stream -> option (nat * result io_error bytes) -> stream -> Prop :=
| step_pump s s' : pump_data s = Some s' -> stream_step s None s'
| step_call s n :
    s_call s = None -> s_dropped s = false ->
    stream_step s None (set_reader (s_chan s) (s_buf s) (s_pos s) (s_verdict s) (Some n) s)
| step_read s n s' :
    s_call s = Some n -> relay_read n s = Some (s', None) -> stream_step s None s'
| step_return s n s' res :
    s_call s = Some n -> relay_read n s = Some (s', Some res) ->
    stream_step s (Some (n, res)) s'
| step_drop s :
    s_call s = None ->
    stream_step s None
      {| s_conn := s_conn s; s_pump := s_pump s; s_chan := []; s_done := s_done s;
         s_buf := s_buf s; s_pos := s_pos s; s_verdict := s_verdict s; s_call := None;
         s_dropped := true |}.

(** A run, with the results of its reads. *)
Inductive stream_run : stream -> list (nat * result io_error bytes) -> stream -> Prop :=
| run_nil s : stream_run s [] s
| run_tau s s' s'' evs :
    stream_step s None s' -> stream_run s' evs s'' -> stream_run s evs s''
| run_event s s' s'' ev evs :
    stream_step s (Some ev) s' -> stream_run s' evs s'' -> stream_run s (ev :: evs) s''.

(** The stream a list of frames carries: the data up to the first frame that is
    not data, and whether that one is [End { ok: true }]. *)
Fixpoint carried (fs : list Frame) : bytes * bool :=
  match fs with
  | Data b :: fs => let '(d, ok) := carried fs in (b ++ d, ok)
  | Control (End ok _) :: _ => ([], ok)
  | _ => ([], false)
  end.

Definition stream_of (r : reader) : bytes * bool :=
  carried (read_frames (S (length (r_bytes r))) r).1.

End pump.
#[global] Arguments stream_of : simpl never.

(** ** The stream refines the abstract reader *)

Section refinement.
Context `{ControlJson}.

Lemma read_frame_shrinks r f r' :
  read_frame r = (Ok (Some f), r') -> (length (r_bytes r') < length (r_bytes r))%nat.
Proof.
  intros (k & p & E & _)%read_frame_inv. rewrite E. unfold frame_bytes.
  rewrite length_app. cbn [length]. lia.
Qed.

Lemma read_frames_enough n m r :
  (length (r_bytes r) < n)%nat -> (n <= m)%nat -> read_frames n r = read_frames m r.
Proof.
  revert m r; induction n as [|n IH]; intros m r Hn Hm; [lia|].
  destruct m as [|m]; [lia|]. cbn [read_frames].
  destruct (read_frame r) as [[[f|]|e] r'] eqn:E; try reflexivity.
  apply read_frame_shrinks in E. rewrite (IH m r') by lia. reflexivity.
Qed.

Lemma read_frames_ends n r : (length (r_bytes r) < n)%nat -> (read_frames n r).2 <> OutOfFuel.
Proof.
  revert r; induction n as [|n IH]; intros r Hn; [lia|]. cbn [read_frames].
  destruct (read_frame r) as [[[f|]|e] r'] eqn:E; try discriminate.
  apply read_frame_shrinks in E. specialize (IH r' ltac:(lia)).
  destruct (read_frames n r'). exact IH.
Qed.

Lemma stream_of_eq r :
  stream_of r = match read_frame r with
    | (Ok (Some (Data b)), c) => (b ++ (stream_of c).1, (stream_of c).2)
    | (Ok (Some (Control (End ok _))), _) => ([], ok)
    | _ => ([], false)
    end.
Proof.
  unfold stream_of at 1. cbn [read_frames].
  destruct (read_frame r) as [[[f|]|e] r'] eqn:E; try reflexivity.
  apply read_frame_shrinks in E.
  assert (stream_of r' = carried (read_frames (length (r_bytes r)) r').1) as ->
    by (unfold stream_of; erewrite read_frames_enough; [reflexivity | lia | lia]).
  destruct (read_frames (length (r_bytes r)) r') as [fs e].
  destruct f as [[]|b]; cbn; try reflexivity. destruct (carried fs); reflexivity.
Qed.

(** The abstract state of a stream whose reader is alive. *)
Definition verdict_of (s : stream) : bool :=
  match s_verdict s with
  | Some v => v
  | None => match s_done s with DoneSent v => v | _ => false end
  end.

Definition to_come (s : stream) : bytes * bool :=
  match s_pump s with
  | PumpRead => stream_of (s_conn s)
  | PumpSend b => (b ++ (stream_of (s_conn s)).1, (stream_of (s_conn s)).2)
  | PumpEnded => ([], verdict_of s)
  end.

Definition abstract (s : stream) : bytes * bool :=
  (drop (s_pos s) (s_buf s) ++ concat (s_chan s) ++ (to_come s).1, (to_come s).2).

(** No verdict before the pump has ended; a dropped reader is in no call. *)
Definition stream_inv (s : stream) : Prop :=
  (s_pump s <> PumpEnded -> s_verdict s = None) /\ (s_dropped s = true -> s_call s = None) /\
  (s_pos s <= length (s_buf s))%nat.

Lemma pump_simulates s s' :
  pump_data s = Some s' -> stream_inv s -> s_dropped s = false ->
  abstract s' = abstract s /\ stream_inv s' /\ s_dropped s' = false.
Proof.
  unfold pump_data, stream_inv, abstract, to_come, verdict_of.
  destruct s as [c p chan d buf pos v call dr]. cbn -[Nat.ltb]. intros E (Hv & Hd & Hp) ->.
  destruct p as [|b|]; [| |discriminate].
  - injection E as <-. rewrite (stream_of_eq c), Hv by discriminate.
    destruct (read_frame c) as [[[[[]|b]|]|e] c']; cbn; repeat split; auto; congruence.
  - destruct (_ <? _)%nat; [|discriminate]. injection E as <-. cbn.
    rewrite concat_app. cbn. rewrite app_nil_r, <- !app_assoc.
    repeat split; auto.
Qed.

Lemma read_simulates s n s' out :
  relay_read n s = Some (s', out) -> stream_inv s -> s_call s = Some n ->
  s_dropped s' = s_dropped s /\ stream_inv s' /\
  match out with
  | None => abstract s' = abstract s
  | Some res => spec_read truncated_error (abstract s) (n, res) (abstract s')
  end.
Proof.
  unfold relay_read, stream_inv, abstract, to_come, verdict_of.
  destruct s as [c p chan d buf pos v call dr]. cbn -[Nat.ltb]. intros E (Hv & Hd & Hp) ->.
  destruct (Nat.ltb_spec pos (length buf)) as [Hlt|Hge].
  - injection E as <- <-. cbn. split; [reflexivity|]. split; [repeat split; auto; lia|].
    set (k := Nat.min (length buf - pos) n). set (w := concat chan ++ _).
    assert (Ed : drop pos buf = slice pos (pos + k) buf ++ drop (pos + k) buf).
    { unfold slice. replace (pos + k - pos)%nat with k by lia.
      rewrite <- drop_drop, take_drop. reflexivity. }
    assert (El : length (slice pos (pos + k) buf) = k) by (rewrite length_slice; lia).
    rewrite Ed, <- app_assoc. constructor; [|lia|].
    + rewrite app_assoc, <- Ed. intros E%(f_equal length). rewrite length_app, length_drop in E.
      cbn in E. lia.
    + intros E%(f_equal length). rewrite El in E. cbn in E. lia.
  - rewrite drop_ge by lia. cbn. destruct chan as [|next chan].
    + destruct p; try discriminate. injection E as <- <-. cbn. rewrite drop_ge by lia. cbn.
      destruct v as [[]|]; [| |destruct d as [|[]|]]; cbn;
        (split; [reflexivity|]); (split; [repeat split; auto; congruence|]); constructor.
    + injection E as <- <-. cbn. repeat split; auto; [lia|]. rewrite drop_0, app_assoc.
      destruct p; reflexivity.
Qed.

(** A step of a stream whose reader is alive is none or one of the abstract
    reader, and keeps the invariant; a dropped one produces nothing. *)
Lemma step_simulates s ev s' :
  stream_step s ev s' -> stream_inv s ->
  stream_inv s' /\
  (s_dropped s = true -> ev = None /\ s_dropped s' = true) /\
  (s_dropped s' = false -> match ev with
    | None => abstract s' = abstract s
    | Some e => spec_read truncated_error (abstract s) e (abstract s')
    end).
Proof.
  intros Hs Hi. destruct Hs as [s s' E|s n Hc Hd|s n s' Hc E|s n s' res Hc E|s Hc].
  - destruct (s_dropped s) eqn:Hd.
    + unfold pump_data in E. unfold stream_inv in *. destruct Hi as (Hv & Hc & Hp).
      destruct (s_pump s); try discriminate; [|rewrite Hd in E]; injection E as <-.
      * destruct (read_frame (s_conn s)) as [[[[[]|b]|]|e] c']; cbn; rewrite Hd;
          repeat split; auto; try discriminate; intros; apply Hv; discriminate.
      * cbn. rewrite Hd. repeat split; auto; congruence.
    + destruct (pump_simulates s s' E Hi Hd) as (Ea & Hi' & _).
      split; [exact Hi'|]. split; [discriminate | auto].
  - unfold stream_inv in *. cbn. destruct Hi as (Hv & Hx & Hp). rewrite Hd.
    repeat split; auto; try discriminate.
  - destruct (read_simulates s n s' None E Hi Hc) as (Ed & Hi' & Ha).
    split; [exact Hi'|]. split; [|auto]. intros Hd. destruct Hi as (_ & Hx & _).
    rewrite (Hx Hd) in Hc. discriminate.
  - destruct (read_simulates s n s' (Some res) E Hi Hc) as (Ed & Hi' & Ha).
    split; [exact Hi'|]. split; [|auto]. intros Hd. destruct Hi as (_ & Hx & _).
    rewrite (Hx Hd) in Hc. discriminate.
  - unfold stream_inv in *. cbn. destruct Hi as (Hv & _ & Hp). repeat split; auto. discriminate.
Qed.

Lemma run_app s evs s' evs' s'' :
  stream_run s evs s' -> stream_run s' evs' s'' -> stream_run s (evs ++ evs') s''.
Proof. induction 1; cbn; eauto using stream_run. Qed.

Lemma run_dropped s evs s' :
  stream_run s evs s' -> stream_inv s -> s_dropped s = true -> evs = [].
Proof.
  induction 1 as [s|s s1 s2 evs Hs _ IH|s s1 s2 ev evs Hs _ _]; intros Hi Hd; [reflexivity| |];
    destruct (step_simulates _ _ _ Hs Hi) as (Hi' & Hx & _); destruct (Hx Hd) as [Hn Hd'].
  - auto.
  - discriminate.
Qed.

Lemma run_simulates s evs s' :
  stream_run s evs s' -> stream_inv s -> s_dropped s = false -> spec_trace truncated_error (abstract s) evs.
Proof.
  induction 1 as [s|s s1 s2 evs Hs Hr IH|s s1 s2 ev evs Hs Hr IH]; intros Hi Hd;
    [constructor| |];
    destruct (step_simulates _ _ _ Hs Hi) as (Hi' & _ & Ha);
    destruct (s_dropped s1) eqn:Hd1.
  - rewrite (run_dropped _ _ _ Hr Hi' Hd1). constructor.
  - rewrite <- (Ha eq_refl). auto.
  - exfalso. inversion Hs as [| | |? ? ? ? Hc E|]; subst.
    destruct (read_simulates _ _ _ _ E Hi Hc) as (Ed & _). congruence.
  - econstructor; [apply Ha; reflexivity | auto].
Qed.

Lemma init_inv conn : stream_inv (backup_stream_init conn).
Proof. repeat split; auto. Qed.

Lemma abstract_init conn : abstract (backup_stream_init conn) = stream_of conn.
Proof. unfold abstract, to_come. cbn. destruct (stream_of conn); reflexivity. Qed.

(** *** A read returns *)

(** Some step is possible, and however the silent steps are chosen, only finitely
    many of them come before the call of [read] returns. *)
Inductive returns : stream -> Prop :=
| returns_intro s :
    (exists ev s', stream_step s ev s') ->
    (forall s', stream_step s None s' -> returns s') -> returns s.

Definition pump_weight (p : pump_state) : nat :=
  match p with PumpRead => 1 | PumpSend _ => 3 | PumpEnded => 0 end.
Definition stream_weight (s : stream) : nat :=
  4 * length (r_bytes (s_conn s)) + pump_weight (s_pump s) + length (s_chan s).

Lemma pump_lighter s s' : pump_data s = Some s' -> (stream_weight s' < stream_weight s)%nat.
Proof.
  unfold pump_data, stream_weight. destruct (s_pump s) as [|b|]; [| |discriminate].
  - intros [= <-]. destruct (read_frame (s_conn s)) as [x c] eqn:E.
    assert (Hc : (length (r_bytes c) <= length (r_bytes (s_conn s)))%nat)
      by (apply read_frame_le in E; exact E).
    destruct x as [[f|]|e]; cbn; try lia. apply read_frame_shrinks in E.
    destruct f as [[]|b]; cbn; lia.
  - destruct (s_dropped s); [intros [= <-]; cbn; lia|].
    destruct (_ <? _)%nat; [|discriminate]. intros [= <-]. cbn. rewrite length_app. cbn. lia.
Qed.

Lemma call_progress s n :
  s_call s = Some n -> stream_inv s -> exists ev s', stream_step s ev s'.
Proof.
  intros Hc Hi. destruct (relay_read n s) as [[s' [res|]]|] eqn:E.
  { eexists _, _. eapply step_return; eauto. }
  { eexists _, _. eapply step_read; eauto. }
  unfold relay_read in E. destruct (_ <? _)%nat; [discriminate|].
  destruct (s_chan s) eqn:Ech; [|discriminate].
  assert (Hd : s_dropped s = false).
  { destruct (s_dropped s) eqn:Hd; [|reflexivity]. destruct Hi as (_ & Hx & _).
    rewrite (Hx Hd) in Hc. discriminate. }
  assert (Hp : exists s', pump_data s = Some s').
  { unfold pump_data. rewrite Hd, Ech. destruct (s_pump s); [eauto| |discriminate E].
    cbn. eauto. }
  destruct Hp as [s' Hp]. eexists None, s'. apply step_pump, Hp.
Qed.

Lemma call_steps s n s' :
  s_call s = Some n -> stream_step s None s' ->
  s_call s' = Some n /\ (stream_weight s' < stream_weight s)%nat.
Proof.
  intros Hc Hs. remember None as ev eqn:Ee.
  destruct Hs as [s s' E|s m Hm _|s m s' Hm E|s m s' res Hm E|s Hm]; try congruence.
  - split; [|apply pump_lighter, E]. rewrite <- Hc. unfold pump_data in E.
    destruct (s_pump s) as [|b|]; [| |discriminate].
    + injection E as <-. destruct (read_frame (s_conn s)) as [[[[[]|b]|]|e] c']; reflexivity.
    + destruct (s_dropped s); [injection E as <-; reflexivity|].
      destruct (_ <? _)%nat; [injection E as <-; reflexivity | discriminate].
  - unfold relay_read, stream_weight in *. destruct (_ <? _)%nat; [discriminate|].
    destruct (s_chan s) as [|next chan]; [destruct (s_pump s); discriminate|].
    injection E as <-. cbn. rewrite Hc. split; [congruence | lia].
Qed.

Lemma call_returns s n : s_call s = Some n -> stream_inv s -> returns s.
Proof.
  remember (stream_weight s) as w eqn:Ew. revert s Ew.
  induction (lt_wf w) as [w _ IH]. intros s -> Hc Hi. constructor.
  - exact (call_progress s n Hc Hi).
  - intros s' Hs. destruct (call_steps s n s' Hc Hs) as [Hc' Hw].
    destruct (step_simulates s None s' Hs Hi) as (Hi' & _). eauto.
Qed.

Lemma run_inv s evs s' : stream_run s evs s' -> stream_inv s -> stream_inv s'.
Proof.
  induction 1 as [s|s s1 s2 evs Hs _ IH|s s1 s2 ev evs Hs _ IH]; intros Hi; auto;
    destruct (step_simulates _ _ _ Hs Hi) as (Hi' & _); auto.
Qed.

Lemma read_return_idle n s s' res : relay_read n s = Some (s', Some res) -> s_call s' = None.
Proof.
  unfold relay_read. destruct (_ <? _)%nat; [intros [= <- _]; reflexivity|].
  destruct (s_chan s); [|discriminate]. destruct (s_pump s); [discriminate..|].
  intros [= <- _]. reflexivity.
Qed.

(** A call that is made can run to its result. *)
Lemma call_completes s n :
  s_call s = Some n -> stream_inv s -> s_dropped s = false ->
  exists res s', stream_run s [(n, res)] s' /\ s_call s' = None /\ s_dropped s' = false /\
    stream_inv s' /\ spec_read truncated_error (abstract s) (n, res) (abstract s').
Proof.
  remember (stream_weight s) as w eqn:Ew. revert s Ew.
  induction (lt_wf w) as [w _ IH]. intros s -> Hc Hi Hd.
  destruct (call_progress s n Hc Hi) as ([ev|] & s1 & Hs).
  - inversion Hs as [| | |? m ? res Hm E|]; subst. assert (m = n) as -> by congruence.
    destruct (read_simulates _ _ _ _ E Hi Hc) as (Ed & Hi' & Ha).
    exists res, s1. split_and!; [|exact (read_return_idle _ _ _ _ E)|congruence|exact Hi'|exact Ha].
    eapply run_event; [exact Hs | constructor].
  - destruct (call_steps s n s1 Hc Hs) as [Hc1 Hw].
    destruct (step_simulates _ _ _ Hs Hi) as (Hi1 & _ & Ha).
    assert (s_dropped s1 = false) as Hd1.
    { destruct (s_dropped s1) eqn:E; [|reflexivity]. destruct Hi1 as (_ & Hx & _).
      rewrite (Hx E) in Hc1. discriminate. }
    destruct (IH _ Hw s1 eq_refl Hc1 Hi1 Hd1) as (res & s' & Hr & Hrest).
    rewrite <- (Ha Hd1). exists res, s'. split; [eapply run_tau; eassumption | exact Hrest].
Qed.

(** A read of a confirmed stream. *)
Lemma spec_read_confirmed d n res a :
  spec_read truncated_error (d, true) (n, res) a -> (0 < n)%nat ->
  (d = [] /\ res = Ok []) \/
  exists c rest, d = c ++ rest /\ c <> [] /\ res = Ok c /\ a = (rest, true).
Proof.
  intros Hs Hn. inversion Hs; subst; [right | auto]. do 2 eexists. split_and!; eauto.
  intros ->. match goal with Hz : [] = [] -> _ |- _ => specialize (Hz eq_refl) end. lia.
Qed.

(** A complete stream can be read to its end. *)
Lemma reads_to_end s d :
  abstract s = (d, true) -> s_call s = None -> stream_inv s -> s_dropped s = false ->
  exists evs s', stream_run s (evs ++ [(1%nat, Ok [])]) s'.
Proof.
  remember (length d) as w eqn:Ew. revert s d Ew.
  induction (lt_wf w) as [w _ IH]. intros s d -> Ha Hc Hi Hd.
  pose proof (step_call s 1 Hc Hd) as Hs.
  destruct (step_simulates _ _ _ Hs Hi) as (Hi1 & _ & Ha1). specialize (Ha1 Hd).
  destruct (call_completes (set_reader (s_chan s) (s_buf s) (s_pos s) (s_verdict s) (Some 1%nat) s)
    1 eq_refl Hi1 Hd) as (res & s' & Hr & Hc' & Hd' & Hi' & Hsp).
  rewrite Ha1, Ha in Hsp. apply spec_read_confirmed in Hsp as [[-> ->]|(c & rest & -> & Hne & -> & E)]; [| |lia].
  - exists [], s'. eapply run_tau; [exact Hs | exact Hr].
  - destruct (IH (length rest)) with (s := s') (d := rest) as (evs & s'' & Hr'); auto.
    { rewrite length_app. destruct c; [congruence | cbn; lia]. }
    exists ((1%nat, Ok c) :: evs), s''. eapply run_tau; [exact Hs|].
    exact (run_app _ _ _ _ _ Hr Hr').
Qed.

(** C11: the pump, the bounded channel and the blocking reader together, in every
    interleaving, are the abstract reader: the results of the reads are the bytes
    of the stream's data frames in order, then end of file if the stream was
    closed by [End { ok: true }] and the truncation error if not. *)
Theorem relay_read_refines conn evs s :
  stream_run (backup_stream_init conn) evs s -> spec_trace truncated_error (stream_of conn) evs.
Proof.
  intros Hr. rewrite <- abstract_init.
  exact (run_simulates _ _ _ Hr (init_inv conn) eq_refl).
Qed.

(** A call of [read] always returns: no interleaving of the pump and the
    reader blocks for good or goes on for ever, whatever arrives and however full
    the channel is. *)
Theorem relay_read_returns conn evs s n :
  stream_run (backup_stream_init conn) evs s -> s_call s = Some n -> returns s.
Proof. intros Hr Hc. exact (call_returns s n Hc (run_inv _ _ _ Hr (init_inv conn))). Qed.

End refinement.

(** ** The agent's end of a session *)

(** What the device runner of a backup does: [dv_ready] is its readiness signal
    ([None]: it went away without one), [dv_bufs] the buffers it hands over,
    [dv_done] how its thread ends when all of them were taken and [dv_stopped] how
    it ends when its channel is closed before that (an outer [Err]: it panicked). *)
Record backup_device := {
  dv_ready : option (result str unit); dv_bufs : list bytes;
  dv_done : result str (result str Z); dv_stopped : result str (result str Z) }.

(** What the device runner of a restore does: it takes [rv_takes] buffers ([None]:
    all that come), and ends with a count or an error, given what it took. *)
Record restore_device := {
  rv_ready : option (result str unit); rv_takes : option nat;
  rv_done : list bytes -> result str (result str Z) }.

Section agent.
Context `{ControlJson}.
Variable io_show : io_error -> str.

(** The wait for the device set. *)
Definition wait_ready (ready : option (result str unit)) : result str unit :=
  match ready with
  | None => Err (L "the device runner exited before signaling readiness")
  | Some (Err e) => Err (L "creating the VDI device set: " ++ e)
  | Some (Ok _) => Ok tt
  end.

(** The loop that forwards the device's buffers, with the error that stopped it. *)
Fixpoint send_bufs (bufs : list bytes) (w : writer) : option io_error * writer :=
  match bufs with
  | [] => (None, w)
  | b :: bufs =>
      match write_data b w with
      | (Ok _, w) => send_bufs bufs w
      | (Err e, w) => (Some e, w)
      end
  end.

(** The verdict the [End] frame carries. *)
Definition end_verdict (device_result : result str Z) (send_error : option io_error) :
    bool * option str :=
  match device_result, send_error with
  | Ok _, None => (true, None)
  | Ok _, Some e => (false, Some (L "sending backup data failed: " ++ io_show e))
  | Err e, _ => (false, Some e)
  end.

(** [dial] is the outcome of dialling the proxy; the result is the session's, with
    the data connection when there was one. *)
Definition run_backup_session (session_id token : str) (dev : backup_device)
    (dial : result str writer) : result str Z * option writer :=
  match wait_ready (dv_ready dev) with
  | Err e => (Err e, None)
  | Ok _ =>
  match dial with
  | Err e => (Err (L "dialing the data connection: " ++ e), None)
  | Ok w =>
  match write_control (Hello session_id token) w with
  | (Err e, w) => (Err (io_show e), Some w)
  | (Ok _, w) =>
      let '(send_error, w) := send_bufs (dv_bufs dev) w in
      match (if send_error is Some _ then dv_stopped dev else dv_done dev) with
      | Err e => (Err (L "device thread panicked: " ++ e), Some w)
      | Ok device_result =>
          let '(ok, error) := end_verdict device_result send_error in
          let w := (write_control (End ok error) w).2 in
          (match send_error with
           | Some e => Err (L "sending backup data to the proxy: " ++ io_show e)
           | None => device_result
           end, Some w)
      end
  end end end.

(** [push_data] on the proxy: every chunk of the image, then [End]. *)
Fixpoint push_data (chunks : list bytes) (w : writer) : writer :=
  match chunks with
  | [] => (write_control (End true None) w).2
  | c :: chunks =>
      match write_data c w with
      | (Ok _, w) => push_data chunks w
      | (Err _, w) => w
      end
  end.

(** The loop of [run_restore_session]: the buffers the device gets and
    [stream_ok].  Every frame consumes bytes, so the length is enough fuel. *)
Fixpoint feed_device (fuel : nat) (takes : option nat) (r : reader) : list bytes * bool :=
  match fuel with
  | O => ([], false)
  | S fuel =>
      match read_frame r with
      | (Ok (Some (Data b)), r) =>
          match takes with
          | Some O => ([], false)
          | _ => let '(bs, ok) := feed_device fuel (pred <$> takes) r in (b :: bs, ok)
          end
      | (Ok (Some (Control (End ok _))), _) => ([], ok)
      | _ => ([], false)
      end
  end.

(** [dial] gives the two directions of the data connection; the result is the
    session's, with what was sent and the buffers the device got. *)
Definition run_restore_session (session_id token : str) (dev : restore_device)
    (dial : result str (writer * reader)) : result str Z * option writer * list bytes :=
  match wait_ready (rv_ready dev) with
  | Err e => (Err e, None, [])
  | Ok _ =>
  match dial with
  | Err e => (Err (L "dialing the data connection: " ++ e), None, [])
  | Ok (w, r) =>
  match write_control (Hello session_id token) w with
  | (Err e, w) => (Err (io_show e), Some w, [])
  | (Ok _, w) =>
      let '(bs, stream_ok) := feed_device (S (length (r_bytes r))) (rv_takes dev) r in
      (match rv_done dev bs with
       | Err e => Err (L "device thread panicked: " ++ e)
       | Ok (Err e) => Err e
       | Ok (Ok n) =>
           if stream_ok then Ok n
           else Err (L "the restore image stream from the proxy did not complete")
       end, Some w, bs)
  end end end.

End agent.

(** ** A relayed backup is whole or fails *)

Section whole.
Context `{ControlLaws}.
Variable io_show : io_error -> str.

Lemma write_control_frame m w : write_control m w = write_frame (Control m) w.
Proof. reflexivity. Qed.
Lemma write_data_frame b w : write_data b w = write_frame (Data b) w.
Proof. reflexivity. Qed.

Definition encodable (f : Frame) : Prop := is_Some (encode_frame f).

Lemma send_bufs_sent bufs w : exists k d,
  w_sent (send_bufs bufs w).2 = w_sent w ++ d /\
  d `prefix_of` encode_frames (map Data (take k bufs)) /\
  ((d = encode_frames (map Data (take k bufs)) /\ Forall encodable (map Data (take k bufs))) \/
   dead (send_bufs bufs w).2) /\
  ((send_bufs bufs w).1 = None ->
    take k bufs = bufs /\ d = encode_frames (map Data bufs) /\ Forall encodable (map Data bufs)).
Proof.
  revert w; induction bufs as [|b bufs IH]; intros w.
  { exists O, []. cbn. rewrite app_nil_r. repeat split; auto. }
  cbn [send_bufs]. rewrite write_data_frame.
  destruct (write_frame (Data b) w) as [[[]|e] w1] eqn:E; cbn [fst snd].
  - destruct (write_frame_ok _ _ _ E) as (db & Eb & Es).
    destruct (IH w1) as (k & d & Ed & Hp & Hdead & Hn). exists (S k), (db ++ d).
    cbn [take map encode_frames]. rewrite Eb, Ed, Es, <- app_assoc. split; [reflexivity|].
    split; [apply prefix_app, Hp|]. split.
    + destruct Hdead as [[-> HF]|Hd]; [left|right; exact Hd].
      split; [reflexivity | constructor; [eexists; exact Eb | exact HF]].
    + intros He. destruct (Hn He) as (-> & -> & HF).
      split_and!; auto. constructor; [eexists; exact Eb | exact HF].
  - destruct (write_frame_err _ _ _ _ E) as [[En ->]|(Hd & d & d' & Eb & Hp & Es)].
    + exists O, []. cbn. rewrite app_nil_r. repeat split; auto; discriminate.
    + exists 1%nat, d'. cbn [take map encode_frames]. rewrite Eb, app_nil_r.
      split_and!; auto; discriminate.
Qed.

(** The frames of a session: [Hello], the first buffers, and a verdict that is
    [true] only for all of them and a device that closed cleanly. *)
Lemma session_frames sid tok dev room fl res w :
  run_backup_session io_show sid tok dev (Ok (Writer [] room fl)) = (res, Some w) ->
  exists k ok error,
    w_sent w `prefix_of` encode_frames (Control (Hello sid tok) ::
      map Data (take k (dv_bufs dev)) ++ [Control (End ok error)]) /\
    (ok = true -> take k (dv_bufs dev) = dv_bufs dev /\
                  exists n, res = Ok n /\ dv_done dev = Ok (Ok n)).
Proof.
  unfold run_backup_session. destruct (wait_ready _) as [u|e]; [|discriminate].
  rewrite write_control_frame.
  destruct (write_frame (Control (Hello sid tok)) _) as [[[]|e] w1] eqn:Eh.
  2:{ intros [= <- <-]. exists O, false, None. split; [|discriminate].
      destruct (write_frame_err _ _ _ _ Eh) as [[_ ->]|(_ & d & d' & Ed & Hp & Es)];
        cbn [encode_frames]; [apply prefix_nil|]. rewrite Ed, Es. cbn.
      apply prefix_app_r, Hp. }
  destruct (write_frame_ok _ _ _ Eh) as (dh & Edh & Es1). cbn in Es1.
  destruct (send_bufs_sent (dv_bufs dev) w1) as (k & d & Ed & Hp & Hcase & Hn).
  destruct (send_bufs (dv_bufs dev) w1) as [send_error w2]; cbn [fst snd] in *.
  assert (Hpre : forall ok error, w_sent w2 `prefix_of` encode_frames (Control (Hello sid tok) ::
      map Data (take k (dv_bufs dev)) ++ [Control (End ok error)])).
  { intros. cbn [encode_frames]. rewrite Edh, Ed, Es1. apply prefix_app.
    etransitivity; [exact Hp | apply encode_frames_prefix]. }
  destruct (match send_error with Some _ => _ | None => _ end) as [device_result|e] eqn:Edr.
  2:{ intros [= <- <-]. exists k, false, None. split; [apply Hpre | discriminate]. }
  destruct (end_verdict io_show device_result send_error) as [ok error] eqn:Ev.
  intros [= <- <-]. exists k, ok, error. split.
  - rewrite write_control_frame. destruct Hcase as [[-> HF]|Hdead].
    + cbn [encode_frames]. rewrite Edh, encode_frames_app by exact HF.
      destruct (write_frame (Control (End ok error)) w2) as [[[]|e] w3] eqn:Ee; cbn [snd].
      * destruct (write_frame_ok _ _ _ Ee) as (de & Ede & ->). cbn [encode_frames].
        rewrite Ede, app_nil_r, Ed, Es1, app_assoc. reflexivity.
      * destruct (write_frame_err _ _ _ _ Ee) as [[_ ->]|(_ & x & x' & Ex & Hx & ->)].
        { rewrite Ed, Es1. apply prefix_app, prefix_app_r. reflexivity. }
        cbn [encode_frames]. rewrite Ex, app_nil_r, Ed, Es1, <- app_assoc.
        apply prefix_app, prefix_app, Hx.
    + rewrite write_frame_dead by exact Hdead. apply Hpre.
  - intros ->. destruct device_result as [n|e], send_error as [se|]; try discriminate.
    destruct (Hn eq_refl) as (Hk & _). eauto.
Qed.

Lemma carried_cut n l ok error :
  (carried (take n (map Data l ++ [Control (End ok error)]))).2 = true ->
  (carried (take n (map Data l ++ [Control (End ok error)]))).1 = concat l /\ ok = true.
Proof.
  revert n; induction l as [|b l IH]; intros [|n]; cbn; try discriminate; auto.
  specialize (IH n). destruct (carried _) as [d o]; cbn in *. intros ->.
  destruct IH as [-> ->]; auto.
Qed.

Lemma stream_after r f r' :
  read_frame r = (Ok (Some f), r') ->
  stream_of r' = carried (tail (read_frames (S (length (r_bytes r))) r).1).
Proof.
  intros E. cbn [read_frames]. rewrite E. apply read_frame_shrinks in E.
  unfold stream_of. rewrite (read_frames_enough (S (length (r_bytes r'))) (length (r_bytes r)))
    by lia. destruct (read_frames _ r'). reflexivity.
Qed.

Lemma read_frames_agree n m r :
  (read_frames n r).2 <> OutOfFuel -> (length (r_bytes r) < m)%nat ->
  read_frames n r = read_frames m r.
Proof.
  revert m r; induction n as [|n IH]; intros m r; [intros []; reflexivity|].
  destruct m as [|m]; [lia|]. cbn [read_frames].
  destruct (read_frame r) as [[[f|]|e] r'] eqn:E; auto.
  apply read_frame_shrinks in E. intros Hn Hm. rewrite <- (IH m r'); [reflexivity| |lia].
  destruct (read_frames n r'). exact Hn.
Qed.

(** The stream the proxy takes for complete is the whole output of a device that
    closed cleanly. *)
Lemma relayed_backup_whole sid tok dev room fl res w p tl msg conn :
  run_backup_session io_show sid tok dev (Ok (Writer [] room fl)) = (res, Some w) ->
  p `prefix_of` w_sent w ->
  read_frame (Reader p tl) = (Ok (Some (Control msg)), conn) ->
  msg = Hello sid tok /\
  ((stream_of conn).2 = true ->
     (stream_of conn).1 = concat (dv_bufs dev) /\
     exists n, res = Ok n /\ dv_done dev = Ok (Ok n)).
Proof.
  intros Hs Hp Er. destruct (session_frames sid tok dev room fl res w Hs)
    as (k & ok & error & Hw & Hok).
  set (fs := Control (Hello sid tok) :: _) in Hw.
  destruct (read_frames_cut fs p tl) as (n & e & Ef & He & _); [etransitivity; eassumption|].
  rewrite (read_frames_agree _ (S (length p))) in Ef by (rewrite ?Ef; cbn; auto; lia).
  rewrite (stream_after _ _ _ Er). cbn [r_bytes]. rewrite Ef. cbn [fst].
  assert (Hm : Control msg = Control (Hello sid tok) /\ exists n', n = S n').
  { cbn [read_frames] in Ef. rewrite Er in Ef. destruct n as [|n]; cbn in Ef.
    - destruct (read_frames _ conn); discriminate.
    - split; [|eauto]. destruct (read_frames _ conn). injection Ef as -> _ _. reflexivity. }
  destruct Hm as [[= ->] [n' ->]]. split; [reflexivity|]. cbn [take tail fs].
  intros Hc. destruct (carried_cut _ _ _ _ Hc) as [Hd ->].
  destruct (Hok eq_refl) as [Hk Hr]. rewrite Hd, Hk. auto.
Qed.

Lemma relay_eof sid tok dev room fl res w p tl msg conn evs n s :
  run_backup_session io_show sid tok dev (Ok (Writer [] room fl)) = (res, Some w) ->
  p `prefix_of` w_sent w ->
  read_frame (Reader p tl) = (Ok (Some (Control msg)), conn) ->
  stream_run (backup_stream_init conn) (evs ++ [(n, Ok [])]) s -> (0 < n)%nat ->
  concat (map data_of evs) = concat (dv_bufs dev) /\
  exists count, res = Ok count /\ dv_done dev = Ok (Ok count).
Proof.
  intros Hs Hp Er Hr Hn.
  destruct (relayed_backup_whole _ _ _ _ _ _ _ _ _ _ _ Hs Hp Er) as [_ Hw].
  pose proof (run_simulates _ _ _ Hr (init_inv conn) eq_refl) as Ht.
  rewrite abstract_init in Ht. apply trace_eof in Ht; [|exact Hn].
  rewrite Ht in Hw. exact (Hw eq_refl).
Qed.

Lemma unbroken_frame f sent fl :
  encodable f -> exists d, encode_frame f = Some d /\
    write_frame f (Writer sent None fl) = (Ok tt, Writer (sent ++ d) None fl).
Proof.
  intros [d Ed]. exists d. split; [exact Ed|].
  assert (Hr : forall k p, small p = true ->
    write_raw k p (Writer sent None fl) = (Ok tt, Writer (sent ++ frame_bytes k p) None fl)).
  { intros k p. unfold small. intros Hs. unfold write_raw.
    rewrite Hs, (proj2 (Z.ltb_lt _ _)) by (unfold MAX_FRAME in Hs; lia).
    unfold conn_bind, write_all, flush, frame_bytes. cbn [andb w_room w_sent w_flush].
    rewrite <- app_assoc, <- app_comm_cons. reflexivity. }
  destruct f as [m|b]; cbn in Ed |- *.
  - destruct (ctl_to_vec m) as [q|]; [|discriminate].
    destruct (small q) eqn:Es; [|discriminate]. injection Ed as <-. auto.
  - destruct (small b) eqn:Es; [|discriminate]. injection Ed as <-. auto.
Qed.

Lemma send_bufs_unbroken bufs sent fl :
  Forall encodable (map Data bufs) ->
  send_bufs bufs (Writer sent None fl)
  = (None, Writer (sent ++ encode_frames (map Data bufs)) None fl).
Proof.
  revert sent; induction bufs as [|b bufs IH]; intros sent HF; cbn [send_bufs map encode_frames].
  { rewrite app_nil_r. reflexivity. }
  inversion_clear HF as [|? ? Hb HF']. rewrite write_data_frame.
  destruct (unbroken_frame (Data b) sent fl Hb) as (d & -> & ->).
  rewrite IH by exact HF'. rewrite <- app_assoc. reflexivity.
Qed.

Lemma carried_all l ok error :
  carried (map Data l ++ [Control (End ok error)]) = (concat l, ok).
Proof. induction l as [|b l IH]; cbn; [reflexivity|]. rewrite IH. reflexivity. Qed.

(** Reading everything that was sent. *)
Lemma read_all fs tl :
  Forall encodable fs ->
  read_frames (S (length (encode_frames fs))) (Reader (encode_frames fs) tl) = (fs, end_of tl).
Proof.
  intros HF. destruct (read_frames_cut fs (encode_frames fs) tl) as (n & e & Er & He & Hall);
    [reflexivity|].
  destruct (Hall HF) as [Hw _]. destruct (Hw eq_refl) as [Hn ->]. rewrite Hn in Er.
  rewrite <- Er. symmetry. apply read_frames_agree; [rewrite Er; exact He | cbn; lia].
Qed.

(** On a connection that holds, a backup session whose device closes cleanly
    reports the device's count, and the proxy gets the session's [Hello] and then a
    complete stream: the whole output of the device. *)
Theorem relayed_backup_succeeds sid tok dev fl n :
  dv_ready dev = Some (Ok tt) -> dv_done dev = Ok (Ok n) ->
  Forall encodable (Control (Hello sid tok) :: map Data (dv_bufs dev) ++ [Control (End true None)]) ->
  exists w conn,
    run_backup_session io_show sid tok dev (Ok (Writer [] None fl)) = (Ok n, Some w) /\
    read_frame (Reader (w_sent w) None) = (Ok (Some (Control (Hello sid tok))), conn) /\
    stream_of conn = (concat (dv_bufs dev), true).
Proof.
  intros Hr Hd HF. inversion_clear HF as [|? ? Hh HF'].
  apply Forall_app in HF' as [Hb He]. inversion_clear He as [|? ? He' _].
  destruct (unbroken_frame _ [] fl Hh) as (dh & Edh & Ewh).
  unfold run_backup_session. rewrite Hr. cbn [wait_ready]. rewrite write_control_frame, Ewh.
  rewrite send_bufs_unbroken by exact Hb. rewrite Hd. cbn [end_verdict].
  rewrite write_control_frame.
  destruct (unbroken_frame _ (([] ++ dh) ++ encode_frames (map Data (dv_bufs dev))) fl He')
    as (de & Ede & ->).
  eexists _, _. split; [reflexivity|]. cbn [w_sent snd app]. rewrite <- app_assoc.
  split; [apply read_encoded; exact Edh|].
  replace (encode_frames (map Data (dv_bufs dev)) ++ de)
    with (encode_frames (map Data (dv_bufs dev) ++ [Control (End true None)])).
  2:{ rewrite encode_frames_app by exact Hb. cbn [encode_frames]. rewrite Ede, app_nil_r.
      reflexivity. }
  unfold stream_of. cbn [r_bytes]. rewrite read_all; [apply carried_all|].
  apply Forall_app. split; [exact Hb | constructor; [exact He' | constructor]].
Qed.

End whole.

(** ** A relayed restore *)

Section restore.
Context `{ControlLaws}.
Variable io_show : io_error -> str.

(** The device's buffers and [stream_ok], from the frames that arrive. *)
Fixpoint fed (takes : option nat) (fs : list Frame) : list bytes * bool :=
  match fs with
  | Data b :: fs =>
      match takes with
      | Some O => ([], false)
      | _ => let '(bs, ok) := fed (pred <$> takes) fs in (b :: bs, ok)
      end
  | Control (End ok _) :: _ => ([], ok)
  | _ => ([], false)
  end.

Lemma feed_device_frames fuel takes r :
  feed_device fuel takes r = fed takes (read_frames fuel r).1.
Proof.
  revert takes r; induction fuel as [|fuel IH]; intros takes r; [reflexivity|].
  cbn [feed_device read_frames]. destruct (read_frame r) as [[[f|]|e] r']; try reflexivity.
  specialize (IH (pred <$> takes) r'). destruct (read_frames fuel r') as [fs e].
  destruct f as [[]|b]; cbn; try reflexivity. rewrite IH. reflexivity.
Qed.

Lemma push_data_sent chunks w : exists d,
  w_sent (push_data chunks w) = w_sent w ++ d /\
  d `prefix_of` encode_frames (map Data chunks ++ [Control (End true None)]).
Proof.
  revert w; induction chunks as [|c chunks IH]; intros w; cbn [push_data map app encode_frames].
  - rewrite write_control_frame.
    destruct (write_frame _ w) as [[[]|e] w'] eqn:E; cbn [snd].
    + destruct (write_frame_ok _ _ _ E) as (d & -> & ->). exists d.
      rewrite app_nil_r. auto.
    + destruct (write_frame_err _ _ _ _ E) as [[-> ->]|(_ & d & d' & -> & Hp & ->)].
      * exists []. rewrite app_nil_r. auto.
      * exists d'. rewrite app_nil_r. auto.
  - rewrite write_data_frame.
    destruct (write_frame (Data c) w) as [[[]|e] w'] eqn:E; cbn [snd].
    + destruct (write_frame_ok _ _ _ E) as (d & -> & Es).
      destruct (IH w') as (d2 & -> & Hp). exists (d ++ d2). rewrite Es, app_assoc.
      split; [reflexivity | apply prefix_app, Hp].
    + destruct (write_frame_err _ _ _ _ E) as [[-> ->]|(_ & d & d' & -> & Hp & ->)].
      * exists []. rewrite app_nil_r. auto.
      * exists d'. split; [reflexivity | apply prefix_app_r, Hp].
Qed.

Lemma fed_cut n l takes bs :
  fed takes (take n (map Data l ++ [Control (End true None)])) = (bs, true) -> bs = l.
Proof.
  revert n takes bs; induction l as [|b l IH]; intros [|n] takes bs; cbn; try discriminate.
  - congruence.
  - destruct takes as [[|k]|]; try discriminate;
      match goal with |- context [fed ?t ?fs] => specialize (IH n t); destruct (fed t fs) end;
      intros [= <- ->]; f_equal; auto.
Qed.

Lemma fed_all l : fed None (map Data l ++ [Control (End true None)]) = (l, true).
Proof. induction l as [|b l IH]; cbn; [reflexivity|]. rewrite IH. reflexivity. Qed.

(** A restore session that succeeds has given the device every chunk the proxy
    pushed, in order, wherever the connection broke and whenever the device
    stopped reading. *)
Theorem relayed_restore_whole sid tok dev room fl image w p tl n w' bs :
  p `prefix_of` w_sent (push_data image (Writer [] room fl)) ->
  run_restore_session io_show sid tok dev (Ok (w, Reader p tl)) = (Ok n, w', bs) ->
  bs = image /\ rv_done dev image = Ok (Ok n).
Proof.
  intros Hp Hs. destruct (push_data_sent image (Writer [] room fl)) as (d & Ed & Hd).
  cbn in Ed. rewrite Ed in Hp.
  destruct (read_frames_cut (map Data image ++ [Control (End true None)]) p tl)
    as (k & e & Er & He & _); [etransitivity; eassumption|].
  rewrite (read_frames_agree _ (S (length p))) in Er by (rewrite ?Er; cbn; auto; lia).
  unfold run_restore_session in Hs. destruct (wait_ready _); [|discriminate].
  destruct (write_control _ w) as [[u|e'] w1]; [|discriminate].
  rewrite feed_device_frames in Hs. cbn [r_bytes] in Hs. rewrite Er in Hs. cbn [fst] in Hs.
  destruct (fed _ _) as [bs' ok] eqn:Ef.
  destruct (rv_done dev bs') as [[n'|e2]|e2] eqn:Edone; try discriminate.
  destruct ok; [|discriminate]. injection Hs as -> _ <-.
  apply fed_cut in Ef. subst. auto.
Qed.

(** On a connection that holds, whatever the proxy's producer pushed before it
    dropped its sender reaches the device and the session reports success.  The
    producer drops it after a failed download too ([restore_one_streamed]), so
    the agent cannot tell a truncated image from a whole one. *)
Theorem pushed_image_accepted sid tok dev fl image k n :
  rv_ready dev = Some (Ok tt) -> rv_takes dev = None ->
  rv_done dev (take k image) = Ok (Ok n) ->
  Forall encodable (Control (Hello sid tok) :: map Data image ++ [Control (End true None)]) ->
  exists w', run_restore_session io_show sid tok dev
      (Ok (Writer [] None fl, Reader (w_sent (push_data (take k image) (Writer [] None fl))) None))
    = (Ok n, Some w', take k image).
Proof.
  intros Hr Ht Hd HF. inversion_clear HF as [|? ? Hh HF'].
  apply Forall_app in HF' as [Hb He].
  assert (Hbk : Forall encodable (map Data (take k image))).
  { rewrite <- (take_drop k image), map_app in Hb. apply Forall_app in Hb as [Hb _]. exact Hb. }
  assert (Hp : forall chunks sent, Forall encodable (map Data chunks) ->
    w_sent (push_data chunks (Writer sent None fl))
    = sent ++ encode_frames (map Data chunks ++ [Control (End true None)])).
  { induction chunks as [|c chunks IH]; intros sent Hc; cbn [push_data map app encode_frames].
    - rewrite write_control_frame. inversion_clear He as [|? ? He' _].
      destruct (unbroken_frame _ sent fl He') as (d & -> & ->). rewrite app_nil_r. reflexivity.
    - inversion_clear Hc as [|? ? Hc1 Hc2]. rewrite write_data_frame.
      destruct (unbroken_frame _ sent fl Hc1) as (d & -> & ->). rewrite IH by exact Hc2.
      rewrite app_assoc. reflexivity. }
  rewrite (Hp _ [] Hbk). cbn [app]. unfold run_restore_session. rewrite Hr. cbn [wait_ready].
  rewrite write_control_frame. destruct (unbroken_frame _ [] fl Hh) as (d & _ & ->).
  rewrite feed_device_frames. cbn [r_bytes].
  rewrite read_all by (apply Forall_app; auto). cbn [fst]. rewrite Ht, fed_all, Hd. eauto.
Qed.

End restore.

(** ** Witnesses *)

Section witnesses.
Import SampleControl.

Let show_io (e : io_error) : str := io_text e.

Definition sample_device : backup_device :=
  {| dv_ready := Some (Ok tt); dv_bufs := [bstr "BA"; []; bstr "K"];
     dv_done := Ok (Ok 3); dv_stopped := Ok (Err (L "channel closed")) |}.

Definition sample_sent : bytes :=
  match run_backup_session show_io (L "s1") (L "t") sample_device (Ok (Writer [] None true)) with
  | (_, Some w) => w_sent w
  | _ => []
  end.

Definition sample_conn : reader := (read_frame (Reader sample_sent None)).2.

Lemma pump_run s s' s'' evs :
  pump_data s = Some s' -> stream_run s' evs s'' -> stream_run s evs s''.
Proof. intros E. apply run_tau. constructor. exact E. Qed.

Lemma call_run n s s'' evs :
  s_call s = None -> s_dropped s = false ->
  stream_run (set_reader (s_chan s) (s_buf s) (s_pos s) (s_verdict s) (Some n) s) evs s'' ->
  stream_run s evs s''.
Proof. intros Hc Hd. apply run_tau. constructor; assumption. Qed.

Lemma read_run n s s' s'' evs :
  s_call s = Some n -> relay_read n s = Some (s', None) -> stream_run s' evs s'' ->
  stream_run s evs s''.
Proof. intros Hc E. apply run_tau. econstructor; eassumption. Qed.

Lemma return_run n s s' s'' res evs :
  s_call s = Some n -> relay_read n s = Some (s', Some res) -> stream_run s' evs s'' ->
  stream_run s ((n, res) :: evs) s''.
Proof. intros Hc E. apply run_event. econstructor; eassumption. Qed.

Ltac pumps := eapply pump_run; [vm_compute; reflexivity|].
Ltac reads n := eapply (read_run n); [reflexivity | vm_compute; reflexivity |].

(** A run in which the uploader reads two bytes at a time. *)
Lemma sample_run_ok : exists s,
  stream_run (backup_stream_init sample_conn)
    [(2%nat, Ok (bstr "BA")); (2%nat, Ok (bstr "K")); (2%nat, Ok [])] s.
Proof.
  eexists. do 3 pumps.
  eapply (call_run 2); [reflexivity | reflexivity |].
  reads 2%nat. eapply (return_run 2); [reflexivity | vm_compute; reflexivity |].
  do 4 pumps. eapply (call_run 2); [reflexivity | reflexivity |].
  do 2 reads 2%nat. eapply (return_run 2); [reflexivity | vm_compute; reflexivity |].
  eapply (call_run 2); [reflexivity | reflexivity |].
  eapply (return_run 2); [reflexivity | vm_compute; reflexivity |]. constructor.
Qed.

Lemma relay_read_refines_witness :
  spec_trace truncated_error (bstr "BAK", true) [(2%nat, Ok (bstr "BA")); (2%nat, Ok (bstr "K")); (2%nat, Ok [])].
Proof.
  destruct sample_run_ok as [s Hs]. exact (relay_read_refines sample_conn _ s Hs).
Defined.

Lemma relay_read_returns_witness :
  returns (set_reader [] [] 0 None (Some 2%nat) (backup_stream_init sample_conn)).
Proof.
  refine (relay_read_returns sample_conn [] _ 2%nat _ _); [|reflexivity].
  eapply (call_run 2); [reflexivity | reflexivity | constructor].
Defined.

Lemma sample_encodable fs :
  forallb (fun f => if encode_frame f is Some _ then true else false) fs = true ->
  Forall encodable fs.
Proof.
  intros Hf. apply Forall_forall. intros f Hin.
  rewrite forallb_forall in Hf. specialize (Hf f ltac:(apply list_elem_of_In, Hin)).
  unfold encodable. destruct (encode_frame f); [eauto | discriminate].
Qed.

Lemma relayed_backup_succeeds_witness : exists w conn,
  run_backup_session show_io (L "s1") (L "t") sample_device (Ok (Writer [] None true))
    = (Ok 3, Some w) /\
  read_frame (Reader (w_sent w) None) = (Ok (Some (Control (Hello (L "s1") (L "t")))), conn) /\
  stream_of conn = (bstr "BAK", true).
Proof.
  refine (relayed_backup_succeeds show_io (L "s1") (L "t") sample_device true 3 eq_refl eq_refl _).
  apply sample_encodable. vm_compute. reflexivity.
Defined.

Definition sample_target : restore_device :=
  {| rv_ready := Some (Ok tt); rv_takes := None;
     rv_done bs := Ok (Ok (Z.of_nat (length (concat bs)))) |}.

Lemma relayed_restore_whole_witness :
  [bstr "BA"; bstr "K"] = [bstr "BA"; bstr "K"] /\
  rv_done sample_target [bstr "BA"; bstr "K"] = Ok (Ok 3).
Proof.
  refine (relayed_restore_whole show_io (L "s2") (L "t") sample_target None true
            [bstr "BA"; bstr "K"] (Writer [] None true)
            (w_sent (push_data [bstr "BA"; bstr "K"] (Writer [] None true))) None 3 _ _ _ _).
  - reflexivity.
  - vm_compute. reflexivity.
Defined.

Lemma pushed_image_accepted_witness : exists w',
  run_restore_session show_io (L "s2") (L "t") sample_target
    (Ok (Writer [] None true,
         Reader (w_sent (push_data [bstr "BA"] (Writer [] None true))) None))
  = (Ok 2, Some w', [bstr "BA"]).
Proof.
  refine (pushed_image_accepted show_io (L "s2") (L "t") sample_target true
            [bstr "BA"; bstr "K"] 1 2 eq_refl eq_refl eq_refl _).
  apply sample_encodable. vm_compute. reflexivity.
Defined.

End witnesses.
