(* ===== verification/Proxy.v ===== *)
(** The relay server's registries ([pbsgui-engine/src/relay/server.rs]).

    A proxy keeps the agents that are connected and the sessions it has commanded
    whose data connection has not arrived.  Connections come in at any time and
    say in their first frame what they are; sessions are opened by backup runs,
    which wait for the agent's data connection, a failure it reports, or a
    timeout.  The state is the shared maps, the task of every connection and every
    waiting run; a step is what one task does between two awaits.  The theorems:
    only a connection that presented the token configured for the session's agent
    is handed to a run, each connection to at most one, a run that has returned
    leaves nothing behind, and the registry only lists agents whose connection is
    being served. *)

From Stdlib Require Import ZArith Lia Strings.Byte Ascii String.
From stdpp Require Import base tactics option numbers list gmap relations.
From S2P Require Import Prelude Text Base Sched Frames.
Open Scope Z_scope.

Definition DATA_CONN_TIMEOUT : Z := 60.

Record AgentAuth := { aa_name : str; aa_token : str }.
Record AgentStatus := { as_name : str; as_host : str; as_version : str }.

(** A control channel is named by the connection that serves it. *)
Abbreviation conn_id := nat.
Record AgentConn := { ag_host : str; ag_version : str; ag_control : conn_id }.
Record SessionSlot := { ss_token : str }.

Record Shared := {
  sh_tokens : gmap str str;
  sh_agents : gmap str AgentConn;
  sh_sessions : gmap str SessionSlot }.

(** [collect] into a [HashMap]: a later entry of a name replaces an earlier one. *)
Definition relay_new (agents : list AgentAuth) : Shared :=
  {| sh_tokens := fold_left (fun m a => <[aa_name a := aa_token a]> m) agents ∅;
     sh_agents := ∅; sh_sessions := ∅ |}.

(** [agents()], in the order of the map. *)
Definition relay_agents (sh : Shared) : list AgentStatus :=
  map (fun x => {| as_name := x.1; as_host := ag_host x.2; as_version := ag_version x.2 |})
    (map_to_list (sh_agents sh)).

Definition set_agents (m : gmap str AgentConn) (sh : Shared) : Shared :=
  {| sh_tokens := sh_tokens sh; sh_agents := m; sh_sessions := sh_sessions sh |}.
Definition set_sessions (m : gmap str SessionSlot) (sh : Shared) : Shared :=
  {| sh_tokens := sh_tokens sh; sh_agents := sh_agents sh; sh_sessions := m |}.

(** ** The task of a connection *)

(** Before its first frame; serving an agent's control frames; handed to a session
    (with the token it presented); or ended. *)
Inductive conn_task :=
| Fresh
| Serving (agent_name token : str)
| DataConn (session_id token : str)
| Ended (res : result str unit).

(** The channel on which a run waits for its data connection: the slot's sender is
    there, has sent, or was dropped without sending. *)
Inductive delivery := Empty | Sent (v : result str conn_id) | DroppedSender.

(** A call of [open_session]: sending the command, waiting, past its timeout (the
    receiver is gone, the slot not removed yet), returned, or dropped by the
    cancellation of its run. *)
Inductive open_stage :=
| Commanding | Waiting | Expired | Returned (res : result str conn_id) | Abandoned.

Record open_call := { oc_agent : str; oc_stage : open_stage; oc_box : delivery }.

Record server := {
  sv_shared : Shared;
  sv_conns : gmap conn_id conn_task;
  sv_calls : gmap str open_call }.

Definition server_new (agents : list AgentAuth) : server :=
  {| sv_shared := relay_new agents; sv_conns := ∅; sv_calls := ∅ |}.

Definition with_shared (sh : Shared) (s : server) : server :=
  {| sv_shared := sh; sv_conns := sv_conns s; sv_calls := sv_calls s |}.
Definition set_conn (c : conn_id) (t : conn_task) (s : server) : server :=
  {| sv_shared := sv_shared s; sv_conns := <[c := t]> (sv_conns s); sv_calls := sv_calls s |}.
Definition set_call (sid : str) (oc : open_call) (s : server) : server :=
  {| sv_shared := sv_shared s; sv_conns := sv_conns s; sv_calls := <[sid := oc]> (sv_calls s) |}.

(** Whether the receiver of a call's channel is still there. *)
Definition listening (oc : open_call) : bool :=
  match oc_stage oc with Commanding | Waiting => true | _ => false end.

(** What a slot's sender does to the waiting run: [deliver.send], or a drop.  The
    result says whether the receiver was there. *)
Definition deliver (sid : str) (v : delivery) (s : server) : bool * server :=
  match sv_calls s !! sid with
  | Some oc =>
      if listening oc
      then (true, set_call sid {| oc_agent := oc_agent oc; oc_stage := oc_stage oc; oc_box := v |} s)
      else (false, s)
  | None => (false, s)
  end.

(** [sessions.lock().unwrap().remove(&session_id)]. *)
Definition remove_session (sid : str) (s : server) : server :=
  with_shared (set_sessions (delete sid (sh_sessions (sv_shared s))) (sv_shared s)) s.

(** ** Connections *)

(** The first branch of [serve_control]: why an agent is refused. *)
Definition refusal (sh : Shared) (agent_name token : str) (proto : Z) : option str :=
  if negb (proto =? RELAY_PROTO_VERSION) then
    Some (L "protocol mismatch: agent speaks v" ++ dec proto ++ L ", this proxy v" ++
          dec RELAY_PROTO_VERSION ++ L " (update the older side)")
  else
    match sh_tokens sh !! agent_name with
    | Some expected => if str_eqb expected token then None else Some (L "bad token")
    | None => Some (L "agent '" ++ agent_name ++ L "' is not configured on this proxy")
    end.

(** [serve_control] up to its read loop; [reply_ok] says whether the [Registered]
    frame could be written. *)
Definition serve_control (c : conn_id) (agent_name host token version : str) (proto : Z)
    (reply_ok : bool) (s : server) : server :=
  match refusal (sv_shared s) agent_name token proto with
  | Some message =>
      set_conn c (Ended (Err (if reply_ok
        then L "refused agent '" ++ agent_name ++ L "': " ++ message
        else L "broken pipe"))) s
  | None =>
      if reply_ok then
        set_conn c (Serving agent_name token)
          (with_shared (set_agents (<[agent_name :=
             {| ag_host := host; ag_version := version; ag_control := c |}]>
             (sh_agents (sv_shared s))) (sv_shared s)) s)
      else set_conn c (Ended (Err (L "broken pipe"))) s
  end.

(** [handle_conn] on the first frame ([None]: a timeout, an error or a close). *)
Definition handle_conn (c : conn_id) (first : option Frame) (reply_ok : bool) (s : server) :
    server :=
  match first with
  | Some (Control (Register agent_name host token version proto)) =>
      serve_control c agent_name host token version proto reply_ok s
  | Some (Control (Hello session_id token)) =>
      let slot := sh_sessions (sv_shared s) !! session_id in
      let s := remove_session session_id s in
      match slot with
      | Some slot =>
          if str_eqb (ss_token slot) token then
            let '(taken, s) := deliver session_id (Sent (Ok c)) s in
            set_conn c (if taken then DataConn session_id token else Ended (Ok tt)) s
          else
            set_conn c (Ended (Err (L "data connection for session " ++ session_id ++
                                    L ": bad token"))) (deliver session_id DroppedSender s).2
      | None => set_conn c (Ended (Err (L "data connection for unknown session " ++ session_id))) s
      end
  | Some _ => set_conn c (Ended (Err (L "unexpected first frame"))) s
  | None => set_conn c (Ended (Err (L "connection closed before the first frame"))) s
  end.

(** The end of [serve_control]: an agent's entry goes with the connection it belongs
    to. *)
Definition deregister (c : conn_id) (agent_name : str) (res : result str unit) (s : server) :
    server :=
  let agents := sh_agents (sv_shared s) in
  set_conn c (Ended res)
    match agents !! agent_name with
    | Some a =>
        if (ag_control a =? c)%nat
        then with_shared (set_agents (delete agent_name agents) (sv_shared s)) s
        else s
    | None => s
    end.

(** [read_control_loop] on one frame of the connection [c] of an agent. *)
Definition read_control (c : conn_id) (agent_name : str) (f : result str (option Frame))
    (s : server) : server :=
  match f with
  | Ok (Some (Control (SessionDone session_id ok error _))) =>
      if ok then s
      else
        let message := default (L "unknown error") error in
        let slot := sh_sessions (sv_shared s) !! session_id in
        let s := remove_session session_id s in
        match slot with
        | Some _ => (deliver session_id (Sent (Err message)) s).2
        | None => s
        end
  | Ok (Some (Control Pong)) => s
  | Ok (Some _) => deregister c agent_name (Err (L "unexpected frame from the agent")) s
  | Ok None => deregister c agent_name (Ok tt) s
  | Err e => deregister c agent_name (Err e) s
  end.

(** ** Sessions *)

(** [open_session] up to sending the command: the agent's control channel, and the
    slot under a new session id. *)
Definition open_session (agent session_id : str) (s : server) : result str (conn_id * server) :=
  match sh_agents (sv_shared s) !! agent with
  | None => Err (L "relay agent '" ++ agent ++ L "' is not connected")
  | Some a =>
  match sh_tokens (sv_shared s) !! agent with
  | None => Err (L "relay agent '" ++ agent ++ L "' is not configured")
  | Some expected_token =>
      Ok (ag_control a,
          set_call session_id {| oc_agent := agent; oc_stage := Commanding; oc_box := Empty |}
            (with_shared (set_sessions
               (<[session_id := {| ss_token := expected_token |}]> (sh_sessions (sv_shared s)))
               (sv_shared s)) s))
  end end.

Definition set_stage (sid : str) (oc : open_call) (st : open_stage) (s : server) : server :=
  set_call sid {| oc_agent := oc_agent oc; oc_stage := st; oc_box := oc_box oc |} s.

(** The command was sent, or the agent's channel was closed. *)
Definition commanded (sid : str) (oc : open_call) (sent : bool) (s : server) : server :=
  if sent then set_stage sid oc Waiting s
  else set_stage sid oc (Returned (Err (L "relay agent '" ++ oc_agent oc ++ L "' disconnected")))
         (remove_session sid s).

(** What the wait ended with; the elapsed timeout is [None]. *)
Definition arrived (sid : str) (oc : open_call) (v : option delivery) (s : server) :
    option server :=
  match v with
  | Some (Sent (Ok c)) => Some (set_stage sid oc (Returned (Ok c)) s)
  | Some (Sent (Err error)) =>
      Some (set_stage sid oc (Returned (Err (L "relay agent '" ++ oc_agent oc ++
              L "' could not start the session: " ++ error))) (remove_session sid s))
  | Some DroppedSender | None =>
      Some (set_stage sid oc (Returned (Err (L "relay agent '" ++ oc_agent oc ++
              L "' did not open a data connection within " ++ dec DATA_CONN_TIMEOUT ++ L "s")))
              (remove_session sid s))
  | Some Empty => None
  end.

Inductive server_step : server -> server -> Prop :=
| step_accept s c :
    sv_conns s !! c = None -> server_step s (set_conn c Fresh s)
| step_first s c first reply_ok :
    sv_conns s !! c = Some Fresh -> server_step s (handle_conn c first reply_ok s)
| step_control s c name tok f :
    sv_conns s !! c = Some (Serving name tok) -> server_step s (read_control c name f s)
| step_open s agent sid c s' :
    sv_calls s !! sid = None -> open_session agent sid s = Ok (c, s') -> server_step s s'
| step_commanded s sid oc sent :
    sv_calls s !! sid = Some oc -> oc_stage oc = Commanding ->
    server_step s (commanded sid oc sent s)
| step_arrived s sid oc s' :
    sv_calls s !! sid = Some oc -> oc_stage oc = Waiting ->
    arrived sid oc (Some (oc_box oc)) s = Some s' -> server_step s s'
| step_expire s sid oc :
    sv_calls s !! sid = Some oc -> oc_stage oc = Waiting -> oc_box oc = Empty ->
    server_step s (set_stage sid oc Expired s)
| step_expired s sid oc s' :
    sv_calls s !! sid = Some oc -> oc_stage oc = Expired ->
    arrived sid oc None s = Some s' -> server_step s s'
| step_cancel s sid oc :
    sv_calls s !! sid = Some oc -> (forall r, oc_stage oc <> Returned r) ->
    server_step s (set_stage sid oc Abandoned s).

Definition server_reachable (agents : list AgentAuth) : server -> Prop :=
  rtc server_step (server_new agents).

(** ** The invariant *)

(** The slots are those of the calls that wait for an answer. *)
Definition awaiting (oc : open_call) : Prop :=
  oc_box oc = Empty /\ forall r, oc_stage oc <> Returned r.

Record server_inv (s : server) : Prop := {
  inv_slots : forall sid slot, sh_sessions (sv_shared s) !! sid = Some slot ->
    exists oc, sv_calls s !! sid = Some oc /\ awaiting oc /\
               sh_tokens (sv_shared s) !! oc_agent oc = Some (ss_token slot);
  inv_calls : forall sid oc, sv_calls s !! sid = Some oc ->
    listening oc = true -> oc_box oc = Empty -> is_Some (sh_sessions (sv_shared s) !! sid);
  inv_given : forall sid oc c, sv_calls s !! sid = Some oc ->
    oc_box oc = Sent (Ok c) \/ oc_stage oc = Returned (Ok c) ->
    exists tok, sv_conns s !! c = Some (DataConn sid tok) /\
                sh_tokens (sv_shared s) !! oc_agent oc = Some tok;
  inv_agents : forall name a, sh_agents (sv_shared s) !! name = Some a ->
    exists tok, sv_conns s !! ag_control a = Some (Serving name tok) /\
                sh_tokens (sv_shared s) !! name = Some tok }.

Lemma server_inv_init agents : server_inv (server_new agents).
Proof. split; cbn; intros *; rewrite lookup_empty; discriminate. Qed.

(** A connection that no session was given changes its task. *)
Lemma inv_set_conn s c t :
  server_inv s ->
  (forall sid tok, sv_conns s !! c <> Some (DataConn sid tok)) ->
  (forall name a, sh_agents (sv_shared s) !! name = Some a -> ag_control a <> c) ->
  server_inv (set_conn c t s).
Proof.
  intros [Hsl Hca Hgi Hag] Hc Ha. split; cbn; auto.
  - intros sid oc c' Ho Hg. destruct (Hgi sid oc c' Ho Hg) as (tok & Ht & Hk).
    exists tok. rewrite lookup_insert_ne by congruence. auto.
  - intros name a Hn. destruct (Hag name a Hn) as (tok & Ht & Hk).
    exists tok. rewrite lookup_insert_ne by (intros E; eapply Ha; eauto). auto.
Qed.

(** A slot is removed with an answer for its call that is not a connection. *)
Lemma inv_answer s sid v :
  server_inv s -> (forall c, v <> Sent (Ok c)) -> v <> Empty ->
  is_Some (sh_sessions (sv_shared s) !! sid) ->
  server_inv (deliver sid v (remove_session sid s)).2.
Proof.
  intros [Hsl Hca Hgi Hag] Hv Hne [slot Hs]. destruct (Hsl sid slot Hs) as (oc & Ho & Hw & Htok).
  unfold deliver. cbn [sv_calls remove_session with_shared]. rewrite Ho.
  destruct (listening oc) eqn:El; cbn [snd]; split; cbn; auto.
  - intros sid' slot' [Hn H']%lookup_delete_Some. rewrite lookup_insert_ne by congruence. eauto.
  - intros sid' oc' [[<- <-]|[Hn H']]%lookup_insert_Some; [intros _ Hb; cbn in *; congruence|].
    rewrite lookup_delete_ne by congruence. eauto.
  - intros sid' oc' c [[<- <-]|[Hn H']]%lookup_insert_Some Hg; [|eauto].
    destruct Hw as [_ Hw], Hg as [Hg|Hg]; [destruct (Hv c Hg) | destruct (Hw _ Hg)].
  - intros sid' slot' [Hn H']%lookup_delete_Some. eauto.
  - intros sid' oc' Ho' Hl Hb. rewrite lookup_delete_ne by congruence. eauto.
Qed.

(** A session is given the connection that presented its token. *)
Lemma inv_give s c sid slot :
  server_inv s -> sv_conns s !! c = Some Fresh ->
  sh_sessions (sv_shared s) !! sid = Some slot ->
  let '(taken, s') := deliver sid (Sent (Ok c)) (remove_session sid s) in
  server_inv (set_conn c (if taken then DataConn sid (ss_token slot) else Ended (Ok tt)) s').
Proof.
  intros Hi Hc Hs. pose proof Hi as [Hsl Hca Hgi Hag].
  destruct (Hsl sid slot Hs) as (oc & Ho & Hw & Htok).
  assert (Hne : forall sid' oc' c', sv_calls s !! sid' = Some oc' ->
    oc_box oc' = Sent (Ok c') \/ oc_stage oc' = Returned (Ok c') -> c' <> c).
  { intros sid' oc' c' H1 H2 ->. destruct (Hgi _ _ _ H1 H2) as (? & ? & _). congruence. }
  assert (Hna : forall name a, sh_agents (sv_shared s) !! name = Some a -> ag_control a <> c).
  { intros name a Ha E. destruct (Hag name a Ha) as (? & ? & _). congruence. }
  unfold deliver. cbn [sv_calls remove_session with_shared]. rewrite Ho.
  destruct (listening oc) eqn:El; split; cbn; auto.
  - intros sid' slot' [Hn H']%lookup_delete_Some. rewrite lookup_insert_ne by congruence. eauto.
  - intros sid' oc' [[<- <-]|[Hn H']]%lookup_insert_Some; [intros _ Hb; cbn in *; congruence|].
    rewrite lookup_delete_ne by congruence. eauto.
  - intros sid' oc' c' [[<- <-]|[Hn H']]%lookup_insert_Some Hg.
    + destruct Hw as [_ Hw], Hg as [[= <-]|Hg]; [|destruct (Hw _ Hg)].
      exists (ss_token slot). rewrite lookup_insert_eq. auto.
    + rewrite lookup_insert_ne by (symmetry; eauto). eauto.
  - intros name a Ha. rewrite lookup_insert_ne by (symmetry; eauto). eauto.
  - intros sid' slot' [Hn H']%lookup_delete_Some. eauto.
  - intros sid' oc' Ho' Hl Hb. rewrite lookup_delete_ne by congruence. eauto.
  - intros sid' oc' c' Ho' Hg. rewrite lookup_insert_ne by (symmetry; eauto). eauto.
  - intros name a Ha. rewrite lookup_insert_ne by (symmetry; eauto). eauto.
Qed.

(** Nothing is known of a session without a slot. *)
Lemma remove_missing s sid :
  sh_sessions (sv_shared s) !! sid = None -> remove_session sid s = s.
Proof.
  intros Hn. unfold remove_session. rewrite delete_id by exact Hn.
  destruct s as [[] ? ?]. reflexivity.
Qed.

Lemma fresh_conn s c : server_inv s -> sv_conns s !! c = Some Fresh ->
  (forall sid tok, sv_conns s !! c <> Some (DataConn sid tok)) /\
  (forall name a, sh_agents (sv_shared s) !! name = Some a -> ag_control a <> c).
Proof.
  intros Hi Hc. split; [congruence|]. intros name a Ha E.
  destruct (inv_agents s Hi name a Ha) as (? & ? & _). congruence.
Qed.

Lemma inv_serve s c name host tok version proto reply_ok :
  server_inv s -> sv_conns s !! c = Some Fresh ->
  server_inv (serve_control c name host tok version proto reply_ok s).
Proof.
  intros Hi Hc. destruct (fresh_conn s c Hi Hc) as [Hd Hna]. unfold serve_control.
  destruct (refusal _ _ _ _) eqn:Er; [apply inv_set_conn; auto|].
  destruct reply_ok; [|apply inv_set_conn; auto].
  assert (Htok : sh_tokens (sv_shared s) !! name = Some tok).
  { unfold refusal in Er. destruct (negb _); [discriminate|].
    destruct (sh_tokens (sv_shared s) !! name) as [e|]; [|discriminate].
    destruct (str_eqb e tok) eqn:E; [|discriminate]. apply str_eqb_eq in E. congruence. }
  destruct Hi as [Hsl Hca Hgi Hag]. split; cbn; auto.
  - intros sid oc c' Ho Hg. destruct (Hgi sid oc c' Ho Hg) as (tk & Hcn & Ht).
    rewrite lookup_insert_ne by congruence. eauto.
  - intros name' a [[<- <-]|[Hn Ha]]%lookup_insert_Some; cbn.
    + exists tok. rewrite lookup_insert_eq. auto.
    + rewrite lookup_insert_ne by (symmetry; eauto). eauto.
Qed.

Lemma inv_first s c first reply_ok :
  server_inv s -> sv_conns s !! c = Some Fresh -> server_inv (handle_conn c first reply_ok s).
Proof.
  intros Hi Hc. destruct (fresh_conn s c Hi Hc) as [Hd Hna].
  unfold handle_conn. destruct first as [[[]|]|]; try (apply inv_set_conn; assumption).
  - apply inv_serve; assumption.
  - destruct (sh_sessions (sv_shared s) !! session_id) as [slot|] eqn:Es.
    2:{ rewrite remove_missing by exact Es. apply inv_set_conn; auto. }
    destruct (str_eqb (ss_token slot) token) eqn:Et.
    + apply str_eqb_eq in Et. subst token.
      pose proof (inv_give s c session_id slot Hi Hc Es) as Hg.
      destruct (deliver _ _ _). exact Hg.
    + assert (Ha : server_inv (deliver session_id DroppedSender (remove_session session_id s)).2)
        by (apply inv_answer; eauto; discriminate).
      apply inv_set_conn; [exact Ha| |];
        unfold deliver; cbn [sv_calls remove_session with_shared];
        destruct (sv_calls s !! session_id) as [oc|]; [destruct (listening oc)| |
          destruct (listening oc)|]; auto.
Qed.

Lemma inv_deregister s c name tok res :
  server_inv s -> sv_conns s !! c = Some (Serving name tok) ->
  server_inv (deregister c name res s).
Proof.
  intros Hi Hc. unfold deregister.
  assert (Hother : forall name' a, sh_agents (sv_shared s) !! name' = Some a ->
    ag_control a = c -> name' = name).
  { intros name' a Ha <-. destruct (inv_agents s Hi name' a Ha) as (? & ? & _). congruence. }
  destruct (sh_agents (sv_shared s) !! name) as [a|] eqn:Ea;
    [destruct (Nat.eqb_spec (ag_control a) c) as [Hac|Hac]|].
  - apply inv_set_conn; cbn; [|congruence|].
    + destruct Hi as [Hsl Hca Hgi Hag]. split; cbn; auto.
      intros name' a' [Hn Ha']%lookup_delete_Some. eauto.
    + intros name' a' [Hn Ha']%lookup_delete_Some E. apply Hn. symmetry. eauto.
  - apply inv_set_conn; [exact Hi | congruence|]. intros name' a' Ha' E.
    pose proof (Hother _ _ Ha' E). subst. congruence.
  - apply inv_set_conn; [exact Hi | congruence|]. intros name' a' Ha' E.
    pose proof (Hother _ _ Ha' E). subst. congruence.
Qed.

Lemma inv_control s c name tok f :
  server_inv s -> sv_conns s !! c = Some (Serving name tok) ->
  server_inv (read_control c name f s).
Proof.
  intros Hi Hc. unfold read_control.
  destruct f as [[[[]|]|]|]; eauto using inv_deregister. destruct ok; [exact Hi|].
  destruct (sh_sessions (sv_shared s) !! session_id) eqn:Es.
  - apply inv_answer; eauto; discriminate.
  - rewrite remove_missing by exact Es. exact Hi.
Qed.

Lemma inv_open s agent sid c s' :
  server_inv s -> sv_calls s !! sid = None -> open_session agent sid s = Ok (c, s') ->
  server_inv s'.
Proof.
  intros [Hsl Hca Hgi Hag] Hn. unfold open_session.
  destruct (sh_agents (sv_shared s) !! agent) as [a|]; [|discriminate].
  destruct (sh_tokens (sv_shared s) !! agent) as [tok|] eqn:Et; [|discriminate].
  intros [= <- <-]. split; cbn; auto.
  - intros sid' slot' [[<- <-]|[Hs H']]%lookup_insert_Some.
    + eexists. rewrite lookup_insert_eq. split; [reflexivity|]. split; [|exact Et].
      split; [reflexivity | discriminate].
    + rewrite lookup_insert_ne by congruence. eauto.
  - intros sid' oc' [[<- <-]|[Hs H']]%lookup_insert_Some Hl Hb.
    + rewrite lookup_insert_eq. eauto.
    + rewrite lookup_insert_ne by congruence. eauto.
  - intros sid' oc' c' [[<- <-]|[Hs H']]%lookup_insert_Some Hg; [|eauto].
    destruct Hg; discriminate.
Qed.

(** A call goes on without an answer: its slot stays, or is removed with it. *)
Lemma inv_stage s sid oc st :
  server_inv s -> sv_calls s !! sid = Some oc ->
  (forall r, st <> Returned r) -> (st = Commanding \/ st = Waiting -> listening oc = true) ->
  server_inv (set_stage sid oc st s).
Proof.
  intros [Hsl Hca Hgi Hag] Ho Hst Hl. split; cbn; auto.
  - intros sid' slot' Hs. destruct (Hsl sid' slot' Hs) as (oc' & Ho' & Hw & Ht).
    destruct (base.decide (sid' = sid)) as [->|Hn].
    + assert (oc' = oc) as -> by congruence. destruct Hw as [Hb _]. eexists. rewrite lookup_insert_eq.
      split; [reflexivity|]. split; [split; [exact Hb | exact Hst] | exact Ht].
    + exists oc'. rewrite lookup_insert_ne by congruence. auto.
  - intros sid' oc' [[<- <-]|[Hn H']]%lookup_insert_Some; [|eauto].
    cbn. unfold listening. cbn. intros Hls Hb. apply (Hca sid oc Ho); [|exact Hb].
    apply Hl. destruct st; auto; discriminate.
  - intros sid' oc' c [[<- <-]|[Hn H']]%lookup_insert_Some Hg; [|eauto].
    destruct Hg as [Hg|Hg]; [exact (Hgi sid oc c Ho (or_introl Hg)) | destruct (Hst _ Hg)].
Qed.

Lemma inv_return s sid oc res :
  server_inv s -> sv_calls s !! sid = Some oc ->
  (forall c, res = Ok c -> oc_box oc = Sent (Ok c)) ->
  server_inv (set_stage sid oc (Returned res) (remove_session sid s)).
Proof.
  intros [Hsl Hca Hgi Hag] Ho Hr. split; cbn; auto.
  - intros sid' slot' [Hn H']%lookup_delete_Some. rewrite lookup_insert_ne by congruence. eauto.
  - intros sid' oc' [[<- <-]|[Hn H']]%lookup_insert_Some; [discriminate|].
    rewrite lookup_delete_ne by congruence. eauto.
  - intros sid' oc' c [[<- <-]|[Hn H']]%lookup_insert_Some Hg; [|eauto].
    apply (Hgi sid oc c Ho). left. destruct Hg as [Hg|[= Hg]]; [exact Hg | auto].
Qed.

(** A call that was answered has no slot. *)
Lemma answered_no_slot s sid oc :
  server_inv s -> sv_calls s !! sid = Some oc -> oc_box oc <> Empty ->
  sh_sessions (sv_shared s) !! sid = None.
Proof.
  intros Hi Ho Hb. destruct (sh_sessions (sv_shared s) !! sid) as [slot|] eqn:Es; [|reflexivity].
  destruct (inv_slots s Hi sid slot Es) as (oc' & Ho' & [Hb' _] & _). congruence.
Qed.

Lemma inv_arrived s sid oc v s' :
  server_inv s -> sv_calls s !! sid = Some oc ->
  (v = None \/ v = Some (oc_box oc)) -> arrived sid oc v s = Some s' -> server_inv s'.
Proof.
  intros Hi Ho Hv Ha. unfold arrived in Ha.
  destruct v as [[|[c|e]|]|]; try discriminate; injection Ha as <-;
    try (apply inv_return; auto; discriminate).
  destruct Hv as [|[= Hv]]; [discriminate|].
  rewrite <- (remove_missing s sid) by (eapply answered_no_slot; eauto; congruence).
  apply inv_return; auto. congruence.
Qed.

Lemma server_inv_step s s' : server_step s s' -> server_inv s -> server_inv s'.
Proof.
  intros Hs Hi.
  destruct Hs as [s c Hc|s c first ok Hc|s c name tok f Hc|s agent sid c s' Hn Ho|s sid oc sent Ho Hst
    |s sid oc s' Ho Hst Ha|s sid oc Ho Hst Hb|s sid oc s' Ho Hst Ha|s sid oc Ho Hst].
  - apply inv_set_conn; [exact Hi | congruence|]. intros name a Ha E.
    destruct (inv_agents s Hi name a Ha) as (? & ? & _). congruence.
  - apply inv_first; assumption.
  - eapply inv_control; eassumption.
  - eapply inv_open; eassumption.
  - unfold commanded. destruct sent.
    + apply inv_stage; auto. intros _. unfold listening. rewrite Hst. reflexivity.
    + apply inv_return; auto; discriminate.
  - apply (inv_arrived s sid oc (Some (oc_box oc))); auto.
  - apply inv_stage; auto. intros [|]; discriminate.
  - apply (inv_arrived s sid oc None); auto.
  - apply inv_stage; auto. intros [|]; discriminate.
Qed.

Lemma server_inv_reachable agents s : server_reachable agents s -> server_inv s.
Proof.
  intros Hr. pose proof (server_inv_init agents) as Hi. induction Hr as [|? ? ? Hs _ IH];
    [exact Hi | exact (IH (server_inv_step _ _ Hs Hi))].
Qed.

Lemma step_tokens s s' :
  server_step s s' -> sh_tokens (sv_shared s') = sh_tokens (sv_shared s).
Proof.
  assert (Hd : forall sid v s, sh_tokens (sv_shared (deliver sid v s).2) = sh_tokens (sv_shared s)).
  { intros sid v s0. unfold deliver. destruct (sv_calls s0 !! sid) as [oc|]; [|reflexivity].
    destruct (listening oc); reflexivity. }
  assert (Hg : forall c n r s, sh_tokens (sv_shared (deregister c n r s)) = sh_tokens (sv_shared s)).
  { intros c n r s0. unfold deregister. destruct (sh_agents _ !! n) as [a|]; [|reflexivity].
    destruct (_ =? _)%nat; reflexivity. }
  destruct 1; try reflexivity.
  - unfold handle_conn, serve_control. destruct first as [[[]|]|]; try reflexivity.
    + destruct (refusal _ _ _ _), reply_ok; reflexivity.
    + destruct (sh_sessions _ !! session_id) as [slot|]; [|reflexivity].
      destruct (str_eqb _ _).
      * specialize (Hd session_id (Sent (Ok c)) (remove_session session_id s)).
        destruct (deliver _ _ _). exact Hd.
      * cbn. rewrite Hd. reflexivity.
  - unfold read_control. destruct f as [[[[]|]|]|]; auto. destruct ok; [reflexivity|].
    destruct (sh_sessions _ !! session_id); [rewrite Hd; reflexivity | reflexivity].
  - revert H0. unfold open_session. destruct (sh_agents _ !! agent); [|discriminate].
    destruct (sh_tokens (sv_shared s) !! agent); [|discriminate]. intros [= <- <-]. reflexivity.
  - unfold commanded. destruct sent; reflexivity.
  - revert H1. unfold arrived. destruct (oc_box oc) as [|[]|]; intros [= <-]; reflexivity.
  - injection H1 as <-. reflexivity.
Qed.

Lemma reachable_tokens agents s :
  server_reachable agents s -> sh_tokens (sv_shared s) = sh_tokens (relay_new agents).
Proof.
  unfold server_reachable. intros Hr. remember (server_new agents) as s0 eqn:E.
  assert (Ht : sh_tokens (sv_shared s0) = sh_tokens (relay_new agents)) by (subst; reflexivity).
  clear E. induction Hr as [|? ? ? Hs _ IH]; [exact Ht|].
  apply IH. rewrite (step_tokens _ _ Hs). exact Ht.
Qed.

(** ** Properties *)

(** C12: in every interleaving of connections, agents and runs, a run that is given
    a data connection is given one that presented the run's session id and the
    token configured for the run's agent, and no two runs are given the same
    connection. *)
Theorem sessions_authenticated agents s sid oc c :
  server_reachable agents s ->
  sv_calls s !! sid = Some oc -> oc_stage oc = Returned (Ok c) ->
  (exists tok, sv_conns s !! c = Some (DataConn sid tok) /\
               sh_tokens (relay_new agents) !! oc_agent oc = Some tok) /\
  (forall sid' oc', sv_calls s !! sid' = Some oc' -> oc_stage oc' = Returned (Ok c) -> sid' = sid).
Proof.
  intros Hr Ho Hs. pose proof (server_inv_reachable agents s Hr) as Hi.
  rewrite <- (reachable_tokens agents s Hr).
  destruct (inv_given s Hi sid oc c Ho (or_intror Hs)) as (tok & Hc & Ht).
  split; [eauto|]. intros sid' oc' Ho' Hs'.
  destruct (inv_given s Hi sid' oc' c Ho' (or_intror Hs')) as (tok' & Hc' & _). congruence.
Qed.

(** The registries hold no leftovers: an agent is listed only while its
    connection is being served, after a registration with its configured token;
    every slot belongs to a call of [open_session] that has not returned, and a
    call that still listens for an answer has its slot. *)
Theorem registries_live agents s :
  server_reachable agents s ->
  (forall name a, sh_agents (sv_shared s) !! name = Some a ->
     exists tok, sv_conns s !! ag_control a = Some (Serving name tok) /\
                 sh_tokens (relay_new agents) !! name = Some tok) /\
  (forall sid slot, sh_sessions (sv_shared s) !! sid = Some slot ->
     exists oc, sv_calls s !! sid = Some oc /\ forall r, oc_stage oc <> Returned r) /\
  (forall sid oc, sv_calls s !! sid = Some oc -> listening oc = true -> oc_box oc = Empty ->
     is_Some (sh_sessions (sv_shared s) !! sid)).
Proof.
  intros Hr. pose proof (server_inv_reachable agents s Hr) as [Hsl Hca _ Hag].
  rewrite (reachable_tokens agents s Hr) in *. split_and!; auto.
  intros sid slot Hs. destruct (Hsl sid slot Hs) as (oc & Ho & [_ Hw] & _). eauto.
Qed.

(** ** A run of the server *)

Definition sample_agents : list AgentAuth := [{| aa_name := L "sql1"; aa_token := L "t" |}].

Definition p0 : server := server_new sample_agents.
Definition p1 : server := set_conn 0%nat Fresh p0.
Definition p2 : server :=
  handle_conn 0%nat (Some (Control (Register (L "sql1") (L "h") (L "t") (L "1") 1))) true p1.
Definition p3 : server :=
  match open_session (L "sql1") (L "s") p2 with Ok (_, s) => s | Err _ => p2 end.
Definition p4 : server :=
  commanded (L "s") {| oc_agent := L "sql1"; oc_stage := Commanding; oc_box := Empty |} true p3.
Definition p5 : server := set_conn 1%nat Fresh p4.
Definition p6 : server := handle_conn 1%nat (Some (Control (Hello (L "s") (L "t")))) true p5.
Definition p7 : server :=
  set_stage (L "s") {| oc_agent := L "sql1"; oc_stage := Waiting; oc_box := Sent (Ok 1%nat) |}
    (Returned (Ok 1%nat)) p6.

Lemma sample_server_run : server_reachable sample_agents p7.
Proof.
  unfold server_reachable. fold p0.
  apply (rtc_l _ _ p1); [apply step_accept; reflexivity|].
  apply (rtc_l _ _ p2); [apply step_first; reflexivity|].
  apply (rtc_l _ _ p3); [apply (step_open p2 (L "sql1") (L "s") 0%nat); vm_compute; reflexivity|].
  apply (rtc_l _ _ p4); [apply step_commanded; vm_compute; reflexivity|].
  apply (rtc_l _ _ p5); [apply step_accept; vm_compute; reflexivity|].
  apply (rtc_l _ _ p6); [apply step_first; vm_compute; reflexivity|].
  apply rtc_once.
  apply (step_arrived p6 (L "s")
    {| oc_agent := L "sql1"; oc_stage := Waiting; oc_box := Sent (Ok 1%nat) |});
    vm_compute; reflexivity.
Qed.

Lemma sessions_authenticated_witness :
  (exists tok, sv_conns p7 !! 1%nat = Some (DataConn (L "s") tok) /\
               sh_tokens (relay_new sample_agents) !! L "sql1" = Some tok) /\
  (forall sid' oc', sv_calls p7 !! sid' = Some oc' -> oc_stage oc' = Returned (Ok 1%nat) ->
     sid' = L "s").
Proof.
  apply (sessions_authenticated sample_agents p7 (L "s")
    {| oc_agent := L "sql1"; oc_stage := Returned (Ok 1%nat); oc_box := Sent (Ok 1%nat) |});
    [exact sample_server_run | vm_compute; reflexivity | reflexivity].
Defined.

Lemma registries_live_witness :
  exists tok, sv_conns p7 !! 0%nat = Some (Serving (L "sql1") tok) /\
              sh_tokens (relay_new sample_agents) !! L "sql1" = Some tok.
Proof.
  destruct (registries_live sample_agents p7 sample_server_run) as [Ha _].
  apply (Ha (L "sql1") {| ag_host := L "h"; ag_version := L "1"; ag_control := 0%nat |}).
  vm_compute. reflexivity.
Defined.
