(* ===== verification/Agent.v ===== *)
(** The control connection of a relay agent ([connect_and_serve] and
    [spawn_session] of [pbsgui-engine/src/relay/agent.rs]).

    An agent registers with its proxy and then takes commands: it spawns a device
    session for each start command, trips a session's token on a cancel, and
    reports each session's end.  The state has the map the connection keeps for
    cancellations, the sessions that run and the tokens that were tripped; what a
    session does is in [Relay].  The theorems: once the connection is gone, every
    session it started that still runs has been told to stop, and while it is up
    a cancel reaches the running session it names and no other; a shutdown that the
    outer loop sees first skips this. *)

From Stdlib Require Import ZArith Lia Strings.Byte Ascii String.
From stdpp Require Import base tactics option numbers list gmap relations.
From S2P Require Import Prelude Text Base Sched Frames.
Open Scope Z_scope.

Record AgentConfig := {
  proxy_addr : str; proxy_fingerprint : str; agent_name : str; agent_token : str }.

Inductive Direction := Backup | Restoring.

(** What a session was asked to do: the direction, and the instance and device set it is
    to serve. *)
Record device_order := { do_direction : Direction; do_instance : option str; do_set : str }.

(** How the service of a connection ends: [connect_and_serve] returns, or [run_agent],
    whose own [select!] also waits for the shutdown, drops it before that. *)
Inductive serve_end := Served (r : result str unit) | Dropped.

(** A token is named by a number; [a_live] has the token and the id of every session
    task that has not ended, [a_tokens] is the map [sessions] of the source. *)
Record agent := {
  a_tokens : gmap str nat;
  a_live : gmap nat (str * device_order);
  a_tripped : gset nat;
  a_next : nat;
  a_sent : list ControlMsg;
  a_result : option serve_end }.

Definition agent_start : agent :=
  {| a_tokens := ∅; a_live := ∅; a_tripped := ∅; a_next := 0; a_sent := []; a_result := None |}.

(** The registration message and the proxy's reply to it. *)
Definition register_msg (cfg : AgentConfig) (host version : str) : ControlMsg :=
  Register (agent_name cfg) host (agent_token cfg) version RELAY_PROTO_VERSION.

Definition check_registered (reply : result str (option Frame)) : result str unit :=
  match reply with
  | Err e => Err e
  | Ok (Some (Control (Registered ok message))) =>
      if ok then Ok tt else Err (L "the proxy refused this agent: " ++ message)
  | Ok _ => Err (L "expected a Registered reply")
  end.

(** [spawn_session]. *)
Definition spawn_session (sid : str) (dir : Direction) (instance : option str) (set_name : str)
    (a : agent) : agent :=
  {| a_tokens := <[sid := a_next a]> (a_tokens a);
     a_live := <[a_next a := (sid, {| do_direction := dir; do_instance := instance;
                                    do_set := set_name |})]> (a_live a);
     a_tripped := a_tripped a; a_next := S (a_next a); a_sent := a_sent a;
     a_result := a_result a |}.

(** A message for the writer task, which is aborted when [connect_and_serve] returns. *)
Definition send_ctl (m : ControlMsg) (a : agent) : agent :=
  {| a_tokens := a_tokens a; a_live := a_live a; a_tripped := a_tripped a; a_next := a_next a;
     a_sent := match a_result a with Some (Served _) => a_sent a | _ => a_sent a ++ [m] end;
     a_result := a_result a |}.

Definition trip (toks : gset nat) (a : agent) : agent :=
  {| a_tokens := a_tokens a; a_live := a_live a; a_tripped := toks ∪ a_tripped a;
     a_next := a_next a; a_sent := a_sent a; a_result := a_result a |}.

(** The end of [connect_and_serve]: every token of the map is tripped, and the map
    emptied. *)
Definition finish_serving (res : result str unit) (a : agent) : agent :=
  {| a_tokens := ∅; a_live := a_live a;
     a_tripped := list_to_set (map snd (map_to_list (a_tokens a))) ∪ a_tripped a;
     a_next := a_next a; a_sent := a_sent a; a_result := Some (Served res) |}.

(** The future of [connect_and_serve] dropped: nothing of its end runs, and the writer and
    the sessions, tasks of their own, go on. *)
Definition drop_serving (a : agent) : agent :=
  {| a_tokens := a_tokens a; a_live := a_live a; a_tripped := a_tripped a;
     a_next := a_next a; a_sent := a_sent a; a_result := Some Dropped |}.

(** One turn of the serve loop. *)
Definition serve_frame (f : result str (option Frame)) (a : agent) : agent :=
  match f with
  | Err e => finish_serving (Err e) a
  | Ok None => finish_serving (Ok tt) a
  | Ok (Some (Data _)) => finish_serving (Err (L "data frame on the control connection")) a
  | Ok (Some (Control msg)) =>
      match msg with
      | Ping => send_ctl Pong a
      | StartBackup sid instance set_name => spawn_session sid Backup instance set_name a
      | StartRestore sid instance set_name => spawn_session sid Restoring instance set_name a
      | Cancel sid =>
          match a_tokens a !! sid with
          | Some tok => trip {[ tok ]} a
          | None => a
          end
      | _ => finish_serving (Err (L "unexpected control message from the proxy")) a
      end
  end.

(** The end of a session task: its entry is removed and its outcome reported. *)
Definition session_ended (tok : nat) (sid : str) (result_ : result str Z) (a : agent) : agent :=
  send_ctl (match result_ with
            | Ok n => SessionDone sid true None n
            | Err e => SessionDone sid false (Some e) 0
            end)
    {| a_tokens := delete sid (a_tokens a); a_live := delete tok (a_live a);
       a_tripped := a_tripped a; a_next := a_next a; a_sent := a_sent a;
       a_result := a_result a |}.

(** The session a frame starts. *)
Definition starts (f : result str (option Frame)) : option str :=
  match f with
  | Ok (Some (Control (StartBackup sid _ _))) | Ok (Some (Control (StartRestore sid _ _))) =>
      Some sid
  | _ => None
  end.

(** A proxy gives every session an id of its own ([seen] are those it gave).  A shutdown
    is seen by the [select!] of [connect_and_serve] or by that of [run_agent]. *)
Inductive agent_step : agent * gset str -> agent * gset str -> Prop :=
| step_frame a seen f :
    a_result a = None -> (forall sid, starts f = Some sid -> sid ∉ seen) ->
    agent_step (a, seen)
      (serve_frame f a, (match starts f with Some sid => {[ sid ]} | None => ∅ end) ∪ seen)
| step_shutdown a seen :
    a_result a = None -> agent_step (a, seen) (finish_serving (Ok tt) a, seen)
| step_shutdown_outer a seen :
    a_result a = None -> agent_step (a, seen) (drop_serving a, seen)
| step_ended a seen tok sid d res :
    a_live a !! tok = Some (sid, d) -> agent_step (a, seen) (session_ended tok sid res a, seen).

Definition agent_reachable (s : agent * gset str) : Prop := rtc agent_step (agent_start, ∅) s.

(** While the connection is served the map has exactly the sessions that run; once
    [connect_and_serve] has returned, all of them are tripped. *)
Record agent_inv (s : agent * gset str) : Prop := {
  ai_map : a_result s.1 = None -> forall sid tok,
    a_tokens s.1 !! sid = Some tok <-> exists d, a_live s.1 !! tok = Some (sid, d);
  ai_ended : forall r, a_result s.1 = Some (Served r) -> a_tokens s.1 = ∅ /\
    forall tok x, a_live s.1 !! tok = Some x -> tok ∈ a_tripped s.1;
  ai_once : forall tok tok' sid d d', a_live s.1 !! tok = Some (sid, d) ->
    a_live s.1 !! tok' = Some (sid, d') -> tok = tok';
  ai_fresh : forall tok sid d, a_live s.1 !! tok = Some (sid, d) ->
    (tok < a_next s.1)%nat /\ sid ∈ s.2 }.

Lemma agent_inv_init : agent_inv (agent_start, ∅).
Proof.
  split; cbn.
  - intros _ sid tok. rewrite !lookup_empty. split; [discriminate | intros [? ?]; discriminate].
  - discriminate.
  - intros *. rewrite lookup_empty. discriminate.
  - intros *. rewrite lookup_empty. discriminate.
Qed.

Lemma agent_inv_finish a seen res :
  agent_inv (a, seen) -> a_result a = None -> agent_inv (finish_serving res a, seen).
Proof.
  intros [Hm He Ho Hf] Hr. split; cbn in *; try discriminate; auto.
  intros _ _. split; [reflexivity|]. intros tok [sid d] Hl. apply elem_of_union_l.
  apply elem_of_list_to_set, list_elem_of_In, in_map_iff. exists (sid, tok). split; [reflexivity|].
  apply list_elem_of_In, elem_of_map_to_list, (Hm Hr). eauto.
Qed.

Lemma inv_spawn a seen sid dir instance set_name :
  agent_inv (a, seen) -> a_result a = None -> sid ∉ seen ->
  agent_inv (spawn_session sid dir instance set_name a, {[ sid ]} ∪ seen).
Proof.
  intros [Hm He Ho Hf] Hr Hs. cbn in *.
  assert (Hnew : a_live a !! a_next a = None).
  { destruct (a_live a !! a_next a) as [[s' d']|] eqn:E; [|reflexivity].
    destruct (Hf _ _ _ E). lia. }
  assert (Hsid : forall tok s' d', a_live a !! tok = Some (s', d') -> s' <> sid /\ tok <> a_next a).
  { intros tok s' d' E. destruct (Hf _ _ _ E) as [Hlt Hin]. split; [|lia]. intros ->. auto. }
  split; cbn.
  - intros _ s' tok. split.
    + intros [[<- <-]|[Hne E]]%lookup_insert_Some.
      * eexists. apply lookup_insert_eq.
      * apply (Hm Hr) in E as [d' E]. exists d'. destruct (Hsid _ _ _ E).
        rewrite lookup_insert_ne; auto.
    + intros [d' [[<- [= <- <-]]|[Hne E]]%lookup_insert_Some]; [apply lookup_insert_eq|].
      destruct (Hsid _ _ _ E). rewrite lookup_insert_ne by auto. apply (Hm Hr). eauto.
  - congruence.
  - intros tok tok' s' d1 d2 H1 H2.
    apply lookup_insert_Some in H1 as [[<- E]|[Hne E]];
      apply lookup_insert_Some in H2 as [[<- E']|[Hne' E']]; auto.
    + destruct (Hsid _ _ _ E'). congruence.
    + destruct (Hsid _ _ _ E). congruence.
    + eauto.
  - intros tok s' d' [[<- [= <- <-]]|[Hne E]]%lookup_insert_Some.
    + split; [lia | apply elem_of_union_l, elem_of_singleton; reflexivity].
    + destruct (Hf _ _ _ E). split; [lia | apply elem_of_union_r; assumption].
Qed.

Lemma inv_ended a seen tok sid d res :
  agent_inv (a, seen) -> a_live a !! tok = Some (sid, d) ->
  agent_inv (session_ended tok sid res a, seen).
Proof.
  intros [Hm He Ho Hf] Hl. split; cbn in *.
  - intros Hr s' t'. rewrite lookup_delete_Some. split.
    + intros [Hne E]. apply (Hm Hr) in E as [d' E]. exists d'. apply lookup_delete_Some.
      split; [|exact E]. intros ->. rewrite Hl in E. congruence.
    + intros [d' [Hne E]%lookup_delete_Some]. split; [|apply (Hm Hr); eauto].
      intros <-. apply Hne. exact (Ho _ _ _ _ _ Hl E).
  - intros r Hr. destruct (He r Hr) as [-> Ht]. split; [apply delete_empty|].
    intros t' x [_ E]%lookup_delete_Some. eauto.
  - intros t1 t2 s' d1 d2 [_ E1]%lookup_delete_Some [_ E2]%lookup_delete_Some. eauto.
  - intros t' s' d' [_ E]%lookup_delete_Some. eauto.
Qed.

(** Tripping tokens and sending messages leave the sessions as they are. *)
Lemma inv_quiet a a' seen :
  agent_inv (a, seen) -> a_tokens a' = a_tokens a -> a_live a' = a_live a ->
  a_next a' = a_next a -> a_result a' = a_result a -> a_tripped a ⊆ a_tripped a' ->
  agent_inv (a', seen).
Proof.
  intros [Hm He Ho Hf] E1 E2 E3 E4 E5. split; cbn in *; rewrite ?E1, ?E2, ?E3, ?E4; auto.
  intros r Hr. destruct (He r Hr) as [Ht Hl]. split; [exact Ht|]. intros. eapply E5, Hl. eassumption.
Qed.

Lemma agent_inv_step s s' : agent_step s s' -> agent_inv s -> agent_inv s'.
Proof.
  intros Hs Hi. destruct Hs as [a seen f Hr Hst|a seen Hr|a seen Hr|a seen tok sid d res Hl].
  - destruct f as [[[[]|]|]|]; cbn [serve_frame starts] in *; rewrite ?(left_id_L ∅ (∪));
      auto using agent_inv_finish, inv_spawn.
    + destruct (a_tokens a !! session_id); [|exact Hi].
      apply (inv_quiet a); auto. cbn. apply union_subseteq_r.
    + apply (inv_quiet a); auto.
  - apply agent_inv_finish; assumption.
  - destruct Hi as [_ _ Ho Hf]. split; cbn in *; [discriminate | discriminate | exact Ho | exact Hf].
  - eapply inv_ended; eassumption.
Qed.

Lemma agent_inv_reachable s : agent_reachable s -> agent_inv s.
Proof.
  intros Hr. pose proof agent_inv_init as Hi. induction Hr as [|? ? ? Hs _ IH];
    [exact Hi | exact (IH (agent_inv_step _ _ Hs Hi))].
Qed.

(** C38: an agent's device sessions are stopped by their control connection: once
    [connect_and_serve] has returned, because the connection was lost, broke the protocol
    or saw the shutdown, the token of every session that still runs has been tripped; and
    while the connection is served, a [Cancel] trips the token of the running session of
    that id and of no other session, ends none and leaves the connection served. *)
Theorem lost_proxy_cancels a seen :
  agent_reachable (a, seen) ->
  match a_result a with
  | Some (Served _) => forall tok x, a_live a !! tok = Some x -> tok ∈ a_tripped a
  | Some Dropped => True
  | None =>
      (forall e, a_result (serve_frame (Err e) a) = Some (Served (Err e)) /\
                 a_result (serve_frame (Ok None) a) = Some (Served (Ok tt))) /\
      forall sid, let a' := serve_frame (Ok (Some (Control (Cancel sid)))) a in
        a_live a' = a_live a /\ a_result a' = None /\
        forall tok, tok ∈ a_tripped a' <->
          (tok ∈ a_tripped a \/ exists d, a_live a !! tok = Some (sid, d))
  end.
Proof.
  intros Hr. destruct (agent_inv_reachable _ Hr) as [Hm He _ _]. cbn in *.
  destruct (a_result a) as [[r|]|] eqn:Er; [exact (proj2 (He r eq_refl)) | exact I|].
  split; [split; reflexivity|]. intros sid. cbn. specialize (Hm eq_refl sid).
  destruct (a_tokens a !! sid) as [tok|] eqn:Et; cbn; rewrite ?Er; split_and!; auto; intros tok'.
  - rewrite elem_of_union, elem_of_singleton, <- Hm. split; intros [H|H]; [right; congruence | left; exact H | right; exact H | left; congruence].
  - rewrite <- Hm. split; [auto|]. intros [H|H]; [exact H | discriminate].
Qed.

(** What a shutdown does depends on which [select!] sees it first: when [run_agent] does,
    a session that runs is not told to stop. *)
Theorem shutdown_can_leave_sessions :
  exists a seen tok x, agent_reachable (a, seen) /\ a_result a = Some Dropped /\
    a_live a !! tok = Some x /\ a_tripped a = ∅.
Proof.
  exists (drop_serving (spawn_session (L "s") Backup None (L "set") agent_start)), ({[ L "s" ]} ∪ ∅), 0%nat.
  eexists.
  split; [|split_and!; vm_compute; reflexivity].
  eapply rtc_l; [|eapply rtc_once, step_shutdown_outer; reflexivity].
  apply (step_frame agent_start ∅ (Ok (Some (Control (StartBackup (L "s") None (L "set"))))));
    [reflexivity|]. intros sid _. apply not_elem_of_empty.
Qed.

(** Two sessions, of which the second is cancelled. *)
Definition two_sessions : agent :=
  serve_frame (Ok (Some (Control (StartRestore (L "t") None (L "set")))))
    (serve_frame (Ok (Some (Control (StartBackup (L "s") None (L "set"))))) agent_start).

Lemma lost_proxy_cancels_witness :
  1%nat ∈ a_tripped (serve_frame (Ok (Some (Control (Cancel (L "t"))))) two_sessions).
Proof.
  refine (proj2 (proj2 (proj2 (proj2 (lost_proxy_cancels two_sessions ({[ L "t" ]} ∪ ({[ L "s" ]} ∪ ∅)) _) (L "t"))) 1%nat) _).
  2: { right. eexists. vm_compute. reflexivity. }
  eapply rtc_l; [|apply rtc_once].
  - apply (step_frame agent_start ∅ (Ok (Some (Control (StartBackup (L "s") None (L "set"))))));
      [reflexivity|]. intros sid _. apply not_elem_of_empty.
  - apply (step_frame _ ({[ L "s" ]} ∪ ∅) (Ok (Some (Control (StartRestore (L "t") None (L "set"))))));
      [reflexivity|]. intros sid [= <-]. set_solver by (vm_compute; congruence).
Defined.
