(* ===== verification/Tsql.v ===== *)
(** The T-SQL statements of a backup or a restore ([pbsgui-engine/src/sql/vdi.rs]).

    The engine builds its statements by hand: identifiers in brackets, literals in
    quotes.  [read_bracketed] and [read_quoted] are the server's rules for reading
    them, and the statements are shown to be read as meant whatever the names
    contain.  A restore is a conversation with the server ([sqlm]): it logs every
    statement and takes the server's answers from an oracle that sees the log. *)

From Stdlib Require Import ZArith Lia Strings.Byte Ascii String.
From stdpp Require Import base tactics option numbers list.
From S2P Require Import Prelude Text Base Chain Jobs.
Open Scope Z_scope.

Definition QUOTE : Z := 39.
Definition OPEN_BRACKET : Z := 91.
Definition BACKSLASH : Z := 92.
Definition CLOSE_BRACKET : Z := 93.

(** ** Text of statements *)

Definition instance_of (server : str) : option str :=
  match split_once BACKSLASH server with
  | Some (_, instance) =>
      let i := trim instance in
      if negb (is_empty i) && negb (eq_ignore_ascii_case i (L "MSSQLSERVER"))
      then Some i else None
  | None => None
  end.

(** [database.replace(']', "]]")]. *)
Definition bracket_esc (name : str) : str :=
  replace_char CLOSE_BRACKET [CLOSE_BRACKET; CLOSE_BRACKET] name.

(** Escape a T-SQL single-quoted string literal. *)
Definition esc (value : str) : str := replace_char QUOTE [QUOTE; QUOTE] value.

Definition backup_statement (database set_name : str) (backup_type : SqlBackupType)
    (copy_only : bool) : result str str :=
  let db := bracket_esc database in
  match backup_type with
  | Full =>
      let copy := if copy_only then L " WITH COPY_ONLY" else [] in
      Ok (L "BACKUP DATABASE [" ++ db ++ L "] TO VIRTUAL_DEVICE = '" ++ set_name ++ L "'" ++ copy)
  | Log => Ok (L "BACKUP LOG [" ++ db ++ L "] TO VIRTUAL_DEVICE = '" ++ set_name ++ L "'")
  | Differential => Err (L "differential SQL backups are not supported yet")
  end.

(** Keep only filename-safe characters for the target-name prefix. *)
Definition sanitize_file (value : str) : str :=
  map (fun c => if is_ascii_alphanumeric c || (c =? 46) || (c =? 95) || (c =? 45)
                then c else 95) value.

Definition is_sep (c : Z) : bool := (c =? BACKSLASH) || (c =? 47).

(** [s.rsplit(seps).next()]: what follows the last separator. *)
Fixpoint base_name (s : str) : str :=
  match s with
  | [] => []
  | c :: s' => if existsb is_sep s' then base_name s' else if is_sep c then s' else s
  end.

(** What precedes the last separator, if there is one. *)
Fixpoint parent_dir (s : str) : str :=
  match s with
  | [] => []
  | c :: s' => if existsb is_sep s' then c :: parent_dir s' else []
  end.

Definition ends_with_sep (dir : str) : bool :=
  match last dir with Some c => is_sep c | None => false end.

Definition ensure_trailing_sep (dir : str) : str :=
  if is_empty dir || ends_with_sep dir then dir else dir ++ [BACKSLASH].

(** The path a file is moved to. *)
Definition move_path (data_dir log_dir target : str) (f : SqlBackupFile) : str :=
  let chosen := if bf_is_log f then log_dir else data_dir in
  let dir := if is_empty chosen then parent_dir (bf_physical f) else chosen in
  ensure_trailing_sep dir ++ sanitize_file target ++ L "_" ++ base_name (bf_physical f).

Definition move_clause (files : list SqlBackupFile) (data_dir log_dir target : str) : str :=
  concat (map (fun f => L ", MOVE N'" ++ esc (bf_logical f) ++ L "' TO N'" ++
                        esc (move_path data_dir log_dir target f) ++ L "'") files).

(** The statements of a restore over the device set [set]. *)
Definition restore_database_sql (target set moves : str) : str :=
  L "RESTORE DATABASE [" ++ bracket_esc target ++ L "] FROM VIRTUAL_DEVICE = '" ++ set ++
  L "' WITH REPLACE, RECOVERY" ++ moves.

Definition restore_step_sql (i : nat) (target set moves stopat : str) : str :=
  match i with
  | O => L "RESTORE DATABASE [" ++ bracket_esc target ++ L "] FROM VIRTUAL_DEVICE = '" ++ set ++
         L "' WITH REPLACE, NORECOVERY" ++ moves
  | S _ => L "RESTORE LOG [" ++ bracket_esc target ++ L "] FROM VIRTUAL_DEVICE = '" ++ set ++
           L "' WITH STOPAT = N'" ++ stopat ++ L "', NORECOVERY"
  end.

Definition recovery_sql (target : str) : str :=
  L "RESTORE DATABASE [" ++ bracket_esc target ++ L "] WITH RECOVERY".

(** ** Conversations *)

Inductive cell := CStr (s : str) | CInt (z : Z).
Abbreviation row := (list (str * cell)).

(** The server's answer to a statement, given every statement so far. *)
Abbreviation oracle := (list str -> result str (list row)).

Definition sqlm (A : Type) : Type := list str -> result str A * list str.
#[export] Instance sqlm_ret : MRet sqlm := fun A a log => (Ok a, log).
#[export] Instance sqlm_bind : MBind sqlm := fun A B f m log =>
  match m log with (Ok a, log') => f a log' | (Err e, log') => (Err e, log') end.

Definition sql_lift {A} (r : result str A) : sqlm A := fun log => (r, log).

(** [m.await.unwrap_or(d)]. *)
Definition unwrap_or {A} (d : A) (m : sqlm A) : sqlm A := fun log =>
  match m log with (Ok a, log') => (Ok a, log') | (Err _, log') => (Ok d, log') end.

(** [m.await.context(msg)]. *)
Definition context {A} (msg : str) (m : sqlm A) : sqlm A := fun log =>
  match m log with
  | (Ok a, log') => (Ok a, log')
  | (Err e, log') => (Err (msg ++ L ": " ++ e), log')
  end.

(** [client.simple_query(sql).await?.into_results().await?]. *)
Definition simple_query (ask : oracle) (sql : str) : sqlm (list row) := fun log =>
  let log := log ++ [sql] in (ask log, log).

Definition get_str (name : str) (r : row) : option str :=
  match list_find (fun x => str_eqb (x.1) name = true) r with
  | Some (_, (_, CStr s)) => Some s
  | _ => None
  end.
Definition get_int (name : str) (r : row) : option Z :=
  match list_find (fun x => str_eqb (x.1) name = true) r with
  | Some (_, (_, CInt z)) => Some z
  | _ => None
  end.
Definition get_str_at (i : nat) (r : row) : option str :=
  match r !! i with Some (_, CStr s) => Some s | _ => None end.
Definition get_int_at (i : nat) (r : row) : option Z :=
  match r !! i with Some (_, CInt z) => Some z | _ => None end.

(** The queries about one database of [sql/probe.rs]: its state, whether its group is a Basic
    one, and its size. *)
Definition db_state_sql (database : str) : str :=
  L "SELECT CAST(CASE WHEN d.replica_id IS NULL THEN 0 ELSE 1 END AS int) AS in_ag, CAST(CASE WHEN d.replica_id IS NULL THEN 1 WHEN sys.fn_hadr_backup_is_preferred_replica(d.name) = 1 THEN 1 ELSE 0 END AS int) AS preferred, rs.role_desc AS role, CAST(CASE WHEN d.recovery_model_desc = 'SIMPLE' THEN 1 ELSE 0 END AS int) AS simple, CAST(d.is_read_only AS int) AS read_only, CAST(CASE WHEN drs.last_log_backup_lsn IS NULL THEN 0 ELSE 1 END AS int) AS log_chain FROM sys.databases d LEFT JOIN sys.dm_hadr_availability_replica_states rs ON rs.replica_id = d.replica_id AND rs.is_local = 1 LEFT JOIN sys.database_recovery_status drs ON drs.database_id = d.database_id WHERE d.name = N'" ++
  esc database ++ L "'".

Definition basic_ag_sql (database : str) : str :=
  L "SELECT CAST(ag.basic_features AS int) AS basic FROM sys.databases d JOIN sys.availability_replicas ar ON ar.replica_id = d.replica_id JOIN sys.availability_groups ag ON ag.group_id = ar.group_id WHERE d.name = N'" ++
  esc database ++ L "'".

Definition data_size_sql (database : str) : str :=
  L "SELECT CAST(SUM(CAST(size AS bigint)) * 8192 AS bigint) FROM sys.master_files WHERE database_id = DB_ID(N'" ++
  esc database ++ L "') AND type = 0".

Section queries.
Variable ask : oracle.

Definition issue_backup (database set_name : str) (backup_type : SqlBackupType)
    (copy_only : bool) : sqlm unit :=
  sql ← sql_lift (backup_statement database set_name backup_type copy_only);
  _ ← simple_query ask sql;
  mret tt.

Definition db_files_sql (database : str) : str :=
  L "SELECT name, physical_name, type_desc FROM sys.master_files WHERE database_id = DB_ID(N'" ++
  esc database ++ L "')".

Definition query_db_files (database : str) : sqlm (list SqlBackupFile) :=
  rows ← simple_query ask (db_files_sql database);
  mret (map (fun r =>
    {| bf_logical := default [] (get_str (L "name") r);
       bf_physical := default [] (get_str (L "physical_name") r);
       bf_is_log := match get_str (L "type_desc") r with
                    | Some t => eq_ignore_ascii_case t (L "LOG")
                    | None => false
                    end |}) rows).

Definition backup_meta_sql (database : str) : str :=
  L "SELECT TOP 1 CONVERT(varchar(40), first_lsn) AS first_lsn, CONVERT(varchar(40), last_lsn) AS last_lsn, CONVERT(varchar(40), database_backup_lsn) AS db_backup_lsn, [type] AS btype, DATEDIFF_BIG(SECOND, '1970-01-01', backup_finish_date) - (DATEDIFF(MINUTE, GETUTCDATE(), GETDATE()) * 60) AS finish_unix FROM msdb.dbo.backupset WHERE database_name = N'" ++
  esc database ++ L "' ORDER BY backup_set_id DESC".

(** The metadata of the newest backup of a database, before it is serialized. *)
Definition query_backup_meta (database : str) : sqlm SqlBackupMeta :=
  rows ← simple_query ask (backup_meta_sql database);
  r ← sql_lift (ok_or (head rows) (L "no msdb.dbo.backupset row for the database"));
  let btype := default (L "D") (get_str (L "btype") r) in
  files ← unwrap_or [] (query_db_files database);
  mret {| m_kind := if eq_ignore_ascii_case btype (L "L") then L "log" else L "full";
          m_backup_time := default 0 (get_int (L "finish_unix") r);
          m_first_lsn := default [] (get_str (L "first_lsn") r);
          m_last_lsn := default [] (get_str (L "last_lsn") r);
          m_database_backup_lsn := default [] (get_str (L "db_backup_lsn") r);
          m_files := files |}.

Definition default_dirs : sqlm (str * str) :=
  rows ← simple_query ask (L "SELECT CAST(SERVERPROPERTY('InstanceDefaultDataPath') AS nvarchar(260)), CAST(SERVERPROPERTY('InstanceDefaultLogPath') AS nvarchar(260))");
  r ← sql_lift (ok_or (head rows) (L "default-paths query returned no row"));
  mret (default [] (get_str_at 0 r), default [] (get_str_at 1 r)).

Definition moves_from_files (files : list SqlBackupFile) (target_database : str) : sqlm str :=
  '(data_dir, log_dir) ← default_dirs;
  mret (move_clause files data_dir log_dir target_database).

End queries.

(** ** Restores *)

(** What happens outside SQL Server while one image is restored: the device set
    becomes ready (or, with a relay agent, its session is opened), the download
    that feeds it ends (an outer [Err]: its task panicked), and the device's task
    ends. *)
Record image_env := {
  ie_ready : result str unit;
  ie_download : result str (result str unit);
  ie_device : result str unit }.

Section restores.
Variable ask : oracle.
Variable connect : result str unit.                (* probe::connect *)
Variable relay_listening : bool.                   (* relay::server::global() *)
Variable format_time : Z -> option str.            (* chrono's from_timestamp and format *)

(** [restore_one_streamed]: the statement runs while the image is streamed to it. *)
Definition restore_one_streamed (relay_agent : option str) (env : image_env) (sql : str) :
    sqlm unit :=
  _ ← (match relay_agent with
       | None => sql_lift (ie_ready env)
       | Some agent =>
           if relay_listening
           then context (L "starting the relay restore session on agent '" ++ agent ++ L "'")
                  (sql_lift (ie_ready env))
           else sql_lift (Err (L "this machine has no relay listener configured"))
       end : sqlm unit);
  _ ← context (L "the RESTORE statement failed") (simple_query ask sql);
  _ ← sql_lift (match ie_download env with
       | Ok (Ok _) => Ok tt
       | Ok (Err e) => Err (L "streaming the backup from PBS failed: " ++ e)
       | Err e => Err (L "PBS download task panicked: " ++ e)
       end);
  sql_lift (ie_device env).

Definition renamed (source_database target_database : str) (force_relocate : bool) : bool :=
  force_relocate || negb (eq_ignore_ascii_case source_database target_database).

Definition restore_database_streamed (source_database target_database : str)
    (relay_agent : option str) (set : str) (env : image_env) (files : list SqlBackupFile)
    (force_relocate : bool) : sqlm unit :=
  _ ← sql_lift connect;
  moves ← (if renamed source_database target_database force_relocate
           then moves_from_files ask files target_database else mret []);
  restore_one_streamed relay_agent env (restore_database_sql target_database set moves).

Definition offset_sql : str := L "SELECT DATEDIFF(MINUTE, GETUTCDATE(), GETDATE())".

(** [STOPAT] in the server's local time. *)
Definition stopat_of (target_unix : Z) : sqlm str :=
  rows ← simple_query ask offset_sql;
  let offset_min := default 0 (head rows ≫= get_int_at 0) in
  mret (default [] (format_time (target_unix + offset_min * 60))).

(** The loop over the images of a chain, from its [i]th. *)
Fixpoint restore_steps (i : nat) (steps : list (str * image_env)) (relay_agent : option str)
    (target moves stopat : str) : sqlm unit :=
  match steps with
  | [] => mret tt
  | (set, env) :: steps =>
      _ ← restore_one_streamed relay_agent env (restore_step_sql i target set moves stopat);
      restore_steps (S i) steps relay_agent target moves stopat
  end.

Definition restore_chain_streamed (source_database target_database : str)
    (relay_agent : option str) (steps : list (str * image_env)) (files : list SqlBackupFile)
    (target_unix : Z) (force_relocate : bool) : sqlm unit :=
  match steps with
  | [] => sql_lift (Err (L "empty restore chain"))
  | _ =>
      _ ← sql_lift connect;
      stopat ← stopat_of target_unix;
      moves ← (if renamed source_database target_database force_relocate
               then moves_from_files ask files target_database else mret []);
      _ ← restore_steps 0 steps relay_agent target_database moves stopat;
      _ ← simple_query ask (recovery_sql target_database);
      mret tt
  end.

(** The buffered path: the image is in memory, and only the statement's outcome and
    a panic of the device thread count. *)
Record device_env := { de_set : str; de_ready : result str unit; de_panic : option str }.

Definition device_stmt (panic : option str) (sql : str) : sqlm (list row) := fun log =>
  let '(stmt, log) := simple_query ask sql log in
  (match panic with
   | Some e => Err (L "VDI thread panicked: " ++ e)
   | None => map_err (fun e => L "the RESTORE statement failed: " ++ e) stmt
   end, log).

Definition run_vdi_read_stmt (env : device_env) (sql : str -> str) : sqlm (list row) :=
  _ ← sql_lift (de_ready env);
  device_stmt (de_panic env) (sql (de_set env)).

Definition filelist_sql (set : str) : str :=
  L "RESTORE FILELISTONLY FROM VIRTUAL_DEVICE = '" ++ set ++ L "'".

Definition backup_filelist (env : device_env) : sqlm (list SqlBackupFile) :=
  rows ← run_vdi_read_stmt env filelist_sql;
  let files := map (fun r =>
    {| bf_logical := default [] (get_str (L "LogicalName") r);
       bf_physical := default [] (get_str (L "PhysicalName") r);
       bf_is_log := eq_ignore_ascii_case (default (L "D") (get_str (L "Type") r)) (L "L") |})
    rows in
  match files with
  | [] => sql_lift (Err (L "the backup file list was empty"))
  | _ => mret files
  end.

(** [restore_database_from_image]; [lists] is the device of the file list. *)
Definition restore_database_from_image (source_database target_database : str)
    (lists env : device_env) (force_relocate : bool) : sqlm unit :=
  _ ← sql_lift connect;
  moves ← (if renamed source_database target_database force_relocate
           then files ← backup_filelist lists; moves_from_files ask files target_database
           else mret []);
  _ ← run_vdi_read_stmt env (fun set => restore_database_sql target_database set moves);
  mret tt.

Fixpoint restore_images (i : nat) (steps : list device_env) (target moves stopat : str) :
    sqlm unit :=
  match steps with
  | [] => mret tt
  | env :: steps =>
      _ ← run_vdi_read_stmt env (fun set => restore_step_sql i target set moves stopat);
      restore_images (S i) steps target moves stopat
  end.

Definition restore_chain (source_database target_database : str) (lists : device_env)
    (steps : list device_env) (target_unix : Z) (force_relocate : bool) : sqlm unit :=
  match steps with
  | [] => sql_lift (Err (L "empty restore chain"))
  | _ =>
      _ ← sql_lift connect;
      stopat ← stopat_of target_unix;
      moves ← (if renamed source_database target_database force_relocate
               then files ← backup_filelist lists; moves_from_files ask files target_database
               else mret []);
      _ ← restore_images 0 steps target_database moves stopat;
      _ ← simple_query ask (recovery_sql target_database);
      mret tt
  end.

End restores.

(** ** Reading statements

    The server's rules for delimited names and literals: the delimiter is doubled
    inside, and a single one ends it. *)

Fixpoint read_delim (q : Z) (s : str) : option (str * str) :=
  match s with
  | [] => None
  | c :: s' =>
      if c =? q then
        match s' with
        | d :: s'' =>
            if d =? q then
              match read_delim q s'' with Some (x, r) => Some (q :: x, r) | None => None end
            else Some ([], s')
        | [] => Some ([], [])
        end
      else match read_delim q s' with Some (x, r) => Some (c :: x, r) | None => None end
  end.

(** A statement, as the server takes it. *)
Inductive statement :=
| BackupStmt (log : bool) (db set : str) (copy_only : bool)
| RestoreStmt (db set : str) (recovery : bool) (moves : list (str * str))
| RestoreLogStmt (db set stopat : str)
| RecoverStmt (db : str).

Fixpoint read_moves (fuel : nat) (s : str) : option (list (str * str)) :=
  match s, fuel with
  | [], _ => Some []
  | _, O => None
  | _, S fuel =>
      '(a, s) ← strip_prefix (L ", MOVE N'") s ≫= read_delim QUOTE;
      '(b, s) ← strip_prefix (L " TO N'") s ≫= read_delim QUOTE;
      l ← read_moves fuel s;
      Some ((a, b) :: l)
  end.

Definition read_backup (log : bool) (s : str) : option statement :=
  '(db, s) ← read_delim CLOSE_BRACKET s;
  '(set, s) ← strip_prefix (L " TO VIRTUAL_DEVICE = '") s ≫= read_delim QUOTE;
  if is_empty s then Some (BackupStmt log db set false)
  else if negb log && str_eqb s (L " WITH COPY_ONLY") then Some (BackupStmt log db set true)
  else None.

Definition read_restore (s : str) : option statement :=
  '(db, s) ← read_delim CLOSE_BRACKET s;
  if str_eqb s (L " WITH RECOVERY") then Some (RecoverStmt db) else
  '(set, s) ← strip_prefix (L " FROM VIRTUAL_DEVICE = '") s ≫= read_delim QUOTE;
  match strip_prefix (L " WITH REPLACE, RECOVERY") s with
  | Some s => RestoreStmt db set true <$> read_moves (length s) s
  | None =>
      s ← strip_prefix (L " WITH REPLACE, NORECOVERY") s;
      RestoreStmt db set false <$> read_moves (length s) s
  end.

Definition read_restore_log (s : str) : option statement :=
  '(db, s) ← read_delim CLOSE_BRACKET s;
  '(set, s) ← strip_prefix (L " FROM VIRTUAL_DEVICE = '") s ≫= read_delim QUOTE;
  '(stopat, s) ← strip_prefix (L " WITH STOPAT = N'") s ≫= read_delim QUOTE;
  if str_eqb s (L ", NORECOVERY") then Some (RestoreLogStmt db set stopat) else None.

Definition read_stmt (s : str) : option statement :=
  match strip_prefix (L "BACKUP DATABASE [") s with
  | Some s => read_backup false s
  | None =>
  match strip_prefix (L "BACKUP LOG [") s with
  | Some s => read_backup true s
  | None =>
  match strip_prefix (L "RESTORE DATABASE [") s with
  | Some s => read_restore s
  | None => strip_prefix (L "RESTORE LOG [") s ≫= read_restore_log
  end end end.

Lemma strip_prefix_app p s : strip_prefix p (p ++ s) = Some s.
Proof. induction p as [|c p IH]; cbn; [reflexivity|]. rewrite Z.eqb_refl. exact IH. Qed.

Lemma read_escaped q s rest :
  head rest <> Some q ->
  read_delim q (replace_char q [q; q] s ++ q :: rest) = Some (s, rest).
Proof.
  intros Hr. unfold replace_char. induction s as [|c s IH].
  - cbn. rewrite Z.eqb_refl. destruct rest as [|d rest]; [reflexivity|].
    destruct (Z.eqb_spec d q) as [->|]; [contradiction Hr; reflexivity | reflexivity].
  - cbn [map concat]. destruct (Z.eqb_spec c q) as [->|Hc]; cbn [app read_delim].
    + rewrite Z.eqb_refl, IH. reflexivity.
    + rewrite (proj2 (Z.eqb_neq _ _)), IH by exact Hc. reflexivity.
Qed.

Lemma read_plain q s rest :
  has_char q s = false -> head rest <> Some q ->
  read_delim q (s ++ q :: rest) = Some (s, rest).
Proof.
  intros Hs Hr. rewrite <- (read_escaped q s rest Hr). f_equal. f_equal.
  unfold replace_char. induction s as [|c s IH]; [reflexivity|]. cbn.
  rewrite has_char_cons in Hs. apply orb_false_iff in Hs as [Hc Hs].
  rewrite Z.eqb_sym, Hc, <- IH by exact Hs. reflexivity.
Qed.

Lemma read_moves_clause files data_dir log_dir target fuel :
  (length files <= fuel)%nat ->
  read_moves fuel (move_clause files data_dir log_dir target)
  = Some (map (fun f => (bf_logical f, move_path data_dir log_dir target f)) files).
Proof.
  unfold move_clause. revert fuel; induction files as [|f files IH]; intros fuel Hf.
  { destruct fuel; reflexivity. }
  destruct fuel as [|fuel]; [cbn in Hf; lia|]. cbn [map concat].
  set (rest := concat _). set (p := move_path _ _ _ f).
  change (read_moves (S fuel) (((L ", MOVE N'" ++ esc (bf_logical f) ++ L "' TO N'" ++ esc p ++ L "'")
    ++ rest)) = Some ((bf_logical f, p) :: map (fun f => (bf_logical f, move_path data_dir log_dir target f)) files)).
  rewrite <- !app_assoc. change (L "' TO N'") with (QUOTE :: L " TO N'").
  change (L "'") with [QUOTE]. cbn [read_moves app L].
  assert (Hm : forall x, L ", MOVE N'" ++ x <> []) by (intros x; discriminate).
  destruct (L ", MOVE N'" ++ _) eqn:E; [destruct (Hm _ E)|]. rewrite <- E. clear E.
  rewrite strip_prefix_app. cbn [mbind option_bind].
  unfold esc. rewrite read_escaped by discriminate. cbn [mbind option_bind].
  rewrite strip_prefix_app. cbn [mbind option_bind].
  rewrite read_escaped.
  2:{ unfold rest. destruct files; [discriminate|]. discriminate. }
  cbn [mbind option_bind]. unfold rest. rewrite IH by (cbn in Hf; lia). reflexivity.
Qed.

Lemma move_clause_length files d l t :
  (length files <= length (move_clause files d l t))%nat.
Proof.
  unfold move_clause. induction files as [|f files IH]; [reflexivity|].
  cbn [map concat length]. rewrite !length_app. change (length (L ", MOVE N'")) with 9%nat. lia.
Qed.

(** The keywords of the statements are told apart. *)
Lemma restore_prefix s :
  (match strip_prefix (L "BACKUP DATABASE [") (L "RESTORE DATABASE [" ++ s) with
   | Some s => read_backup false s
   | None =>
   match strip_prefix (L "BACKUP LOG [") (L "RESTORE DATABASE [" ++ s) with
   | Some s => read_backup true s
   | None =>
   match strip_prefix (L "RESTORE DATABASE [") (L "RESTORE DATABASE [" ++ s) with
   | Some s => read_restore s
   | None => strip_prefix (L "RESTORE LOG [") (L "RESTORE DATABASE [" ++ s) ≫= read_restore_log
   end end end) = read_restore s.
Proof. rewrite (strip_prefix_app (L "RESTORE DATABASE [")). reflexivity. Qed.

Lemma restore_log_prefix s :
  (match strip_prefix (L "BACKUP DATABASE [") (L "RESTORE LOG [" ++ s) with
   | Some s => read_backup false s
   | None =>
   match strip_prefix (L "BACKUP LOG [") (L "RESTORE LOG [" ++ s) with
   | Some s => read_backup true s
   | None =>
   match strip_prefix (L "RESTORE DATABASE [") (L "RESTORE LOG [" ++ s) with
   | Some s => read_restore s
   | None => strip_prefix (L "RESTORE LOG [") (L "RESTORE LOG [" ++ s) ≫= read_restore_log
   end end end) = read_restore_log s.
Proof. rewrite (strip_prefix_app (L "RESTORE LOG [")). reflexivity. Qed.

Lemma recovery_not_from s :
  str_eqb (L " FROM VIRTUAL_DEVICE = '" ++ s) (L " WITH RECOVERY") = false.
Proof. apply bool_decide_eq_false. discriminate. Qed.

Lemma norecovery_not_recovery s :
  strip_prefix (L " WITH REPLACE, RECOVERY") (L " WITH REPLACE, NORECOVERY" ++ s) = None.
Proof. reflexivity. Qed.


(** ** Reading the queries *)

(** The server's reading of any text, as far as quotations go: characters of the statement,
    string literals, and names in brackets. *)
Inductive token := Plain (c : Z) | Literal (s : str) | Name (s : str).

(** Between quotations, inside one, or at a delimiter that may be its end. *)
Inductive lexing := Code | Within (q : Z) (acc : str) | AtEnd (q : Z) (acc : str).

Definition quoted (q : Z) (s : str) : token := if q =? QUOTE then Literal s else Name s.

Definition lex_code (c : Z) : list token * lexing :=
  if c =? QUOTE then ([], Within QUOTE [])
  else if c =? 91 then ([], Within CLOSE_BRACKET []) else ([Plain c], Code).

Definition lex_char (m : lexing) (c : Z) : list token * lexing :=
  match m with
  | Code => lex_code c
  | Within q acc => ([], if c =? q then AtEnd q acc else Within q (acc ++ [c]))
  | AtEnd q acc =>
      if c =? q then ([], Within q (acc ++ [q]))
      else let '(ts, m) := lex_code c in (quoted q acc :: ts, m)
  end.

Fixpoint lex_from (m : lexing) (s : str) : list token * lexing :=
  match s with
  | [] => ([], m)
  | c :: s => let '(ts, m) := lex_char m c in let '(ts', m) := lex_from m s in (ts ++ ts', m)
  end.

(** A text whose last quotation has no end is refused. *)
Definition lex (s : str) : option (list token) :=
  match lex_from Code s with
  | (ts, Code) => Some ts
  | (ts, AtEnd q acc) => Some (ts ++ [quoted q acc])
  | (_, Within _ _) => None
  end.

Definition literal_of (t : token) : option str :=
  match t with Literal s => Some s | _ => None end.

(** The name a query asks about: its last literal. *)
Definition named (sql : str) : option str := ts ← lex sql; last (omap literal_of ts).

Lemma lex_from_app m s1 s2 :
  lex_from m (s1 ++ s2) =
  let '(ts, m) := lex_from m s1 in let '(ts', m) := lex_from m s2 in (ts ++ ts', m).
Proof.
  revert m; induction s1 as [|c s1 IH]; intros m; cbn [app lex_from].
  { destruct (lex_from m s2). reflexivity. }
  destruct (lex_char m c) as [ts m1]. rewrite IH. destruct (lex_from m1 s1) as [ts1 m2].
  destruct (lex_from m2 s2) as [ts2 m3]. rewrite app_assoc. reflexivity.
Qed.

(** An escaped text never leaves its quotation. *)
Lemma lex_escaped q s : forall acc,
  lex_from (Within q acc) (replace_char q [q; q] s) = ([], Within q (acc ++ s)).
Proof.
  unfold replace_char. induction s as [|c s IH]; intros acc; [rewrite app_nil_r; reflexivity|].
  cbn [map concat]. rewrite (app_assoc acc [c] s : acc ++ c :: s = _). destruct (Z.eqb_spec c q) as [->|Hc].
  - cbn [app lex_from lex_char]. rewrite !Z.eqb_refl. cbn [lex_char]. rewrite Z.eqb_refl, IH. reflexivity.
  - cbn [app lex_from lex_char]. rewrite (proj2 (Z.eqb_neq _ _) Hc), IH. reflexivity.
Qed.

Lemma lex_plain q s : has_char q s = false -> forall acc,
  lex_from (Within q acc) s = ([], Within q (acc ++ s)).
Proof.
  induction s as [|c s IH]; intros Hs acc; [rewrite app_nil_r; reflexivity|].
  rewrite has_char_cons in Hs. apply orb_false_iff in Hs as [Hc Hs].
  cbn [lex_from lex_char]. rewrite Z.eqb_sym, Hc, (IH Hs), <- app_assoc. reflexivity.
Qed.

(** A text around one quotation. *)
Lemma lex_around q before after ts ts' s text :
  lex_from Code before = (ts, Within q []) -> lex_from (Within q []) text = ([], Within q s) ->
  head after <> Some q -> lex_from Code after = (ts', Code) ->
  lex (before ++ text ++ q :: after) = Some (ts ++ quoted q s :: ts').
Proof.
  intros E1 Et Hq E2. unfold lex. rewrite lex_from_app, E1, lex_from_app, Et.
  cbn [lex_from lex_char app]. rewrite Z.eqb_refl. destruct after as [|c after].
  - injection E2 as <-. cbn. rewrite !app_nil_r. reflexivity.
  - cbn [lex_from lex_char] in *. rewrite (proj2 (Z.eqb_neq c q)) by (intros ->; apply Hq; reflexivity).
    destruct (lex_code c) as [tc mc]. destruct (lex_from mc after) as [ta ma].
    injection E2 as <- ->. reflexivity.
Qed.

(** Whatever the name, the query has the same tokens around it, and the name is one literal,
    the last. *)
Definition asks_about (query : str -> str) : Prop :=
  exists before after, omap literal_of after = [] /\
    forall db, lex (query db) = Some (before ++ Literal db :: after).

Lemma asks_named query db : asks_about query -> named (query db) = Some db.
Proof.
  intros (before & after & Ha & E). unfold named. rewrite E. cbn [mbind option_bind].
  rewrite omap_app. cbn [omap list_omap literal_of]. rewrite Ha. apply last_snoc.
Qed.

Lemma asks_around query before after ts ts' :
  (forall db, query db = before ++ esc db ++ QUOTE :: after) ->
  lex_from Code before = (ts, Within QUOTE []) -> head after <> Some QUOTE -> lex_from Code after = (ts', Code) ->
  omap literal_of ts' = [] -> asks_about query.
Proof.
  intros Eq E1 Hq E2 Hl. exists ts, ts'. split; [exact Hl|]. intros db. rewrite Eq.
  exact (lex_around QUOTE _ _ _ _ db (esc db) E1 (lex_escaped QUOTE db []) Hq E2).
Qed.

Ltac asks := eapply asks_around;
  [intros; reflexivity | vm_compute; reflexivity | discriminate | vm_compute; reflexivity | reflexivity].

Lemma queries_ask : Forall asks_about [db_files_sql; backup_meta_sql; db_state_sql; basic_ag_sql; data_size_sql].
Proof. repeat apply List.Forall_cons; [asks..|constructor]. Qed.

(** Reads the next name or literal of the statement in the goal. *)
Ltac read_next :=
  rewrite ?strip_prefix_app; cbn [mbind option_bind];
  first [rewrite read_escaped by discriminate
        | rewrite read_plain by (assumption || discriminate)];
  cbn [mbind option_bind].

(** C29: the server reads every text the engine builds with a name in it as it was meant,
    whatever characters the names of databases, files and paths contain: a statement of a
    backup or a restore is the statement with these names, and a query, of this file or about
    a database's state, group or size, has the name as one literal between tokens that do not
    depend on it.  No name can end its own quotation.  (The names of device sets are GUIDs.) *)
Theorem statements_read_as_meant db set :
  has_char QUOTE set = false ->
  (forall ty copy sql, backup_statement db set ty copy = Ok sql ->
     read_stmt sql = Some (BackupStmt (bool_decide (ty = Log)) db set
                             (copy && bool_decide (ty = Full)))) /\
  (forall files d l,
     read_stmt (restore_database_sql db set (move_clause files d l db))
       = Some (RestoreStmt db set true
                 (map (fun f => (bf_logical f, move_path d l db f)) files)) /\
     (forall stopat, read_stmt (restore_step_sql 0 db set (move_clause files d l db) stopat)
       = Some (RestoreStmt db set false
                 (map (fun f => (bf_logical f, move_path d l db f)) files)))) /\
  (forall i moves stopat, has_char QUOTE stopat = false ->
     read_stmt (restore_step_sql (S i) db set moves stopat)
       = Some (RestoreLogStmt db set stopat)) /\
  read_stmt (recovery_sql db) = Some (RecoverStmt db) /\
  lex (filelist_sql set) = Some (map Plain (L "RESTORE FILELISTONLY FROM VIRTUAL_DEVICE = ") ++ [Literal set]) /\
  Forall asks_about [db_files_sql; backup_meta_sql; db_state_sql; basic_ag_sql; data_size_sql].
Proof.
  intros Hset.
  assert (Hq : forall s, L "'" ++ s = QUOTE :: s) by reflexivity.
  assert (Hb : forall s, L "] TO VIRTUAL_DEVICE = '" ++ s
    = CLOSE_BRACKET :: L " TO VIRTUAL_DEVICE = '" ++ s) by reflexivity.
  assert (Hf : forall s, L "] FROM VIRTUAL_DEVICE = '" ++ s
    = CLOSE_BRACKET :: L " FROM VIRTUAL_DEVICE = '" ++ s) by reflexivity.
  assert (Hr : forall s, L "' WITH REPLACE, RECOVERY" ++ s
    = QUOTE :: L " WITH REPLACE, RECOVERY" ++ s) by reflexivity.
  assert (Hn : forall s, L "' WITH REPLACE, NORECOVERY" ++ s
    = QUOTE :: L " WITH REPLACE, NORECOVERY" ++ s) by reflexivity.
  assert (Hs : forall s, L "' WITH STOPAT = N'" ++ s
    = QUOTE :: L " WITH STOPAT = N'" ++ s) by reflexivity.
  split_and!; unfold bracket_esc, read_stmt.
  - intros ty copy sql. unfold backup_statement, bracket_esc.
    destruct ty; intros E; [apply Ok_inj in E as <- | discriminate | apply Ok_inj in E as <-].
    + rewrite Hb, strip_prefix_app. unfold read_backup. rewrite Hq.
      destruct copy; do 2 read_next; reflexivity.
    + rewrite Hb. change (strip_prefix (L "BACKUP DATABASE [") (L "BACKUP LOG [" ++ _)) with (@None str).
      rewrite strip_prefix_app. unfold read_backup. change (L "'") with [QUOTE].
      do 2 read_next. destruct copy; reflexivity.
  - intros files d l. unfold restore_database_sql, restore_step_sql, bracket_esc.
    split; [|intros stopat]; rewrite Hf, ?Hr, ?Hn;
      rewrite restore_prefix; unfold read_restore; read_next;
      rewrite recovery_not_from; read_next; rewrite ?norecovery_not_recovery, strip_prefix_app;
      cbn [mbind option_bind]; rewrite read_moves_clause by apply move_clause_length; reflexivity.
  - intros i moves stopat Hst. unfold restore_step_sql, bracket_esc. rewrite Hf, Hs.
    rewrite restore_log_prefix. unfold read_restore_log. do 2 read_next.
    change (L "', NORECOVERY") with (QUOTE :: L ", NORECOVERY"). read_next. reflexivity.
  - unfold recovery_sql, bracket_esc. rewrite restore_prefix. unfold read_restore.
    change (L "] WITH RECOVERY") with (CLOSE_BRACKET :: L " WITH RECOVERY"). read_next. reflexivity.
  - apply (lex_around QUOTE _ [] _ [] set set); [reflexivity | exact (lex_plain QUOTE set Hset []) | discriminate | reflexivity].
  - exact queries_ask.
Qed.

(** ** The statements of a chain *)

(** What holds of the result and the log after a conversation. *)
Definition after {A} (m : sqlm A) (log : list str) (Q : result str A -> list str -> Prop) : Prop :=
  Q (m log).1 (m log).2.

Lemma after_bind {A B} (m : sqlm A) (f : A -> sqlm B) log Q :
  after m log (fun r log' => match r with Ok a => after (f a) log' Q | Err e => Q (Err e) log' end) ->
  after (m ≫= f) log Q.
Proof. unfold after, mbind, sqlm_bind. destruct (m log) as [[a|e] log']; auto. Qed.

Lemma after_mono {A} (m : sqlm A) log (P Q : result str A -> list str -> Prop) :
  after m log P -> (forall r log', P r log' -> Q r log') -> after m log Q.
Proof. unfold after. auto. Qed.

Lemma after_lift {A} (r : result str A) log Q : Q r log -> after (sql_lift r) log Q.
Proof. auto. Qed.

Lemma after_context {A} msg (m : sqlm A) log (Q : result str A -> list str -> Prop) :
  after m log (fun r log' => Q (map_err (fun e => msg ++ L ": " ++ e) r) log') ->
  after (context msg m) log Q.
Proof. unfold after, context. destruct (m log) as [[a|e] log']; auto. Qed.

Lemma after_query ask sql log Q :
  Q (ask (log ++ [sql])) (log ++ [sql]) -> after (simple_query ask sql) log Q.
Proof. auto. Qed.

Section chain.
Variable ask : oracle.
Variable connect : result str unit.
Variable relay_listening : bool.
Variable format_time : Z -> option str.

(** The statements that restore the images of the device sets, from the [i]th on. *)
Fixpoint step_statements (i : nat) (sets : list str) (target moves stopat : str) : list str :=
  match sets with
  | [] => []
  | set :: sets =>
      restore_step_sql i target set moves stopat :: step_statements (S i) sets target moves stopat
  end.

(** An image that was streamed to the end. *)
Definition streamed (env : image_env) : Prop :=
  ie_ready env = Ok tt /\ ie_download env = Ok (Ok tt) /\ ie_device env = Ok tt.

Lemma restore_one_log agent env sql log :
  after (restore_one_streamed ask relay_listening agent env sql) log (fun r log' =>
    exists l, log' = log ++ l /\ (l = [] \/ l = [sql]) /\
    (r = Ok tt -> l = [sql] /\ streamed env)).
Proof.
  destruct env as [ready dl dev]. unfold restore_one_streamed, streamed. cbn.
  assert (Hready : after (match agent with
       | None => sql_lift ready
       | Some agent =>
           if relay_listening
           then context (L "starting the relay restore session on agent '" ++ agent ++ L "'")
                  (sql_lift ready)
           else sql_lift (Err (L "this machine has no relay listener configured"))
       end) log (fun r log' => log' = log /\ (r = Ok tt -> ready = Ok tt))).
  { destruct agent as [a|]; [|apply after_lift; auto]. destruct relay_listening.
    - apply after_context, after_lift. destruct ready; cbn; auto. split; [auto | discriminate].
    - apply after_lift. split; [auto | discriminate]. }
  apply after_bind. eapply after_mono; [exact Hready|]. intros [[]|e] log1 [-> Hr].
  2:{ exists []. rewrite app_nil_r. split_and!; auto; discriminate. }
  apply after_bind, after_context, after_query.
  destruct (ask _) as [rows|e]; cbn; [|exists [sql]; split_and!; auto; discriminate].
  apply after_bind, after_lift.
  destruct dl as [[[]|e]|e]; [|exists [sql]; split_and!; auto; discriminate ..].
  apply after_lift. exists [sql]. split_and!; auto.
Qed.

Lemma restore_steps_log i steps agent target moves stopat log :
  after (restore_steps ask relay_listening i steps agent target moves stopat) log (fun r log' =>
    exists k, log' = log ++ take k (step_statements i (map fst steps) target moves stopat) /\
      (r = Ok tt -> (length steps <= k)%nat /\ Forall (fun x => streamed x.2) steps)).
Proof.
  revert i log; induction steps as [|[set env] steps IH]; intros i log.
  { exists O. cbn. rewrite app_nil_r. auto. }
  cbn [restore_steps step_statements map fst]. apply after_bind.
  eapply after_mono; [apply restore_one_log|]. intros [[]|e] log1 (l & -> & Hl & Hok).
  - destruct (Hok eq_refl) as (-> & Hst). eapply after_mono; [apply IH|].
    intros r log2 (k & -> & Hk). exists (S k). rewrite <- app_assoc. split; [reflexivity|].
    intros Hr. destruct (Hk Hr) as [Hle HF]. split; [cbn; lia | constructor; auto].
  - destruct Hl as [-> | ->]; [exists O | exists 1%nat];
      (split; [cbn; rewrite ?app_nil_r; reflexivity | discriminate]).
Qed.

Lemma device_log panic sql log :
  after (device_stmt ask panic sql) log (fun _ log' => log' = log ++ [sql]).
Proof. reflexivity. Qed.

(** The questions before the first image: the clock and, under a new name, the
    default directories. *)
Lemma stopat_log target_unix log :
  after (stopat_of ask format_time target_unix) log (fun _ log' => log' = log ++ [offset_sql]).
Proof. apply after_bind, after_query. destruct (ask _); reflexivity. Qed.

Lemma moves_log files target log :
  after (moves_from_files ask files target) log (fun r log' =>
    exists q, log' = log ++ [q] /\ read_stmt q = None /\
    forall m, r = Ok m -> exists d l, m = move_clause files d l target).
Proof.
  apply after_bind. unfold default_dirs. apply after_bind, after_query.
  destruct (ask _) as [rows|e]; [|eexists; split_and!; [reflexivity | reflexivity | discriminate]].
  apply after_bind, after_lift.
  destruct (head rows); cbn; eexists; (split_and!; [reflexivity | reflexivity |]);
    [intros m [= <-]; eauto | discriminate].
Qed.

(** The images from memory, likewise. *)
Lemma restore_images_log i steps target moves stopat log :
  after (restore_images ask i steps target moves stopat) log (fun r log' =>
    exists k, log' = log ++ take k (step_statements i (map de_set steps) target moves stopat) /\
      (r = Ok tt -> (length steps <= k)%nat)).
Proof.
  revert i log; induction steps as [|env steps IH]; intros i log.
  { exists O. cbn. rewrite app_nil_r. auto. }
  cbn [restore_images step_statements map]. apply after_bind. unfold run_vdi_read_stmt.
  apply after_bind, after_lift. destruct (de_ready env) as [[]|e].
  2:{ exists O. cbn. rewrite app_nil_r. split; [reflexivity | discriminate]. }
  set (sql := restore_step_sql i target (de_set env) moves stopat).
  eapply after_mono; [apply device_log|]. intros [rows|e] log1 ->.
  - eapply after_mono; [apply IH|]. intros r log2 (k & -> & Hk). exists (S k).
    rewrite <- app_assoc. split; [reflexivity|]. intros Hr. specialize (Hk Hr). cbn. lia.
  - exists 1%nat. split; [reflexivity | discriminate].
Qed.

(** What a restore of a chain said to the server: questions, a beginning of the
    statements of the images, and the one that brings the database online, which
    comes only after all of them, and after [whole]; the files of the [MOVE] clauses
    satisfy [listed]. *)
Definition in_order (whole : Prop) (listed : list SqlBackupFile -> Prop) (source target : str)
    (sets : list str) (force : bool) (log0 : list str) (res : result str unit) (log : list str) :
    Prop :=
  exists queries moves stopat k (recovered : bool),
    log = log0 ++ queries ++ take k (step_statements 0 sets target moves stopat)
                  ++ (if recovered then [recovery_sql target] else []) /\
    Forall (fun q => read_stmt q = None) queries /\
    (renamed source target force = false -> moves = []) /\
    (renamed source target force = true -> (0 < k)%nat ->
       exists files d l, listed files /\ moves = move_clause files d l target) /\
    (recovered = true -> (length sets <= k)%nat /\ whole) /\
    (res = Ok tt -> recovered = true).

(** Only questions were asked so far. *)
Definition questions (log0 log : list str) : Prop :=
  exists queries, log = log0 ++ queries /\ Forall (fun q => read_stmt q = None) queries.

Lemma questions_nil log : questions log log.
Proof. exists []. rewrite app_nil_r. auto. Qed.

Lemma questions_snoc log0 log q :
  questions log0 log -> read_stmt q = None -> questions log0 (log ++ [q]).
Proof.
  intros (qs & -> & HF) Hq. exists (qs ++ [q]). rewrite app_assoc. split; [reflexivity|].
  apply Forall_app. auto.
Qed.

Lemma in_order_stop whole listed source target sets force e log0 log :
  questions log0 log -> in_order whole listed source target sets force log0 (Err e) log.
Proof.
  intros (queries & -> & HF). exists queries, [], [], O, false. cbn. rewrite app_nil_r.
  split_and!; auto; try discriminate; try lia.
Qed.

(** The images and the recovery, once the clause is known. *)
Lemma images_in_order (images : sqlm unit) whole listed source target sets force log0 log moves
    stopat :
  after images log (fun r log' =>
     exists k, log' = log ++ take k (step_statements 0 sets target moves stopat) /\
       (r = Ok tt -> (length sets <= k)%nat /\ whole)) ->
  questions log0 log ->
  (renamed source target force = false -> moves = []) ->
  (renamed source target force = true ->
     exists files d l, listed files /\ moves = move_clause files d l target) ->
  after (_ ← images; _ ← simple_query ask (recovery_sql target); mret tt) log
    (in_order whole listed source target sets force log0).
Proof.
  intros Hi (queries & -> & Hq) Hf Ht. apply after_bind. eapply after_mono; [exact Hi|].
  intros [[]|e] log1 (k & -> & Hk).
  - apply after_bind, after_query. rewrite <- !app_assoc.
    destruct (ask _) as [rows|e]; exists queries, moves, stopat, k, true; split_and!; auto.
  - exists queries, moves, stopat, k, false. rewrite app_nil_r, <- app_assoc.
    split_and!; auto; discriminate.
Qed.

Lemma stopat_questions target_unix log0 log :
  questions log0 log ->
  after (stopat_of ask format_time target_unix) log (fun _ log' => questions log0 log').
Proof.
  intros Hq. eapply after_mono; [apply stopat_log|]. intros r log' ->.
  apply questions_snoc; [exact Hq | reflexivity].
Qed.

Lemma moves_questions files target log0 log :
  questions log0 log ->
  after (moves_from_files ask files target) log (fun r log' => questions log0 log' /\
    forall m, r = Ok m -> exists d l, m = move_clause files d l target).
Proof.
  intros Hq. eapply after_mono; [apply moves_log|]. intros r log' (q & -> & Hn & Hm).
  split; [apply questions_snoc; assumption | exact Hm].
Qed.

Lemma filelist_questions env log0 log :
  questions log0 log ->
  after (backup_filelist ask env) log (fun r log' => questions log0 log' /\
    forall files, r = Ok files -> files <> []).
Proof.
  intros Hq. apply after_bind. unfold run_vdi_read_stmt. apply after_bind, after_lift.
  destruct (de_ready env) as [[]|e]; [|split; [exact Hq | discriminate]].
  eapply after_mono; [apply device_log|].
  assert (Hq' : questions log0 (log ++ [filelist_sql (de_set env)]))
    by (apply questions_snoc; [exact Hq | reflexivity]).
  intros [rows|e] log' ->; [|split; [exact Hq' | discriminate]].
  destruct (map _ rows) as [|f fs]; (split; [exact Hq'|]); [discriminate|].
  intros files [= <-]. discriminate.
Qed.

(** What a restore from a stream, and one from memory, say to the server. *)
Lemma chain_streamed_in_order source target agent steps files target_unix force log0 :
  after (restore_chain_streamed ask connect relay_listening format_time
           source target agent steps files target_unix force) log0
    (in_order (Forall (fun x => streamed x.2) steps) (eq files) source target (map fst steps)
       force log0).
Proof.
  pose proof (questions_nil log0) as Hq. unfold restore_chain_streamed.
  destruct steps as [|st steps]; [apply after_lift, in_order_stop, Hq|].
  apply after_bind, after_lift. destruct connect as [[]|e]; [|apply in_order_stop, Hq].
  apply after_bind. eapply after_mono; [apply stopat_questions, Hq|].
  intros [stopat|e] log1 Hq1; [|apply in_order_stop, Hq1].
  apply after_bind. destruct (renamed source target force) eqn:Er.
  - eapply after_mono; [apply moves_questions, Hq1|]. intros [moves|e] log2 [Hq2 Hm];
      [|apply in_order_stop, Hq2].
    eapply images_in_order; [|exact Hq2|congruence|].
    + eapply after_mono; [apply restore_steps_log|]. intros r log' (k & -> & Hk). exists k.
      rewrite length_map. auto.
    + intros _. destruct (Hm moves eq_refl) as (d & l & ->). eauto.
  - eapply images_in_order; [|exact Hq1|auto|congruence].
    eapply after_mono; [apply restore_steps_log|]. intros r log' (k & -> & Hk). exists k.
    rewrite length_map. auto.
Qed.

Lemma chain_buffered_in_order source target lists steps target_unix force log0 :
  after (restore_chain ask connect format_time source target lists steps target_unix force) log0
    (in_order True (fun files => files <> []) source target (map de_set steps) force log0).
Proof.
  pose proof (questions_nil log0) as Hq. unfold restore_chain.
  destruct steps as [|st steps]; [apply after_lift, in_order_stop, Hq|].
  apply after_bind, after_lift. destruct connect as [[]|e]; [|apply in_order_stop, Hq].
  apply after_bind. eapply after_mono; [apply stopat_questions, Hq|].
  intros [stopat|e] log1 Hq1; [|apply in_order_stop, Hq1].
  apply after_bind. destruct (renamed source target force) eqn:Er.
  - apply after_bind. eapply after_mono; [apply filelist_questions, Hq1|].
    intros [files|e] log2 [Hq2 Hne]; [|apply in_order_stop, Hq2].
    eapply after_mono; [apply moves_questions, Hq2|]. intros [moves|e] log3 [Hq3 Hm];
      [|apply in_order_stop, Hq3].
    eapply images_in_order; [|exact Hq3|congruence|].
    + eapply after_mono; [apply restore_images_log|]. intros r log' (k & -> & Hk). exists k.
      rewrite length_map. auto.
    + intros _. destruct (Hm moves eq_refl) as (d & l & ->). eauto 6.
  - eapply images_in_order; [|exact Hq1|auto|congruence].
    eapply after_mono; [apply restore_images_log|]. intros r log' (k & -> & Hk). exists k.
    rewrite length_map. auto.
Qed.

(** C25: restoring a chain issues the full backup, then every log in order, and
    brings the database online last: the [RECOVERY] statement is sent only when
    every image was streamed to its end, the function succeeds only after it, and
    files are moved exactly when the restore is under a new name. *)
Theorem recovery_comes_last source target agent steps files target_unix force res log :
  restore_chain_streamed ask connect relay_listening format_time
    source target agent steps files target_unix force [] = (res, log) ->
  in_order (Forall (fun x => streamed x.2) steps) (eq files) source target (map fst steps)
    force [] res log.
Proof.
  intros E. pose proof (chain_streamed_in_order source target agent steps files target_unix force [])
    as Ha. unfold after in Ha. rewrite E in Ha. exact Ha.
Qed.

End chain.

(** Where a restore under a new name puts a file: two files that go to the same
    default directory get the same path exactly when the last components of their
    paths are equal, so a database with two files of one name in different
    directories cannot be restored under a new name. *)
Theorem moved_paths_collide data_dir log_dir target f g :
  (if bf_is_log f then log_dir else data_dir) <> [] ->
  (if bf_is_log f then log_dir else data_dir) = (if bf_is_log g then log_dir else data_dir) ->
  move_path data_dir log_dir target f = move_path data_dir log_dir target g <->
  base_name (bf_physical f) = base_name (bf_physical g).
Proof.
  unfold move_path. intros Hd <-.
  destruct (if bf_is_log f then log_dir else data_dir) as [|c dir]; [contradiction|]. cbn [is_empty].
  split; [|intros ->; reflexivity]. intros E.
  apply app_inv_head, app_inv_head, app_inv_head in E. exact E.
Qed.

(** ** Witnesses *)

Definition sample_file : SqlBackupFile :=
  {| bf_logical := L "it's"; bf_physical := L "C:\d\a.mdf"; bf_is_log := false |}.

Lemma statements_read_as_meant_witness :
  read_stmt (restore_database_sql (L "a]b") (L "s") (move_clause [sample_file] (L "D:") [] (L "a]b")))
  = Some (RestoreStmt (L "a]b") (L "s") true [(L "it's", L "D:\a_b_a.mdf")]).
Proof.
  destruct (statements_read_as_meant (L "a]b") (L "s")) as (_ & Hr & _); [reflexivity|].
  exact (proj1 (Hr [sample_file] (L "D:") [])).
Defined.

Definition good_image : image_env :=
  {| ie_ready := Ok tt; ie_download := Ok (Ok tt); ie_device := Ok tt |}.
Definition quiet : oracle := fun _ => Ok [].

Lemma recovery_comes_last_witness :
  in_order (Forall (fun x => streamed x.2) [(L "s0", good_image); (L "s1", good_image)]) (eq [])
    (L "db") (L "db") [L "s0"; L "s1"] false [] (Ok tt)
    (restore_chain_streamed quiet (Ok tt) false (fun _ => Some (L "now")) (L "db") (L "db") None
       [(L "s0", good_image); (L "s1", good_image)] [] 0 false []).2.
Proof.
  apply (recovery_comes_last quiet (Ok tt) false (fun _ => Some (L "now")) (L "db") (L "db") None
           [(L "s0", good_image); (L "s1", good_image)] [] 0 false).
  vm_compute. reflexivity.
Defined.

Lemma moved_paths_collide_witness :
  move_path (L "D:") (L "E:") (L "x") sample_file
  = move_path (L "D:") (L "E:") (L "x")
      {| bf_logical := L "other"; bf_physical := L "F:\e\a.mdf"; bf_is_log := false |}.
Proof.
  apply (moved_paths_collide (L "D:") (L "E:") (L "x") sample_file
    {| bf_logical := L "other"; bf_physical := L "F:\e\a.mdf"; bf_is_log := false |});
    vm_compute; congruence.
Defined.
