(* ===== verification/Vdi.v ===== *)
(** The virtual devices of a backup and a restore
    ([pbsgui-engine/src/sql/vdi.rs]).

    SQL Server sends commands to a virtual device; the engine's device loop takes
    each, moves the bytes, and completes it.  The script of a device is what the
    loop sees on each of its turns: whether it was cancelled, what [GetCommand]
    returned, and whether the completion was accepted.  A backup drains the
    device into a sink: a file, the channel of the uploader, or the channel of a
    relay session; a restore fills it from a source, which is an interface
    ([RestoreSource]) with the two implementations of the code. *)

From Stdlib Require Import ZArith Lia Strings.Byte Ascii String.
From stdpp Require Import base tactics option numbers list.
From S2P Require Import Prelude Text Base Upload Sched Channels Frames Relay.
Open Scope Z_scope.

Definition VDC_READ : Z := 1.
Definition VDC_WRITE : Z := 2.
Definition VDC_CLEAR_ERROR : Z := 3.
Definition VDC_FLUSH : Z := 12.
Definition ERROR_SUCCESS : Z := 0.
Definition ERROR_WRITE_FAULT : Z := 29.
Definition ERROR_HANDLE_EOF : Z := 38.
Definition ERROR_NOT_SUPPORTED : Z := 50.

(** What [GetCommand] returns: a timeout, the close of the device, another failure,
    or a command with its code and its buffer (what SQL Server wrote for a
    [VDC_WRITE], room of that size for a [VDC_READ]). *)
Inductive get_command :=
| GTimeout | GClose | GFailed (e : str) | GCommand (code : Z) (buffer : bytes).

Record turn := Turn { t_cancelled : bool; t_get : get_command; t_complete : result str unit }.

(** A completed command: its completion code and the bytes transferred. *)
Record completion := Completed { c_code : Z; c_bytes : Z }.

(** How a device loop stands after a script: it returned, or waits for more. *)
Inductive loop_end := Returns (r : result str Z) | Waits.

(** ** Sinks *)

(** A file takes the bytes that fit ([room]) and fails after that. *)
Inductive Sink :=
| SinkFile (written : bytes) (room : option nat)
| SinkChannel (tx : sender)
| SinkRelay (tx : sender).

Definition sink_write (data : bytes) (sink : Sink) : result io_error unit * Sink :=
  match sink with
  | SinkFile written room =>
      match room with
      | Some r =>
          if (length data <=? r)%nat
          then (Ok tt, SinkFile (written ++ data) (Some (r - length data)%nat))
          else (Err (IoError OtherIo (L "no space left on device")),
                SinkFile (written ++ take r data) (Some O))
      | None => (Ok tt, SinkFile (written ++ data) None)
      end
  | SinkChannel tx =>
      match tx_send data tx with
      | Some tx => (Ok tt, SinkChannel tx)
      | None => (Err (IoError BrokenPipe (L "PBS upload stopped")), SinkChannel tx)
      end
  | SinkRelay tx =>
      match tx_send data tx with
      | Some tx => (Ok tt, SinkRelay tx)
      | None => (Err (IoError BrokenPipe (L "the relay proxy stopped consuming")), SinkRelay tx)
      end
  end.

Definition sink_data (sink : Sink) : bytes :=
  match sink with
  | SinkFile written _ => written
  | SinkChannel tx | SinkRelay tx => concat (tx_sent tx)
  end.

Lemma sink_write_ok data sink sink' :
  sink_write data sink = (Ok tt, sink') -> sink_data sink' = sink_data sink ++ data.
Proof.
  destruct sink as [wr [r|]|tx|tx]; cbn.
  - destruct (_ <=? _)%nat; intros [= <-]. reflexivity.
  - intros [= <-]. reflexivity.
  - destruct (tx_send data tx) eqn:E; intros [= <-]. cbn.
    rewrite (tx_send_sent _ _ _ E), concat_app. cbn. rewrite app_nil_r. reflexivity.
  - destruct (tx_send data tx) eqn:E; intros [= <-]. cbn.
    rewrite (tx_send_sent _ _ _ E), concat_app. cbn. rewrite app_nil_r. reflexivity.
Qed.

(** ** The backup direction *)

(** The command [code] with [buffer]: the completion code, the bytes transferred and
    the sink after it. *)
Definition drain_command (code : Z) (buffer : bytes) (sink : Sink) : Z * Z * Sink :=
  if code =? VDC_WRITE then
    match sink_write buffer sink with
    | (Ok _, sink) => (ERROR_SUCCESS, Z.of_nat (length buffer), sink)
    | (Err _, sink) => (ERROR_WRITE_FAULT, 0, sink)
    end
  else if (code =? VDC_FLUSH) || (code =? VDC_CLEAR_ERROR) then (ERROR_SUCCESS, 0, sink)
  else (ERROR_NOT_SUPPORTED, 0, sink).

(** The loop of [drain_device], with the completions it sends; [total] is the bytes
    written so far. *)
Fixpoint drain_device (script : list turn) (total : Z) (sink : Sink) :
    loop_end * list completion * Sink :=
  match script with
  | [] => (Waits, [], sink)
  | t :: script =>
      if t_cancelled t then (Returns (Err (L "backup cancelled")), [], sink)
      else match t_get t with
      | GTimeout => drain_device script total sink
      | GClose => (Returns (Ok total), [], sink)
      | GFailed e => (Returns (Err (L "VDI GetCommand failed: " ++ e)), [], sink)
      | GCommand code buffer =>
          let '(completion_code, transferred, sink) := drain_command code buffer sink in
          let c := Completed completion_code transferred in
          match t_complete t with
          | Err e => (Returns (Err (L "VDI CompleteCommand failed: " ++ e)), [c], sink)
          | Ok _ =>
              if completion_code =? ERROR_WRITE_FAULT
              then (Returns (Err (L "failed writing backup data to the sink")), [c], sink)
              else
                let total := if code =? VDC_WRITE then total + Z.of_nat (length buffer) else total in
                let '(r, cs, sink) := drain_device script total sink in (r, c :: cs, sink)
          end
      end
  end.

(** What SQL Server wrote and was told is safe: the buffers of the [VDC_WRITE]
    commands completed with [ERROR_SUCCESS]. *)
Fixpoint acknowledged (script : list turn) (cs : list completion) : list bytes :=
  match script with
  | [] => []
  | t :: script =>
      match t_get t, cs with
      | GCommand code buffer, c :: cs =>
          if (code =? VDC_WRITE) && (c_code c =? ERROR_SUCCESS)
          then buffer :: acknowledged script cs else acknowledged script cs
      | GCommand _ _, [] => []
      | GTimeout, cs => acknowledged script cs
      | _, _ => []
      end
  end.

(** Everything SQL Server wrote before it closed the device. *)
Fixpoint written (script : list turn) : list bytes :=
  match script with
  | [] => []
  | t :: script =>
      match t_get t with
      | GCommand code buffer =>
          if code =? VDC_WRITE then buffer :: written script else written script
      | GTimeout => written script
      | _ => []
      end
  end.

Lemma drain_command_sink code buffer sink code' n sink' :
  drain_command code buffer sink = (code', n, sink') ->
  ((code =? VDC_WRITE) && (code' =? ERROR_SUCCESS) = true ->
     sink_data sink' = sink_data sink ++ buffer) /\
  ((code =? VDC_WRITE) && (code' =? ERROR_SUCCESS) = false ->
     code' = ERROR_WRITE_FAULT \/ sink_data sink' = sink_data sink /\ code <> VDC_WRITE).
Proof.
  unfold drain_command. destruct (Z.eqb_spec code VDC_WRITE) as [->|Hne].
  - destruct (sink_write buffer sink) as [[[]|e] s1] eqn:E; intros [= <- <- <-]; cbn; split;
      try discriminate; intros _; [eapply sink_write_ok; exact E | auto].
  - destruct (_ || _); intros [= <- <- <-]; cbn; split; try discriminate; intros _; auto.
Qed.

Lemma acknowledged_nil script : acknowledged script [] = [].
Proof. induction script as [|t script IH]; cbn; [reflexivity|]. destruct (t_get t); auto. Qed.

(** Every acknowledged byte is in the sink, in order; on a clean close there is
    nothing else in it, and nothing SQL Server wrote is missing. *)
Definition drained (script : list turn) (total : Z) (sink : Sink) (r : loop_end)
    (cs : list completion) (sink' : Sink) : Prop :=
  (exists rest, sink_data sink' = sink_data sink ++ concat (acknowledged script cs) ++ rest) /\
  (forall n, r = Returns (Ok n) ->
     sink_data sink' = sink_data sink ++ concat (acknowledged script cs) /\
     acknowledged script cs = written script /\
     n = total + Z.of_nat (length (concat (written script)))).

Lemma drained_stop script total sink r :
  (forall n, r <> Returns (Ok n)) -> drained script total sink r [] sink.
Proof.
  intros Hr. split; [|intros n E; destruct (Hr n E)].
  exists []. rewrite acknowledged_nil, app_nil_r. reflexivity.
Qed.

Lemma sink_write_more data sink sink' x :
  sink_write data sink = (x, sink') -> exists rest, sink_data sink' = sink_data sink ++ rest.
Proof.
  destruct x as [[]|e]; [intros E%sink_write_ok; eauto|].
  destruct sink as [wr [r|]|tx|tx]; cbn.
  - destruct (_ <=? _)%nat; intros [= _ <-]. cbn. eauto.
  - discriminate.
  - destruct (tx_send data tx); intros [= _ <-]. exists []. rewrite app_nil_r. reflexivity.
  - destruct (tx_send data tx); intros [= _ <-]. exists []. rewrite app_nil_r. reflexivity.
Qed.

Lemma drain_command_more code buffer sink code' n sink' :
  drain_command code buffer sink = (code', n, sink') ->
  exists rest, sink_data sink' = sink_data sink ++ rest.
Proof.
  unfold drain_command. destruct (code =? VDC_WRITE).
  - destruct (sink_write buffer sink) as [[[]|e] s1] eqn:E; intros [= <- <- <-];
      eapply sink_write_more; exact E.
  - destruct (_ || _); intros [= <- <- <-]; exists []; rewrite app_nil_r; reflexivity.
Qed.

(** A command after which the loop returns. *)
Lemma drained_last t script total sink r code buffer code' n sink' :
  t_get t = GCommand code buffer -> drain_command code buffer sink = (code', n, sink') ->
  (forall k, r <> Returns (Ok k)) ->
  drained (t :: script) total sink r [Completed code' n] sink'.
Proof.
  intros Hg E Hr. split; [|intros k Ek; destruct (Hr k Ek)].
  cbn [acknowledged c_code]. rewrite Hg, acknowledged_nil.
  destruct (drain_command_sink _ _ _ _ _ _ E) as [Hok _].
  destruct ((code =? VDC_WRITE) && (code' =? ERROR_SUCCESS)).
  - exists []. cbn. rewrite !app_nil_r. auto.
  - destruct (drain_command_more _ _ _ _ _ _ E) as [rest Hrest]. exists rest. exact Hrest.
Qed.

Lemma drain_sound script total sink r cs sink' :
  drain_device script total sink = (r, cs, sink') -> drained script total sink r cs sink'.
Proof.
  revert total sink cs sink'; induction script as [|t script IH]; intros total sink cs sink'.
  { intros [= <- <- <-]. apply drained_stop. discriminate. }
  cbn [drain_device]. destruct (t_cancelled t).
  { intros [= <- <- <-]. apply drained_stop. discriminate. }
  destruct (t_get t) as [| |e|code buffer] eqn:Hg.
  - intros E%IH. unfold drained in *. cbn [acknowledged written]. rewrite Hg. exact E.
  - intros [= <- <- <-]. unfold drained. cbn [acknowledged written]. rewrite Hg. cbn.
    rewrite app_nil_r. split; [exists []; rewrite app_nil_r; auto|]. intros n [= <-].
    split_and!; auto. lia.
  - intros [= <- <- <-]. apply drained_stop. discriminate.
  - destruct (drain_command code buffer sink) as [[code' n] sink1] eqn:Ec.
    destruct (t_complete t) as [u|e].
    2:{ intros [= <- <- <-]. eapply drained_last; eauto; discriminate. }
    destruct (Z.eqb_spec code' ERROR_WRITE_FAULT) as [Hf|Hf].
    { intros [= <- <- <-]. eapply drained_last; eauto; discriminate. }
    destruct (drain_device script _ sink1) as [[r1 cs1] sink2] eqn:Ed.
    intros [= <- <- <-]. destruct (IH _ _ _ _ Ed) as [[rest Hrest] Hn].
    destruct (drain_command_sink _ _ _ _ _ _ Ec) as [Hw Hnw].
    unfold drained. cbn [acknowledged written c_code]. rewrite Hg.
    destruct (code =? VDC_WRITE) eqn:Ew; cbn [andb] in *.
    + destruct (code' =? ERROR_SUCCESS).
      2:{ destruct (Hnw eq_refl) as [?|[_ Hc]]; [contradiction|]. destruct Hc. lia. }
      rewrite (Hw eq_refl) in *. cbn [concat]. split.
      * exists rest. rewrite Hrest, <- !app_assoc. reflexivity.
      * intros k Ek. destruct (Hn k Ek) as (H1 & H2 & ->). rewrite H1, H2, length_app.
        rewrite <- !app_assoc. split_and!; auto. lia.
    + destruct (Hnw eq_refl) as [?|[Hs _]]; [contradiction|]. rewrite Hs in *. eauto.
Qed.

(** The backup direction of a device: whatever commands SQL Server sends and
    wherever the sink fails or the run is cancelled, a write is acknowledged only
    when its bytes are in the sink, in order; and when the loop ends well, the
    sink has exactly what SQL Server wrote, and the count is its length. *)
Theorem acknowledged_writes_kept script sink r cs sink' :
  drain_device script 0 sink = (r, cs, sink') ->
  (exists rest, sink_data sink' = sink_data sink ++ concat (acknowledged script cs) ++ rest) /\
  (forall n, r = Returns (Ok n) ->
     sink_data sink' = sink_data sink ++ concat (written script) /\
     n = Z.of_nat (length (concat (written script)))).
Proof.
  intros E. destruct (drain_sound _ _ _ _ _ _ E) as [H1 H2]. split; [exact H1|].
  intros n Hn. destruct (H2 n Hn) as (Hs & Ha & ->). rewrite <- Ha. auto.
Qed.

(** ** The restore direction *)

(** A source of bytes: it fills the buffer as far as it can, and gives less than was
    asked for only at its end. *)
Class RestoreSource (S : Type) := {
  read_into : nat -> S -> bytes * S;
  remaining : S -> bytes;
  read_into_spec : forall n s,
    (read_into n s).1 = take n (remaining s) /\
    remaining (read_into n s).2 = drop n (remaining s);
}.

(** A downloaded image in memory. *)
Record ImageSource := { is_data : bytes; is_pos : nat }.

Definition image_read (n : nat) (s : ImageSource) : bytes * ImageSource :=
  let k := Nat.min (length (is_data s) - is_pos s) n in
  (slice (is_pos s) (is_pos s + k) (is_data s),
   {| is_data := is_data s; is_pos := is_pos s + k |}).

Lemma image_read_spec n s :
  (image_read n s).1 = take n (drop (is_pos s) (is_data s)) /\
  drop (is_pos (image_read n s).2) (is_data (image_read n s).2)
  = drop n (drop (is_pos s) (is_data s)).
Proof.
  unfold image_read, slice. cbn [fst snd is_data is_pos]. set (d := is_data s). set (p := is_pos s).
  replace (p + Nat.min (length d - p) n - p)%nat with (Nat.min (length d - p) n) by lia.
  rewrite <- drop_drop. rewrite <- (length_drop d p).
  destruct (Nat.le_ge_cases (length (drop p d)) n) as [H|H].
  - rewrite Nat.min_l by exact H. rewrite !(take_ge (drop p d)), !(drop_ge (drop p d)) by lia. auto.
  - rewrite Nat.min_r by exact H. auto.
Qed.

#[export] Instance image_source : RestoreSource ImageSource := {
  read_into := image_read;
  remaining s := drop (is_pos s) (is_data s);
  read_into_spec := image_read_spec;
}.

(** A stream that arrives over a channel: the buffers to come until its senders are
    gone, and the one being read. *)
Record StreamReader := { sr_rx : list bytes; sr_buf : bytes; sr_pos : nat }.

Definition stream_reader_new (rx : list bytes) : StreamReader :=
  {| sr_rx := rx; sr_buf := []; sr_pos := 0 |}.

(** The loop of [read_into]: copy from the buffer, and while there is room take the
    next one. *)
Fixpoint stream_fill (n : nat) (rx : list bytes) (buf : bytes) (pos : nat) :
    bytes * StreamReader :=
  let k := Nat.min (length buf - pos) n in
  let got := slice pos (pos + k) buf in
  if (k =? n)%nat then (got, {| sr_rx := rx; sr_buf := buf; sr_pos := pos + k |})
  else match rx with
       | [] => (got, {| sr_rx := []; sr_buf := buf; sr_pos := pos + k |})
       | next :: rx =>
           let '(more, s) := stream_fill (n - k) rx next 0 in (got ++ more, s)
       end.

Definition stream_read (n : nat) (s : StreamReader) : bytes * StreamReader :=
  stream_fill n (sr_rx s) (sr_buf s) (sr_pos s).

Definition stream_remaining (s : StreamReader) : bytes :=
  drop (sr_pos s) (sr_buf s) ++ concat (sr_rx s).

Lemma stream_fill_spec n rx buf pos :
  (stream_fill n rx buf pos).1 = take n (drop pos buf ++ concat rx) /\
  stream_remaining (stream_fill n rx buf pos).2 = drop n (drop pos buf ++ concat rx).
Proof.
  revert n buf pos; induction rx as [|next rx IH]; intros n buf pos; cbn [stream_fill];
    set (k := Nat.min (length buf - pos) n);
    assert (Hg : slice pos (pos + k) buf = take k (drop pos buf))
      by (unfold slice; replace (pos + k - pos)%nat with k by lia; reflexivity);
    assert (Hl : length (drop pos buf) = (length buf - pos)%nat) by apply length_drop;
    destruct (Nat.eqb_spec k n) as [Hk|Hk]; rewrite Hg; cbn [fst snd concat];
    try (unfold stream_remaining; cbn [sr_pos sr_buf sr_rx concat]; rewrite <- drop_drop, Hk;
         rewrite take_app_le, drop_app_le by lia; auto; fail).
  - unfold stream_remaining. cbn. rewrite !app_nil_r, <- drop_drop.
    rewrite !(take_ge (drop pos buf)), !(drop_ge (drop pos buf)) by lia. auto.
  - destruct (stream_fill (n - k) rx next 0) as [more s] eqn:E. cbn [fst snd].
    specialize (IH (n - k)%nat next 0%nat). rewrite E in IH. cbn [fst snd] in IH.
    rewrite drop_0 in IH. destruct IH as [-> ->].
    rewrite (take_app_ge (drop pos buf)), (drop_app_ge (drop pos buf)), (take_ge (drop pos buf)) by lia.
    replace (n - length (drop pos buf))%nat with (n - k)%nat by lia. auto.
Qed.

Lemma stream_read_spec n s :
  (stream_read n s).1 = take n (stream_remaining s) /\
  stream_remaining (stream_read n s).2 = drop n (stream_remaining s).
Proof. apply stream_fill_spec. Qed.

#[export] Instance stream_source : RestoreSource StreamReader := {
  read_into := stream_read;
  remaining := stream_remaining;
  read_into_spec := stream_read_spec;
}.

(** The loop of [fill_device]: the result, and for every completed command its
    completion and the bytes put into its buffer. *)
Fixpoint fill_device {S} `{RestoreSource S} (script : list turn) (total : Z) (source : S) :
    loop_end * list (completion * bytes) :=
  match script with
  | [] => (Waits, [])
  | t :: script =>
      match t_get t with
      | GTimeout => (Returns (Err (L "VDI GetCommand failed: timeout")), [])
      | GClose => (Returns (Ok total), [])
      | GFailed e => (Returns (Err (L "VDI GetCommand failed: " ++ e)), [])
      | GCommand code buffer =>
          let '(out, source) :=
            if code =? VDC_READ then read_into (length buffer) source else ([], source) in
          let n := Z.of_nat (length out) in
          let completion_code :=
            if code =? VDC_READ then
              if n =? Z.of_nat (length buffer) then ERROR_SUCCESS else ERROR_HANDLE_EOF
            else if (code =? VDC_FLUSH) || (code =? VDC_CLEAR_ERROR) then ERROR_SUCCESS
            else ERROR_NOT_SUPPORTED in
          let c := (Completed completion_code n, out) in
          match t_complete t with
          | Err e => (Returns (Err (L "VDI CompleteCommand failed: " ++ e)), [c])
          | Ok _ => let '(r, cs) := fill_device script (total + n) source in (r, c :: cs)
          end
      end
  end.

(** The device does not see which source feeds it. *)
Lemma fill_device_same {S T} `{RestoreSource S, RestoreSource T} script total (s : S) (t : T) :
  remaining s = remaining t -> fill_device script total s = fill_device script total t.
Proof.
  revert total s t; induction script as [|u script IH]; intros total s t E; [reflexivity|].
  cbn [fill_device]. destruct (t_get u) as [| |e|code buffer]; try reflexivity.
  destruct (code =? VDC_READ).
  - destruct (read_into_spec (length buffer) s) as [Hs1 Hs2].
    destruct (read_into_spec (length buffer) t) as [Ht1 Ht2].
    destruct (read_into _ s) as [o1 s1], (read_into _ t) as [o2 t1]. cbn [fst snd] in *.
    subst o1 o2. rewrite E. destruct (t_complete u); [|reflexivity].
    rewrite (IH _ s1 t1); [reflexivity|]. rewrite Hs2, Ht2, E. reflexivity.
  - destruct (t_complete u); [|reflexivity]. rewrite (IH _ s t) by exact E. reflexivity.
Qed.

(** What the device got is the beginning of the source, all of it once an end was
    reported, and the total counts it. *)
Definition filled (src : bytes) (total : Z) (r : loop_end) (cs : list (completion * bytes)) : Prop :=
  concat (map snd cs) `prefix_of` src /\
  (Exists (fun c => c_code c.1 = ERROR_HANDLE_EOF) cs -> concat (map snd cs) = src) /\
  (forall n, r = Returns (Ok n) -> n = total + Z.of_nat (length (concat (map snd cs)))).

Lemma filled_nil src total r :
  (forall n, r = Returns (Ok n) -> n = total) -> filled src total r [].
Proof.
  intros Hr. split_and!; [apply prefix_nil | intros E; inversion E |].
  intros n Hn. cbn. rewrite (Hr n Hn). lia.
Qed.

(** One command: [k] bytes of the source, with an end reported only when there are
    no more. *)
Lemma filled_cons src total r cs k c :
  (c_code c = ERROR_HANDLE_EOF -> (length src <= k)%nat) ->
  filled (drop k src) (total + Z.of_nat (length (take k src))) r cs ->
  filled src total r ((c, take k src) :: cs).
Proof.
  intros Hc (Hp & He & Hn). unfold filled. cbn [map snd concat]. split_and!.
  - rewrite <- (take_drop k src) at 2. apply prefix_app, Hp.
  - intros [Hx|Hx]%Exists_cons; cbn [fst] in Hx.
    + rewrite drop_ge in Hp by auto. apply prefix_nil_inv in Hp. rewrite Hp, app_nil_r.
      apply take_ge. auto.
    + rewrite (He Hx). apply take_drop.
  - intros n Hr. rewrite (Hn n Hr), length_app. lia.
Qed.

Lemma fill_device_filled {S} `{RestoreSource S} script total (s : S) r cs :
  fill_device script total s = (r, cs) -> filled (remaining s) total r cs.
Proof.
  revert total s r cs; induction script as [|u script IH]; intros total s r cs; cbn [fill_device].
  { intros [= <- <-]. apply filled_nil. discriminate. }
  destruct (t_get u) as [| |e|code buffer]; try (intros [= <- <-]; apply filled_nil; congruence).
  set (step := if code =? VDC_READ then read_into _ s else _).
  assert (Hstep : exists k, step.1 = take k (remaining s) /\ remaining step.2 = drop k (remaining s)
    /\ (code = VDC_READ -> k = length buffer)).
  { unfold step. destruct (Z.eqb_spec code VDC_READ) as [->|Hne].
    - destruct (read_into_spec (length buffer) s). exists (length buffer). auto.
    - exists O. split_and!; auto. contradiction. }
  destruct step as [out s1]. cbn [fst snd] in Hstep. destruct Hstep as (k & -> & Hr1 & Hk).
  set (c := Completed _ _).
  assert (Hc : c_code c = ERROR_HANDLE_EOF -> (length (remaining s) <= k)%nat).
  { unfold c. cbn [c_code]. destruct (Z.eqb_spec code VDC_READ) as [Hr|]; [|destruct (_ || _); discriminate].
    rewrite (Hk Hr). destruct (Z.eqb_spec (Z.of_nat (length (take (length buffer) (remaining s))))
      (Z.of_nat (length buffer))) as [|Hne]; [discriminate|].
    intros _. rewrite length_take in Hne. lia. }
  destruct (t_complete u).
  - destruct (fill_device script _ s1) as [r1 cs1] eqn:E1. intros [= <- <-].
    apply filled_cons; [exact Hc|]. rewrite <- Hr1. apply IH, E1.
  - intros [= <- <-]. apply filled_cons; [exact Hc|]. apply filled_nil. discriminate.
Qed.

(** C37: restoring from a stream is the same as restoring from the downloaded image:
    to every sequence of device commands, a restore fed by the chunks as they arrive
    gives the same completions, the same bytes and the same result as one that has
    the whole image in memory, whatever the sizes of the chunks. *)
Theorem streamed_restore_equivalent chunks script :
  fill_device script 0 (stream_reader_new chunks)
  = fill_device script 0 {| is_data := concat chunks; is_pos := 0 |}.
Proof. apply fill_device_same. cbn. unfold stream_remaining. cbn. rewrite drop_0. reflexivity. Qed.

(** A restore gives the device the image from its beginning, in order and without
    gaps; it reports an end only when the device has all of it; and its count is
    what it gave. *)
Theorem restore_fills_in_order image script r cs :
  fill_device script 0 {| is_data := image; is_pos := 0 |} = (r, cs) ->
  concat (map snd cs) `prefix_of` image /\
  (Exists (fun c => c_code c.1 = ERROR_HANDLE_EOF) cs -> concat (map snd cs) = image) /\
  (forall n, r = Returns (Ok n) -> n = Z.of_nat (length (concat (map snd cs)))).
Proof.
  intros E. pose proof (fill_device_filled _ _ _ _ _ E) as Hf. cbn [remaining image_source] in Hf.
  exact Hf.
Qed.

(** ** Sessions *)

(** [run_device_session]: COM, the device set, the readiness signal, the body.  The
    result has the signal ([None]: none was sent). *)
Definition run_device_session (co_initialize co_create create_ex : result str unit)
    (body : loop_end) : option (result str unit) * loop_end :=
  match co_initialize with
  | Err e => (None, Returns (Err (L "CoInitializeEx failed: " ++ e)))
  | Ok _ =>
  match co_create with
  | Err e => (None, Returns (Err
      (L "CoCreateInstance(SQLVDI) failed; is SQLVDI.dll registered?: " ++ e)))
  | Ok _ =>
  match create_ex with
  | Err e => (Some (Err (L "VDI CreateEx failed: " ++ e)),
              Returns (Err (L "VDI CreateEx failed: " ++ e)))
  | Ok _ => (Some (Ok tt), body)
  end end end.

(** [open_device]: SQL Server attaches, the device opens. *)
Inductive attach := Attached | AttachTimeout | AttachFailed (e : str).

Definition open_device (a : attach) (opened : result str unit) : result str unit :=
  match a with
  | AttachTimeout => Err (L "timed out waiting for SQL Server to attach to the virtual device (did the BACKUP/RESTORE start, and is the connection sysadmin?)")
  | AttachFailed e => Err (L "VDI GetConfiguration failed: " ++ e)
  | Attached => map_err (fun e => L "VDI OpenDevice failed: " ++ e) opened
  end.

(** The whole of [drain_device], with the opening of the device. *)
Definition drain_session (opened : result str unit) (script : list turn) (sink : Sink) :
    loop_end * list completion * Sink :=
  match opened with
  | Err e => (Returns (Err e), [], sink)
  | Ok _ => drain_device script 0 sink
  end.

(** ** Results *)

Definition combine_pbs_result (backup : result str unit) (upload : result str BackupStats) :
    result str BackupStats :=
  match backup, upload with
  | Ok _, Ok stats => Ok stats
  | Ok _, Err pbs => Err (L "PBS upload failed: " ++ pbs)
  | Err sql, Ok _ => Err (L "BACKUP failed: " ++ sql)
  | Err sql, Err pbs => Err (L "PBS upload failed: " ++ pbs ++ L "; BACKUP also failed: " ++ sql)
  end.

Definition combine_file_result (backup : result str unit) (device : result str Z) : result str Z :=
  match backup, device with
  | Ok _, Ok n => Ok n
  | Err sql, _ => Err (L "BACKUP failed: " ++ sql)
  | Ok _, Err e => Err e
  end.

(** ** A local backup

    [backup_database_to_pbs] once the device is ready: the statement's outcome is
    the verdict the uploader's reader waits for ([None]: the run was dropped before
    it was known), and the device loop fills the reader's channel. *)
Definition local_reader (script : list turn) (verdict : option (result str unit)) : ChannelReader :=
  let '(_, _, sink) := drain_device script 0 (SinkChannel (Sender [] None)) in
  channel_reader_new
    (match sink with SinkChannel tx => tx_sent tx | _ => [] end)
    (match verdict with Some r => Some (is_ok r) | None => None end).

(** A sink stays what it is. *)
Definition sink_kind (sink : Sink) : Z :=
  match sink with SinkFile _ _ => 0 | SinkChannel _ => 1 | SinkRelay _ => 2 end.

Lemma drain_keeps_kind script total sink r cs sink' :
  drain_device script total sink = (r, cs, sink') -> sink_kind sink' = sink_kind sink.
Proof.
  revert total sink r cs; induction script as [|t script IH]; intros total sink r cs;
    cbn [drain_device].
  { intros [= _ _ <-]. reflexivity. }
  destruct (t_cancelled t); [intros [= _ _ <-]; reflexivity|].
  destruct (t_get t) as [| |e|code buffer]; [apply IH|intros [= _ _ <-]; reflexivity ..|].
  assert (Hc : sink_kind (drain_command code buffer sink).2 = sink_kind sink).
  { unfold drain_command. destruct (code =? VDC_WRITE); [|destruct (_ || _); reflexivity].
    destruct sink as [wr [k|]|tx|tx]; cbn [sink_write]; [destruct (_ <=? _)%nat| |
      destruct (tx_send buffer tx)|destruct (tx_send buffer tx)]; reflexivity. }
  destruct (drain_command code buffer sink) as [[c n] s1]. cbn in Hc. rewrite <- Hc.
  destruct (t_complete t); [|intros [= _ _ <-]; reflexivity].
  destruct (_ =? _); [intros [= _ _ <-]; reflexivity|].
  destruct (drain_device script _ s1) as [[r1 cs1] s2] eqn:E.
  intros [= _ _ <-]. eapply IH. exact E.
Qed.

Lemma local_reader_left script verdict r cs sink :
  drain_device script 0 (SinkChannel (Sender [] None)) = (r, cs, sink) ->
  channel_left (local_reader script verdict)
  = (sink_data sink, match verdict with Some (Ok _) => true | _ => false end).
Proof.
  intros E. unfold local_reader. rewrite E. pose proof (drain_keeps_kind _ _ _ _ _ _ E) as Hk.
  destruct sink as [| tx |]; try discriminate. unfold channel_left. cbn. destruct verdict as [[]|]; reflexivity.
Qed.

(** A local backup: when the [BACKUP] statement succeeded and the device closed
    cleanly, the uploader reads exactly what SQL Server wrote to the device; when the
    statement failed, or the run was cancelled before it ended, the uploader gets an
    error and never an end of file. *)
Theorem local_backup_whole script verdict n fuel r cs sink :
  (0 < n)%nat -> (length (sink_data sink) < fuel)%nat ->
  drain_device script 0 (SinkChannel (Sender [] None)) = (r, cs, sink) ->
  (forall k, r = Returns (Ok k) -> verdict = Some (Ok tt) ->
     drain fuel n (local_reader script verdict) = Some (Ok (concat (written script)))) /\
  (verdict <> Some (Ok tt) ->
     drain fuel n (local_reader script verdict)
     = Some (Err (IoError UnexpectedEof BACKUP_INCOMPLETE))).
Proof.
  intros Hn Hf E. pose proof (local_reader_left script verdict r cs sink E) as Hl.
  assert (Hfail : channel_fail (local_reader script verdict)
    = IoError UnexpectedEof BACKUP_INCOMPLETE).
  { unfold local_reader. rewrite E. reflexivity. }
  rewrite drain_all by (auto; change (reader_left ?x) with (channel_left x); rewrite Hl; exact Hf).
  change (reader_left ?x) with (channel_left x). change (reader_fail ?x) with (channel_fail x).
  rewrite Hl, Hfail. cbn [fst snd]. split.
  - intros k -> ->. destruct (drain_sound _ _ _ _ _ _ E) as [_ Hd].
    destruct (Hd k eq_refl) as (-> & -> & _). reflexivity.
  - intros Hv. destruct verdict as [[[]|e]|]; [contradiction | reflexivity | reflexivity].
Qed.

(** ** A relayed backup

    [relay_backup_device]: the device loop of an agent, whose sink is the channel of
    the session; [stopped] is how it ends when the session stops taking buffers. *)
Definition relay_backup_device (co_initialize co_create create_ex opened : result str unit)
    (script : list turn) (stopped : result str (result str Z)) : backup_device :=
  let '(r, _, sink) := drain_session opened script (SinkRelay (Sender [] None)) in
  let '(ready, res) := run_device_session co_initialize co_create create_ex r in
  {| dv_ready := ready;
     dv_bufs := match sink with SinkRelay tx => tx_sent tx | _ => [] end;
     dv_done := match res with Returns x => Ok x | Waits => Err (L "not ended") end;
     dv_stopped := stopped |}.

Lemma relay_device_done co1 co2 ce op script stopped n :
  dv_done (relay_backup_device co1 co2 ce op script stopped) = Ok (Ok n) ->
  concat (dv_bufs (relay_backup_device co1 co2 ce op script stopped)) = concat (written script) /\
  n = Z.of_nat (length (concat (written script))).
Proof.
  unfold relay_backup_device, drain_session.
  destruct op as [u|e]; [|destruct co1, co2, ce; discriminate].
  destruct (drain_device script 0 (SinkRelay (Sender [] None))) as [[r cs] sink] eqn:E.
  destruct co1, co2, ce; cbn; try discriminate.
  destruct r as [r|]; [|discriminate]. intros [= ->].
  destruct (drain_sound _ _ _ _ _ _ E) as [_ Hd]. destruct (Hd n eq_refl) as (Hs & Ha & ->).
  pose proof (drain_keeps_kind _ _ _ _ _ _ E) as Hk.
  destruct sink as [| |tx]; try discriminate. cbn in *. rewrite Hs, Ha. auto.
Qed.

(** End to end, a backup relayed from the SQL Server host: wherever the
    connection breaks and however much of it arrives, when the proxy's uploader
    reads an end of file it has read exactly what SQL Server wrote to the virtual
    device on that host, and the device was closed cleanly there. *)
Theorem relayed_device_whole `{ControlLaws} io_show sid tok co1 co2 ce op script stopped
    room fl res w p tl msg conn evs n s :
  run_backup_session io_show sid tok (relay_backup_device co1 co2 ce op script stopped)
    (Ok (Writer [] room fl)) = (res, Some w) ->
  p `prefix_of` w_sent w ->
  read_frame (Reader p tl) = (Ok (Some (Control msg)), conn) ->
  stream_run (backup_stream_init conn) (evs ++ [(n, Ok [])]) s -> (0 < n)%nat ->
  concat (map data_of evs) = concat (written script) /\
  res = Ok (Z.of_nat (length (concat (written script)))).
Proof.
  intros Hs Hp Er Hr Hn.
  destruct (relay_eof io_show _ _ _ _ _ _ _ _ _ _ _ _ _ _ Hs Hp Er Hr Hn) as (-> & k & -> & Hd).
  destruct (relay_device_done _ _ _ _ _ _ _ Hd) as [-> ->]. auto.
Qed.

(** ** Witnesses *)

Section witnesses.
Import SampleControl.

Definition sample_script : list turn :=
  [Turn false (GCommand VDC_WRITE (bstr "BA")) (Ok tt); Turn false GTimeout (Ok tt);
   Turn false (GCommand VDC_FLUSH []) (Ok tt); Turn false (GCommand VDC_WRITE (bstr "K")) (Ok tt);
   Turn false GClose (Ok tt)].

Lemma acknowledged_writes_kept_witness :
  sink_data (SinkFile (bstr "BAK") (Some 1%nat)) = bstr "" ++ concat (written sample_script) /\
  3 = Z.of_nat (length (concat (written sample_script))).
Proof.
  refine (proj2 (acknowledged_writes_kept sample_script (SinkFile [] (Some 4%nat))
    (Returns (Ok 3)) [Completed 0 2; Completed 0 0; Completed 0 1]
    (SinkFile (bstr "BAK") (Some 1%nat)) _) 3 eq_refl). vm_compute. reflexivity.
Defined.

Definition reads : list turn :=
  [Turn false (GCommand VDC_READ [x00; x00]) (Ok tt);
   Turn false (GCommand VDC_READ [x00; x00]) (Ok tt); Turn false GClose (Ok tt)].

Lemma restore_fills_in_order_witness :
  concat (map snd [(Completed 0 2, bstr "BA"); (Completed 38 1, bstr "K")]) = bstr "BAK".
Proof.
  destruct (restore_fills_in_order (bstr "BAK") reads (Returns (Ok 3))
    [(Completed 0 2, bstr "BA"); (Completed 38 1, bstr "K")]) as (_ & He & _);
    [vm_compute; reflexivity|].
  apply He. right. left. reflexivity.
Defined.

Lemma local_backup_whole_witness :
  drain 4 2 (local_reader sample_script (Some (Ok tt))) = Some (Ok (bstr "BAK")).
Proof.
  refine (proj1 (local_backup_whole sample_script (Some (Ok tt)) 2 4 (Returns (Ok 3))
    [Completed 0 2; Completed 0 0; Completed 0 1]
    (SinkChannel (Sender [bstr "BA"; bstr "K"] None)) _ _ _) 3 eq_refl eq_refl);
    vm_compute; try reflexivity; lia.
Defined.

Let show_io (e : io_error) : str := io_text e.

Definition relayed_device : backup_device :=
  relay_backup_device (Ok tt) (Ok tt) (Ok tt) (Ok tt) sample_script (Err (L "closed")).

Definition relayed_sent : bytes :=
  match run_backup_session show_io (L "s1") (L "t") relayed_device (Ok (Writer [] None true)) with
  | (_, Some w) => w_sent w
  | _ => []
  end.

Definition relayed_conn : reader := (read_frame (Reader relayed_sent None)).2.

Ltac pumps := eapply pump_run; [vm_compute; reflexivity|].

Lemma relayed_run : exists s,
  stream_run (backup_stream_init relayed_conn)
    [(2%nat, Ok (bstr "BA")); (2%nat, Ok (bstr "K")); (2%nat, Ok [])] s.
Proof.
  eexists. do 5 pumps. eapply (call_run 2); [reflexivity | reflexivity |].
  eapply (read_run 2); [reflexivity | vm_compute; reflexivity |].
  eapply (return_run 2); [reflexivity | vm_compute; reflexivity |].
  eapply (call_run 2); [reflexivity | reflexivity |].
  eapply (read_run 2); [reflexivity | vm_compute; reflexivity |].
  eapply (return_run 2); [reflexivity | vm_compute; reflexivity |].
  eapply (call_run 2); [reflexivity | reflexivity |].
  eapply (return_run 2); [reflexivity | vm_compute; reflexivity |]. constructor.
Qed.

Lemma relayed_device_whole_witness :
  concat (map data_of [(2%nat, Ok (bstr "BA")); (2%nat, Ok (bstr "K"))])
  = concat (written sample_script) /\
  @Ok str Z 3 = Ok (Z.of_nat (length (concat (written sample_script)))).
Proof.
  destruct relayed_run as [s Hs].
  refine (relayed_device_whole show_io (L "s1") (L "t") (Ok tt) (Ok tt) (Ok tt) (Ok tt)
            sample_script (Err (L "closed")) None true (Ok 3)
            (Writer relayed_sent None true) relayed_sent None (Hello (L "s1") (L "t")) relayed_conn
            [(2%nat, Ok (bstr "BA")); (2%nat, Ok (bstr "K"))] 2%nat s _ _ _ Hs _).
  - vm_compute. reflexivity.
  - reflexivity.
  - vm_compute. reflexivity.
  - lia.
Defined.

End witnesses.
