(* ===== verification/Requests.v ===== *)
(** The restore requests of the engine ([pbsgui-engine/src/handler.rs]).

    A restore reads the job's configuration, lists the job's snapshots on the PBS
    server, reads the metadata of the backups, chooses the chain for the point
    asked for, and then either restores it into SQL Server ([Tsql]) or writes its
    files to a folder.  The server's answers, SQL Server's answers and the file
    system are an environment; what a request did is the statements it issued, the
    lines it sent to the GUI and the files it wrote. *)

From Stdlib Require Import ZArith Lia Sorting.Sorted Strings.Byte Ascii String.
From stdpp Require Import base tactics option numbers list gmap.
From S2P Require Import Prelude Text Base Blob Repository HttpApi Session Chain Jobs Sched Stores Plan Runs Tsql.
Open Scope Z_scope.

Definition SQL_BACKUP_TYPE : str := L "host".

(** A SQL backup job resolved to its source connection and PBS destination. *)
Record SqlJobPbs := {
  jp_conn : SqlConnection; jp_password : option str; jp_repo : Repository; jp_secret : str;
  jp_fingerprint : str; jp_backup_id : str; jp_crypt : option CryptConfig }.

(** What a request did so far. *)
Record done_so_far := Did { did_lines : list str; did_sql : list str; did_files : gmap str bytes }.

Definition reqm (A : Type) : Type := done_so_far -> result str A * done_so_far.
#[export] Instance reqm_ret : MRet reqm := fun A a s => (Ok a, s).
#[export] Instance reqm_bind : MBind reqm := fun A B f m s =>
  match m s with (Ok a, s') => f a s' | (Err e, s') => (Err e, s') end.

Lemma reqm_bind_ok {A B} (m : reqm A) (f : A -> reqm B) s b s' :
  (m ≫= f) s = (Ok b, s') -> exists a s1, m s = (Ok a, s1) /\ f a s1 = (Ok b, s').
Proof. unfold mbind, reqm_bind. destruct (m s) as [[a|e] s1]; [eauto | discriminate]. Qed.

Definition req_lift {A} (r : result str A) : reqm A := fun s => (r, s).

(** [m.await.unwrap_or_default()], [m.await.with_context(..)]. *)
Definition req_or {A} (d : A) (m : reqm A) : reqm A := fun s =>
  match m s with (Ok a, s') => (Ok a, s') | (Err _, s') => (Ok d, s') end.
Definition req_context {A} (msg : str) (m : reqm A) : reqm A := fun s =>
  match m s with (Ok a, s') => (Ok a, s') | (Err e, s') => (Err (msg ++ L ": " ++ e), s') end.

(** [let _ = responder.send(&Reply::Log { line }).await]. *)
Definition say (line : str) : reqm unit := fun s =>
  (Ok tt, Did (did_lines s ++ [line]) (did_sql s) (did_files s)).

Definition req_sql {A} (m : sqlm A) : reqm A := fun s =>
  let '(r, log) := m (did_sql s) in (r, Did (did_lines s) log (did_files s)).

Lemma req_sql_ok {A} (m : sqlm A) s a s' (Q : result str A -> list str -> Prop) :
  req_sql m s = (Ok a, s') -> after m (did_sql s) Q -> Q (Ok a) (did_sql s').
Proof.
  unfold req_sql, after. destruct (m (did_sql s)) as [r log]. intros [= -> <-]. auto.
Qed.

(** The world around a request. *)
Record req_env := {
  re_list : ApiClient -> str -> option str -> str -> str -> result str (list Snapshot);
  re_connect : SessionParams -> result str unit;               (* ReaderClient::connect *)
  re_blob : SessionParams -> str -> option CryptConfig -> result str bytes;
  re_meta : bytes -> result str SqlBackupMeta;                 (* serde_json::from_slice *)
  re_archive : SessionParams -> str -> option CryptConfig -> result str bytes;
  re_to_writer : SessionParams -> str -> option CryptConfig -> bytes * result str Z;
  re_image : SessionParams -> str -> option CryptConfig -> image_env;
  re_device : bytes -> device_env;
  re_uuid : nat -> str;
  re_sql_connect : SqlConnection -> option str -> result str unit;
  re_ask : oracle;
  re_relay : bool;
  re_time : str -> Z -> option str;                            (* chrono, by pattern *)
  re_create : str -> result str unit;
  re_flush : str -> result str unit;
  re_kept : str -> nat;                                        (* written before a failure *)
  re_remove : str -> bool;
  re_rename : str -> result str unit;
  re_human_size : Z -> str }.

Section requests.
Context `{DebugFmt} `{Base64} `{HashLib}.

Definition sql_job_pbs (c : config_state) (job_id : str) : result str SqlJobPbs :=
  job ← ok_or (js_get (c_jobs c) job_id) (L "no such job: " ++ job_id);
  crypt ← (load_config (j_id job) (c_world c)).1;
  connection_id ← match j_source job with
    | Sql connection_id _ _ => Ok connection_id
    | _ => Err (L "not a SQL Server backup job")
    end;
  '(server_id, backup_id) ← match j_destination job with
    | Pbs server_id backup_id => Ok (server_id, backup_id)
    | Folder _ => Err (L "this job backs up to a folder, not PBS")
    end;
  conn ← ok_or (js_get (c_sql c) connection_id) (L "the job's SQL connection no longer exists");
  password ← match sc_auth conn with
    | Integrated => Ok None
    | _ => (secrets_get (sql_secret_key connection_id) (c_world c)).1
    end;
  server ← ok_or (js_get (c_pbs c) server_id) (L "the job's PBS server no longer exists");
  stored ← (secrets_get (pbs_secret_key server_id) (c_world c)).1;
  secret ← ok_or stored (L "no saved secret for the PBS server");
  repo ← map_err show_error (from_str (ps_repository server));
  Ok {| jp_conn := conn; jp_password := password; jp_repo := repo; jp_secret := secret;
        jp_fingerprint := ps_fingerprint server; jp_backup_id := backup_id; jp_crypt := crypt |}.

(** The session parameters of one snapshot of the job. *)
Definition job_params (ctx : SqlJobPbs) (group : str) (backup_time : Z) : result str SessionParams :=
  map_err show_error (from_repository (jp_repo ctx) (jp_secret ctx) (jp_fingerprint ctx)
    SQL_BACKUP_TYPE group backup_time).

Variable env : req_env.

Definition job_api (ctx : SqlJobPbs) : result str ApiClient :=
  map_err show_error (api_from_repository (jp_repo ctx) (jp_secret ctx) (jp_fingerprint ctx)).

Definition list_group (api : ApiClient) (ctx : SqlJobPbs) (group : str) :
    result str (list Snapshot) :=
  re_list env api (datastore (jp_repo ctx)) (namespace (jp_repo ctx)) SQL_BACKUP_TYPE group.

Definition download_sql_meta (ctx : SqlJobPbs) (group : str) (backup_time : Z) :
    result str SqlBackupMeta :=
  p ← job_params ctx group backup_time;
  _ ← re_connect env p;
  b ← re_blob env p META_BLOB_NAME (jp_crypt ctx);
  re_meta env b.

Definition download_sql_image (ctx : SqlJobPbs) (group archive : str) (backup_time : Z) :
    result str bytes :=
  p ← job_params ctx group backup_time;
  _ ← re_connect env p;
  re_archive env p archive (jp_crypt ctx).

Definition add_context {A} (msg : str) (r : result str A) : result str A :=
  map_err (fun e => msg ++ L ": " ++ e) r.

(** Whether a snapshot has the metadata blob. *)
Definition has_meta (s : Snapshot) : bool :=
  existsb (fun f => str_eqb (sf_filename f) META_BLOB_NAME) (sn_files s).

(** The loops of [read_chain_items], inner and outer. *)
Fixpoint read_group (ctx : SqlJobPbs) (group : str) (snaps : list Snapshot) :
    result str (list ChainItem) :=
  match snaps with
  | [] => Ok []
  | s :: snaps =>
      if negb (has_meta s) then read_group ctx group snaps
      else
        m ← add_context (L "reading backup metadata for the snapshot at " ++ dec (sn_backup_time s))
              (download_sql_meta ctx group (sn_backup_time s));
        rest ← read_group ctx group snaps;
        Ok ({| snapshot_time := sn_backup_time s; meta := m |} :: rest)
  end.

Fixpoint read_groups (api : ApiClient) (ctx : SqlJobPbs) (groups : list str) :
    result str (list ChainItem) :=
  match groups with
  | [] => Ok []
  | group :: groups =>
      snaps ← add_context (L "listing snapshots in " ++ group) (list_group api ctx group);
      items ← read_group ctx group snaps;
      rest ← read_groups api ctx groups;
      Ok (items ++ rest)
  end.

Definition read_chain_items (ctx : SqlJobPbs) (groups : list str) : result str (list ChainItem) :=
  api ← job_api ctx; read_groups api ctx groups.

Definition fmt_unix (t : Z) : str :=
  default (dec t) (re_time env (L "%Y-%m-%d %H:%M:%S UTC") t).

Definition ensure_chain_reaches (chain : list ChainItem) (target_unix : Z) : result str unit :=
  if chain_covers chain target_unix then Ok tt
  else
    let reached := match last chain with Some c => time_of c | None => target_unix end in
    Err (L "the backup chain only reaches " ++ fmt_unix reached ++
         L ", short of the chosen point " ++ fmt_unix target_unix ++
         L "; the log backups needed to reach it are missing or could not be read").

(** ** Restoring into SQL Server *)

Definition preflight_restore_target (conn : SqlConnection) (password : option str) : reqm unit :=
  _ ← req_lift (add_context (L "cannot reach the target SQL Server " ++ sc_server conn)
                  (re_sql_connect env conn password));
  rows ← req_sql (simple_query (re_ask env) (L "SELECT IS_SRVROLEMEMBER('sysadmin')"));
  if bool_decide (head rows ≫= get_int_at 0 = Some 1) then mret tt
  else req_lift (Err (L "the target connection to " ++ sc_server conn ++
                      L " is not a sysadmin, which VDI restore requires")).

Definition run_restore_full (ctx : SqlJobPbs) (database target_database : str) (backup_time : Z)
    (cross_instance : bool) : reqm str :=
  let '(group, archive) := sql_group_and_archive (jp_backup_id ctx) database Full in
  let relocate := negb (eq_ignore_ascii_case database target_database) || cross_instance in
  let files := if relocate then
      match download_sql_meta ctx group backup_time with Ok m => m_files m | Err _ => [] end
    else [] in
  let connect := re_sql_connect env (jp_conn ctx) (jp_password ctx) in
  _ ← say (L "restoring as [" ++ target_database ++ L "] (overwrites it if it exists)");
  _ ← (if negb relocate || negb (bool_decide (files = [])) then
         _ ← say (L "streaming the restore from PBS into SQL Server");
         p ← req_lift (job_params ctx group backup_time);
         req_sql (restore_database_streamed (re_ask env) connect (re_relay env) database
           target_database (sc_relay_agent (jp_conn ctx)) (re_uuid env 0)
           (re_image env p archive (jp_crypt ctx)) files cross_instance)
       else if bool_decide (is_Some (sc_relay_agent (jp_conn ctx))) then
         req_lift (Err (L "this snapshot predates the stored file list, so a renamed or cross-instance restore over the relay is not possible; restore it under its original name, or run the restore from pbsgui installed on the SQL host"))
       else
         _ ← say (L "older backup without a stored file list; using a buffered restore");
         image ← req_lift (download_sql_image ctx group archive backup_time);
         req_sql (restore_database_from_image (re_ask env) connect database target_database
           (re_device env image) (re_device env image) cross_instance));
  mret (L "restored " ++ database ++ L " as " ++ target_database).

(** The group of a backup of the chain. *)
Definition item_group (full_group log_group : str) (i : ChainItem) : str :=
  if item_is_log i then log_group else full_group.

(** The loop that resolves the images of a chain; [i] numbers the device sets. *)
Fixpoint stream_steps (ctx : SqlJobPbs) (full_group log_group archive : str) (i : nat)
    (chain : list ChainItem) : result str (list (str * image_env)) :=
  match chain with
  | [] => Ok []
  | c :: chain =>
      p ← job_params ctx (item_group full_group log_group c) (snapshot_time c);
      rest ← stream_steps ctx full_group log_group archive (S i) chain;
      Ok ((re_uuid env i, re_image env p archive (jp_crypt ctx)) :: rest)
  end.

Fixpoint image_steps (ctx : SqlJobPbs) (full_group log_group archive : str)
    (chain : list ChainItem) : result str (list bytes) :=
  match chain with
  | [] => Ok []
  | c :: chain =>
      image ← download_sql_image ctx (item_group full_group log_group c) archive (snapshot_time c);
      rest ← image_steps ctx full_group log_group archive chain;
      Ok (image :: rest)
  end.

(** The file list of the first full backup of a chain. *)
Definition full_files (chain : list ChainItem) : list SqlBackupFile :=
  match find (fun c => negb (item_is_log c)) chain with
  | Some c => m_files (meta c)
  | None => []
  end.

Definition STOPAT_PATTERN : str := L "%Y-%m-%dT%H:%M:%S".

(** Reading, choosing and checking the chain: the first part of [run_restore_pit] and
    of [export_sql_chain]. *)
Definition chosen_chain (ctx : SqlJobPbs) (full_group log_group : str) (target_unix : Z) :
    reqm (list ChainItem) :=
  _ ← say (L "reading the backup chain");
  items ← req_lift (read_chain_items ctx [full_group; log_group]);
  let chain := select_chain items target_unix in
  match chain with
  | [] => req_lift (Err (L "no full backup covers that time; pick a later restore point"))
  | _ => _ ← req_lift (ensure_chain_reaches chain target_unix); mret chain
  end.

Definition run_restore_pit (ctx : SqlJobPbs) (database target_database : str) (target_unix : Z)
    (cross_instance : bool) : reqm str :=
  let '(full_group, archive) := sql_group_and_archive (jp_backup_id ctx) database Full in
  let '(log_group, _) := sql_group_and_archive (jp_backup_id ctx) database Log in
  chain ← chosen_chain ctx full_group log_group target_unix;
  _ ← say (L "restoring 1 full + " ++ dec (Z.of_nat (length chain) - 1) ++
           L " log backup(s) to the chosen point");
  let relocate := negb (eq_ignore_ascii_case database target_database) || cross_instance in
  let files := full_files chain in
  let connect := re_sql_connect env (jp_conn ctx) (jp_password ctx) in
  _ ← (if negb relocate || negb (bool_decide (files = [])) then
         _ ← say (L "streaming the restore from PBS into SQL Server");
         steps ← req_lift (stream_steps ctx full_group log_group archive 0 chain);
         req_sql (restore_chain_streamed (re_ask env) connect (re_relay env)
           (re_time env STOPAT_PATTERN) database target_database (sc_relay_agent (jp_conn ctx))
           steps files target_unix cross_instance)
       else if bool_decide (is_Some (sc_relay_agent (jp_conn ctx))) then
         req_lift (Err (L "this chain predates the stored file list, so a renamed or cross-instance point-in-time restore over the relay is not possible; restore it under its original name, or run the restore from pbsgui installed on the SQL host"))
       else
         _ ← say (L "older backup without a stored file list; using a buffered restore");
         images ← req_lift (image_steps ctx full_group log_group archive chain);
         req_sql (restore_chain (re_ask env) connect (re_time env STOPAT_PATTERN)
           database target_database (re_device env (default [] (head images)))
           (map (re_device env) images) target_unix cross_instance));
  mret (L "restored " ++ database ++ L " as " ++ target_database ++
        L " to the chosen point in time").

(** The first part of [run_restore_sql]: the job's context, with the SQL side of the
    chosen connection, and whether that is another instance. *)
Definition restore_target (c : config_state) (job_id : str) (target_connection_id : option str) :
    reqm (SqlJobPbs * bool) :=
  ctx ← req_lift (sql_job_pbs c job_id);
  match target_connection_id with
  | None => mret (ctx, false)
  | Some tid =>
      target ← req_lift (ok_or (js_get (c_sql c) tid) (L "no such target SQL connection: " ++ tid));
      password ← req_lift (secrets_get (sql_secret_key tid) (c_world c)).1;
      let cross := negb (eq_ignore_ascii_case (sc_server target) (sc_server (jp_conn ctx)))
                   || negb (bool_decide (sc_port target = sc_port (jp_conn ctx))) in
      _ ← (if cross then
             _ ← preflight_restore_target target password;
             say (L "restoring into " ++ sc_server target ++ L " (a different instance)")
           else mret tt);
      mret ({| jp_conn := target; jp_password := password; jp_repo := jp_repo ctx;
               jp_secret := jp_secret ctx; jp_fingerprint := jp_fingerprint ctx;
               jp_backup_id := jp_backup_id ctx; jp_crypt := jp_crypt ctx |}, cross)
  end.

Definition run_restore_sql (c : config_state) (job_id database target_database : str)
    (point : SqlRestorePoint) (target_connection_id : option str) : reqm str :=
  '(ctx, cross_instance) ← restore_target c job_id target_connection_id;
  match point with
  | RestoreFull backup_time =>
      run_restore_full ctx database target_database backup_time cross_instance
  | RestorePointInTime unix_time =>
      run_restore_pit ctx database target_database unix_time cross_instance
  end.

(** ** The restore window and the health of a chain *)

Record SqlFullPoint := { fp_backup_time : Z; fp_size : option Z }.
Record SqlRestoreWindow := {
  rw_full_points : list SqlFullPoint; rw_pit_earliest : option Z; rw_pit_latest : option Z;
  rw_log_count : Z; rw_log_total_size : option Z }.

(** [iter().min()], [iter().max()]. *)
Definition min_of (l : list Z) : option Z :=
  match l with [] => None | x :: l => Some (fold_left Z.min l x) end.
Definition max_of (l : list Z) : option Z :=
  match l with [] => None | x :: l => Some (fold_left Z.max l x) end.

(** The sum of the sizes ([u64]), unknown if one is. *)
Definition total_of (l : list (option Z)) : option Z :=
  fold_left (fun acc s => match acc, s with Some a, Some v => Some ((a + v) mod 2 ^ 64) | _, _ => None end)
    l (Some 0).

Definition get_sql_restore_window (c : config_state) (job_id database : str) :
    result str SqlRestoreWindow :=
  ctx ← sql_job_pbs c job_id;
  api ← job_api ctx;
  fulls ← list_group api ctx (sql_group_and_archive (jp_backup_id ctx) database Full).1;
  let fulls := sort_by_key (fun s => - sn_backup_time s) fulls in
  let logs := match list_group api ctx (sql_group_and_archive (jp_backup_id ctx) database Log).1 with
              | Ok l => l | Err _ => [] end in
  let pit := negb (bool_decide (logs = [])) && negb (bool_decide (fulls = [])) in
  Ok {| rw_full_points :=
          map (fun s => {| fp_backup_time := sn_backup_time s; fp_size := sn_size s |}) fulls;
        rw_pit_earliest := if pit then min_of (map sn_backup_time fulls) else None;
        rw_pit_latest := if pit then max_of (map sn_backup_time (fulls ++ logs)) else None;
        rw_log_count := Z.of_nat (length logs) mod 2 ^ 32;
        rw_log_total_size := total_of (map sn_size logs) |}.

(** Count and the earliest and newest snapshot time of one group. *)
Definition group_stats (api : ApiClient) (ctx : SqlJobPbs) (database : str) (kind : SqlBackupType) :
    Z * option Z * option Z :=
  match list_group api ctx (sql_group_and_archive (jp_backup_id ctx) database kind).1 with
  | Ok snaps => (Z.of_nat (length snaps) mod 2 ^ 32, min_of (map sn_backup_time snaps),
                 max_of (map sn_backup_time snaps))
  | Err _ => (0, None, None)
  end.

Record JobSqlStatus := { js_job_id : str; js_job_name : str; js_databases : list SqlDbStatus }.

(** The later of two times, if there is one. *)
Definition latest_of (a b : option Z) : option Z :=
  max_of (match a with Some x => [x] | None => [] end ++ match b with Some x => [x] | None => [] end).

Definition db_status (api : ApiClient) (ctx : SqlJobPbs) (now grace : Z) (db : str) : SqlDbStatus :=
  let '(full_count, full_min, full_max) := group_stats api ctx db Full in
  let '(log_count, _, log_max) := group_stats api ctx db Log in
  let chain_latest := latest_of full_max log_max in
  {| sd_database := db; sd_chain_latest := chain_latest;
     sd_stalled := match chain_latest with Some l => grace <? now - l | None => false end;
     sd_full_count := full_count; sd_log_count := log_count;
     sd_pit_window_secs := match chain_latest, full_min with
       | Some latest, Some earliest => if 0 <? log_count then Some (latest - earliest) else None
       | _, _ => None
       end |}.

(** Several missed log intervals are allowed, and never less than half an hour. *)
Definition grace_of (log_interval : Z) : Z := Z.max (log_interval * 60 * 4) 1800.

Definition job_status (c : config_state) (now : Z) (job : Job) : option JobSqlStatus :=
  match j_source job with
  | Sql _ databases (PointInTime _ log_interval) =>
      match (ctx ← sql_job_pbs c (j_id job); api ← job_api ctx; Ok (ctx, api)) with
      | Ok (ctx, api) =>
          Some {| js_job_id := j_id job; js_job_name := j_name job;
                  js_databases := map (db_status api ctx now (grace_of log_interval)) databases |}
      | Err _ => None
      end
  | _ => None
  end.

Definition collect_sql_status (c : config_state) (now : Z) : list JobSqlStatus :=
  omap (job_status c now) (js_items (c_jobs c)).

(** ** Reading the chain *)

(** What a snapshot contributes: nothing without the blob, its metadata with it. *)
Definition contributes (ctx : SqlJobPbs) (group : str) (s : Snapshot) (items : list ChainItem) :
    Prop :=
  if has_meta s then exists m, download_sql_meta ctx group (sn_backup_time s) = Ok m /\
                               items = [{| snapshot_time := sn_backup_time s; meta := m |}]
  else items = [].

Lemma add_context_ok {A} msg (r : result str A) a : add_context msg r = Ok a -> r = Ok a.
Proof. destruct r; cbn; congruence. Qed.

Lemma read_group_ok ctx group snaps items :
  read_group ctx group snaps = Ok items ->
  exists parts, Forall2 (contributes ctx group) snaps parts /\ items = concat parts.
Proof.
  revert items; induction snaps as [|s snaps IH]; intros items; cbn [read_group].
  { intros [= <-]. exists []. auto. }
  destruct (has_meta s) eqn:Em; cbn [negb].
  - intros (m & Em' & E)%result_bind_ok. apply result_bind_ok in E as (rest & Er & [= <-]).
    destruct (IH _ Er) as (parts & HF & ->).
    exists ([{| snapshot_time := sn_backup_time s; meta := m |}] :: parts).
    split; [|reflexivity]. constructor; [|exact HF]. unfold contributes. rewrite Em.
    exists m. split; [eapply add_context_ok; eassumption | reflexivity].
  - intros E. destruct (IH _ E) as (parts & HF & ->). exists ([] :: parts).
    split; [|reflexivity]. constructor; [|exact HF]. unfold contributes. rewrite Em. reflexivity.
Qed.

(** The backups of both groups, none of those with metadata left out. *)
Definition all_backups (ctx : SqlJobPbs) (full_group log_group : str) (items : list ChainItem) :
    Prop :=
  exists api fulls logs full_parts log_parts,
    job_api ctx = Ok api /\
    list_group api ctx full_group = Ok fulls /\ list_group api ctx log_group = Ok logs /\
    Forall2 (contributes ctx full_group) fulls full_parts /\
    Forall2 (contributes ctx log_group) logs log_parts /\
    items = concat full_parts ++ concat log_parts.

Lemma read_chain_items_ok ctx full_group log_group items :
  read_chain_items ctx [full_group; log_group] = Ok items ->
  all_backups ctx full_group log_group items.
Proof.
  unfold read_chain_items. intros (api & Ea & E)%result_bind_ok. cbn [read_groups] in E.
  apply result_bind_ok in E as (fulls & Ef & E). apply result_bind_ok in E as (fi & Efi & E).
  apply result_bind_ok in E as (rest & Er & [= <-]).
  apply result_bind_ok in Er as (logs & El & E). apply result_bind_ok in E as (li & Eli & E).
  apply result_bind_ok in E as (rest' & [= <-] & [= <-]).
  destruct (read_group_ok _ _ _ _ Efi) as (fp & HF & ->).
  destruct (read_group_ok _ _ _ _ Eli) as (lp & HL & ->).
  exists api, fulls, logs, fp, lp. rewrite app_nil_r. split_and!; auto;
    eapply add_context_ok; eassumption.
Qed.

Lemma chosen_chain_ok ctx full_group log_group target_unix s chain s' :
  chosen_chain ctx full_group log_group target_unix s = (Ok chain, s') ->
  did_sql s' = did_sql s /\ did_files s' = did_files s /\
  exists items, all_backups ctx full_group log_group items /\
    chain = select_chain items target_unix /\ chain_covers chain target_unix = true.
Proof.
  unfold chosen_chain. intros ([] & s1 & [= <-] & E)%reqm_bind_ok.
  apply reqm_bind_ok in E as (items & s2 & [= Ei <-] & E).
  destruct (select_chain items target_unix) as [|c cs] eqn:Ec; [discriminate|].
  apply reqm_bind_ok in E as (u & s3 & [= Er <-] & [= <- <-]).
  cbn. split_and!; auto. exists items. split; [apply read_chain_items_ok, Ei|].
  split; [congruence|]. unfold ensure_chain_reaches in Er.
  destruct (chain_covers (c :: cs) target_unix); [reflexivity | discriminate].
Qed.

Lemma stream_steps_length ctx fg lg archive i chain steps :
  stream_steps ctx fg lg archive i chain = Ok steps -> length steps = length chain.
Proof.
  revert i steps; induction chain as [|c chain IH]; intros i steps; cbn [stream_steps].
  { intros [= <-]. reflexivity. }
  intros (p & _ & E)%result_bind_ok. apply result_bind_ok in E as (rest & Er & [= <-]).
  cbn. f_equal. eauto.
Qed.

Lemma image_steps_length ctx fg lg archive chain steps :
  image_steps ctx fg lg archive chain = Ok steps -> length steps = length chain.
Proof.
  revert steps; induction chain as [|c chain IH]; intros steps; cbn [image_steps].
  { intros [= <-]. reflexivity. }
  intros (p & _ & E)%result_bind_ok. apply result_bind_ok in E as (rest & Er & [= <-]).
  cbn. f_equal. eauto.
Qed.

(** A restore that was reported as done brought the database online behind one
    statement per backup of its chain. *)
Definition restored (target : str) (n : nat) (log0 log : list str) : Prop :=
  exists queries sets moves stopat, length sets = n /\
    Forall (fun q => read_stmt q = None) queries /\
    log = log0 ++ queries ++ step_statements 0 sets target moves stopat ++ [recovery_sql target].

Lemma step_statements_length i sets target moves stopat :
  length (step_statements i sets target moves stopat) = length sets.
Proof. revert i; induction sets; intros; cbn; auto. Qed.

Lemma in_order_restored whole listed source target sets force log0 log :
  in_order whole listed source target sets force log0 (Ok tt) log ->
  restored target (length sets) log0 log /\ whole.
Proof.
  intros (queries & moves & stopat & k & rec & -> & HF & _ & _ & Hrec & Hok).
  rewrite (Hok eq_refl) in *. destruct (Hrec eq_refl) as [Hk Hw]. split; [|exact Hw].
  exists queries, sets, moves, stopat. split_and!; auto.
  rewrite (take_ge (step_statements _ _ _ _ _)) by (rewrite step_statements_length; exact Hk).
  reflexivity.
Qed.

(** C8: a point-in-time restore that reports success used every backup: both groups
    were listed and the metadata of every snapshot that has it was read (one that
    cannot be read fails the restore), the chain is the one selected from all of
    them and reaches the point asked for, and SQL Server was given one statement per
    backup of it and then brought online. *)
Theorem pit_restore_complete ctx database target target_unix cross s msg s' :
  run_restore_pit ctx database target target_unix cross s = (Ok msg, s') ->
  exists items,
    all_backups ctx (sql_group_and_archive (jp_backup_id ctx) database Full).1
      (sql_group_and_archive (jp_backup_id ctx) database Log).1 items /\
    chain_covers (select_chain items target_unix) target_unix = true /\
    restored target (length (select_chain items target_unix)) (did_sql s) (did_sql s').
Proof.
  unfold run_restore_pit.
  destruct (sql_group_and_archive _ database Full) as [fg archive].
  destruct (sql_group_and_archive _ database Log) as [lg ?]. cbn [fst].
  intros (chain & s1 & Ec & E)%reqm_bind_ok.
  destruct (chosen_chain_ok _ _ _ _ _ _ _ Ec) as (Hsql & _ & items & Hall & -> & Hcov).
  exists items. split; [exact Hall|]. split; [exact Hcov|]. rewrite <- Hsql.
  apply reqm_bind_ok in E as ([] & s2 & [= <-] & E).
  apply reqm_bind_ok in E as ([] & s3 & E & [= <- <-]).
  destruct (negb _ || negb _).
  - apply reqm_bind_ok in E as ([] & s4 & [= <-] & E).
    apply reqm_bind_ok in E as (steps & s5 & [= Es <-] & E).
    destruct (in_order_restored _ _ _ _ _ _ _ _ (req_sql_ok _ _ _ _ _ E
      (chain_streamed_in_order _ _ _ _ _ _ _ _ _ _ _ _))) as [Ha _].
    rewrite length_map, (stream_steps_length _ _ _ _ _ _ _ Es) in Ha. exact Ha.
  - destruct (bool_decide _); [discriminate|].
    apply reqm_bind_ok in E as ([] & s4 & [= <-] & E).
    apply reqm_bind_ok in E as (images & s5 & [= Es <-] & E).
    destruct (in_order_restored _ _ _ _ _ _ _ _ (req_sql_ok _ _ _ _ _ E
      (chain_buffered_in_order _ _ _ _ _ _ _ _ _ _))) as [Ha _].
    rewrite !length_map, (image_steps_length _ _ _ _ _ _ Es) in Ha. exact Ha.
Qed.

(** ** The restore window *)

Lemma fold_min_le l x : fold_left Z.min l x <= x /\ forall y, In y l -> fold_left Z.min l x <= y.
Proof.
  revert x; induction l as [|z l IH]; intros x; cbn; [split; [lia | tauto]|].
  destruct (IH (Z.min x z)) as [Ha Hb]. split; [lia|]. intros y [->|Hy]; [lia | auto].
Qed.

Lemma fold_min_in l x : fold_left Z.min l x = x \/ In (fold_left Z.min l x) l.
Proof.
  revert x; induction l as [|z l IH]; intros x; cbn; [auto|].
  destruct (IH (Z.min x z)) as [E|Hin]; [|auto]. rewrite E.
  destruct (Z.min_spec x z) as [[_ ->]|[_ ->]]; auto.
Qed.

Lemma min_of_spec l m : min_of l = Some m -> In m l /\ forall y, In y l -> m <= y.
Proof.
  destruct l as [|x l]; [discriminate|]. cbn. intros [= <-].
  destruct (fold_min_le l x) as [Ha Hb]. split.
  - destruct (fold_min_in l x) as [E|Hin]; auto.
  - intros y [->|Hy]; auto.
Qed.

Lemma fold_max_ge l x : x <= fold_left Z.max l x /\ forall y, In y l -> y <= fold_left Z.max l x.
Proof.
  revert x; induction l as [|z l IH]; intros x; cbn; [split; [lia | tauto]|].
  destruct (IH (Z.max x z)) as [Ha Hb]. split; [lia|]. intros y [->|Hy]; [lia | auto].
Qed.

Lemma fold_max_in l x : fold_left Z.max l x = x \/ In (fold_left Z.max l x) l.
Proof.
  revert x; induction l as [|z l IH]; intros x; cbn; [auto|].
  destruct (IH (Z.max x z)) as [E|Hin]; [|auto]. rewrite E.
  destruct (Z.max_spec x z) as [[_ ->]|[_ ->]]; auto.
Qed.

Lemma max_of_spec l m : max_of l = Some m -> In m l /\ forall y, In y l -> y <= m.
Proof.
  destruct l as [|x l]; [discriminate|]. cbn. intros [= <-].
  destruct (fold_max_ge l x) as [Ha Hb]. split.
  - destruct (fold_max_in l x) as [E|Hin]; auto.
  - intros y [->|Hy]; auto.
Qed.

Lemma sorted_newest_first (l : list Snapshot) :
  StronglySorted Z.ge (map sn_backup_time (sort_by_key (fun s => - sn_backup_time s) l)).
Proof.
  pose proof (sort_by_key_sorted (fun s => - sn_backup_time s) l) as Hs.
  induction Hs as [|s ss _ IH Hf]; cbn; constructor; [exact IH|].
  rewrite List.Forall_forall in *. intros t (s' & <- & Hin)%in_map_iff.
  specialize (Hf s' Hin). unfold key_le in Hf. lia.
Qed.

(** The snapshots of a group as the window and the status see them: none when the
    listing fails. *)
Definition listed (api : ApiClient) (ctx : SqlJobPbs) (database : str) (kind : SqlBackupType) :
    list Snapshot :=
  match list_group api ctx (sql_group_and_archive (jp_backup_id ctx) database kind).1 with
  | Ok l => l
  | Err _ => []
  end.

(** The restore window offered for a database: the full backups are exactly those
    on the server, newest first; a range of points in time is offered exactly when
    there are both full and log backups; it starts at the oldest full, so every point
    in it has a full at or before it, and ends at the newest snapshot of either kind,
    so it is never empty. *)
Theorem restore_window_sound c job_id database :
  match get_sql_restore_window c job_id database with
  | Err _ => True
  | Ok w => exists ctx api fulls,
    sql_job_pbs c job_id = Ok ctx /\ job_api ctx = Ok api /\
    list_group api ctx (sql_group_and_archive (jp_backup_id ctx) database Full).1 = Ok fulls /\
    let logs := listed api ctx database Log in
    Permutation (map sn_backup_time fulls) (map fp_backup_time (rw_full_points w)) /\
    StronglySorted Z.ge (map fp_backup_time (rw_full_points w)) /\
    match rw_pit_earliest w, rw_pit_latest w with
    | Some e, Some l =>
        logs <> [] /\ In e (map sn_backup_time fulls) /\
        (forall t, In t (map sn_backup_time fulls) -> e <= t) /\
        In l (map sn_backup_time (fulls ++ logs)) /\
        (forall t, In t (map sn_backup_time (fulls ++ logs)) -> t <= l) /\ e <= l
    | None, None => fulls = [] \/ logs = []
    | _, _ => False
    end
  end.
Proof.
  destruct (get_sql_restore_window c job_id database) as [w|e] eqn:E; [|exact I].
  unfold get_sql_restore_window in E. apply result_bind_ok in E as (ctx & Ec & E).
  apply result_bind_ok in E as (api & Ea & E). apply result_bind_ok in E as (fulls & Ef & E).
  fold (listed api ctx database Log) in E. set (logs := listed api ctx database Log) in *.
  set (sorted := sort_by_key (fun s => - sn_backup_time s) fulls) in *.
  assert (Permutation fulls sorted) as Hp by apply sort_by_key_perm.
  apply Ok_inj in E as <-. exists ctx, api, fulls. cbn zeta. split_and!; auto.
  - cbn. rewrite map_map. cbn. apply Permutation_map, Hp.
  - cbn. rewrite map_map. cbn. apply sorted_newest_first.
  - cbn [rw_pit_earliest rw_pit_latest].
    assert (forall t, In t (map sn_backup_time sorted) <-> In t (map sn_backup_time fulls)) as Hin.
    { intros t. split; apply Permutation_in, Permutation_map; [symmetry|]; exact Hp. }
    destruct (bool_decide (logs = [])) eqn:El; cbn [negb andb].
    { right. eapply bool_decide_eq_true_1, El. }
    destruct (bool_decide (sorted = [])) eqn:Es; cbn [negb].
    { left. apply bool_decide_eq_true_1 in Es. rewrite Es in Hp.
      apply Permutation_sym, Permutation_nil in Hp. exact Hp. }
    apply bool_decide_eq_false_1 in El, Es.
    destruct sorted as [|s ss] eqn:Esort; [congruence|]. rewrite <- Esort in *.
    destruct (min_of (map sn_backup_time sorted)) as [e|] eqn:Emin;
      [|rewrite Esort in Emin; discriminate].
    destruct (max_of (map sn_backup_time (sorted ++ logs))) as [l|] eqn:Emax;
      [|rewrite Esort in Emax; discriminate].
    apply min_of_spec in Emin as [He1 He2]. apply max_of_spec in Emax as [Hl1 Hl2].
    rewrite map_app in *. setoid_rewrite in_app_iff in Hl1. setoid_rewrite in_app_iff in Hl2.
    split_and!; auto.
    + apply Hin, He1.
    + intros t Ht. apply He2, Hin, Ht.
    + rewrite in_app_iff, <- Hin. exact Hl1.
    + intros t. rewrite in_app_iff, <- Hin. apply Hl2.
Qed.

Lemma max_of_none l : max_of l = None -> l = [].
Proof. destruct l; [reflexivity | discriminate]. Qed.

Lemma latest_of_spec a b l :
  latest_of a b = Some l -> (a = Some l \/ b = Some l) /\
  (forall x, a = Some x \/ b = Some x -> x <= l).
Proof.
  unfold latest_of. destruct a as [x|], b as [y|]; cbn; intros [= <-];
    (split; [|intros z [[= <-]|[= <-]]; lia]); auto.
  destruct (Z.max_spec x y) as [[_ ->]|[_ ->]]; auto.
Qed.

Lemma latest_of_none a b : latest_of a b = None -> a = None /\ b = None.
Proof. destruct a, b; cbn; try discriminate; auto. Qed.

Lemma group_stats_max api ctx database kind :
  (group_stats api ctx database kind).2 = max_of (map sn_backup_time (listed api ctx database kind)).
Proof. unfold group_stats, listed. destruct (list_group _ _ _); reflexivity. Qed.

(** The times of all the snapshots of a database. *)
Definition snapshot_times (api : ApiClient) (ctx : SqlJobPbs) (database : str) : list Z :=
  map sn_backup_time (listed api ctx database Full) ++ map sn_backup_time (listed api ctx database Log).

Lemma max_of_map_in l x : max_of l = Some x -> In x l.
Proof. intros H2%max_of_spec. apply H2. Qed.

Lemma chain_latest_spec api ctx now grace database :
  match sd_chain_latest (db_status api ctx now grace database) with
  | Some l => In l (snapshot_times api ctx database) /\
              forall t, In t (snapshot_times api ctx database) -> t <= l
  | None => snapshot_times api ctx database = []
  end.
Proof.
  unfold db_status, snapshot_times.
  pose proof (group_stats_max api ctx database Full) as Hf.
  pose proof (group_stats_max api ctx database Log) as Hl.
  destruct (group_stats api ctx database Full) as [[fc fmin] fmax].
  destruct (group_stats api ctx database Log) as [[lc lmin] lmax].
  cbn [fst snd sd_chain_latest] in *.
  destruct (latest_of fmax lmax) as [l|] eqn:El.
  - apply latest_of_spec in El as [Hor Hmax]. split.
    + rewrite in_app_iff. destruct Hor as [E|E]; rewrite E in *; [left | right];
        apply max_of_map_in; auto.
    + intros t [Ht|Ht]%in_app_iff.
      * destruct fmax as [m|]; [|symmetry in Hf; apply max_of_none in Hf; rewrite Hf in Ht; destruct Ht].
        symmetry in Hf. apply max_of_spec in Hf as [_ Hf]. specialize (Hf t Ht).
        specialize (Hmax m (or_introl eq_refl)). lia.
      * destruct lmax as [m|]; [|symmetry in Hl; apply max_of_none in Hl; rewrite Hl in Ht; destruct Ht].
        symmetry in Hl. apply max_of_spec in Hl as [_ Hl]. specialize (Hl t Ht).
        specialize (Hmax m (or_intror eq_refl)). lia.
  - apply latest_of_none in El as [-> ->]. symmetry in Hf, Hl.
    apply max_of_none in Hf, Hl. rewrite Hf, Hl. reflexivity.
Qed.

(** A database's chain is reported as stalled exactly when it has a snapshot and
    every snapshot of it, of either kind and from whichever replica, is older than four
    log intervals and than half an hour; without a snapshot it is never stalled. *)
Theorem stalled_iff api ctx now log_interval database :
  sd_stalled (db_status api ctx now (grace_of log_interval) database) = true <->
  snapshot_times api ctx database <> [] /\
  Forall (fun t => log_interval * 60 * 4 < now - t /\ 1800 < now - t)
    (snapshot_times api ctx database).
Proof.
  pose proof (chain_latest_spec api ctx now (grace_of log_interval) database) as Hs.
  assert (sd_stalled (db_status api ctx now (grace_of log_interval) database) =
    match sd_chain_latest (db_status api ctx now (grace_of log_interval) database) with
    | Some l => grace_of log_interval <? now - l | None => false end) as ->.
  { unfold db_status. destruct (group_stats _ _ _ Full) as [[? ?] ?], (group_stats _ _ _ Log) as [[? ?] ?].
    reflexivity. }
  destruct (sd_chain_latest _) as [l|]; [|rewrite Hs; split; [discriminate | intros []; congruence]].
  destruct Hs as [Hin Hmax]. rewrite Z.ltb_lt, List.Forall_forall. unfold grace_of. split.
  - intros Hg. split; [intros E; rewrite E in Hin; destruct Hin|].
    intros t Ht. specialize (Hmax t Ht). lia.
  - intros [_ Hall]. specialize (Hall l Hin). cbn beta in Hall. lia.
Qed.

End requests.

(** ** A concrete server *)

Definition sample_snapshot (t : Z) : Snapshot :=
  {| sn_backup_time := t; sn_backup_id := []; sn_backup_type := SQL_BACKUP_TYPE; sn_size := Some 1;
     sn_files := [{| sf_filename := META_BLOB_NAME; sf_size := None |}]; sn_owner := None |}.

(** Its metadata blobs are as many bytes as the backup time has hundreds. *)
Definition sample_env : req_env := {|
  re_list _ _ _ _ group :=
    Ok (if str_eqb group (sql_group_and_archive (L "sql") (L "db") Full).1
        then [sample_snapshot 1000] else map sample_snapshot [1200; 900; 1100]);
  re_connect _ := Ok tt;
  re_blob p _ _ := Ok (replicate (Z.to_nat (sp_backup_time p / 100)) x00);
  re_meta b := Ok (match length b with
                   | 9%nat => meta sample_log1 | 10%nat => meta sample_full
                   | 11%nat => meta sample_log2 | _ => meta sample_log3 end);
  re_archive _ _ _ := Ok []; re_to_writer _ _ _ := ([x00], Ok 1);
  re_image _ _ _ := {| ie_ready := Ok tt; ie_download := Ok (Ok tt); ie_device := Ok tt |};
  re_device _ := {| de_set := []; de_ready := Ok tt; de_panic := None |};
  re_uuid i := dec (Z.of_nat i); re_sql_connect _ _ := Ok tt; re_ask := quiet; re_relay := false;
  re_time _ _ := None; re_create _ := Ok tt; re_flush _ := Ok tt; re_kept _ := O;
  re_remove _ := true; re_rename _ := Ok tt; re_human_size := dec |}.

Definition sample_ctx : SqlJobPbs := {|
  jp_conn := {| sc_id := L "c"; sc_name := []; sc_server := L "s"; sc_port := None;
                sc_auth := Integrated; sc_failover_cluster := false; sc_relay_agent := None |};
  jp_password := None;
  jp_repo := {| auth_id := Some (L "u@pbs"); host := Some (L "h"); port := None;
                datastore := L "d"; namespace := None |};
  jp_secret := L "x"; jp_fingerprint := []; jp_backup_id := L "sql"; jp_crypt := None |}.

Lemma pit_restore_complete_witness : exists msg s' items,
  run_restore_pit sample_env sample_ctx (L "db") (L "db") 1150 false (Did [] [] ∅) = (Ok msg, s') /\
  chain_covers (select_chain items 1150) 1150 = true /\
  restored (L "db") (length (select_chain items 1150)) [] (did_sql s').
Proof.
  destruct (run_restore_pit sample_env sample_ctx (L "db") (L "db") 1150 false (Did [] [] ∅))
    as [r s'] eqn:E.
  destruct r as [msg|e]; [|exfalso; vm_compute in E; discriminate E].
  destruct (pit_restore_complete _ _ _ _ _ _ _ _ _ E) as (items & _ & Hc & Hr). eauto 10.
Defined.
