(* ===== verification/Export.v ===== *)
(** Saving SQL backups to files ([pbsgui-engine/src/handler.rs]).

    An export writes the stored archives of a snapshot, or of the chain for a point in
    time, as native backup files into a folder, with a text file of the statements
    that replay them.  The file system is the map of [done_so_far]. *)

From Stdlib Require Import ZArith Lia Strings.Byte Ascii String.
From stdpp Require Import base tactics option numbers list gmap.
From S2P Require Import Prelude Text Base Blob Repository HttpApi Session Chain Jobs Sched Stores Plan Runs Tsql Requests.
Open Scope Z_scope.

Section export.
Context `{DebugFmt} `{Base64} `{HashLib}.
Variable env : req_env.

Definition set_file (path : str) (b : option bytes) (s : done_so_far) : done_so_far :=
  Did (did_lines s) (did_sql s)
    (match b with Some b => <[path := b]> (did_files s) | None => delete path (did_files s) end).

(** Streams one archive to [final_path] by way of a [.partial] file. *)
Definition download_sql_image_to_file (ctx : SqlJobPbs) (group archive : str) (backup_time : Z)
    (final_path : str) : reqm Z := fun s =>
  if bool_decide (is_Some (did_files s !! final_path))
  then (Err (final_path ++ L " already exists"), s)
  else
  match (p ← job_params ctx group backup_time; _ ← re_connect env p; Ok p) with
  | Err e => (Err e, s)
  | Ok p =>
      let tmp := final_path ++ L ".partial" in
      match re_create env tmp with
      | Err e => (Err (L "creating " ++ tmp ++ L ": " ++ e), s)
      | Ok _ =>
          let '(data, streamed) := re_to_writer env p archive (jp_crypt ctx) in
          let flushed := re_flush env tmp in
          let kept := match flushed with Ok _ => data | Err _ => take (re_kept env tmp) data end in
          let s := set_file tmp (Some kept) s in
          let failed msg := (Err msg, if re_remove env tmp then set_file tmp None s else s) in
          match streamed, flushed with
          | Err e, _ => failed e
          | Ok _, Err e => failed (L "writing " ++ tmp ++ L ": " ++ e)
          | Ok n, Ok _ =>
              match re_rename env final_path with
              | Err e => (Err (L "finalising " ++ final_path ++ L ": " ++ e), s)
              | Ok _ => (Ok n, set_file final_path (Some data) (set_file tmp None s))
              end
          end
      end
  end.

Definition sanitize_filename (value : str) : str :=
  match sanitize_file value with [] => L "database" | s => s end.

Definition file_stamp (unix : Z) : str := default (dec unix) (re_time env (L "%Y%m%dT%H%M%SZ") unix).

Definition export_sql_full (ctx : SqlJobPbs) (database : str) (backup_time : Z) (dir : str) :
    reqm str :=
  let '(group, archive) := sql_group_and_archive (jp_backup_id ctx) database Full in
  let name := sanitize_filename database ++ L "-" ++ file_stamp backup_time ++ L ".bak" in
  _ ← say (L "downloading the full backup from PBS to " ++ name);
  size ← download_sql_image_to_file ctx group archive backup_time (path_join dir name);
  _ ← say (L "wrote " ++ name ++ L " (" ++ re_human_size env size ++ L ")");
  mret (L "saved " ++ database ++ L " to " ++ path_join dir name).

(** The name of the [i]th file of a chain, from zero. *)
Definition chain_file (database : str) (i : nat) (c : ChainItem) : str :=
  sanitize_filename database ++ L "-" ++ dec02 (Z.of_nat i + 1) ++ L "-" ++
  (if item_is_log c then L "LOG" else L "FULL") ++ L "-" ++ file_stamp (snapshot_time c) ++
  L "." ++ (if item_is_log c then L "trn" else L "bak").

(** The loop over the chain, with the files written so far. *)
Fixpoint export_files (ctx : SqlJobPbs) (database full_group log_group archive dir : str) (i : nat)
    (chain : list ChainItem) : reqm (list (str * bool)) :=
  match chain with
  | [] => mret []
  | c :: chain =>
      let name := chain_file database i c in
      size ← download_sql_image_to_file ctx (item_group full_group log_group c) archive
               (snapshot_time c) (path_join dir name);
      _ ← say (L "wrote " ++ name ++ L " (" ++ re_human_size env size ++ L ")");
      rest ← export_files ctx database full_group log_group archive dir (S i) chain;
      mret ((name, item_is_log c) :: rest)
  end.

(** Refuses to overwrite. *)
Definition write_export_file (path : str) (b : bytes) : reqm unit := fun s =>
  if bool_decide (is_Some (did_files s !! path))
  then (Err (L "creating " ++ path ++ L ": file exists"), s)
  else match re_create env path with
       | Err e => (Err (L "creating " ++ path ++ L ": " ++ e), s)
       | Ok _ =>
           match re_flush env path with
           | Err e => (Err (L "writing " ++ path ++ L ": " ++ e), set_file path (Some (take (re_kept env path) b)) s)
           | Ok _ => (Ok tt, set_file path (Some b) s)
           end
       end.

Definition CRLF_STR : str := [13; 10].

(** The numbered statements for the logs, from the [i]th of [total]. *)
Fixpoint log_steps (target : str) (total n : nat) (logs : list str) : list str :=
  match logs with
  | [] => []
  | log :: logs =>
      [dec (Z.of_nat n) ++ L ") RESTORE LOG [RestoredDB] FROM DISK = N'" ++ log ++ L "'";
       if (n =? S total)%nat then L "       WITH STOPAT = N'" ++ target ++ L "', RECOVERY;"
       else L "       WITH NORECOVERY;"] ++
      log_steps target total (S n) logs
  end.

Definition restore_step_lines (full : str) (logs : list str) (target : str) : list str :=
  match logs with
  | [] => [L "1) RESTORE DATABASE [RestoredDB] FROM DISK = N'" ++ full ++ L "'";
           L "       WITH REPLACE, RECOVERY;"]
  | _ => [L "1) RESTORE DATABASE [RestoredDB] FROM DISK = N'" ++ full ++ L "'";
          L "       WITH REPLACE, NORECOVERY;"] ++ log_steps target (length logs) 2 logs
  end.

Definition quoted (s : str) : str := [34] ++ s ++ [34].

Definition build_restore_steps (database : str) (files : list (str * bool)) (target_unix : Z) : str :=
  let target := default (dec target_unix) (re_time env (L "%Y-%m-%d %H:%M:%S") target_unix) in
  let full := match find (fun x => negb (x.2 : bool)) files with
              | Some x => x.1
              | None => L "<full>.bak"
              end in
  let logs := map fst (List.filter (fun x => x.2) files) in
  join CRLF_STR (
    [L "SQL Server restore steps for " ++ quoted database;
     L "Exported from Proxmox Backup Server by pbsgui. These are native SQL Server";
     L "backup files; restore them on any SQL Server with the statements below, run";
     L "in order (SQL Server Management Studio or sqlcmd).";
     [];
     L "Before running:";
     L "  - Change [RestoredDB] to the database name you want.";
     L "  - Prefix each file name with the full path to this folder."] ++
    (match logs with
     | [] => []
     | _ => [L "  - Recovering to " ++ target ++ L " (UTC). STOPAT below uses the SERVER's local";
             L "    time, so adjust it to your server's timezone."]
     end) ++
    [[]] ++ restore_step_lines full logs target ++ [[]]).

Variable utf8 : str -> bytes.      (* String::into_bytes *)

Definition export_sql_chain (ctx : SqlJobPbs) (database : str) (target_unix : Z) (dir : str) :
    reqm str :=
  let '(full_group, archive) := sql_group_and_archive (jp_backup_id ctx) database Full in
  let '(log_group, _) := sql_group_and_archive (jp_backup_id ctx) database Log in
  chain ← chosen_chain env ctx full_group log_group target_unix;
  _ ← say (L "saving 1 full + " ++ dec (Z.of_nat (length chain) - 1) ++
           L " log backup(s) to the chosen point");
  files ← export_files ctx database full_group log_group archive dir 0 chain;
  let steps_name := sanitize_filename database ++ L "-RESTORE-STEPS.txt" in
  _ ← write_export_file (path_join dir steps_name)
        (utf8 (build_restore_steps database files target_unix));
  _ ← say (L "wrote " ++ steps_name);
  mret (L "saved " ++ dec (Z.of_nat (length files) + 1) ++ L " file(s) for " ++ database ++
        L " to " ++ dir).

(** [run_restore_sql_to_file]; [prepared] is the check of the destination folder. *)
Definition run_restore_sql_to_file (c : config_state) (job_id database : str)
    (point : SqlRestorePoint) (destination : str) (prepared : result str unit) : reqm str :=
  ctx ← req_lift (sql_job_pbs c job_id);
  _ ← req_lift prepared;
  match point with
  | RestoreFull backup_time => export_sql_full ctx database backup_time destination
  | RestorePointInTime unix_time => export_sql_chain ctx database unix_time destination
  end.

(** ** One file *)

Definition partial_of (path : str) : str := path ++ L ".partial".

Lemma partial_ne path : path <> partial_of path.
Proof.
  unfold partial_of. intros E%(f_equal length). rewrite length_app in E.
  change (length (L ".partial")) with 8%nat in E. lia.
Qed.

Lemma set_file_lookup path b s p :
  did_files (set_file path b s) !! p = if bool_decide (path = p) then b else did_files s !! p.
Proof.
  unfold set_file. cbn. case_bool_decide as E; destruct b as [b|]; subst;
    rewrite ?lookup_insert_eq, ?lookup_delete_eq, ?lookup_insert_ne, ?lookup_delete_ne; auto.
Qed.

(** What is on the disk after a download: with a result, the whole stream under the
    final name, which was free; without one, nothing under it that was not there
    before.  Besides that name only its [.partial] companion is touched. *)
Definition saved (ctx : SqlJobPbs) (group archive : str) (backup_time : Z) (path : str)
    (s : done_so_far) (r : result str Z) (s' : done_so_far) : Prop :=
  did_sql s' = did_sql s /\ did_lines s' = did_lines s /\
  (forall p, p <> path -> p <> partial_of path -> did_files s' !! p = did_files s !! p) /\
  match r with
  | Ok n => exists params data,
      job_params ctx group backup_time = Ok params /\
      re_to_writer env params archive (jp_crypt ctx) = (data, Ok n) /\
      did_files s !! path = None /\ did_files s' !! path = Some data /\
      did_files s' !! partial_of path = None
  | Err _ => did_files s' !! path = did_files s !! path
  end.

Lemma download_saved ctx group archive backup_time path s :
  let '(r, s') := download_sql_image_to_file ctx group archive backup_time path s in
  saved ctx group archive backup_time path s r s'.
Proof.
  pose proof (partial_ne path) as Hne. unfold download_sql_image_to_file, saved.
  case_bool_decide as Hex; [split_and!; auto|].
  destruct (job_params _ _ _) as [p|e] eqn:Ep; cbn -[set_file]; [|split_and!; auto].
  destruct (re_connect env p) as [[]|e]; cbn -[set_file]; [|split_and!; auto].
  fold (partial_of path). destruct (re_create env _) as [[]|e]; [|split_and!; auto].
  destruct (re_to_writer _ _ _ _) as [data streamed] eqn:Ew.
  destruct streamed as [n|e], (re_flush env _) as [[]|e'];
    try (destruct (re_remove env _)); try (destruct (re_rename env _) as [[]|e'']);
    (split_and!; [reflexivity | reflexivity | |]);
    try (intros q Hq Hp; rewrite !set_file_lookup;
         rewrite ?(bool_decide_false (_ = q)) by congruence; reflexivity);
    try (rewrite !set_file_lookup, ?(bool_decide_false (_ = path)) by congruence; reflexivity).
  exists p, data. rewrite !set_file_lookup. split_and!; auto.
  - apply eq_None_not_Some, Hex.
  - rewrite bool_decide_true; reflexivity.
  - rewrite bool_decide_false, bool_decide_true by congruence. reflexivity.
Qed.

(** ** A chain of files *)

(** The files of [s] that are not leftovers of an interrupted download are as they were. *)
Definition keeps (s s' : done_so_far) : Prop :=
  forall p b, did_files s !! p = Some b -> (forall q, p <> partial_of q) ->
  did_files s' !! p = Some b.

#[local] Instance keeps_preorder : PreOrder keeps.
Proof. split; [intros s p b Hp _; exact Hp | intros s1 s2 s3 H12 H23 p b Hp Hq; auto]. Qed.

Lemma saved_keeps ctx group archive backup_time path s r s' :
  saved ctx group archive backup_time path s r s' -> keeps s s'.
Proof.
  intros (_ & _ & Hother & Hr) p b Hp Hnp.
  destruct (base.decide (p = path)) as [->|Hne]; [|rewrite Hother; auto].
  destruct r; [|rewrite Hr; exact Hp]. destruct Hr as (? & ? & _ & _ & Hnone & _). congruence.
Qed.

Lemma write_export_file_keeps path b s :
  let '(r, s') := write_export_file path b s in
  did_sql s' = did_sql s /\ keeps s s' /\
  match r with Ok _ => did_files s' !! path = Some b | Err _ => True end.
Proof.
  unfold write_export_file. case_bool_decide as Hex; [split_and!; auto; reflexivity|].
  assert (forall d, keeps s (set_file path (Some d) s)) as Hk.
  { intros d p c Hp _. rewrite set_file_lookup. case_bool_decide; [|exact Hp].
    subst. destruct Hex. eauto. }
  destruct (re_create env path); [|split_and!; auto; reflexivity].
  destruct (re_flush env path); split_and!; auto.
  rewrite set_file_lookup, bool_decide_true; reflexivity.
Qed.

Lemma last_path_join dir name c : last name = Some c -> last (path_join dir name) = Some c.
Proof.
  intros E. assert (name <> []) by (intros ->; discriminate).
  unfold path_join. destruct (last dir); [|exact E].
  destruct (_ || _); rewrite ?last_app_ne; auto using app_ne_r.
Qed.

Lemma last_partial path : last (partial_of path) = Some 108.
Proof. unfold partial_of. rewrite last_app_ne by discriminate. reflexivity. Qed.

Lemma last_chain_file database i c :
  last (chain_file database i c) = Some (if item_is_log c then 110 else 107).
Proof.
  unfold chain_file. destruct (item_is_log c);
    rewrite !last_app_ne by (repeat apply app_ne_r; discriminate); reflexivity.
Qed.

Lemma chain_path_not_partial dir database i c q :
  path_join dir (chain_file database i c) <> partial_of q.
Proof.
  intros E%(f_equal last). rewrite last_partial in E.
  rewrite (last_path_join _ _ _ (last_chain_file database i c)) in E.
  destruct (item_is_log c); discriminate.
Qed.

(** The names of a chain's files, with whether each is a log. *)
Fixpoint chain_files (database : str) (i : nat) (chain : list ChainItem) : list (str * bool) :=
  match chain with
  | [] => []
  | c :: chain => (chain_file database i c, item_is_log c) :: chain_files database (S i) chain
  end.

(** Every backup of the chain is a file of its own that holds its whole archive. *)
Fixpoint chain_saved (ctx : SqlJobPbs) (database full_group log_group archive dir : str) (i : nat)
    (chain : list ChainItem) (files : gmap str bytes) : Prop :=
  match chain with
  | [] => True
  | c :: chain =>
      (exists params data n,
         job_params ctx (item_group full_group log_group c) (snapshot_time c) = Ok params /\
         re_to_writer env params archive (jp_crypt ctx) = (data, Ok n) /\
         files !! path_join dir (chain_file database i c) = Some data) /\
      chain_saved ctx database full_group log_group archive dir (S i) chain files
  end.

Lemma chain_saved_keeps ctx database fg lg archive dir i chain s s' :
  keeps s s' -> chain_saved ctx database fg lg archive dir i chain (did_files s) ->
  chain_saved ctx database fg lg archive dir i chain (did_files s').
Proof.
  intros Hk. revert i; induction chain as [|c chain IH]; intros i; cbn [chain_saved]; [auto|].
  intros [(p & data & n & Hp & Hw & Hf) Hrest]. split; [|auto].
  exists p, data, n. split_and!; auto. apply Hk; [exact Hf | apply chain_path_not_partial].
Qed.

Lemma say_keeps line s : keeps s (Did (did_lines s ++ [line]) (did_sql s) (did_files s)).
Proof. intros p b Hp _. exact Hp. Qed.

Lemma export_files_saved ctx database fg lg archive dir i chain s :
  let '(r, s') := export_files ctx database fg lg archive dir i chain s in
  did_sql s' = did_sql s /\ keeps s s' /\
  match r with
  | Ok files => files = chain_files database i chain /\
      chain_saved ctx database fg lg archive dir i chain (did_files s')
  | Err _ => True
  end.
Proof.
  revert i s; induction chain as [|c chain IH]; intros i s; cbn [export_files].
  { cbn. split_and!; auto; reflexivity. }
  unfold mbind, reqm_bind.
  pose proof (download_saved ctx (item_group fg lg c) archive (snapshot_time c)
    (path_join dir (chain_file database i c)) s) as Hd.
  destruct (download_sql_image_to_file _ _ _ _ _ s) as [r s1].
  pose proof (saved_keeps _ _ _ _ _ _ _ _ Hd) as Hk. destruct Hd as (Hsql & _ & _ & Hr).
  destruct r as [n|e]; [|split_and!; auto]. destruct Hr as (p & data & Hp & Hw & _ & Hf & _).
  cbn [say]. set (s2 := Did _ _ _). specialize (IH (S i) s2).
  destruct (export_files _ _ _ _ _ _ _ chain s2) as [r s3]. destruct IH as (Hsql' & Hk' & Hr).
  assert (keeps s1 s3) as Hk13 by (etransitivity; [apply say_keeps | exact Hk']).
  assert (did_sql s3 = did_sql s) as Hs by (rewrite Hsql'; exact Hsql).
  assert (keeps s s3) as Hk03 by (etransitivity; eassumption).
  destruct r as [files|e]; [|split_and!; auto]. destruct Hr as [-> Hrest].
  split_and!; auto. cbn [chain_saved]. split; [|exact Hrest].
  exists p, data, n. split_and!; auto. apply Hk13; [exact Hf | apply chain_path_not_partial].
Qed.

Lemma chosen_chain_quiet ctx full_group log_group target_unix s :
  did_sql (chosen_chain env ctx full_group log_group target_unix s).2 = did_sql s /\
  did_files (chosen_chain env ctx full_group log_group target_unix s).2 = did_files s.
Proof.
  unfold chosen_chain, mbind, reqm_bind, say, req_lift, mret, reqm_ret.
  destruct (read_chain_items _ _ _) as [items|e]; [|split; reflexivity].
  destruct (select_chain items target_unix) as [|c cs]; [split; reflexivity|].
  destruct (ensure_chain_reaches _ _ _); split; reflexivity.
Qed.

(** What an export of a chain leaves behind. *)
Definition exported (ctx : SqlJobPbs) (database : str) (target_unix : Z) (dir : str)
    (r : result str str) (files : gmap str bytes) : Prop :=
  match r with
  | Err _ => True
  | Ok _ => exists items,
      let '(full_group, archive) := sql_group_and_archive (jp_backup_id ctx) database Full in
      let log_group := (sql_group_and_archive (jp_backup_id ctx) database Log).1 in
      let chain := select_chain items target_unix in
      all_backups env ctx full_group log_group items /\
      chain_covers chain target_unix = true /\
      chain_saved ctx database full_group log_group archive dir 0 chain files /\
      files !! path_join dir (sanitize_filename database ++ L "-RESTORE-STEPS.txt") =
        Some (utf8 (build_restore_steps database (chain_files database 0 chain) target_unix))
  end.

Lemma export_sql_chain_spec ctx database target_unix dir s :
  let '(r, s') := export_sql_chain ctx database target_unix dir s in
  did_sql s' = did_sql s /\ keeps s s' /\ exported ctx database target_unix dir r (did_files s').
Proof.
  unfold export_sql_chain, exported.
  destruct (sql_group_and_archive _ database Full) as [fg archive].
  destruct (sql_group_and_archive _ database Log) as [lg ?]. cbn [fst].
  unfold mbind, reqm_bind.
  pose proof (chosen_chain_quiet ctx fg lg target_unix s) as [Hq1 Hq2].
  destruct (chosen_chain _ _ _ _ _ s) as [[chain|e] s1] eqn:Ec; cbn [snd] in *;
    [|split_and!; auto; intros p b Hp _; rewrite Hq2; exact Hp].
  destruct (chosen_chain_ok _ _ _ _ _ _ _ _ Ec) as (_ & _ & items & Hall & -> & Hcov).
  assert (keeps s s1) as Hk by (intros p b Hp _; rewrite Hq2; exact Hp).
  cbn [say]. set (s2 := Did _ _ _).
  pose proof (export_files_saved ctx database fg lg archive dir 0
    (select_chain items target_unix) s2) as He.
  destruct (export_files _ _ _ _ _ _ _ _ s2) as [r s3]. destruct He as (Hs & Hk3 & Hr).
  assert (keeps s s3) as Hk03.
  { etransitivity; [exact Hk|]. etransitivity; [apply say_keeps | exact Hk3]. }
  assert (did_sql s3 = did_sql s) as Hs03 by (rewrite Hs; exact Hq1).
  destruct r as [files|e]; [|split_and!; auto]. destruct Hr as [-> Hsaved].
  pose proof (write_export_file_keeps
    (path_join dir (sanitize_filename database ++ L "-RESTORE-STEPS.txt"))
    (utf8 (build_restore_steps database (chain_files database 0 (select_chain items target_unix))
       target_unix)) s3) as Hw.
  destruct (write_export_file _ _ s3) as [[[]|e] s4]; destruct Hw as (Hs4 & Hk4 & Hw);
    (split_and!; [cbn; congruence | etransitivity; eassumption |]); [|exact I].
  exists items. cbn. split_and!; auto. eapply chain_saved_keeps; eassumption.
Qed.

Lemma export_sql_full_spec ctx database backup_time dir s :
  let '(r, s') := export_sql_full ctx database backup_time dir s in
  did_sql s' = did_sql s /\ keeps s s' /\
  let '(group, archive) := sql_group_and_archive (jp_backup_id ctx) database Full in
  let path := path_join dir (sanitize_filename database ++ L "-" ++ file_stamp backup_time ++
                             L ".bak") in
  match r with
  | Ok _ => exists params data n,
      job_params ctx group backup_time = Ok params /\
      re_to_writer env params archive (jp_crypt ctx) = (data, Ok n) /\
      did_files s !! path = None /\ did_files s' !! path = Some data
  | Err _ => did_files s' !! path = did_files s !! path
  end.
Proof.
  unfold export_sql_full. destruct (sql_group_and_archive _ database Full) as [group archive].
  unfold mbind, reqm_bind. cbn [say]. set (path := path_join dir _). set (s1 := Did _ _ _).
  pose proof (download_saved ctx group archive backup_time path s1) as Hd.
  destruct (download_sql_image_to_file _ _ _ _ _ s1) as [r s2].
  pose proof (saved_keeps _ _ _ _ _ _ _ _ Hd) as Hk. destruct Hd as (Hs & _ & _ & Hr).
  assert (keeps s s2) as Hk2 by (etransitivity; [apply say_keeps | exact Hk]).
  destruct r as [n|e]; cbn; split_and!; auto.
  destruct Hr as (p & data & Hp & Hw & Hn & Hf & _). eauto 10.
Qed.

(** Saving a full backup to a file is all or nothing: when it reports success the
    file has the whole archive and its name was free before; when it fails, whatever
    failed and even if the clean-up failed too, nothing appears under that name and
    nothing that was there is changed. *)
Theorem full_export_atomic ctx database backup_time dir s :
  let '(r, s') := export_sql_full ctx database backup_time dir s in
  let '(group, archive) := sql_group_and_archive (jp_backup_id ctx) database Full in
  let path := path_join dir (sanitize_filename database ++ L "-" ++ file_stamp backup_time ++
                             L ".bak") in
  match r with
  | Ok _ => exists params data n,
      job_params ctx group backup_time = Ok params /\
      re_to_writer env params archive (jp_crypt ctx) = (data, Ok n) /\
      did_files s !! path = None /\ did_files s' !! path = Some data
  | Err _ => did_files s' !! path = did_files s !! path
  end.
Proof.
  pose proof (export_sql_full_spec ctx database backup_time dir s) as Hf.
  destruct (export_sql_full _ _ _ _ s) as [r s']. apply Hf.
Qed.

(** C30: an export of a point in time that reports success saved every backup: the
    chain chosen from all the backups of both groups reaches the point, each backup of
    it is a file that holds its whole archive (a later download of the same export
    never replaced an earlier file), and the steps file names those files. *)
Theorem chain_export_complete ctx database target_unix dir s :
  let '(r, s') := export_sql_chain ctx database target_unix dir s in
  exported ctx database target_unix dir r (did_files s').
Proof.
  pose proof (export_sql_chain_spec ctx database target_unix dir s) as He.
  destruct (export_sql_chain _ _ _ _ s) as [r s']. apply He.
Qed.

(** An export never touches SQL Server, and never changes or removes a file that
    was in the folder (leftover [.partial] files of an earlier download apart),
    whether it succeeds or fails half way. *)
Theorem exports_never_clobber c job_id database point destination prepared s :
  let '(_, s') := run_restore_sql_to_file c job_id database point destination prepared s in
  did_sql s' = did_sql s /\ keeps s s'.
Proof.
  unfold run_restore_sql_to_file, mbind, reqm_bind, req_lift.
  destruct (sql_job_pbs c job_id) as [ctx|e]; [|split; reflexivity].
  destruct prepared as [[]|e]; [|split; reflexivity]. destruct point as [t|t].
  - pose proof (export_sql_full_spec ctx database t destination s) as Hf.
    destruct (export_sql_full _ _ _ _ s) as [r s']. destruct Hf as (? & ? & _). auto.
  - pose proof (export_sql_chain_spec ctx database t destination s) as He.
    destruct (export_sql_chain _ _ _ _ s) as [r s']. destruct He as (? & ? & _). auto.
Qed.

(** ** The order of the names *)

(** The two-digit numbers are in order as strings. *)
Lemma dec02_sorted (i j : nat) : (i < j < 99)%nat ->
  length (dec02 (Z.of_nat i + 1)) = length (dec02 (Z.of_nat j + 1)) /\
  str_lt (dec02 (Z.of_nat i + 1)) (dec02 (Z.of_nat j + 1)) = true.
Proof.
  intros Hij.
  assert (forallb (fun j => forallb (fun i =>
      (length (dec02 (Z.of_nat i + 1)) =? length (dec02 (Z.of_nat j + 1)))%nat &&
      str_lt (dec02 (Z.of_nat i + 1)) (dec02 (Z.of_nat j + 1))) (List.seq 0 j)) (List.seq 0 99)
    = true) as Hall by (vm_compute; reflexivity).
  rewrite forallb_forall in Hall. specialize (Hall j ltac:(apply in_seq; lia)).
  cbv beta in Hall. rewrite forallb_forall in Hall.
  specialize (Hall i ltac:(apply in_seq; lia)). apply andb_true_iff in Hall as [Hl Hs].
  apply Nat.eqb_eq in Hl. auto.
Qed.

Lemma chain_file_lt database i j c c' :
  length (dec02 (Z.of_nat i + 1)) = length (dec02 (Z.of_nat j + 1)) ->
  str_lt (dec02 (Z.of_nat i + 1)) (dec02 (Z.of_nat j + 1)) = true ->
  str_lt (chain_file database i c) (chain_file database j c') = true.
Proof.
  intros Hl Hs. unfold chain_file. rewrite !str_lt_prefix. apply str_lt_app; assumption.
Qed.

(** The files of an exported chain sort by name in the order they are replayed as
    long as there are fewer than a hundred; the index is padded to two digits, so the
    hundredth file sorts before the ninety-ninth. *)
Theorem chain_names_sort database :
  (forall i j c c', (i < j < 99)%nat ->
     str_lt (chain_file database i c) (chain_file database j c') = true) /\
  (forall c c', str_lt (chain_file database 99 c') (chain_file database 98 c) = true).
Proof.
  split.
  - intros i j c c' Hij. destruct (dec02_sorted i j Hij). apply chain_file_lt; assumption.
  - intros c c'. unfold chain_file. rewrite !str_lt_prefix. reflexivity.
Qed.

End export.

(** ** Examples *)

Definition sample_dir : done_so_far := Did [] [] (<[L "C:\old.bak" := [x01]]> ∅).

(** The full and the two logs that reach the point, and the steps. *)
Example sample_export :
  let '(r, s') := export_sql_chain sample_env (fun _ => []) sample_ctx (L "db") 1150 (L "C:") sample_dir in
  r = Ok (L "saved 4 file(s) for db to C:") /\
  did_files s' !! L "C:\db-01-FULL-1000.bak" = Some [x00] /\
  did_files s' !! L "C:\db-03-LOG-1200.trn" = Some [x00] /\
  did_files s' !! L "C:\old.bak" = Some [x01].
Proof. vm_compute. auto. Qed.

Lemma chain_names_sort_witness :
  str_lt (chain_file sample_env (L "db") 0 sample_full) (chain_file sample_env (L "db") 1 sample_log2)
  = true.
Proof. apply (chain_names_sort sample_env (L "db")). split; repeat constructor. Defined.
