(* ===== verification/Glob.v ===== *)
(** File specifications of VSS writers ([pbsgui-ad-engine/src/matchspec.rs]).

    The wildcard matcher is the backtracking loop of the source, on indices; it is
    shown to end and to decide the language of the pattern. *)

From Stdlib Require Import ZArith Lia Strings.Byte Ascii String.
From stdpp Require Import base tactics option numbers list.
From S2P Require Import Prelude Text.
Open Scope Z_scope.

Definition STAR : Z := 42.
Definition QMARK : Z := 63.
Definition PERCENT : Z := 37.

(** ** The matcher *)

(** The variables of [glob_match]. *)
Record glob_state := Glob { g_p : nat; g_t : nat; g_star : option nat; g_star_t : nat }.

(** The last loop: [while p < pat.len() && pat[p] == '*']. *)
Fixpoint skip_stars (pat : str) : str :=
  match pat with
  | c :: pat' => if c =? STAR then skip_stars pat' else pat
  | [] => []
  end.

(** The first loop; [None] when the fuel does not suffice. *)
Fixpoint glob_loop (fuel : nat) (pat text : str) (s : glob_state) : option bool :=
  match fuel with
  | O => None
  | S fuel =>
      match text !! g_t s with
      | None => Some (is_empty (skip_stars (drop (g_p s) pat)))
      | Some c =>
          match pat !! g_p s with
          | Some d =>
              if (d =? QMARK) || (d =? c)
              then glob_loop fuel pat text (Glob (S (g_p s)) (S (g_t s)) (g_star s) (g_star_t s))
              else if d =? STAR
              then glob_loop fuel pat text (Glob (S (g_p s)) (g_t s) (Some (g_p s)) (g_t s))
              else
                match g_star s with
                | Some sp => glob_loop fuel pat text
                    (Glob (S sp) (S (g_star_t s)) (Some sp) (S (g_star_t s)))
                | None => Some false
                end
          | None =>
              match g_star s with
              | Some sp => glob_loop fuel pat text
                  (Glob (S sp) (S (g_star_t s)) (Some sp) (S (g_star_t s)))
              | None => Some false
              end
          end
      end
  end.

(** Every iteration makes this smaller: a later star, then a later retry of the star,
    then a later character. *)
Definition glob_measure (pat text : str) (s : glob_state) : nat :=
  let n := S (length text) in
  let star := match g_star s with Some sp => S sp | None => 0%nat end in
  ((S (length pat) - star) * n * n + (length text - g_star_t s) * n + (length text - g_t s))%nat.

Definition glob_init : glob_state := Glob 0 0 None 0.

Definition glob_match (pat text : str) : option bool :=
  glob_loop (S (glob_measure pat text glob_init)) pat text glob_init.

Section filespec.
Variable to_lowercase : str -> str.      (* by the tables of Unicode *)

Definition filespec_matches (spec name : str) : option bool :=
  glob_match (to_lowercase spec) (to_lowercase name).

End filespec.

(** ** Environment variables in paths *)

Section expand.
Variable lookup : str -> option str.

(** The loop of [expand_env]; every iteration shortens [rest], so its length is fuel
    enough. *)
Fixpoint expand_loop (fuel : nat) (out rest : str) : str :=
  match fuel with
  | O => out ++ rest
  | S fuel =>
      match split_once PERCENT rest with
      | None => out ++ rest
      | Some (before, after) =>
          match split_once PERCENT after with
          | Some ((_ :: _) as name, rest) =>
              let value := match lookup name with
                           | Some value => value
                           | None => [PERCENT] ++ name ++ [PERCENT]
                           end in
              expand_loop fuel (out ++ before ++ value) rest
          | _ => expand_loop fuel (out ++ before ++ [PERCENT]) after
          end
      end
  end.

Definition expand_env (path : str) : str := expand_loop (length path) [] path.

(** A path as pieces: text without [%], and references to variables. *)
Inductive piece := Verbatim (s : str) | Reference (name : str).

Definition piece_wf (p : piece) : Prop :=
  match p with
  | Verbatim s => has_char PERCENT s = false
  | Reference name => name <> [] /\ has_char PERCENT name = false
  end.

Definition piece_text (p : piece) : str :=
  match p with Verbatim s => s | Reference name => [PERCENT] ++ name ++ [PERCENT] end.
Definition piece_value (p : piece) : str :=
  match p with
  | Verbatim s => s
  | Reference name => default (piece_text p) (lookup name)
  end.

Lemma expand_pieces fuel out s ps :
  has_char PERCENT s = false -> Forall piece_wf ps ->
  (length (s ++ concat (map piece_text ps)) <= fuel)%nat ->
  expand_loop fuel out (s ++ concat (map piece_text ps)) = out ++ s ++ concat (map piece_value ps).
Proof.
  intros Hs HF; revert fuel out s Hs; induction HF as [|p ps Hp HF IH]; intros fuel out s Hs Hf.
  { cbn [map concat] in *. rewrite app_nil_r in *. destruct fuel; [reflexivity|].
    cbn. rewrite split_once_none by exact Hs. reflexivity. }
  destruct p as [v|name]; cbn [map concat piece_text piece_value piece_wf] in *.
  - rewrite !(app_assoc s v) in *. apply IH; [|exact Hf]. rewrite has_char_app, Hs, Hp. reflexivity.
  - destruct Hp as [Hne Hn]. rewrite !length_app in Hf. cbn [length app] in Hf.
    destruct fuel as [|fuel]; [lia|]. cbn [expand_loop].
    change ([PERCENT] ++ name ++ [PERCENT]) with (PERCENT :: name ++ [PERCENT]).
    rewrite <- app_comm_cons, <- app_assoc. cbn [app].
    rewrite split_once_at by exact Hs. rewrite split_once_at by exact Hn.
    destruct name as [|c name]; [congruence|].
    rewrite (IH fuel _ []); [|reflexivity | cbn in *; rewrite ?length_app in *; cbn in *; lia].
    cbn [piece_text app]. rewrite <- !app_assoc. cbn [app]. repeat f_equal.
Qed.

(** Every [%NAME%] of a path is replaced by the variable's value, or kept as it is
    written when there is no such variable, and the rest of the path is kept. *)
Theorem expand_env_spec ps : Forall piece_wf ps ->
  expand_env (concat (map piece_text ps)) = concat (map piece_value ps).
Proof. intros HF. apply (expand_pieces _ [] []); [reflexivity | exact HF | reflexivity]. Qed.

End expand.

(** ** The language of a pattern *)

Inductive matches : str -> str -> Prop :=
| m_end : matches [] []
| m_char c pat text : matches pat text -> matches (c :: pat) (c :: text)
| m_any c pat text : matches pat text -> matches (QMARK :: pat) (c :: text)
| m_star_none pat text : matches pat text -> matches (STAR :: pat) text
| m_star_more c pat text : matches (STAR :: pat) text -> matches (STAR :: pat) (c :: text).

#[local] Hint Constructors matches : core.

(** A pattern character that stands for one character of the text. *)
Definition takes_one (d c : Z) : bool := (d =? QMARK) || (d =? c).

Definition literal (q : str) : Prop := Forall (fun d => d <> STAR) q.
Definition plain (text : str) : Prop := Forall (fun c => c <> STAR) text.

Lemma matches_star pat text : matches (STAR :: pat) text <-> exists k, matches pat (drop k text).
Proof.
  split.
  - intros Hm. remember (STAR :: pat) as sp eqn:E. revert E.
    induction Hm as [|c p t Hm _|c p t Hm _|p t Hm _|c p t Hm IH]; intros [= ]; subst.
    + exists 1%nat. exact Hm.
    + exists 0%nat. exact Hm.
    + destruct (IH eq_refl) as [k Hk]. exists (S k). exact Hk.
  - intros [k Hm]. revert text Hm; induction k as [|k IH]; intros text Hm; [rewrite drop_0 in Hm; auto|].
    destruct text as [|c text]; [rewrite drop_nil in Hm; auto|]. apply m_star_more, IH. exact Hm.
Qed.

(** Characters that are not stars are matched one by one. *)
Lemma matches_one d pat c text : d <> STAR ->
  matches (d :: pat) (c :: text) <-> takes_one d c = true /\ matches pat text.
Proof.
  intros Hd. unfold takes_one. split.
  - intros Hm. inversion Hm; subst; try congruence; (split; [|assumption]); apply orb_true_iff.
    + right. apply Z.eqb_refl.
    + left. reflexivity.
  - intros [[E%Z.eqb_eq|E%Z.eqb_eq]%orb_true_iff Hm]; subst; auto.
Qed.

Lemma matches_one_nil d pat : d <> STAR -> ~ matches (d :: pat) [].
Proof. intros Hd Hm. inversion Hm; congruence. Qed.

Lemma matches_literal q pat text : literal q ->
  matches (q ++ pat) text <->
  Forall2 (fun d c => takes_one d c = true) q (take (length q) text) /\
  matches pat (drop (length q) text).
Proof.
  intros Hq; revert text; induction Hq as [|d q Hd Hq IH]; intros text.
  { cbn. rewrite drop_0. split; [auto | intros [_ Hm]; exact Hm]. }
  destruct text as [|c text]; cbn [length take drop app].
  - split; [intros []%matches_one_nil; exact Hd | intros [HF _]; inversion HF].
  - rewrite matches_one by exact Hd. rewrite IH. split.
    + intros (Hc & HF & Hm). auto.
    + intros [HF Hm]. inversion HF; subst. auto.
Qed.

Lemma matches_nil_text pat : matches pat [] <-> skip_stars pat = [].
Proof.
  induction pat as [|c pat IH]; cbn; [split; auto|].
  destruct (Z.eqb_spec c STAR) as [->|Hc].
  - rewrite <- IH, matches_star. split; [intros [k Hm]; rewrite drop_nil in Hm; exact Hm|].
    intros Hm. exists 0%nat. exact Hm.
  - split; [intros []%matches_one_nil; exact Hc | discriminate].
Qed.

(** ** The loop decides the language *)

Section decides.
Variables pat text : str.
Hypothesis Hplain : plain text.

(** Between the star that is being retried and the current position, the pattern is
    literal and has been matched by the text from the retry on. *)
Definition since_star (s : glob_state) : Prop :=
  match g_star s with
  | None => g_star_t s = 0%nat
  | Some sp => (g_star_t s <= g_t s)%nat /\ (sp < length pat)%nat /\
      exists q, literal q /\ drop (S sp) pat = q ++ drop (g_p s) pat /\
                length q = (g_t s - g_star_t s)%nat /\ (g_p s <= length pat)%nat /\
                Forall2 (fun d c => takes_one d c = true) q (take (length q) (drop (g_star_t s) text))
  end.

(** What is left to try: the current position, or a later retry of the star. *)
Definition left_to_try (s : glob_state) : Prop :=
  matches (drop (g_p s) pat) (drop (g_t s) text) \/
  match g_star s with
  | None => False
  | Some sp => exists k, (g_star_t s < k)%nat /\ matches (drop (S sp) pat) (drop k text)
  end.

Definition glob_inv (s : glob_state) : Prop :=
  (g_p s <= length pat)%nat /\ (g_t s <= length text)%nat /\ since_star s.

Lemma plain_at t c : text !! t = Some c -> c <> STAR.
Proof. intros E. unfold plain in Hplain. rewrite Forall_lookup in Hplain. eauto. Qed.

Lemma drop_at {A} (l : list A) i x : l !! i = Some x -> drop i l = x :: drop (S i) l.
Proof. apply drop_S. Qed.

Lemma inv_one p t star st c d :
  text !! t = Some c -> pat !! p = Some d -> takes_one d c = true ->
  glob_inv (Glob p t star st) ->
  glob_inv (Glob (S p) (S t) star st) /\
  (left_to_try (Glob p t star st) <-> left_to_try (Glob (S p) (S t) star st)).
Proof.
  intros Ht Hp H1 (Ip & It & Is).
  assert (d <> STAR) as Hd.
  { intros ->. apply plain_at in Ht. unfold takes_one in H1.
    apply orb_true_iff in H1 as [E|E%Z.eqb_eq]; [discriminate | congruence]. }
  pose proof (lookup_lt_Some _ _ _ Ht). pose proof (lookup_lt_Some _ _ _ Hp).
  split.
  - split_and!; cbn in *; [lia | lia|]. unfold since_star in *; cbn in *.
    destruct star as [sp|]; [|exact Is].
    destruct Is as (Hle & Hsp & q & Hq & Hdrop & Hlen & _ & HF).
    split_and!; [lia | exact Hsp|]. exists (q ++ [d]). rewrite length_app. cbn. split_and!.
    + apply Forall_app. split; [exact Hq | repeat constructor; exact Hd].
    + rewrite Hdrop, (drop_at _ _ _ Hp), <- app_assoc. reflexivity.
    + lia.
    + lia.
    + rewrite Nat.add_1_r, (take_S_r _ _ c).
      * apply Forall2_app; [exact HF | repeat constructor; exact H1].
      * rewrite lookup_drop, <- Ht. f_equal. lia.
  - unfold left_to_try; cbn. rewrite (drop_at _ _ _ Ht), (drop_at _ _ _ Hp) at 1.
    rewrite matches_one by exact Hd. rewrite H1. tauto.
Qed.

Lemma inv_star p t star st c :
  text !! t = Some c -> pat !! p = Some STAR -> glob_inv (Glob p t star st) ->
  glob_inv (Glob (S p) t (Some p) t) /\
  (left_to_try (Glob p t star st) <-> left_to_try (Glob (S p) t (Some p) t)).
Proof.
  intros Ht Hp (Ip & It & Is). pose proof (lookup_lt_Some _ _ _ Hp) as Hlp. cbn in *.
  split.
  { split_and!; cbn; [lia | exact It|]. unfold since_star; cbn. split_and!; [lia | exact Hlp|].
    exists []. rewrite Nat.sub_diag. split_and!; cbn; auto. constructor. }
  unfold left_to_try; cbn. rewrite (drop_at _ _ _ Hp) at 1.
  transitivity (exists k, matches (drop (S p) pat) (drop k (drop t text))).
  - rewrite matches_star. split; [|tauto]. intros [Hk|Hold]; [exact Hk|].
    destruct star as [sp|]; [|tauto]. destruct Hold as (k & Hk & Hm).
    unfold since_star in Is; cbn in Is.
    destruct Is as (Hle & _ & q & Hq & Hdrop & Hlen & _ & _).
    rewrite Hdrop, (drop_at _ _ _ Hp), matches_literal in Hm by exact Hq.
    destruct Hm as [_ Hm]. apply matches_star in Hm as [j Hm]. rewrite !drop_drop in Hm.
    exists (k + length q + j - t)%nat. rewrite drop_drop.
    replace (t + (k + length q + j - t))%nat with (k + length q + j)%nat by lia.
    rewrite Nat.add_assoc in Hm. exact Hm.
  - split.
    + intros [[|k] Hm]; rewrite ?drop_0, ?drop_drop in Hm; [left; exact Hm | right].
      exists (t + S k)%nat. split; [lia | exact Hm].
    + intros [Hm|(k & Hk & Hm)]; [exists 0%nat; rewrite drop_0; exact Hm|].
      exists (k - t)%nat. rewrite drop_drop. replace (t + (k - t))%nat with k by lia. exact Hm.
Qed.

Lemma inv_back p t sp st c :
  text !! t = Some c ->
  match pat !! p with Some d => takes_one d c = false /\ d <> STAR | None => True end ->
  glob_inv (Glob p t (Some sp) st) ->
  glob_inv (Glob (S sp) (S st) (Some sp) (S st)) /\
  (left_to_try (Glob p t (Some sp) st) <-> left_to_try (Glob (S sp) (S st) (Some sp) (S st))).
Proof.
  intros Ht Hd (Ip & It & Is). pose proof (lookup_lt_Some _ _ _ Ht) as Hlt. cbn in *.
  unfold since_star in Is; cbn in Is. destruct Is as (Hle & Hsp & _).
  split.
  { split_and!; cbn; [lia | lia|]. unfold since_star; cbn. split_and!; [lia | exact Hsp|].
    exists []. rewrite Nat.sub_diag. split_and!; cbn; auto. constructor. }
  unfold left_to_try; cbn.
  assert (~ matches (drop p pat) (drop t text)) as Hno.
  { rewrite (drop_at _ _ _ Ht). destruct (pat !! p) as [d|] eqn:Ep.
    - rewrite (drop_at _ _ _ Ep). destruct Hd as [H1 Hs]. rewrite matches_one by exact Hs.
      rewrite H1. intros [? _]. discriminate.
    - apply lookup_ge_None in Ep. rewrite (drop_ge pat) by exact Ep. intros Hm. inversion Hm. }
  split.
  - intros [Hm|(k & Hk & Hm)]; [tauto|].
    destruct (Nat.eq_dec k (S st)) as [->|Hne]; [left; exact Hm | right].
    exists k. split; [lia | exact Hm].
  - intros [Hm|(k & Hk & Hm)]; right; [exists (S st) | exists k]; (split; [lia | exact Hm]).
Qed.

Lemma left_at_end p t star st :
  text !! t = None -> glob_inv (Glob p t star st) ->
  left_to_try (Glob p t star st) <-> is_empty (skip_stars (drop p pat)) = true.
Proof.
  intros Ht (Ip & It & Is). apply lookup_ge_None in Ht. cbn in *.
  transitivity (matches (drop p pat) []).
  2: { rewrite matches_nil_text. destruct (skip_stars (drop p pat)); cbn; split; congruence. }
  unfold left_to_try; cbn. rewrite (drop_ge text) by exact Ht. split; [|tauto].
  intros [Hm|Hold]; [exact Hm|]. destruct star as [sp|]; [|tauto].
  destruct Hold as (k & Hk & Hm). unfold since_star in Is; cbn in Is.
  destruct Is as (Hle & _ & q & Hq & Hdrop & Hlen & _ & _).
  rewrite Hdrop, matches_literal in Hm by exact Hq. destruct Hm as [HF Hm].
  apply Forall2_length in HF. rewrite length_take, length_drop in HF.
  rewrite drop_drop, (drop_ge text) in Hm by lia. exact Hm.
Qed.

Lemma glob_loop_decides fuel s :
  glob_inv s -> (glob_measure pat text s < fuel)%nat ->
  exists b, glob_loop fuel pat text s = Some b /\ (b = true <-> left_to_try s).
Proof.
  revert s; induction fuel as [|fuel IH]; intros [p t star st] Hi Hm; [lia|].
  cbn [glob_loop g_t g_p g_star g_star_t].
  pose proof Hi as (Ip & It & Is). cbn in Ip, It.
  destruct (text !! t) as [c|] eqn:Ht.
  2: { eexists; split; [reflexivity|]. symmetry. apply left_at_end; assumption. }
  pose proof (lookup_lt_Some _ _ _ Ht) as Hlt.
  assert (forall s', glob_inv s' /\ (left_to_try (Glob p t star st) <-> left_to_try s') ->
    (glob_measure pat text s' < glob_measure pat text (Glob p t star st))%nat ->
    exists b, glob_loop fuel pat text s' = Some b /\
              (b = true <-> left_to_try (Glob p t star st))) as Hgo.
  { intros s' [Hi' Heq] Hlt'. destruct (IH s' Hi' ltac:(lia)) as (b & Hb & Hiff).
    exists b. split; [exact Hb|]. rewrite Heq. exact Hiff. }
  assert (Hback : match pat !! p with
      Some d => takes_one d c = false /\ d <> STAR | None => True end ->
    exists b, match star with
      | Some sp => glob_loop fuel pat text (Glob (S sp) (S st) (Some sp) (S st))
      | None => Some false end = Some b /\ (b = true <-> left_to_try (Glob p t star st))).
  { intros Hd. destruct star as [sp|].
    - apply Hgo; [eapply inv_back; eassumption|]. unfold since_star in Is; cbn in Is.
      unfold glob_measure; cbn [g_star g_star_t g_t]. destruct Is as (Hle & Hsp & _).
      set (n := length text) in *. set (X := ((S (length pat) - S sp) * S n * S n)%nat).
      assert ((n - st) * S n = (n - S st) * S n + S n)%nat by nia. lia.
    - eexists; split; [reflexivity|]. split; [discriminate|]. unfold left_to_try; cbn.
      intros [Hmt|[]]. exfalso. rewrite (drop_at _ _ _ Ht) in Hmt.
      destruct (pat !! p) as [d|] eqn:Ep.
      + rewrite (drop_at _ _ _ Ep) in Hmt. destruct Hd as [H1 Hs].
        rewrite matches_one in Hmt by exact Hs. rewrite H1 in Hmt. destruct Hmt. discriminate.
      + apply lookup_ge_None in Ep. rewrite (drop_ge pat) in Hmt by exact Ep. inversion Hmt. }
  destruct (pat !! p) as [d|] eqn:Ep; [|apply Hback; exact I].
  pose proof (lookup_lt_Some _ _ _ Ep) as Hltp.
  fold (takes_one d c). destruct (takes_one d c) eqn:H1.
  - apply Hgo; [eapply inv_one; eassumption|]. unfold glob_measure; cbn [g_star g_star_t g_t]. lia.
  - destruct (Z.eqb_spec d STAR) as [->|Hd]; [|apply Hback; auto].
    apply Hgo; [eapply inv_star; eassumption|].
    unfold glob_measure; cbn [g_star g_star_t g_t].
    assert ((match star with Some sp => S sp | None => 0%nat end <= p)%nat /\ (st <= t)%nat) as [H2 H3].
    { unfold since_star in Is; cbn in Is. destruct star as [sp|]; [|lia].
      destruct Is as (Hle & Hsp & q & _ & Hdrop & _). split; [|exact Hle].
      apply (f_equal length) in Hdrop. rewrite length_app, !length_drop in Hdrop. lia. }
    set (n := length text) in *. set (o := match star with Some sp => S sp | None => 0%nat end) in *.
    assert ((S (length pat) - o) * S n * S n >= (S (length pat) - S p) * S n * S n + S n * S n)%nat by nia.
    assert ((n - t) * S n <= n * S n)%nat by nia. assert ((n - t) * S n <= (n - st) * S n)%nat by nia.
    nia.
Qed.

End decides.

(** For every pattern and every name without [*] (no Windows file name has one) the
    matcher ends and answers whether the name is in the language of the pattern: going
    back only to the last star, as the loop does, misses nothing. *)
Theorem glob_match_language pat text : plain text ->
  exists b, glob_match pat text = Some b /\ (b = true <-> matches pat text).
Proof.
  intros Hp. destruct (glob_loop_decides pat text Hp (S (glob_measure pat text glob_init)) glob_init)
    as (b & Hb & Heq).
  - split_and!; cbn; [lia | lia | reflexivity].
  - lia.
  - exists b. split; [exact Hb|]. rewrite Heq. unfold left_to_try; cbn. rewrite !drop_0. tauto.
Qed.

Lemma glob_match_language_witness : exists b,
  glob_match (L "edb*.log") (L "edb00042.log") = Some b /\
  (b = true <-> matches (L "edb*.log") (L "edb00042.log")).
Proof.
  apply (glob_match_language (L "edb*.log") (L "edb00042.log")).
  vm_compute. repeat constructor; discriminate.
Defined.

(** A star in the name is taken for the star of the pattern before the pattern's star
    has been seen: [*] does not match the name [*a]. *)
Lemma star_in_name : glob_match (L "*") (L "*a") = Some false /\ matches (L "*") (L "*a").
Proof.
  split; [vm_compute; reflexivity|]. change (L "*") with [STAR].
  change (L "*a") with [STAR; 97]. auto.
Qed.

Lemma expand_env_spec_witness :
  let lookup := fun n => if str_eqb n (L "SystemRoot") then Some (L "C:\Windows") else None in
  expand_env lookup (L "%SystemRoot%\NTDS\%x%") = L "C:\Windows\NTDS\%x%".
Proof.
  cbv zeta. refine (expand_env_spec _ [Reference (L "SystemRoot"); Verbatim (L "\NTDS\"); Reference (L "x")] _).
  repeat constructor; discriminate.
Defined.
