(* ===== verification/Files.v ===== *)
(** File archives ([pbsgui-engine/src/archive.rs], [restore.rs], and the archiver of
    [backup.rs]).

    A backup of files is a tar of the sources, written through a channel to the
    uploader; a restore extracts the tar.  The directory walk, the tar format and the
    exclude patterns are libraries and the file system is an environment; paths are
    lists of components as in [std::path]. *)

From Stdlib Require Import ZArith Lia Strings.Byte Ascii String.
From stdpp Require Import base tactics option numbers list gmap.
From S2P Require Import Prelude Text Base Plan Runs Channels.
Open Scope Z_scope.

(** ** Paths *)

Inductive component := PrefixC (s : str) | RootDir | Normal (s : str).
Abbreviation path := (list component).

#[export] Instance component_eq_dec : EqDecision component.
Proof. solve_decision. Defined.

(** [Path::display] and [to_string_lossy]. *)
Fixpoint show_path (p : path) : str :=
  match p with
  | [] => []
  | PrefixC s :: p => s ++ show_path p
  | RootDir :: p => [92] ++ show_path p
  | [Normal s] => s
  | Normal s :: p => s ++ [92] ++ show_path p
  end.

(** [Path::strip_prefix], [parent] and [file_name]. *)
Fixpoint strip_path (base p : path) : option path :=
  match base, p with
  | [], _ => Some p
  | b :: base, c :: p => if bool_decide (b = c) then strip_path base p else None
  | _ :: _, [] => None
  end.

Definition parent (p : path) : option path :=
  match last p with Some (Normal _) => Some (removelast p) | _ => None end.

Definition file_name (p : path) : option str :=
  match last p with Some (Normal s) => Some s | _ => None end.

(** [str::replace] of backslashes by slashes. *)
Definition slashes (s : str) : str := map (fun c => if c =? 92 then 47 else c) s.

Definition archive_name (source_root p : path) : str :=
  let base := default source_root (parent source_root) in
  let rel := default p (strip_path base p) in
  slashes (show_path rel).

Definition to_live (live_root read p : path) : path :=
  match strip_path read p with
  | Some [] => live_root
  | Some rel => live_root ++ rel
  | None => p
  end.

Abbreviation patterns := (list (str -> bool)).

Definition excluded (p : path) (pats : patterns) : bool :=
  existsb (fun pat => pat (show_path p)) pats.

(** ** The file system and the libraries *)

Inductive file_kind := IsFile | IsDir | IsOther.

Record walk_error := { we_path : option path; we_io : option str; we_text : str }.

(** An open file: the length the archiver is told, the length the tar crate is told when it
    asks once more, what is read from it up to its end, and where and why reading fails, if it
    does.  Nothing makes the lengths that of the data: a live file can change meanwhile. *)
Record file_data := {
  fd_len : option Z; fd_stat : result io_error Z; fd_data : bytes; fd_error : option (nat * io_error) }.

Record tree := {
  te_metadata : path -> result str file_kind;
  te_walk : path -> list (result walk_error (path * file_kind));   (* sorted by name *)
  te_attributes : path -> option Z;
  te_open : path -> result str file_data }.

(** A member of a tar archive as [tar::Archive] reads it. *)
Record tar_member := { tm_path : str; tm_is_dir : bool; tm_size : Z; tm_data : bytes }.

(** The tar crate: the writes of one file with the size its header has, those at the end, and
    the reader; [Pattern::new] of the glob crate. *)
Class ArchiveLib := {
  tar_name_ok : str -> bool;
  tar_pieces : str -> Z -> bytes -> list bytes;
  tar_end : list bytes;
  tar_members : bytes -> result str (list (result str tar_member));
  glob_pattern : str -> option (str -> bool) }.

Definition member_of (m : str * bytes) : tar_member :=
  {| tm_path := m.1; tm_is_dir := false; tm_size := Z.of_nat (length m.2); tm_data := m.2 |}.

(** The bytes written for these files, each with the size of its header. *)
Definition tar_written `{ArchiveLib} (ms : list (str * Z * bytes)) : bytes :=
  concat (map (fun m => concat (tar_pieces m.1.1 m.1.2 m.2)) ms) ++ concat tar_end.

Definition sized (m : str * bytes) : str * Z * bytes := (m.1, Z.of_nat (length m.2), m.2).

(** The archive of these files: the headers have the sizes of the data. *)
Definition tar_of `{ArchiveLib} (ms : list (str * bytes)) : bytes := tar_written (map sized ms).

(** What the writer wrote, the reader reads, when the headers have the sizes of the data. *)
Class ArchiveLaws `{ArchiveLib} := {
  tar_inverse : forall ms, Forall (fun m => tar_name_ok m.1 = true) ms ->
    tar_members (tar_of ms) = Ok (map (fun m => Ok (member_of m)) ms) }.

(** ** Writing an archive *)

Section archive.
Context `{ArchiveLib}.

Definition compile_excludes (excludes : list str) : patterns := omap glob_pattern excludes.

(** Attributes of a placeholder whose data is not on the machine. *)
Definition FILE_ATTRIBUTE_OFFLINE : Z := 0x1000.
Definition FILE_ATTRIBUTE_RECALL_ON_OPEN : Z := 0x40000.
Definition FILE_ATTRIBUTE_RECALL_ON_DATA_ACCESS : Z := 0x400000.

Definition cloud_only (t : tree) (p : path) : option str :=
  attrs ← te_attributes t p;
  let cloud := Z.lor (Z.lor FILE_ATTRIBUTE_OFFLINE FILE_ATTRIBUTE_RECALL_ON_OPEN)
                 FILE_ATTRIBUTE_RECALL_ON_DATA_ACCESS in
  if negb (Z.land attrs cloud =? 0)
  then Some (L "cloud-only file (not downloaded to this machine)") else None.

(** The archive being written: the report so far and the writer. *)
Record archiving := Archiving { av_report : ArchiveReport; av_out : ChannelWriter }.

Definition skip (live : path) (reason : str) (v : archiving) : archiving :=
  let r := av_report v in
  Archiving {| ar_entries := ar_entries r;
               ar_skipped := ar_skipped r ++ [{| sk_path := show_path live; sk_reason := reason |}];
               ar_warnings := ar_warnings r |} (av_out v).

Definition push_entry (name : str) (size : Z) (r : ArchiveReport) : ArchiveReport :=
  {| ar_entries := ar_entries r ++ [(name, size)]; ar_skipped := ar_skipped r;
     ar_warnings := ar_warnings r |}.

(** [tar::Builder::append_file]: the header has the size the file's metadata has, and then the
    file is copied up to its end, however long it is by then. *)
Definition append_file (name : str) (f : file_data) (w : ChannelWriter) :
    result io_error ChannelWriter :=
  size ← fd_stat f;
  if negb (tar_name_ok name) then Err (IoError InvalidInput (L "paths in archives must be relative"))
  else match fd_error f with
       | None => write_each archive_write (tar_pieces name size (fd_data f)) w
       | Some (k, e) => _ ← write_each archive_write (take k (tar_pieces name size (fd_data f))) w; Err e
       end.

Definition add_file (t : tree) (read live : path) (name : str) (v : archiving) :
    result io_error archiving :=
  match cloud_only t read with
  | Some reason => Ok (skip live reason v)
  | None =>
      match te_open t read with
      | Err e => Ok (skip live e v)
      | Ok f =>
          let size := default 0 (fd_len f) in
          w ← append_file name f (av_out v);
          Ok (Archiving (push_entry name size (av_report v)) w)
      end
  end.

Definition io_reason (e : walk_error) : str :=
  match we_io e with Some io => io | None => we_text e end.

(** The loop over the entries of a folder. *)
Fixpoint add_entries (t : tree) (pats : patterns) (live_root read : path)
    (entries : list (result walk_error (path * file_kind))) (v : archiving) :
    result io_error archiving :=
  match entries with
  | [] => Ok v
  | Err e :: entries =>
      let live := match we_path e with Some p => to_live live_root read p | None => live_root end in
      add_entries t pats live_root read entries (skip live (io_reason e) v)
  | Ok (p, kind) :: entries =>
      let live := to_live live_root read p in
      if excluded live pats then add_entries t pats live_root read entries v
      else match kind with
           | IsFile =>
               v ← add_file t p live (archive_name live_root live) v;
               add_entries t pats live_root read entries v
           | _ => add_entries t pats live_root read entries v
           end
  end.

(** The loop over the sources. *)
Fixpoint add_sources (t : tree) (pats : patterns) (read_root : path -> option path)
    (sources : list path) (v : archiving) : result io_error archiving :=
  match sources with
  | [] => Ok v
  | live_root :: sources =>
      let read := default live_root (read_root live_root) in
      v ← match te_metadata t read with
          | Err e => Ok (skip live_root (L "source not readable: " ++ e) v)
          | Ok IsDir => add_entries t pats live_root read (te_walk t read) v
          | Ok IsFile =>
              if excluded live_root pats then Ok v
              else add_file t read live_root (default (L "file") (file_name live_root)) v
          | Ok IsOther => Ok v
          end;
      add_sources t pats read_root sources v
  end.

Definition no_report : ArchiveReport :=
  {| ar_entries := []; ar_skipped := []; ar_warnings := [] |}.

Definition write_tar (t : tree) (sources : list path) (excludes : list str)
    (read_root : path -> option path) (out : ChannelWriter) : result io_error archiving :=
  v ← add_sources t (compile_excludes excludes) read_root sources (Archiving no_report out);
  w ← write_each archive_write tar_end (av_out v);
  w ← archive_flush w;
  Ok (Archiving (av_report v) w).

(** The estimate for the progress bar ([u64]): only metadata, no error counts. *)
Definition estimate_size (t : tree) (len : path -> option Z) (sources : list path)
    (excludes : list str) : Z :=
  fold_left (fun total (p : path) => add64 total (default 0 (len p)))
    (omap (fun e => match e with
                    | Ok (p, IsFile) => if excluded p (compile_excludes excludes) then None else Some p
                    | _ => None
                    end) (concat (map (te_walk t) sources))) 0.

(** ** What an archive should hold *)

(** What becomes of one thing the archiver comes across. *)
Inductive fate := Left_out | Skip_it (s : Skipped) | Store_it (name : str) (f : file_data).

Definition file_outcome (t : tree) (read live : path) (name : str) : fate :=
  match cloud_only t read with
  | Some reason => Skip_it {| sk_path := show_path live; sk_reason := reason |}
  | None =>
      match te_open t read with
      | Err e => Skip_it {| sk_path := show_path live; sk_reason := e |}
      | Ok f => Store_it name f
      end
  end.

Definition entry_outcome (t : tree) (pats : patterns) (live_root read : path)
    (e : result walk_error (path * file_kind)) : fate :=
  match e with
  | Err e =>
      Skip_it {| sk_path := show_path (match we_path e with
                                       | Some p => to_live live_root read p
                                       | None => live_root end);
                 sk_reason := io_reason e |}
  | Ok (p, kind) =>
      let live := to_live live_root read p in
      match kind with
      | IsFile => if excluded live pats then Left_out
                  else file_outcome t p live (archive_name live_root live)
      | _ => Left_out
      end
  end.

Definition source_outcomes (t : tree) (pats : patterns) (read_root : path -> option path)
    (live_root : path) : list fate :=
  let read := default live_root (read_root live_root) in
  match te_metadata t read with
  | Err e => [Skip_it {| sk_path := show_path live_root;
                         sk_reason := L "source not readable: " ++ e |}]
  | Ok IsDir => map (entry_outcome t pats live_root read) (te_walk t read)
  | Ok IsFile =>
      [if excluded live_root pats then Left_out
       else file_outcome t read live_root (default (L "file") (file_name live_root))]
  | Ok IsOther => [Left_out]
  end.

Definition outcomes (t : tree) (excludes : list str) (read_root : path -> option path)
    (sources : list path) : list fate :=
  concat (map (source_outcomes t (compile_excludes excludes) read_root) sources).

(** The report and the members that go with a list of outcomes. *)
Definition report_of (os : list fate) : ArchiveReport :=
  {| ar_entries := omap (fun o => match o with Store_it n f => Some (n, default 0 (fd_len f))
                                  | _ => None end) os;
     ar_skipped := omap (fun o => match o with Skip_it s => Some s | _ => None end) os;
     ar_warnings := [] |}.

Definition members_of (os : list fate) : list (str * bytes) :=
  omap (fun o => match o with Store_it n f => Some (n, fd_data f) | _ => None end) os.

(** The same with the sizes their headers have. *)
Definition written_of (os : list fate) : list (str * Z * bytes) :=
  omap (fun o => match o with
                 | Store_it n f => match fd_stat f with Ok size => Some (n, size, fd_data f) | Err _ => None end
                 | _ => None
                 end) os.

(** No file changed its size between the metadata and the end of the copy. *)
Definition sizes_kept (os : list fate) : Prop :=
  Forall (fun o => match o with Store_it _ f => fd_stat f = Ok (Z.of_nat (length (fd_data f))) | _ => True end) os.

Definition do_outcome (o : fate) (v : archiving) : result io_error archiving :=
  match o with
  | Left_out => Ok v
  | Skip_it s => Ok (Archiving {| ar_entries := ar_entries (av_report v);
                                  ar_skipped := ar_skipped (av_report v) ++ [s];
                                  ar_warnings := ar_warnings (av_report v) |} (av_out v))
  | Store_it n f =>
      w ← append_file n f (av_out v);
      Ok (Archiving (push_entry n (default 0 (fd_len f)) (av_report v)) w)
  end.

Fixpoint do_outcomes (os : list fate) (v : archiving) : result io_error archiving :=
  match os with
  | [] => Ok v
  | o :: os => v ← do_outcome o v; do_outcomes os v
  end.

(** ** The archiver does just that *)

Lemma do_outcomes_app os1 os2 v :
  do_outcomes (os1 ++ os2) v = (v ← do_outcomes os1 v; do_outcomes os2 v).
Proof.
  revert v; induction os1 as [|o os1 IH]; intros v; cbn [do_outcomes app]; [reflexivity|].
  destruct (do_outcome o v); cbn; [apply IH | reflexivity].
Qed.

Lemma add_file_outcome t read live name v :
  add_file t read live name v = do_outcome (file_outcome t read live name) v.
Proof.
  unfold add_file, file_outcome. destruct (cloud_only t read); [reflexivity|].
  destruct (te_open t read); reflexivity.
Qed.

Lemma add_entries_outcomes t pats live_root read entries v :
  add_entries t pats live_root read entries v =
  do_outcomes (map (entry_outcome t pats live_root read) entries) v.
Proof.
  revert v; induction entries as [|[[p kind]|e] entries IH]; intros v;
    cbn [add_entries map do_outcomes entry_outcome]; [reflexivity | | apply IH].
  destruct (excluded _ pats), kind; cbn [do_outcome mbind result_bind]; auto.
  rewrite add_file_outcome. destruct (do_outcome _ v); cbn; auto.
Qed.

Lemma add_sources_outcomes t pats read_root sources v :
  add_sources t pats read_root sources v =
  do_outcomes (concat (map (source_outcomes t pats read_root) sources)) v.
Proof.
  revert v; induction sources as [|s sources IH]; intros v; cbn [add_sources map concat];
    [reflexivity|].
  rewrite do_outcomes_app. unfold source_outcomes.
  destruct (te_metadata t _) as [[]|]; cbn [do_outcomes]; try rewrite add_entries_outcomes;
    try rewrite add_file_outcome.
  - destruct (excluded s pats); [apply IH|]. cbn. destruct (do_outcome _ v); cbn; auto.
  - destruct (do_outcomes _ v); cbn; auto.
  - apply IH.
  - cbn. apply IH.
Qed.

(** Appending a file writes its pieces. *)
Lemma append_file_taken name f w w' : append_file name f w = Ok w' -> exists size,
  fd_stat f = Ok size /\ tar_name_ok name = true /\
  taken w' = taken w ++ concat (tar_pieces name size (fd_data f)).
Proof.
  unfold append_file. intros (size & Es & E)%result_bind_ok. exists size. split; [exact Es|]. revert E. destruct (tar_name_ok name); [cbn [negb]|discriminate].
  destruct (fd_error f) as [[k e]|].
  - intros (? & _ & ?)%result_bind_ok. discriminate.
  - intros E. split; [reflexivity|]. eapply write_each_taken; [apply write_taken | exact E].
Qed.

Definition add_report (r : ArchiveReport) (os : list fate) : ArchiveReport :=
  {| ar_entries := ar_entries r ++ ar_entries (report_of os);
     ar_skipped := ar_skipped r ++ ar_skipped (report_of os);
     ar_warnings := ar_warnings r |}.

Lemma do_outcomes_ok os v v' : do_outcomes os v = Ok v' ->
  av_report v' = add_report (av_report v) os /\
  Forall (fun m => tar_name_ok m.1 = true) (members_of os) /\
  map (fun m => (m.1.1, m.2)) (written_of os) = members_of os /\
  taken (av_out v') =
    taken (av_out v) ++ concat (map (fun m => concat (tar_pieces m.1.1 m.1.2 m.2)) (written_of os)).
Proof.
  revert v; induction os as [|o os IH]; intros v; cbn [do_outcomes].
  { intros [= <-]. unfold add_report. cbn. rewrite !app_nil_r.
    split_and!; [destruct (av_report v); reflexivity | constructor | reflexivity..]. }
  intros (v1 & E1 & E)%result_bind_ok. destruct (IH _ E) as (Hr & HF & Hall & Ht). rewrite Hr, Ht.
  destruct o as [|s|n f]; cbn [do_outcome] in E1.
  - apply Ok_inj in E1 as <-. auto.
  - apply Ok_inj in E1 as <-. split_and!; auto. unfold add_report. cbn.
    rewrite <- app_assoc. reflexivity.
  - apply result_bind_ok in E1 as (w & Ew & [= <-]).
    destruct (append_file_taken _ _ _ _ Ew) as (size & Es & Hok & Hw). cbn in *. rewrite Es. split_and!.
    + unfold add_report. cbn. rewrite <- app_assoc. reflexivity.
    + constructor; auto.
    + cbn. f_equal. exact Hall.
    + cbn. rewrite Hw, <- app_assoc. reflexivity.
Qed.

(** An archive that was written holds exactly what the outcomes say, and so does its
    report. *)
Lemma write_tar_ok t sources excludes read_root out v :
  write_tar t sources excludes read_root out = Ok v ->
  let os := outcomes t excludes read_root sources in
  av_report v = report_of os /\ Forall (fun m => tar_name_ok m.1 = true) (members_of os) /\
  map (fun m => (m.1.1, m.2)) (written_of os) = members_of os /\
  taken (av_out v) = taken out ++ tar_written (written_of os) /\ cw_buf (av_out v) = [].
Proof.
  unfold write_tar. intros (v1 & E1 & E)%result_bind_ok.
  apply result_bind_ok in E as (w1 & Ew1 & E). apply result_bind_ok in E as (w2 & Ew2 & [= <-]).
  rewrite add_sources_outcomes in E1. fold (outcomes t excludes read_root sources) in E1.
  destruct (do_outcomes_ok _ _ _ E1) as (Hr & HF & Hall & Ht). cbn [av_report av_out] in *.
  destruct (send_taken _ _ Ew2) as [Ht2 Hb].
  rewrite (write_each_taken _ _ _ _ write_taken Ew1), Ht in Ht2.
  split_and!; auto. rewrite Ht2. unfold tar_written. rewrite <- !app_assoc. reflexivity.
Qed.

(** Files that kept their sizes make the archive of their data. *)
Lemma kept_written os : sizes_kept os -> tar_written (written_of os) = tar_of (members_of os).
Proof.
  unfold tar_of. intros Hk. f_equal. induction Hk as [|o os Ho Hk IH]; [reflexivity|].
  destruct o as [|s|n f]; [exact IH..|]. cbn. rewrite Ho. cbn. f_equal. exact IH.
Qed.

(** Only the outcomes count. *)
Lemma write_tar_same t t' sources excludes read_root read_root' out :
  outcomes t excludes read_root sources = outcomes t' excludes read_root' sources ->
  write_tar t sources excludes read_root out = write_tar t' sources excludes read_root' out.
Proof.
  intros E. unfold write_tar. rewrite !add_sources_outcomes. unfold outcomes in E.
  rewrite E. reflexivity.
Qed.

End archive.

(** ** The archiver of a backup run ([backup.rs]) *)

(** A VSS snapshot: what its creation warned of, where a live path is read, and how
    finishing it ended. *)
Record volume_snapshot := {
  vs_warnings : list str; vs_map : path -> option path; vs_complete : result str unit }.

Record FileInfo := { fi_path : str; fi_size : Z }.

Section archiver.
Context `{ArchiveLib}.
Variable path_of : str -> path.                                  (* Path::new *)
Variable vss_create : list path -> result str volume_snapshot.
Variable catalog_json : list FileInfo -> option bytes.           (* serde_json::to_vec *)

(** Network shares cannot be snapshotted. *)
Definition is_local (source : str) : bool :=
  negb (starts_with [92; 92] source) || starts_with [92; 92; 63; 92] source.

Definition with_warnings (ws : list str) (r : ArchiveReport) : ArchiveReport :=
  {| ar_entries := ar_entries r; ar_skipped := ar_skipped r; ar_warnings := ws ++ ar_warnings r |}.

(** The snapshot, if one could be made, and the warnings so far. *)
Definition take_snapshot (sources : list str) : option volume_snapshot * list str :=
  match map path_of (List.filter is_local sources) with
  | [] => (None, [])
  | local =>
      match vss_create local with
      | Ok snap => (Some snap, vs_warnings snap)
      | Err e => (None, [L "could not create a VSS snapshot, reading files live, so locked files are skipped: " ++ e])
      end
  end.

Definition archive_sources (t : tree) (sources excludes : list str) (out : ChannelWriter) :
    result io_error archiving :=
  let '(snapshot, warnings) := take_snapshot sources in
  let read_root p := snapshot ≫= fun s => vs_map s p in
  let warnings := warnings ++ match snapshot with
    | Some snap => match vs_complete snap with
                   | Err e => [L "finishing the VSS snapshot: " ++ e]
                   | Ok _ => [] end
    | None => [] end in
  v ← write_tar t (map path_of sources) excludes read_root out;
  Ok (Archiving (with_warnings warnings (av_report v)) (av_out v)).

Definition CATALOG_NAME : str := L "catalog.json.blob".
Definition PARTIAL_ARCHIVE : str :=
  L "building the file archive failed; refusing to upload a partial archive".

(** What [start_archiver] leaves the uploader with, once the thread has ended; [sent] is
    what got through the channel before a failure, [room] how much the uploader takes. *)
Record archiver := {
  ac_reader : ChannelReader; ac_catalog : option (str * bytes);
  ac_result : result io_error ArchiveReport }.

Definition start_archiver (t : tree) (sources excludes : list str) (room : option nat)
    (sent : list bytes) : archiver :=
  match archive_sources t sources excludes (open_writer room) with
  | Ok v =>
      {| ac_reader := channel_reader_with_failure (tx_sent (cw_tx (av_out v))) (Some true)
                        PARTIAL_ARCHIVE;
         ac_catalog := (fun json => (CATALOG_NAME, json)) <$>
           catalog_json (map (fun e => {| fi_path := e.1; fi_size := e.2 |})
                           (ar_entries (av_report v)));
         ac_result := Ok (av_report v) |}
  | Err e =>
      {| ac_reader := channel_reader_with_failure sent (Some false) PARTIAL_ARCHIVE;
         ac_catalog := None; ac_result := Err e |}
  end.

(** Where the run reads from. *)
Definition run_outcomes (t : tree) (sources excludes : list str) : list fate :=
  outcomes t excludes (fun p => (take_snapshot sources).1 ≫= fun s => vs_map s p)
    (map path_of sources).

Lemma archive_sources_ok t sources excludes room v :
  archive_sources t sources excludes (open_writer room) = Ok v ->
  let os := run_outcomes t sources excludes in
  ar_entries (av_report v) = ar_entries (report_of os) /\
  ar_skipped (av_report v) = ar_skipped (report_of os) /\
  Forall (fun m => tar_name_ok m.1 = true) (members_of os) /\
  map (fun m => (m.1.1, m.2)) (written_of os) = members_of os /\
  concat (tx_sent (cw_tx (av_out v))) = tar_written (written_of os).
Proof.
  unfold archive_sources, run_outcomes. destruct (take_snapshot sources) as [snapshot ws]. cbn [fst].
  intros (v1 & E & [= <-])%result_bind_ok.
  destruct (write_tar_ok _ _ _ _ _ _ E) as (Hr & HF & Hall & Ht & Hb). cbn [av_report av_out].
  unfold taken in Ht. rewrite Hb, app_nil_r in Ht. cbn in Ht. rewrite Hr. auto.
Qed.

(** C23: a file backup uploads all the archiver wrote or fails: when the archiver succeeded, the
    uploader reads, for every file it came across that was neither skipped with a reason nor
    excluded, the file's header with the size its metadata had and then its data, and the
    report and the catalog name those files; this is a tar from which those files are read
    back with their data, if no file changed its size while it was read; when the archiver
    failed, the uploader reads an error and never an end of file. *)
Theorem file_archive_whole `{!ArchiveLaws} t sources excludes room sent n fuel :
  (0 < n)%nat ->
  let a := start_archiver t sources excludes room sent in
  let os := run_outcomes t sources excludes in
  (length (reader_left (ac_reader a)).1 < fuel)%nat ->
  match ac_result a with
  | Ok report =>
      drain fuel n (ac_reader a) = Some (Ok (tar_written (written_of os))) /\
      map (fun m => (m.1.1, m.2)) (written_of os) = members_of os /\
      (sizes_kept os ->
       tar_members (tar_written (written_of os)) = Ok (map (fun m => Ok (member_of m)) (members_of os))) /\
      map fst (ar_entries report) = map fst (members_of os) /\
      ar_skipped report = ar_skipped (report_of os)
  | Err _ => exists e, drain fuel n (ac_reader a) = Some (Err e)
  end.
Proof.
  intros Hn a os Hf. rewrite (drain_all fuel n (ac_reader a) Hn Hf). subst a os.
  unfold start_archiver in *.
  destruct (archive_sources t sources excludes (open_writer room)) as [v|e] eqn:E; cbn.
  - destruct (archive_sources_ok _ _ _ _ _ E) as (He & Hs & HF & Hw & Ht).
    rewrite Ht. split_and!; auto.
    + intros Hk. rewrite kept_written by exact Hk. apply tar_inverse, HF.
    + rewrite He. clear. induction (run_outcomes t sources excludes) as [|[] os IH]; cbn in *; auto.
      rewrite IH. reflexivity.
  - eauto.
Qed.

End archiver.

(** ** A snapshot run is a live run *)

(** A walk below a root, with paths relative to it. *)
Definition rebase (root : path) (e : result walk_error (path * file_kind)) :
    result walk_error (path * file_kind) :=
  match e with
  | Ok (rel, kind) => Ok (root ++ rel, kind)
  | Err e => Err {| we_path := (fun rel => root ++ rel) <$> we_path e; we_io := we_io e;
                    we_text := we_text e |}
  end.

(** The tree at [read] in one file system is the tree at [live] in another. *)
Record mirrors (t t' : tree) (read live : path) : Prop := {
  mi_metadata : te_metadata t read = te_metadata t' live;
  mi_walk : exists rels, te_walk t read = map (rebase read) rels /\
                         te_walk t' live = map (rebase live) rels;
  mi_open : forall rel, te_open t (read ++ rel) = te_open t' (live ++ rel);
  mi_attributes : forall rel, te_attributes t (read ++ rel) = te_attributes t' (live ++ rel) }.

Lemma strip_path_app base rel : strip_path base (base ++ rel) = Some rel.
Proof. induction base; cbn; [reflexivity|]. rewrite bool_decide_true by reflexivity. assumption. Qed.

Lemma to_live_app live_root read rel : to_live live_root read (read ++ rel) = live_root ++ rel.
Proof. unfold to_live. rewrite strip_path_app. destruct rel; rewrite ?app_nil_r; reflexivity. Qed.

Section snapshot.
Context `{ArchiveLib}.

Lemma file_outcome_mirror t t' read live rel p name : mirrors t t' read live ->
  file_outcome t (read ++ rel) p name = file_outcome t' (live ++ rel) p name.
Proof.
  intros Hm. unfold file_outcome, cloud_only.
  rewrite (mi_open _ _ _ _ Hm), (mi_attributes _ _ _ _ Hm). reflexivity.
Qed.

Lemma entry_outcome_mirror t t' pats live read e : mirrors t t' read live ->
  entry_outcome t pats live read (rebase read e) = entry_outcome t' pats live live (rebase live e).
Proof.
  intros Hm. destruct e as [[rel kind]|e]; cbn.
  - rewrite !to_live_app. destruct kind; try reflexivity.
    rewrite (file_outcome_mirror _ _ _ _ _ _ _ Hm). reflexivity.
  - destruct (we_path e); cbn; rewrite ?to_live_app; reflexivity.
Qed.

(** A run that reads its sources from shadow copies writes the same archive and the
    same report, to the byte and in every case of failure, as a run that reads the live
    files, when the shadow copies have the same files. *)
Theorem snapshot_run_same t t' sources excludes read_root out :
  Forall (fun live => mirrors t t' (default live (read_root live)) live) sources ->
  write_tar t sources excludes read_root out = write_tar t' sources excludes (fun _ => None) out.
Proof.
  intros HF. apply write_tar_same. unfold outcomes. f_equal.
  induction HF as [|live sources Hm HF IH]; cbn [map]; [reflexivity|]. rewrite IH. f_equal.
  unfold source_outcomes. cbn [default]. rewrite (mi_metadata _ _ _ _ Hm).
  destruct (te_metadata t' live) as [[]|]; try reflexivity.
  - pose proof (file_outcome_mirror _ _ _ _ [] live (default (L "file") (file_name live)) Hm) as Hf.
    rewrite !app_nil_r in Hf. rewrite Hf. reflexivity.
  - destruct (mi_walk _ _ _ _ Hm) as (rels & -> & ->). rewrite !map_map. apply map_ext.
    intros e. apply entry_outcome_mirror, Hm.
Qed.

End snapshot.

(** ** Reading and extracting an archive ([restore.rs]) *)

Section extract.
Context `{ArchiveLib}.
Variable unpack_in : str -> result str bool.       (* false: the path would leave the folder *)

Fixpoint list_members (ms : list (result str tar_member)) : result str (list FileInfo) :=
  match ms with
  | [] => Ok []
  | m :: ms =>
      m ← m;
      rest ← list_members ms;
      Ok (if tm_is_dir m then rest
          else {| fi_path := slashes (tm_path m); fi_size := tm_size m |} :: rest)
  end.

Definition list_tar (b : bytes) : result str (list FileInfo) :=
  ms ← tar_members b; list_members ms.

(** The loop of [extract], on the files of the destination by their path below it. *)
Fixpoint extract_members (selected : option (list str)) (ms : list (result str tar_member))
    (files : gmap str bytes) (count : Z) : result str Z * gmap str bytes :=
  match ms with
  | [] => (Ok count, files)
  | Err e :: _ => (Err e, files)
  | Ok m :: ms =>
      if match selected with
         | Some set => negb (bool_decide (slashes (tm_path m) ∈ set))
         | None => false
         end
      then extract_members selected ms files count
      else match unpack_in (tm_path m) with
           | Err e => (Err e, files)
           | Ok false => extract_members selected ms files count
           | Ok true =>
               extract_members selected ms
                 (if tm_is_dir m then files else <[tm_path m := tm_data m]> files) (count + 1)
           end
  end.

Definition extract (b : bytes) (selected : option (list str)) (dest : result str unit)
    (files : gmap str bytes) : result str Z * gmap str bytes :=
  match (_ ← dest; tar_members b) with
  | Err e => (Err e, files)
  | Ok ms => extract_members selected ms files 0
  end.

(** What a restore of these files leaves in the folder. *)
Definition restored_files (selected : option (list str)) (ms : list (str * bytes))
    (files : gmap str bytes) : gmap str bytes :=
  fold_left (fun files m =>
    if match selected with Some set => bool_decide (slashes m.1 ∈ set) | None => true end
    then <[m.1 := m.2]> files else files) ms files.

Definition chosen (selected : option (list str)) (ms : list (str * bytes)) : list (str * bytes) :=
  List.filter (fun m =>
    match selected with Some set => bool_decide (slashes m.1 ∈ set) | None => true end) ms.

Lemma extract_members_all selected ms files count :
  (forall name, In name (map fst ms) -> unpack_in name = Ok true) ->
  extract_members selected (map (fun m => Ok (member_of m)) ms) files count =
  (Ok (count + Z.of_nat (length (chosen selected ms))), restored_files selected ms files).
Proof.
  revert files count; induction ms as [|m ms IH]; intros files count Hu; cbn [map].
  { cbn. rewrite Z.add_0_r. reflexivity. }
  cbn [extract_members member_of tm_path tm_is_dir tm_data].
  assert (forall name, In name (map fst ms) -> unpack_in name = Ok true) as Hu'.
  { intros name Hin. apply Hu. right. exact Hin. }
  unfold chosen, restored_files. cbn [List.filter fold_left].
  rewrite (Hu m.1) by (left; reflexivity).
  destruct selected as [set|]; [destruct (bool_decide _)|]; cbn [negb];
    rewrite IH by exact Hu'; unfold chosen, restored_files; cbn [length];
    first [reflexivity | do 2 f_equal; lia].
Qed.

Lemma restored_lookup ms : NoDup (map fst ms) -> forall selected files name data,
  (name, data) ∈ chosen selected ms -> restored_files selected ms files !! name = Some data.
Proof.
  assert (Hkeep : forall ms selected files name, name ∉ map fst ms ->
    restored_files selected ms files !! name = files !! name).
  { clear. induction ms as [|m ms IH]; intros selected files name Hni; [reflexivity|].
    cbn in Hni. apply not_elem_of_cons in Hni as [Hne Hni].
    unfold restored_files in *. cbn [fold_left]. rewrite IH by exact Hni.
    destruct (match selected with Some _ => _ | None => _ end); [|reflexivity].
    rewrite lookup_insert_ne; auto. }
  induction ms as [|m ms IH]; intros Hnd selected files name data Hin; [inversion Hin|].
  cbn [map] in Hnd. apply NoDup_cons in Hnd as [Hni Hnd].
  unfold restored_files. cbn [fold_left]. unfold chosen in Hin. cbn [List.filter] in Hin.
  destruct (match selected with Some _ => _ | None => _ end) eqn:Es.
  - apply elem_of_cons in Hin as [Heq|Hin].
    + subst m. cbn in *. fold (restored_files selected ms (<[name:=data]> files)).
      rewrite (Hkeep ms selected) by exact Hni. apply lookup_insert_eq.
    + apply IH; assumption.
  - apply IH; assumption.
Qed.

Lemma lookup_restored selected ms files name data :
  restored_files selected ms files !! name = Some data ->
  files !! name = Some data \/ (name, data) ∈ chosen selected ms.
Proof.
  revert files; induction ms as [|m ms IH]; intros files; [auto|].
  unfold restored_files, chosen. cbn [fold_left List.filter].
  destruct (match selected with Some _ => _ | None => _ end); intros Hl; apply IH in Hl;
    [|exact Hl]. destruct Hl as [Hl|Hl]; [|right; right; exact Hl].
  destruct m as [n d]. cbn in Hl. apply lookup_insert_Some in Hl as [[-> ->]|[_ Hl]]; [|auto].
  right. left.
Qed.

(** The extraction of a file backup: from the archive the uploader was given, a restore
    extracts exactly the chosen files, each with the contents that were read at backup
    time, when no two files of the archive have the same name; and a listing shows
    every file. *)
Theorem file_restore_whole `{!ArchiveLaws} ms selected :
  Forall (fun m => tar_name_ok m.1 = true) ms -> NoDup (map fst ms) ->
  (forall name, In name (map fst ms) -> unpack_in name = Ok true) ->
  list_tar (tar_of ms) =
    Ok (map (fun m => {| fi_path := slashes m.1; fi_size := Z.of_nat (length m.2) |}) ms) /\
  exists files, extract (tar_of ms) selected (Ok tt) ∅
    = (Ok (Z.of_nat (length (chosen selected ms))), files) /\
    forall name data, files !! name = Some data <-> (name, data) ∈ chosen selected ms.
Proof.
  intros HF Hnd Hu. split.
  - unfold list_tar. rewrite tar_inverse by exact HF. cbn.
    clear. induction ms as [|m ms IH]; cbn; [reflexivity|]. rewrite IH. reflexivity.
  - exists (restored_files selected ms ∅). split.
    + unfold extract. rewrite tar_inverse by exact HF. cbn.
      rewrite extract_members_all by exact Hu. reflexivity.
    + intros name data. split.
      * intros [Hl|Hl]%lookup_restored; [|exact Hl]. rewrite lookup_empty in Hl. discriminate.
      * apply restored_lookup, Hnd.
Qed.

End extract.

(** ** Names in the archive *)

(** Components as a file system has them: without separators. *)
Definition part_ok (s : str) : Prop := has_char 47 s = false /\ has_char 92 s = false.

Lemma show_normals names : show_path (map Normal names) = join [92] names.
Proof.
  induction names as [|n names IH]; [reflexivity|]. destruct names as [|n' names]; [reflexivity|].
  change (map Normal (n :: n' :: names)) with (Normal n :: Normal n' :: map Normal names).
  cbn [show_path join]. cbn [show_path map join] in IH. rewrite <- IH. reflexivity.
Qed.

Lemma slashes_id s : has_char 92 s = false -> slashes s = s.
Proof.
  induction s as [|c s IH]; [reflexivity|]. rewrite has_char_cons.
  intros [Hc Hs]%orb_false_iff. cbn [slashes map]. rewrite Z.eqb_sym, Hc. f_equal. apply IH, Hs.
Qed.

Lemma slashes_join names : Forall part_ok names -> slashes (join [92] names) = join [47] names.
Proof.
  induction 1 as [|n names [_ Hn] HF IH]; [reflexivity|].
  destruct names as [|n' names]; [apply slashes_id, Hn|]. cbn [join].
  unfold slashes in *. rewrite !map_app. cbn [join] in IH. rewrite IH.
  f_equal. apply slashes_id, Hn.
Qed.

Lemma app_char_inj c (a b x y : str) :
  has_char c a = false -> has_char c b = false -> a ++ c :: x = b ++ c :: y -> a = b /\ x = y.
Proof.
  intros Ha Hb E. apply (f_equal (split_once c)) in E.
  rewrite !split_once_at in E by assumption. injection E. auto.
Qed.

Lemma join_inj names names' :
  Forall part_ok names -> Forall part_ok names' -> names <> [] -> names' <> [] ->
  join [47] names = join [47] names' -> names = names'.
Proof.
  intros HF; revert names'; induction HF as [|n names [Hn _] HF IH]; intros names' HF' Hne Hne' E;
    [congruence|].
  destruct HF' as [|n' names' [Hn' _] HF']; [congruence|].
  destruct names as [|m names], names' as [|m' names']; cbn [join] in E.
  - congruence.
  - apply (f_equal (has_char 47)) in E. rewrite Hn, has_char_app in E. cbn in E.
    rewrite orb_true_r in E. discriminate.
  - apply (f_equal (has_char 47)) in E. rewrite Hn', has_char_app in E. cbn in E.
    rewrite orb_true_r in E. discriminate.
  - apply app_char_inj in E as [-> E]; [|assumption..].
    f_equal. apply IH; auto; discriminate.
Qed.

Lemma archive_name_join base n names : Forall part_ok (n :: names) ->
  archive_name (base ++ [Normal n]) (base ++ [Normal n] ++ map Normal names) = join [47] (n :: names).
Proof.
  intros HF. unfold archive_name, parent. rewrite last_snoc. cbn [default].
  rewrite removelast_last. rewrite strip_path_app. cbn [default].
  transitivity (slashes (show_path (map Normal (n :: names)))); [reflexivity|].
  rewrite show_normals. apply slashes_join, HF.
Qed.

(** The name of a file in the archive is the name of the source folder and the path
    below it: two files get the same name exactly when those are equal, so the files of
    two sources whose folders have the same name, on different drives or in different
    folders, are stored under the same names. *)
Theorem archive_names_collide base base' n n' names names' :
  Forall part_ok (n :: names) -> Forall part_ok (n' :: names') ->
  archive_name (base ++ [Normal n]) (base ++ [Normal n] ++ map Normal names) =
  archive_name (base' ++ [Normal n']) (base' ++ [Normal n'] ++ map Normal names')
  <-> n = n' /\ names = names'.
Proof.
  intros HF HF'. rewrite !archive_name_join by assumption. split.
  - intros E%join_inj; try assumption; try discriminate. injection E. auto.
  - intros [-> ->]. reflexivity.
Qed.

(** ** A simple archive format *)

Module SampleTar.

Definition unary (n : nat) : bytes := replicate n x01 ++ [x00].

Fixpoint read_unary (b : bytes) : option (nat * bytes) :=
  match b with
  | x00 :: b => Some (0%nat, b)
  | _ :: b => '(n, b) ← read_unary b; Some (S n, b)
  | [] => None
  end.

Definition encode_file (name : str) (size : nat) (data : bytes) : bytes :=
  unary (length name) ++ map Z_u8 name ++ unary size ++ data.

Fixpoint read_files (fuel : nat) (b : bytes) : option (list tar_member) :=
  match fuel, b with
  | _, [] => Some []
  | O, _ => None
  | S fuel, _ =>
      '(n, b) ← read_unary b;
      let name := map u8_Z (take n b) in
      '(k, b) ← read_unary (drop n b);
      rest ← read_files fuel (drop k b);
      Some (member_of (name, take k b) :: rest)
  end.

#[export] Instance lib : ArchiveLib := {|
  tar_name_ok := forallb (fun c => (0 <=? c) && (c <? 256));
  tar_pieces := fun name size data => [encode_file name (Z.to_nat size) data];
  tar_end := [];
  tar_members := fun b => match read_files (length b) b with
                          | Some ms => Ok (map Ok ms) | None => Err (L "bad archive") end;
  glob_pattern := fun _ => None |}.

Lemma read_unary_app n b : read_unary (unary n ++ b) = Some (n, b).
Proof. induction n as [|n IH]; [reflexivity|]. cbn. unfold unary in IH. rewrite IH. reflexivity. Qed.

Lemma name_back name : tar_name_ok name = true -> map u8_Z (map Z_u8 name) = name.
Proof.
  cbn. induction name as [|c name IH]; cbn; [reflexivity|].
  intros [[Hl Hu]%andb_true_iff Hn]%andb_true_iff. rewrite IH by exact Hn.
  rewrite u8_Z_u8. f_equal. apply Z.mod_small. lia.
Qed.

Lemma read_files_back ms fuel :
  Forall (fun m => tar_name_ok m.1 = true) ms ->
  (length (concat (map (fun m => encode_file m.1 (length m.2) m.2) ms)) <= fuel)%nat ->
  read_files fuel (concat (map (fun m => encode_file m.1 (length m.2) m.2) ms)) = Some (map member_of ms).
Proof.
  intros HF; revert fuel; induction HF as [|[name data] ms Hn HF IH]; intros fuel Hf.
  { destruct fuel; reflexivity. }
  cbn [map concat fst snd] in *.
  set (rest := concat (map (fun m => encode_file m.1 (length m.2) m.2) ms)) in *.
  assert (Hlen : (length rest < fuel)%nat).
  { rewrite length_app in Hf. unfold encode_file, unary in Hf. rewrite !length_app in Hf.
    cbn in Hf. lia. }
  destruct fuel as [|fuel]; [lia|]. unfold encode_file at 1. rewrite <- !app_assoc.
  destruct (unary (length name) ++ _) as [|x b] eqn:Eb.
  { exfalso. destruct name; discriminate. }
  cbn [read_files]. rewrite <- Eb, read_unary_app. cbn [mbind option_bind].
  rewrite <- (length_map Z_u8 name), take_app_length, drop_app_length, read_unary_app.
  cbn [mbind option_bind]. rewrite take_app_length, drop_app_length.
  rewrite IH by lia. cbn [mbind option_bind]. rewrite name_back by exact Hn. reflexivity.
Qed.

#[export] Instance laws : ArchiveLaws.
Proof.
  constructor. intros ms HF. cbn. unfold tar_of.
  unfold tar_written. cbn. rewrite app_nil_r, map_map.
  rewrite (map_ext _ (fun m => encode_file m.1 (length m.2) m.2))
    by (intros; cbn; rewrite app_nil_r, Nat2Z.id; reflexivity).
  rewrite read_files_back by (assumption || reflexivity). rewrite map_map. reflexivity.
Qed.

(** Two folders called [d], each with a file [f]. *)
Definition one_file (drive : string) (data : bytes) (p : path) : option bytes :=
  if bool_decide (p = [PrefixC (L drive); RootDir; Normal (L "d"); Normal (L "f")])
  then Some data else None.

Definition sample_tree : tree := {|
  te_metadata := fun _ => Ok IsDir;
  te_walk := fun root => [Ok (root, IsDir); Ok (root ++ [Normal (L "f")], IsFile)];
  te_attributes := fun _ => None;
  te_open := fun p =>
    match one_file "C:" [x01] p, one_file "E:" [x02] p with
    | Some d, _ | None, Some d =>
        Ok {| fd_len := Some 1; fd_stat := Ok 1; fd_data := d; fd_error := None |}
    | None, None => Err (L "access denied")
    end |}.

Definition root_of (drive : string) : path := [PrefixC (L drive); RootDir; Normal (L "d")].

End SampleTar.
Import SampleTar.

Definition sample_path (s : str) : path := root_of (if str_eqb s (L "c") then "C:" else "E:").
Definition no_vss (_ : list path) : result str volume_snapshot := Err (L "no VSS").

Lemma file_archive_whole_witness :
  let a := start_archiver sample_path no_vss (fun _ => None) sample_tree [L "c"] [] None [] in
  exists report tar, ac_result a = Ok report /\ drain 100 7 (ac_reader a) = Some (Ok tar) /\
  tar_members tar = Ok [Ok (member_of (L "d/f", [x01]))].
Proof.
  intros a.
  pose proof (file_archive_whole sample_path no_vss (fun _ => None) sample_tree [L "c"] [] None []
    7 100 ltac:(lia)) as Hw. cbv zeta in Hw. fold a in Hw.
  assert (length (reader_left (ac_reader a)).1 < 100)%nat as Hf by (vm_compute; lia).
  specialize (Hw Hf). clear Hf.
  destruct (ac_result a) as [report|e] eqn:E; [|exfalso; vm_compute in E; discriminate E].
  destruct Hw as (Hd & _ & Hm & _ & _). eexists report, _. split_and!; [exact eq_refl | exact Hd|].
  rewrite Hm; [vm_compute; reflexivity|]. unfold sizes_kept. vm_compute. repeat constructor.
Defined.

(** A log of one byte that grows by two while the archiver reads it live, and then another
    file. *)
Definition growing_tree : tree := {|
  te_metadata := te_metadata sample_tree;
  te_walk := fun root => [Ok (root ++ [Normal (L "a")], IsFile); Ok (root ++ [Normal (L "f")], IsFile)];
  te_attributes := fun _ => None;
  te_open := fun p =>
    if bool_decide (file_name p = Some (L "a"))
    then Ok {| fd_len := Some 1; fd_stat := Ok 1; fd_data := [x07; x07; x07]; fd_error := None |}
    else Ok {| fd_len := Some 1; fd_stat := Ok 1; fd_data := [x08]; fd_error := None |} |}.

(** The run succeeds, reports both files and skips nothing, and the uploader reads the archive
    to its end; but the header of the log has the old size, and a reader, here of the simple
    format, does not find the file behind the log. *)
Example growing_file_corrupts :
  let a := start_archiver sample_path no_vss (fun _ => None) growing_tree [L "c"] [] None [] in
  (exists report, ac_result a = Ok report /\ ar_entries report = [(L "d/a", 1); (L "d/f", 1)] /\
                  ar_skipped report = []) /\
  exists tar, drain 100 7 (ac_reader a) = Some (Ok tar) /\
    match tar_members tar with
    | Ok members => In (Ok (member_of (L "d/f", [x08]))) members -> False
    | Err _ => True
    end.
Proof.
  vm_compute. split; [eexists; split_and!; reflexivity|].
  eexists. split; [reflexivity|]. vm_compute. intuition discriminate.
Qed.

(** Every folder has one file with the same contents. *)
Definition uniform_tree : tree := {|
  te_metadata := te_metadata sample_tree; te_walk := te_walk sample_tree;
  te_attributes := fun _ => None;
  te_open := fun _ => Ok {| fd_len := Some 1; fd_stat := Ok 1; fd_data := [x07]; fd_error := None |} |}.

Lemma snapshot_run_same_witness :
  write_tar uniform_tree [root_of "C:"] [] (fun _ => Some [Normal (L "shadow")]) (open_writer None)
  = write_tar uniform_tree [root_of "C:"] [] (fun _ => None) (open_writer None).
Proof.
  apply (snapshot_run_same uniform_tree uniform_tree [root_of "C:"] []
    (fun _ => Some [Normal (L "shadow")])).
  constructor; [|constructor]. cbn [default]. split; [reflexivity | | reflexivity..].
  exists [Ok ([], IsDir); Ok ([Normal (L "f")], IsFile)]. split; reflexivity.
Defined.

Lemma file_restore_whole_witness : exists files,
  extract (fun _ => Ok true) (tar_of [(L "d/f", [x01]); (L "d/g", [x02])]) (Some [L "d/g"]) (Ok tt) ∅
    = (Ok 1, files) /\
  (forall name data, files !! name = Some data <->
     (name, data) ∈ chosen (Some [L "d/g"]) [(L "d/f", [x01]); (L "d/g", [x02])]).
Proof.
  refine (proj2 (file_restore_whole (fun _ => Ok true) [(L "d/f", [x01]); (L "d/g", [x02])]
    (Some [L "d/g"]) _ _ _)).
  - repeat constructor.
  - apply (bool_decide_unpack _). vm_compute. exact I.
  - reflexivity.
Defined.

Lemma archive_names_collide_witness :
  archive_name (root_of "C:") (root_of "C:" ++ [Normal (L "f")]) =
  archive_name (root_of "E:") (root_of "E:" ++ [Normal (L "f")]).
Proof.
  apply (archive_names_collide [PrefixC (L "C:"); RootDir] [PrefixC (L "E:"); RootDir]
    (L "d") (L "d") [L "f"] [L "f"]); [..|split; reflexivity]; repeat constructor.
Defined.

(** Both files are backed up, and a restore leaves only the second. *)
Example same_named_folders_lose_a_file :
  let a := start_archiver sample_path no_vss (fun _ => None) sample_tree [L "c"; L "e"] [] None [] in
  (exists report, ac_result a = Ok report /\ length (ar_entries report) = 2%nat /\
                  ar_skipped report = []) /\
  exists tar, drain 100 7 (ac_reader a) = Some (Ok tar) /\
    (extract (fun _ => Ok true) tar None (Ok tt) ∅).2 = {[ L "d/f" := [x02] ]}.
Proof.
  vm_compute. split; [eexists; split_and!; reflexivity|]. eexists. split; reflexivity.
Qed.
