(* ===== verification/Transport.v ===== *)
(** The local-socket transport between GUI and engine
    ([pbsgui-ipc/src/transport.rs]).

    One JSON message a line: the client sends one request, the server answers with a
    stream of replies and closes.  The functions are generic in the types of messages,
    as in the source; the connection is the one of [Frames]. *)

From Stdlib Require Import ZArith Lia Strings.Byte Ascii String.
From stdpp Require Import base tactics option numbers list.
From S2P Require Import Prelude Text Base Channels Frames.
Open Scope Z_scope.

Definition NL : byte := x0a.

(** serde_json for one type of messages, and the check of [read_line] that a line is
    UTF-8. *)
Class MessageJson (A : Type) := {
  to_vec : A -> result io_error bytes;
  line_text : bytes -> result io_error str;
  from_text : str -> result str A }.

(** A message is written on one line and read back from it, with or without the end of
    the line; a beginning of it is no message. *)
Class MessageLaws (A : Type) `{MessageJson A} := {
  msg_one_line : forall a b, to_vec a = Ok b -> b <> [] /\ ~ In NL b;
  msg_inverse : forall a b, to_vec a = Ok b -> forall e, e = [] \/ e = [NL] ->
    exists s, line_text (b ++ e) = Ok s /\ from_text (trim s) = Ok a;
  msg_partial : forall a b p q s, to_vec a = Ok b -> b = p ++ q -> p <> [] -> q <> [] ->
    line_text p = Ok s -> exists e, from_text (trim s) = Err e }.

(** [trait ErrorReply]. *)
Class ErrorReply (Rep : Type) := error_reply : str -> Rep.

(** The next line with its end, if there is one. *)
Fixpoint split_line (b : bytes) : option (bytes * bytes) :=
  match b with
  | [] => None
  | c :: b =>
      if Byte.eqb c NL then Some ([c], b)
      else '(l, r) ← split_line b; Some (c :: l, r)
  end.

Section transport.
Context {Req Rep : Type} `{MessageJson Req} `{MessageJson Rep} `{ErrorReply Rep}.

(** [AsyncBufReadExt::read_line]: [None] is end of file. *)
Definition read_line {A} `{MessageJson A} (r : reader) : result io_error (option str) * reader :=
  match split_line (r_bytes r) with
  | Some (line, rest) => (Some <$> line_text line, Reader rest (r_tail r))
  | None =>
      match r_tail r with
      | Some e => (Err e, Reader [] (Some e))
      | None => (if bool_decide (r_bytes r = []) then Ok None else Some <$> line_text (r_bytes r),
                 Reader [] None)
      end
  end.

(** One message and the end of its line. *)
Definition send_line {A} `{MessageJson A} (m : A) (w : writer) : result io_error unit * writer :=
  match to_vec m with
  | Err e => (Err e, w)
  | Ok line => conn_bind (write_all (line ++ [NL])) (fun _ => flush) w
  end.

(** [Responder::send]. *)
Definition responder_send (reply : Rep) (w : writer) : result io_error unit * writer :=
  send_line reply w.

(** [handle_connection]; the handler leaves the connection as its replies make it. *)
Definition handle_connection (handler : Req -> writer -> writer) (r : reader) (w : writer) :
    result io_error unit * writer :=
  match (read_line (A := Req) r).1 with
  | Err e => (Err e, w)
  | Ok None => (Ok tt, w)
  | Ok (Some line) =>
      match from_text (trim line) with
      | Ok request => (Ok tt, handler request w)
      | Err e => (Ok tt, (responder_send (error_reply (L "invalid request: " ++ e)) w).2)
      end
  end.

(** The loop of [send_request_typed], with the replies passed to [on_reply]; a line has
    at least a byte, so the length of what arrives is fuel enough. *)
Fixpoint read_replies (fuel : nat) (r : reader) : result io_error unit * list Rep :=
  match fuel with
  | O => (Ok tt, [])
  | S fuel =>
      match read_line (A := Rep) r with
      | (Err e, _) => (Err e, [])
      | (Ok None, _) => (Ok tt, [])
      | (Ok (Some buf), r) =>
          let reply := match from_text (trim buf) with
                       | Ok reply => reply
                       | Err e => error_reply (L "invalid reply: " ++ e)
                       end in
          let '(res, replies) := read_replies fuel r in (res, reply :: replies)
      end
  end.

(** [send_request_typed]; [answer] is the stream that comes back for what was sent. *)
Definition send_request_typed (request : Req) (connect : result io_error writer)
    (answer : bytes -> reader) : result io_error unit * list Rep :=
  match connect with
  | Err e => (Err e, [])
  | Ok w =>
      match send_line request w with
      | (Err e, _) => (Err e, [])
      | (Ok _, w) => let r := answer (w_sent w) in read_replies (S (length (r_bytes r))) r
      end
  end.

End transport.

(** ** Lines *)

Lemma split_line_at b rest : ~ In NL b -> split_line (b ++ NL :: rest) = Some (b ++ [NL], rest).
Proof.
  induction b as [|c b IH]; intros Hn; [reflexivity|]. cbn.
  destruct (Byte.eqb c NL) eqn:E; [apply byte_dec_bl in E; subst; destruct Hn; left; reflexivity|].
  rewrite IH by (intros Hin; apply Hn; right; exact Hin). reflexivity.
Qed.

Lemma split_line_none b : ~ In NL b -> split_line b = None.
Proof.
  induction b as [|c b IH]; intros Hn; [reflexivity|]. cbn.
  destruct (Byte.eqb c NL) eqn:E; [apply byte_dec_bl in E; subst; destruct Hn; left; reflexivity|].
  rewrite IH by (intros Hin; apply Hn; right; exact Hin). reflexivity.
Qed.

Lemma prefix_app_cases {A} (p b : list A) x r : p `prefix_of` b ++ x :: r ->
  (exists q, b = p ++ q) \/ (exists q, p = b ++ x :: q /\ q `prefix_of` r).
Proof.
  revert p; induction b as [|c b IH]; intros [|d p] Hp; cbn in *.
  - left. exists []. reflexivity.
  - right. pose proof (prefix_cons_inv_1 _ _ _ _ Hp) as ->. apply prefix_cons_inv_2 in Hp. eauto.
  - left. eauto.
  - pose proof (prefix_cons_inv_1 _ _ _ _ Hp) as ->. apply prefix_cons_inv_2 in Hp.
    destruct (IH p Hp) as [[q ->]|(q & -> & Hq)]; [left | right]; eauto.
Qed.

Section roundtrip.
Context {Req Rep : Type} `{MessageLaws Req} `{MessageLaws Rep} `{ErrorReply Rep}.

Lemma read_line_message {A} `{MessageLaws A} (a : A) b rest tl : to_vec a = Ok b ->
  exists s, read_line (A := A) (Reader (b ++ NL :: rest) tl) = (Ok (Some s), Reader rest tl) /\
            from_text (trim s) = Ok a.
Proof.
  intros Eb. destruct (msg_one_line a b Eb) as [_ Hn].
  destruct (msg_inverse a b Eb [NL] (or_intror eq_refl)) as (s & Es & Ef).
  exists s. split; [|exact Ef]. unfold read_line. cbn. rewrite split_line_at by exact Hn.
  rewrite Es. reflexivity.
Qed.

(** The lines of messages that can be written. *)
Definition line_of (m : Rep) : bytes :=
  match to_vec m with Ok b => b ++ [NL] | Err _ => [] end.

Definition writable (m : Rep) : Prop := exists b, to_vec m = Ok b.

(** What a client makes of a stream of replies that is cut somewhere: a beginning of
    the replies, then possibly an error reply for the line that was cut. *)
Definition heard (rs : list Rep) (got : list Rep) : Prop :=
  exists k, got = take k rs \/
            (k < length rs)%nat /\ exists e, got = take k rs ++ [error_reply e].

Lemma heard_cons m rs got : heard rs got -> heard (m :: rs) (m :: got).
Proof.
  intros (k & [->|(Hk & e & ->)]); exists (S k); cbn; [left; reflexivity|].
  right. split; [lia|]. eauto.
Qed.

Lemma read_replies_heard rs : Forall writable rs -> forall fuel p tl,
  p `prefix_of` concat (map line_of rs) -> (length p < fuel)%nat ->
  heard rs (read_replies fuel (Reader p tl)).2 /\
  (p = concat (map line_of rs) -> tl = None -> read_replies fuel (Reader p tl) = (Ok tt, rs)).
Proof.
  induction 1 as [|m rs [b Eb] HF IH]; intros fuel p tl Hp Hf.
  { cbn in Hp. apply prefix_nil_inv in Hp. subst p. destruct fuel; [cbn in Hf; lia|].
    destruct tl as [e|]; cbn; (split; [exists 0%nat; left; reflexivity|]); intros; congruence. }
  cbn [map concat] in *. assert (line_of m = b ++ [NL]) as El by (unfold line_of; rewrite Eb; reflexivity).
  rewrite El, <- app_assoc in *. cbn [app] in *. destruct fuel as [|fuel]; [lia|].
  destruct (msg_one_line m b Eb) as [Hne Hn].
  destruct (prefix_app_cases p b NL (concat (map line_of rs)) Hp) as [[q ->]|(q & -> & Hq)].
  - (* cut within the message *)
    assert (~ In NL p) as Hnp by (intros Hin; apply Hn, in_or_app; left; exact Hin).
    cbn [read_replies]. unfold read_line. cbn [r_bytes r_tail]. rewrite split_line_none by exact Hnp.
    split.
    + destruct tl as [e|]; [exists 0%nat; left; reflexivity|]. case_bool_decide as Hp0.
      { exists 0%nat. left. reflexivity. }
      destruct (line_text p) as [s|e] eqn:Es; cbn; [|exists 0%nat; left; reflexivity].
      destruct (read_replies fuel (Reader [] None)) as [res got] eqn:Er.
      assert (got = []) as ->.
      { destruct fuel; cbn in Er; congruence. }
      destruct q as [|c q].
      * rewrite app_nil_r in *. destruct (msg_inverse m p Eb [] (or_introl eq_refl)) as (s' & Es' & Ef).
        rewrite app_nil_r, Es in Es'. apply Ok_inj in Es' as <-. rewrite Ef.
        exists 1%nat. left. reflexivity.
      * destruct (msg_partial m _ p (c :: q) s Eb eq_refl Hp0 ltac:(discriminate) Es) as [e Ee].
        rewrite Ee. exists 0%nat. right. split; [cbn; lia|]. exists (L "invalid reply: " ++ e).
        reflexivity.
    + intros E. exfalso. apply (f_equal length) in E. rewrite !length_app in E.
      cbn [length] in E. lia.
  - cbn [read_replies]. destruct (read_line_message m b q tl Eb) as (s & Er & Ef). rewrite Er, Ef.
    destruct (IH fuel q tl Hq) as [Hh Hall]; [rewrite length_app in Hf; cbn in Hf; lia|].
    destruct (read_replies fuel (Reader q tl)) as [res got]. cbn [snd] in *. split.
    + apply heard_cons, Hh.
    + intros E Htl. apply app_inv_head in E. injection E as E. specialize (Hall E Htl).
      congruence.
Qed.

(** A request and its replies over a connection: the server's handler gets exactly the
    request the client sent, whatever follows it on the connection; and wherever the
    stream of replies breaks off, the client is passed a beginning of the replies as
    they were sent, then at most an error reply for a line that was cut, and all of
    them when the server closed the connection after the last. *)
Theorem ipc_roundtrip (q : Req) (rs : list Rep) bq extra tl handler w w0 p tl' :
  to_vec q = Ok bq -> Forall writable rs -> p `prefix_of` concat (map line_of rs) ->
  handle_connection handler (Reader (bq ++ NL :: extra) tl) w = (Ok tt, handler q w) /\
  heard rs (send_request_typed q (Ok (Writer w0 None true)) (fun _ => Reader p tl')).2 /\
  (p = concat (map line_of rs) -> tl' = None ->
   send_request_typed q (Ok (Writer w0 None true)) (fun _ => Reader p tl') = (Ok tt, rs)).
Proof.
  intros Eq HF Hp.
  assert (Hsend : send_request_typed q (Ok (Writer w0 None true)) (fun _ => Reader p tl')
    = read_replies (S (length p)) (Reader p tl')).
  { unfold send_request_typed, send_line. rewrite Eq. reflexivity. }
  split; [|rewrite Hsend; apply read_replies_heard; auto; lia].
  unfold handle_connection. destruct (read_line_message q bq extra tl Eq) as (s & -> & Ef).
  cbn. rewrite Ef. reflexivity.
Qed.

End roundtrip.

(** ** A small protocol *)

Module SampleMessages.

Definition digit (b : bool) : bytes := if b then [x31] else [x30].

#[export] Instance json : MessageJson bool := {|
  to_vec := fun b => Ok (digit b);
  line_text := fun b => Ok (map u8_Z b);
  from_text := fun s => if str_eqb s (L "1") then Ok true
                        else if str_eqb s (L "0") then Ok false else Err (L "not a digit") |}.

#[export] Instance laws : MessageLaws bool.
Proof.
  split.
  - intros [] b [= <-]; (split; [discriminate|]); intros [E|[]]; discriminate.
  - intros [] b [= <-] e [->| ->]; eexists; (split; [reflexivity | vm_compute; reflexivity]).
  - intros a b p q s E Hb Hp Hq _. apply Ok_inj in E as <-. exfalso.
    apply (f_equal length) in Hb. rewrite length_app in Hb.
    destruct p, q; cbn in *; try congruence. destruct a; cbn in Hb; lia.
Qed.

#[export] Instance error : ErrorReply bool := fun _ => false.

End SampleMessages.
Import SampleMessages.

Lemma ipc_roundtrip_witness :
  handle_connection (fun (q : bool) w => Writer (digit (negb q)) None true)
    (Reader (digit true ++ [NL]) None) (Writer [] None true) = (Ok tt, Writer (digit false) None true) /\
  send_request_typed (Rep := bool) true (Ok (Writer [] None true))
    (fun _ => Reader (concat (map line_of [true; false])) None) = (Ok tt, [true; false]).
Proof.
  destruct (ipc_roundtrip true [true; false] (digit true) [] None
    (fun (q : bool) w => Writer (digit (negb q)) None true) (Writer [] None true) []
    (concat (map line_of [true; false])) None) as (Hs & _ & Hall).
  - reflexivity.
  - repeat constructor; eexists; reflexivity.
  - reflexivity.
  - split; [exact Hs | exact (Hall eq_refl eq_refl)].
Defined.
