(* ===== verification/Browse.v ===== *)
(** Requests that stream replies ([pbsgui-engine/src/handler.rs]), and restore
    destinations ([netdest.rs]).

    Browsing and restoring a job's files, the requests that run something and report
    on it as they go, and the test of a PBS server.  A request's answer is the list of
    the replies it sends; the GUI may go away at any of them. *)

From Stdlib Require Import ZArith Lia Strings.Byte Ascii String.
From stdpp Require Import base tactics option numbers list gmap.
From S2P Require Import Prelude Text Base Blob Repository HttpApi Session Chain Jobs Sched Stores Plan Runs Tsql Requests Export Files.
Open Scope Z_scope.

(** The replies of a request that reports progress; the fraction in percent. *)
Inductive stream_reply :=
| Accepted (job_id : str)
| Progress (percent : Z) (message : str)
| LogLine (line : str)
| Finished (success : bool) (message : str)
| Failed_with (message : str).

(** [Reply::is_terminal]. *)
Definition is_terminal (r : stream_reply) : bool :=
  match r with Finished _ _ | Failed_with _ => true | _ => false end.

(** ** Restore destinations *)

Definition BSLASH : Z := 92.

(** [\\server\share] of a path on a network share. *)
Definition unc_share_root (p : str) : option str :=
  let p := map (fun c => if c =? 47 then BSLASH else c) p in
  rest ← strip_prefix [BSLASH; BSLASH] p;
  match List.filter (fun s => negb (is_empty s)) (split_char BSLASH rest) with
  | server :: share :: _ => Some ([BSLASH; BSLASH] ++ server ++ [BSLASH] ++ share)
  | _ => None
  end.

Record DestCredentials := { dc_username : str; dc_password : str }.

Definition NO_ERROR : Z := 0.
Definition ERROR_ACCESS_DENIED : Z := 5.
Definition ERROR_BAD_NETPATH : Z := 53.
Definition ERROR_BAD_NET_NAME : Z := 67.
Definition ERROR_ALREADY_ASSIGNED : Z := 85.
Definition ERROR_SESSION_CREDENTIAL_CONFLICT : Z := 1219.
Definition ERROR_LOGON_FAILURE : Z := 1326.

(** What Windows answers: the connection to a share, making the folder, and creating
    the probe file in it. *)
Record dest_env := {
  dn_connect : str -> str -> str -> Z;          (* WNetAddConnection2W *)
  dn_mkdir : str -> result str unit;
  dn_probe : str -> result str unit }.

(** [DestConnection::connect]: the error by its code. *)
Definition dest_connect (env : dest_env) (share_root username password : str) : result str unit :=
  let err := dn_connect env share_root username password in
  if err =? NO_ERROR then Ok tt
  else if (err =? ERROR_LOGON_FAILURE) || (err =? ERROR_ACCESS_DENIED) then
    Err (L "access to " ++ share_root ++ L " was denied: the username or password was rejected, or that account lacks permission on the share")
  else if (err =? ERROR_BAD_NETPATH) || (err =? ERROR_BAD_NET_NAME) then
    Err (L "network path " ++ share_root ++ L " was not found (check the server and share name)")
  else if (err =? ERROR_SESSION_CREDENTIAL_CONFLICT) || (err =? ERROR_ALREADY_ASSIGNED) then
    Err (share_root ++ L " is already connected on this host with different credentials; disconnect it first (net use " ++ share_root ++ L " /delete)")
  else Err (L "could not connect to " ++ share_root ++ L " (Windows error " ++ dec err ++ L ")").

Definition validate_writable_dir (env : dest_env) (dir : str) : result str unit :=
  _ ← map_err (fun e => L "cannot create or reach the destination folder " ++ dir ++ L ": " ++ e ++
        L " (if it is a network path, provide credentials with access, or check the service account's rights on the share)")
      (dn_mkdir env dir);
  map_err (fun e => L "cannot write to the destination folder " ++ dir ++ L ": " ++ e ++
        L " (check the credentials or the account's permissions)") (dn_probe env dir).

(** The share that stays connected for the restore, if any. *)
Definition prepare_destination (env : dest_env) (destination : str)
    (creds : option DestCredentials) : result str (option str) :=
  conn ← match creds with
         | Some c =>
             root ← ok_or (unc_share_root destination)
               (L "destination credentials only apply to a network path like \\server\share\folder; '" ++ destination ++ L "' is not one");
             _ ← dest_connect env root (dc_username c) (dc_password c);
             Ok (Some root)
         | None => Ok None
         end;
  _ ← validate_writable_dir env destination;
  Ok conn.

(** ** Browsing and restoring files *)

Definition BACKUP_TYPE : str := L "host".

Record PbsContext := {
  pc_repo : Repository; pc_secret : str; pc_fingerprint : str; pc_backup_id : str;
  pc_crypt : option CryptConfig }.

Record SnapshotInfo := { si_backup_time : Z; si_size : option Z }.

Section browse.
Context `{DebugFmt} `{Base64} `{HashLib} `{ArchiveLib}.

Definition job_pbs_context (c : config_state) (job_id : str) : result str PbsContext :=
  job ← ok_or (js_get (c_jobs c) job_id) (L "no such job: " ++ job_id);
  _ ← match j_source job with
      | Jobs.Files _ _ _ => Ok tt
      | _ => Err (L "browsing and restore are only available for file backups for now")
      end;
  crypt ← (load_config (j_id job) (c_world c)).1;
  '(server_id, backup_id) ← match j_destination job with
    | Pbs server_id backup_id => Ok (server_id, backup_id)
    | Folder _ => Err (L "this job backs up to a folder, not PBS")
    end;
  server ← ok_or (js_get (c_pbs c) server_id) (L "the job's PBS server no longer exists");
  stored ← (secrets_get (pbs_secret_key server_id) (c_world c)).1;
  secret ← ok_or stored (L "no saved secret for the PBS server");
  repo ← map_err show_error (from_str (ps_repository server));
  Ok {| pc_repo := repo; pc_secret := secret; pc_fingerprint := ps_fingerprint server;
        pc_backup_id := backup_id; pc_crypt := crypt |}.

Variable env : req_env.

Definition file_params (ctx : PbsContext) (backup_time : Z) : result str SessionParams :=
  map_err show_error (from_repository (pc_repo ctx) (pc_secret ctx) (pc_fingerprint ctx)
    BACKUP_TYPE (pc_backup_id ctx) backup_time).

Definition snapshot_infos (l : list Snapshot) : list SnapshotInfo :=
  map (fun s => {| si_backup_time := sn_backup_time s; si_size := sn_size s |}) l.

(** [list_snapshots] of the handler. *)
Definition list_job_snapshots (c : config_state) (job_id : str) : result str (list SnapshotInfo) :=
  ctx ← job_pbs_context c job_id;
  api ← map_err show_error
    (api_from_repository (pc_repo ctx) (pc_secret ctx) (pc_fingerprint ctx));
  snapshots ← re_list env api (datastore (pc_repo ctx)) (namespace (pc_repo ctx)) BACKUP_TYPE
    (pc_backup_id ctx);
  Ok (snapshot_infos snapshots).

Definition list_sql_snapshots (c : config_state) (job_id database : str) :
    result str (list SnapshotInfo) :=
  ctx ← sql_job_pbs c job_id;
  api ← job_api ctx;
  snapshots ← list_group env api ctx (sql_group_and_archive (jp_backup_id ctx) database Full).1;
  Ok (snapshot_infos snapshots).

Variable catalog_from : bytes -> result str (list FileInfo).      (* serde_json::from_slice *)

Definition list_files (c : config_state) (job_id : str) (backup_time : Z) :
    result str (list FileInfo) :=
  ctx ← job_pbs_context c job_id;
  p ← file_params ctx backup_time;
  _ ← re_connect env p;
  match re_blob env p CATALOG_NAME (pc_crypt ctx) with
  | Ok b => catalog_from b
  | Err _ => archive ← re_archive env p ARCHIVE_NAME (pc_crypt ctx); list_tar archive
  end.

(** The destination of a file restore: the network share, the folder, the paths that are
    safe to unpack, and the files in it. *)
Variable denv : dest_env.
Variable unpack_in : str -> result str bool.

(** [run_restore], with the replies it sends and the files it leaves; [created] is
    [create_dir_all] of [extract], [joined] whether its task ended without a panic. *)
Definition run_restore (ctx : PbsContext) (backup_time : Z) (files : option (list str))
    (destination : str) (creds : option DestCredentials) (created joined : result str unit)
    (disk : gmap str bytes) : result str str * list stream_reply * gmap str bytes :=
  match (_ ← prepare_destination denv destination creds; file_params ctx backup_time) with
  | Err e => (Err e, [], disk)
  | Ok p =>
      let sent := [LogLine (L "connecting to PBS")] in
      match re_connect env p with
      | Err e => (Err e, sent, disk)
      | Ok _ =>
          let sent := sent ++ [LogLine (L "downloading archive")] in
          match re_archive env p ARCHIVE_NAME (pc_crypt ctx) with
          | Err e => (Err e, sent, disk)
          | Ok b =>
              let sent := sent ++
                [Progress 50 (L "downloaded " ++ dec (Z.of_nat (length b)) ++ L " bytes");
                 LogLine (L "extracting to " ++ destination)] in
              let '(count, disk) := extract unpack_in b files created disk in
              match joined, count with
              | Err e, _ => (Err (L "extract task failed: " ++ e), sent, disk)
              | Ok _, Err e => (Err e, sent, disk)
              | Ok _, Ok count =>
                  (Ok (L "restored " ++ dec count ++ L " file(s)"),
                   sent ++ [Progress 100 (L "done")], disk)
              end
          end
      end
  end.

(** The terminal reply of a request that ran. *)
Definition finished_reply (r : result str str) : stream_reply :=
  match r with Ok message => Finished true message | Err e => Finished false e end.

Definition restore_job (c : config_state) (job_id : str) (backup_time : Z)
    (files : option (list str)) (destination : str) (creds : option DestCredentials)
    (created joined : result str unit) (disk : gmap str bytes) :
    list stream_reply * gmap str bytes :=
  match job_pbs_context c job_id with
  | Err e => ([Failed_with e], disk)
  | Ok ctx =>
      let '(r, sent, disk) :=
        run_restore ctx backup_time files destination creds created joined disk in
      ([Accepted job_id] ++ sent ++ [finished_reply r], disk)
  end.

(** The replies of a restore that reports by lines. *)
Definition reported (name : str) (m : reqm str) (s : done_so_far) :
    list stream_reply * done_so_far :=
  let '(r, s') := m (Did [] (did_sql s) (did_files s)) in
  ([Accepted name] ++ map LogLine (did_lines s') ++ [finished_reply r], s').

Definition restore_sql (c : config_state) (job_id database target_database : str)
    (point : SqlRestorePoint) (target_connection_id : option str) (s : done_so_far) :
    list stream_reply * done_so_far :=
  reported database (run_restore_sql env c job_id database target_database point
    target_connection_id) s.

Definition restore_sql_to_file (utf8 : str -> bytes) (c : config_state) (job_id database : str)
    (point : SqlRestorePoint) (destination : str) (creds : option DestCredentials)
    (s : done_so_far) : list stream_reply * done_so_far :=
  reported database (run_restore_sql_to_file env utf8 c job_id database point destination
    (_ ← prepare_destination denv destination creds; Ok tt)) s.

(** ** Testing a server *)

(** The repository and the client a test uses. *)
Definition test_target (c : config_state) (server : PbsServer) (secret : option str) :
    result str (Repository * ApiClient) :=
  secret ← match secret with
           | Some ((_ :: _) as s) => Ok s
           | _ =>
               stored ← (secrets_get (pbs_secret_key (ps_id server)) (c_world c)).1;
               ok_or stored (L "no token secret was entered or stored")
           end;
  repo ← map_err show_error (from_str (ps_repository server));
  api ← map_err show_error (api_from_repository repo secret (ps_fingerprint server));
  Ok (repo, api).

Definition test_pbs_server (c : config_state) (server : PbsServer) (secret : option str)
    (can_backup : ApiClient -> str -> option str -> result PbsError bool) : result str str :=
  '(repo, api) ← test_target c server secret;
  let acl := match namespace repo with
             | Some ((_ :: _) as ns) => datastore repo ++ L "/" ++ ns
             | _ => datastore repo
             end in
  match can_backup api (datastore repo) (namespace repo) with
  | Ok true => Ok (L "Reached PBS; the token can back up to datastore " ++ quoted acl ++ L ".")
  | Ok false =>
      let auth := default [] (auth_id repo) in
      let user := match split_once 33 auth with Some (u, _) => u | None => auth end in
      Err (L "Reached PBS and the token authenticates, but it has no effective Datastore.Backup on /datastore/"
        ++ acl ++ L ". PBS API tokens use privilege separation: a token's rights are the intersection of the token's and its user's roles, so both need the DatastoreBackup role on this path. If only the token has it, grant the user '"
        ++ user ++ L "' too, e.g. on the PBS host:" ++ [10] ++
        L "  proxmox-backup-manager acl update /datastore/" ++ acl ++
        L " DatastoreBackup --auth-id '" ++ user ++ L "'")
  | Err e =>
      let detail := show_error e in
      if contains (L "401") detail then
        Err (L "The PBS token id or secret was not accepted (401).")
      else if contains (L "certificate") detail || contains (L "fingerprint") detail then
        Err (L "Could not verify the PBS certificate (fingerprint mismatch?): " ++ detail)
      else Err (L "Could not reach PBS: " ++ detail)
  end.

End browse.

(** ** Running a job for the GUI *)

(** The connection to the GUI: what it got, and how many more replies go through. *)
Record gui := Gui { gui_got : list stream_reply; gui_room : option nat }.

Definition gui_send (r : stream_reply) (g : gui) : result unit unit * gui :=
  match gui_room g with
  | Some O => (Err tt, g)
  | Some (S k) => (Ok tt, Gui (gui_got g ++ [r]) (Some k))
  | None => (Ok tt, Gui (gui_got g ++ [r]) None)
  end.

(** The loop that forwards the events of the run and drains them when the GUI is gone. *)
Fixpoint forward_events (forward : bool) (events : list stream_reply) (g : gui) : gui :=
  match events with
  | [] => g
  | reply :: events =>
      if forward then
        match gui_send reply g with
        | (Ok _, g) => forward_events true events g
        | (Err _, g) => forward_events false events g
        end
      else forward_events false events g
  end.

Section run_job.
Context `{Base64} `{HmacLib} `{EnvelopeJson} `{ListJson Job}.

(** [run_job]: [events] is what the run sends on its channel, [run] how its task ended
    ([Err]: it panicked). *)
Definition run_job_request (c : config_state) (id : str) (now : Z) (events : list stream_reply)
    (run : result str (result str RunReport)) (g : gui) : config_state * gui :=
  match js_get (c_jobs c) id with
  | None => (c, (gui_send (Failed_with (L "no such job: " ++ id)) g).2)
  | Some job =>
      let g := (gui_send (Accepted id) g).2 in
      let g := forward_events true events g in
      let '(success, message, status) := match run with
        | Ok (Ok report) => (true, rr_message report, report_status report)
        | Ok (Err e) => (false, e, e)
        | Err e => let m := L "job task failed: " ++ e in (false, m, m)
        end in
      let '(_, jobs, w) := record_run id now status (c_jobs c) (c_world c) in
      ({| c_jobs := jobs; c_sql := c_sql c; c_pbs := c_pbs c; c_world := w |},
       (gui_send (Finished success message) g).2)
  end.

End run_job.

(** ** The replies are a stream with one end *)

Definition one_end (rs : list stream_reply) : Prop :=
  exists before terminal, rs = before ++ [terminal] /\ is_terminal terminal = true /\
    Forall (fun r => is_terminal r = false) before.

Lemma one_end_cons r rs : is_terminal r = false -> one_end rs -> one_end (r :: rs).
Proof.
  intros Hr (before & terminal & -> & Ht & HF). exists (r :: before), terminal. auto.
Qed.

Lemma one_end_app before rs :
  Forall (fun r => is_terminal r = false) before -> one_end rs -> one_end (before ++ rs).
Proof. induction 1; cbn; auto using one_end_cons. Qed.

Lemma one_end_terminal r : is_terminal r = true -> one_end [r].
Proof. intros Hr. exists [], r. auto. Qed.

Lemma finished_terminal r : is_terminal (finished_reply r) = true.
Proof. destruct r; reflexivity. Qed.

Lemma lines_not_terminal lines : Forall (fun r => is_terminal r = false) (map LogLine lines).
Proof. induction lines; cbn; auto. Qed.

#[local] Hint Resolve one_end_cons one_end_app one_end_terminal finished_terminal
  lines_not_terminal : core.

Section streams.
Context `{DebugFmt} `{Base64} `{HashLib} `{ArchiveLib}.
Variables (env : req_env) (denv : dest_env) (unpack_in : str -> result str bool).

Lemma run_restore_sent ctx backup_time files destination creds created joined disk :
  Forall (fun r => is_terminal r = false)
    (run_restore env denv unpack_in ctx backup_time files destination creds created joined disk).1.2.
Proof.
  unfold run_restore. destruct (_ ← prepare_destination _ _ _; _) as [p|e]; [|constructor].
  destruct (re_connect env p); [|repeat constructor].
  destruct (re_archive env p _ _) as [b|e]; [|repeat constructor].
  destruct (extract _ _ _ _ _) as [count disk'].
  destruct joined, count; cbn; repeat constructor.
Qed.

Lemma reported_one_end name m s : one_end (reported name m s).1.
Proof. unfold reported. destruct (m _) as [r s']. cbn. auto. Qed.

(** Whatever happens in it, a restore answers with a stream that has exactly one
    terminal reply, its last: the GUI, which reads until then, is never left waiting
    and never misses an outcome. *)
Theorem restore_replies_end c job_id database target backup_time files destination creds
    created joined disk utf8 point tid s :
  one_end (restore_job env denv unpack_in c job_id backup_time files destination creds created
             joined disk).1 /\
  one_end (restore_sql env c job_id database target point tid s).1 /\
  one_end (restore_sql_to_file env denv utf8 c job_id database point destination creds s).1.
Proof.
  split; [|split; apply reported_one_end]. unfold restore_job.
  destruct (job_pbs_context c job_id) as [ctx|e]; [|apply one_end_terminal; reflexivity].
  pose proof (run_restore_sent ctx backup_time files destination creds created joined disk) as Hs.
  destruct (run_restore _ _ _ _ _ _ _ _ _ _ _) as [[r sent] disk']. cbn in *. auto.
Qed.

End streams.

(** ** A GUI that goes away does not matter to the run *)

(** What a GUI with this much patience has got of a stream. *)
Definition got_of (room : option nat) (stream : list stream_reply) : list stream_reply :=
  match room with None => stream | Some k => take k stream end.

(** The connection after a stream was sent to it. *)
Definition after_stream (room : option nat) (stream : list stream_reply) : gui :=
  Gui (got_of room stream)
    (match room with None => None | Some k => Some (k - length stream)%nat end).

Lemma gui_send_stream room stream r :
  (gui_send r (after_stream room stream)).2 = after_stream room (stream ++ [r]).
Proof.
  unfold gui_send, after_stream, got_of. destruct room as [k|]; cbn; [|reflexivity].
  rewrite length_app. cbn. destruct (k - length stream)%nat eqn:E.
  - cbn. f_equal; [|f_equal; lia]. rewrite take_app_le by lia. reflexivity.
  - cbn. f_equal; [|f_equal; lia]. rewrite (take_ge stream), take_ge by (rewrite ?length_app; cbn; lia).
    reflexivity.
Qed.

Lemma forward_events_stream fwd events room stream :
  (fwd = false -> exists k, room = Some k /\ (k <= length stream)%nat) ->
  forward_events fwd events (after_stream room stream) = after_stream room (stream ++ events).
Proof.
  revert fwd stream; induction events as [|r events IH]; intros fwd stream Hf;
    cbn [forward_events]; [rewrite app_nil_r; reflexivity|].
  assert (Hgone : forall k, room = Some k -> (k <= length stream)%nat ->
    forward_events false events (after_stream room stream) = after_stream room (stream ++ r :: events)).
  { intros k -> Hk. rewrite IH by eauto. unfold after_stream, got_of. rewrite !length_app. cbn.
    f_equal; [rewrite !take_app_le by lia; reflexivity | f_equal; lia]. }
  destruct fwd; [|destruct (Hf eq_refl) as (k & Ek & Hk); eauto].
  pose proof (gui_send_stream room stream r) as Hs.
  destruct (gui_send r (after_stream room stream)) as [[[]|[]] g] eqn:E; cbn [snd] in Hs.
  - subst g. rewrite IH by discriminate. rewrite <- app_assoc. reflexivity.
  - unfold gui_send, after_stream in E. cbn in E. destruct room as [k|]; [|discriminate].
    destruct (k - length stream)%nat eqn:Ek; [|discriminate]. injection E as <-.
    rewrite <- Ek. apply (Hgone k); [reflexivity | lia].
Qed.

(** A stream around these events has one end if they have none. *)
Definition ends_once (events stream : list stream_reply) : Prop :=
  Forall (fun r => is_terminal r = false) events -> one_end stream.

Section gui_gone.
Context `{Base64} `{HmacLib} `{EnvelopeJson} `{ListJson Job}.

(** A run the GUI asked for goes on and is recorded when the GUI goes away, after
    whichever reply: the stores end up as with a GUI that stayed, and the GUI got a
    beginning of the replies it would have got, which have one end if the run's own
    events have none. *)
Theorem run_survives_gui c id now events run room :
  let '(c', g') := run_job_request c id now events run (Gui [] room) in
  let '(c1, g1) := run_job_request c id now events run (Gui [] None) in
  c' = c1 /\ gui_got g' = got_of room (gui_got g1) /\
  ends_once events (gui_got g1).
Proof.
  assert (forall room, Gui [] room = after_stream room []) as Hg.
  { intros [k|]; unfold after_stream, got_of; cbn; [|reflexivity].
    rewrite take_nil, Nat.sub_0_r. reflexivity. }
  rewrite !Hg. unfold run_job_request.
  destruct (js_get (c_jobs c) id) as [job|]; rewrite !gui_send_stream.
  2: { cbn. split_and!; auto. intros _. auto. }
  rewrite !forward_events_stream by discriminate.
  destruct (match run with Ok (Ok report) => _ | Ok (Err e) => _ | Err e => _ end)
    as [[success message] status].
  destruct (record_run id now status (c_jobs c) (c_world c)) as [[? jobs] w].
  rewrite !gui_send_stream. cbn. split_and!; auto. intros HF.
  apply one_end_cons; [reflexivity|]. auto.
Qed.

End gui_gone.
