(* ===== verification/Discover.v ===== *)
(** Discovery of SQL Server instances ([pbsgui-engine/src/sql/ssrp.rs] and
    [discover.rs]).

    The answers of the SQL Server Browser are parsed, the targets to ask are expanded
    from hosts and subnets, and what was found is merged with the instances of the
    local registry.  The network and the registry are arguments. *)

From Stdlib Require Import ZArith Lia Sorting.Permutation Sorting.Sorted Strings.Byte Ascii String.
From stdpp Require Import base tactics option numbers list.
From S2P Require Import Prelude Text Base.
Open Scope Z_scope.

Inductive SqlDiscoverySource := LocalRegistry | Browser | NetworkScan | ActiveDirectory.
Inductive SqlAuthMode := WindowsOnly | Mixed | UnknownMode.

(** Without the result of a probe, which a later request fills in. *)
Record SqlInstance := {
  in_server : str; in_instance_name : str; in_host : str; in_port : option Z;
  in_source : SqlDiscoverySource; in_running : option bool; in_service_account : option str;
  in_auth_mode : SqlAuthMode; in_clustered : option bool; in_tcp_enabled : option bool }.

(** ** Targets *)

(** [Ipv4Addr::from_str]: four decimal octets of up to three digits, without leading
    zeros. *)
Definition parse_octet (s : str) : option Z :=
  if negb (is_empty s) && (length s <=? 3)%nat && forallb is_ascii_digit s
     && ((length s =? 1)%nat || negb (bool_decide (head s = Some 48)))
  then let v := fold_left digits_step s 0 in if v <? 256 then Some v else None
  else None.

Definition parse_ipv4 (s : str) : option Z :=
  match split_char 46 s with
  | [a; b; c; d] =>
      a ← parse_octet a; b ← parse_octet b; c ← parse_octet c; d ← parse_octet d;
      Some (a * 2 ^ 24 + b * 2 ^ 16 + c * 2 ^ 8 + d)
  | _ => None
  end.

Definition show_ipv4 (a : Z) : str :=
  join (L ".") [dec (a / 2 ^ 24 mod 256); dec (a / 2 ^ 16 mod 256); dec (a / 2 ^ 8 mod 256);
                dec (a mod 256)].

(** [u32::MAX.checked_shl(bits).unwrap_or(0)]. *)
Definition subnet_mask (bits : Z) : Z :=
  if bits <? 32 then Z.shiftl (2 ^ 32 - 1) bits mod 2 ^ 32 else 0.

Definition expand_target (target : str) : list str :=
  let target := trim target in
  match split_once 47 target with
  | None => if is_empty target then [] else [target]
  | Some (net, prefix) =>
      match parse_ipv4 (trim net), parse_uint 32 (trim prefix) with
      | Some ip, Some prefix =>
          if negb ((22 <=? prefix) && (prefix <=? 32)) then []
          else
            let bits := 32 - prefix in
            let base := Z.land ip (subnet_mask bits) in
            let count := Z.shiftl 1 bits in
            let '(start, stop) := if prefix <=? 30 then (1, count - 1) else (0, count) in
            map (fun i => show_ipv4 ((base + i) mod 2 ^ 32)) (seqZ start (stop - start))
      | _, _ => []
      end
  end.

(** ** Answers of the browser *)

(** [text.split(";;")]. *)
Fixpoint split_pairs (s : str) : list str :=
  match s with
  | [] => [[]]
  | c :: s' =>
      match s' with
      | d :: s'' =>
          if (c =? 59) && (d =? 59) then [] :: split_pairs s''
          else match split_pairs s' with p :: ps => (c :: p) :: ps | [] => [[c]] end
      | [] => [[c]]
      end
  end.

(** The variables of the loop over the fields. *)
Record browsed := {
  br_server_name : str; br_instance : str; br_port : option Z; br_clustered : option bool }.

Definition nothing_browsed : browsed :=
  {| br_server_name := []; br_instance := []; br_port := None; br_clustered := None |}.

Definition read_field (key value : str) (b : browsed) : browsed :=
  let key := map to_ascii_lowercase key in
  if str_eqb key (L "servername") then
    {| br_server_name := value; br_instance := br_instance b; br_port := br_port b;
       br_clustered := br_clustered b |}
  else if str_eqb key (L "instancename") then
    {| br_server_name := br_server_name b; br_instance := value; br_port := br_port b;
       br_clustered := br_clustered b |}
  else if str_eqb key (L "tcp") then
    {| br_server_name := br_server_name b; br_instance := br_instance b;
       br_port := parse_uint 16 (trim value); br_clustered := br_clustered b |}
  else if str_eqb key (L "isclustered") then
    {| br_server_name := br_server_name b; br_instance := br_instance b; br_port := br_port b;
       br_clustered := Some (eq_ignore_ascii_case value (L "yes")) |}
  else b.

Fixpoint read_fields (fields : list str) (b : browsed) : browsed :=
  match fields with
  | key :: value :: fields => read_fields fields (read_field key value b)
  | _ => b
  end.

(** The name to connect to: the default instance goes by its host. *)
Definition connect_name (host instance_name : str) : str :=
  if eq_ignore_ascii_case instance_name (L "MSSQLSERVER") then host
  else host ++ [92] ++ instance_name.

Definition read_instance (source : SqlDiscoverySource) (chunk : str) : option SqlInstance :=
  let b := read_fields (split_char 59 chunk) nothing_browsed in
  if is_empty (br_server_name b) then None
  else
    let instance_name := if is_empty (br_instance b) then L "MSSQLSERVER" else br_instance b in
    Some {| in_server := connect_name (br_server_name b) instance_name;
            in_instance_name := instance_name; in_host := br_server_name b;
            in_port := br_port b; in_source := source; in_running := Some true;
            in_service_account := None; in_auth_mode := UnknownMode;
            in_clustered := br_clustered b;
            in_tcp_enabled := (fun _ => true) <$> br_port b |}.

Definition parse_response (packet : bytes) (source : SqlDiscoverySource) : list SqlInstance :=
  match packet with
  | x05 :: _ :: _ :: body => omap (read_instance source) (split_pairs (utf8_lossy body))
  | _ => []
  end.

(** ** Addresses as text *)

Lemma parse_octet_dec n : 0 <= n < 256 -> parse_octet (dec n) = Some n.
Proof.
  intros Hn.
  assert (forallb (fun k => bool_decide (parse_octet (dec (Z.of_nat k)) = Some (Z.of_nat k)))
    (List.seq 0 256) = true) as Hall by (vm_compute; reflexivity).
  rewrite forallb_forall in Hall. specialize (Hall (Z.to_nat n) ltac:(apply in_seq; lia)).
  apply bool_decide_eq_true in Hall. rewrite Z2Nat.id in Hall by lia. exact Hall.
Qed.

Lemma dec_no_char c n : is_ascii_digit c = false -> 0 <= n -> has_char c (dec n) = false.
Proof. intros Hc Hn. apply digits_no_char; [exact Hc | apply dec_all_digits, Hn]. Qed.

Lemma parse_show_ipv4 a : 0 <= a < 2 ^ 32 -> parse_ipv4 (show_ipv4 a) = Some a.
Proof.
  intros Ha. unfold parse_ipv4, show_ipv4. cbn [join].
  change (L ".") with [46]. cbn [app].
  assert (forall x, 0 <= x mod 256 < 256) as Hm by (intros; apply Z.mod_pos_bound; lia).
  rewrite !split_char_at by (apply dec_no_char; [reflexivity | apply Hm]).
  rewrite split_char_none by (apply dec_no_char; [reflexivity | apply Hm]).
  rewrite !parse_octet_dec by apply Hm. cbn. f_equal.
  change (2 ^ 24) with 16777216. change (2 ^ 16) with 65536. change (2 ^ 8) with 256.
  change (2 ^ 32) with 4294967296 in Ha.
  Z.to_euclidean_division_equations. lia.
Qed.

Lemma solid_trim s : Forall (fun c => is_whitespace c = false) s -> trim s = s.
Proof.
  intros HF. apply trim_id.
  - intros c Hc. rewrite List.Forall_forall in HF. apply HF. destruct s; [discriminate|].
    injection Hc as ->. left. reflexivity.
  - intros c Hc. rewrite Forall_forall in HF. apply HF. apply last_Some_elem_of, Hc.
Qed.

Lemma dec_solid n : 0 <= n -> Forall (fun c => is_whitespace c = false) (dec n).
Proof.
  intros Hn. pose proof (dec_all_digits n Hn) as Hd. rewrite forallb_forall in Hd.
  apply List.Forall_forall. intros c Hc. apply alnum_not_whitespace.
  unfold is_ascii_alphanumeric. rewrite (Hd c Hc), ?orb_true_r. reflexivity.
Qed.

Lemma show_ipv4_parts a : exists w x y z,
  show_ipv4 a = dec w ++ [46] ++ dec x ++ [46] ++ dec y ++ [46] ++ dec z /\
  0 <= w /\ 0 <= x /\ 0 <= y /\ 0 <= z.
Proof.
  unfold show_ipv4. exists (a / 2 ^ 24 mod 256), (a / 2 ^ 16 mod 256), (a / 2 ^ 8 mod 256), (a mod 256).
  split; [reflexivity|]. split_and!; apply Z.mod_pos_bound; lia.
Qed.

Lemma show_ipv4_solid a : Forall (fun c => is_whitespace c = false) (show_ipv4 a).
Proof.
  destruct (show_ipv4_parts a) as (w & x & y & z & -> & ? & ? & ? & ?).
  repeat (apply Forall_app; split); auto using dec_solid; repeat constructor.
Qed.

Lemma show_ipv4_no_slash a : has_char 47 (show_ipv4 a) = false.
Proof.
  destruct (show_ipv4_parts a) as (w & x & y & z & -> & ? & ? & ? & ?).
  rewrite !has_char_app, !(dec_no_char 47) by (reflexivity || assumption). reflexivity.
Qed.

(** ** Subnets *)

Lemma mask_land ip b : 0 <= ip < 2 ^ 32 -> 0 <= b <= 10 ->
  Z.land ip (subnet_mask b) = ip / 2 ^ b * 2 ^ b.
Proof.
  intros Hip Hb.
  assert (subnet_mask b = Z.shiftl (Z.ones (32 - b)) b) as ->.
  { assert (b = 0 \/ b = 1 \/ b = 2 \/ b = 3 \/ b = 4 \/ b = 5 \/ b = 6 \/ b = 7 \/ b = 8 \/ b = 9 \/ b = 10)
      as Hc by lia. decompose [or] Hc; subst; reflexivity. }
  rewrite <- Z.shiftr_div_pow2, <- Z.shiftl_mul_pow2 by lia.
  apply Z.bits_inj'. intros n Hn. rewrite Z.land_spec.
  destruct (Z.ltb_spec n b).
  { rewrite !Z.shiftl_spec_low by lia. apply andb_false_r. }
  rewrite !Z.shiftl_spec_high, Z.shiftr_spec by lia. replace (n - b + b) with n by lia.
  destruct (Z.ltb_spec n 32).
  - rewrite Z.ones_spec_low by lia. apply andb_true_r.
  - rewrite Z.ones_spec_high by lia. rewrite andb_false_r.
    rewrite <- (Z.mod_small ip (2 ^ 32)) by exact Hip.
    symmetry. apply Z.mod_pow2_bits_high. lia.
Qed.

Lemma sorted_offsets base start n : StronglySorted Z.lt (map (fun i => base + i) (seqZ start n)).
Proof.
  destruct (Z.le_gt_cases 0 n) as [Hn|Hn]; [|rewrite seqZ_nil by lia; constructor].
  revert start; pattern n; apply natlike_ind; [| |exact Hn].
  - intros start. rewrite seqZ_nil by lia. constructor.
  - intros k Hk IH start. rewrite seqZ_cons by lia. replace (Z.pred (Z.succ k)) with k by lia.
    cbn [map]. constructor; [apply IH|]. apply List.Forall_forall. intros a (i & <- & Hi)%in_map_iff.
    apply list_elem_of_In, elem_of_seqZ in Hi. lia.
Qed.

(** An address of the subnet that names a host: neither the address of the subnet nor its
    broadcast address, where a subnet has those. *)
Definition host_of (ip prefix a : Z) : Prop :=
  let size := 2 ^ (32 - prefix) in
  0 <= a < 2 ^ 32 /\ a / size = ip / size /\
  (prefix <= 30 -> a mod size <> 0 /\ a mod size <> size - 1).

(** What is asked for a subnet: exactly the addresses of its hosts, each once, in order,
    without overflow, and never more than 1022; anything wider than a [/22] is refused. *)
Lemma expand_subnet ip prefix : 0 <= ip < 2 ^ 32 -> 0 <= prefix < 2 ^ 32 ->
  exists l, expand_target (show_ipv4 ip ++ L "/" ++ dec prefix) = map show_ipv4 l /\
    StronglySorted Z.lt l /\ (length l <= 1022)%nat /\
    forall a, In a l <-> 22 <= prefix <= 32 /\ host_of ip prefix a.
Proof.
  intros Hip Hp. unfold expand_target.
  rewrite solid_trim.
  2: { apply Forall_app; split; [apply show_ipv4_solid|]. apply Forall_app; split;
       [repeat constructor | apply dec_solid; lia]. }
  change (L "/" ++ dec prefix) with (47 :: dec prefix).
  rewrite split_once_at by apply show_ipv4_no_slash.
  rewrite (solid_trim (show_ipv4 ip)) by apply show_ipv4_solid.
  rewrite (solid_trim (dec prefix)) by (apply dec_solid; lia).
  rewrite parse_show_ipv4, parse_uint_dec by (unfold u_range; assumption).
  destruct (Z.leb_spec 22 prefix) as [H1|H1]; cbn [andb negb].
  2: { exists []. split_and!; [reflexivity | constructor | cbn; lia|]. intros a; cbn. lia. }
  destruct (Z.leb_spec prefix 32) as [H2|H2]; cbn [negb].
  2: { exists []. split_and!; [reflexivity | constructor | cbn; lia|]. intros a; cbn. lia. }
  rewrite mask_land, Z.shiftl_1_l by lia.
  set (size := 2 ^ (32 - prefix)).
  assert (1 <= size <= 1024) as Hsize.
  { unfold size. split; [apply (Z.pow_le_mono_r 2 0); lia|].
    change 1024 with (2 ^ 10). apply Z.pow_le_mono_r; lia. }
  assert (prefix <= 30 -> 4 <= size) as H4.
  { intros. unfold size. change 4 with (2 ^ 2). apply Z.pow_le_mono_r; lia. }
  assert (2 ^ 32 mod size = 0) as Hdiv.
  { unfold size. replace 32 with ((32 - prefix) + prefix) at 1 by lia.
    rewrite Z.pow_add_r, Z.mul_comm by lia. apply Z_mod_mult. }
  set (base := ip / size * size).
  assert (0 <= base /\ base + size <= 2 ^ 32) as [Hb0 Hb1].
  { unfold base. split; [apply Z.mul_nonneg_nonneg; [apply Z.div_pos; lia | lia]|].
    apply Z_div_exact_full_2 in Hdiv; [|lia].
    assert (ip / size < 2 ^ 32 / size) as Hlt by (apply Z.div_lt_upper_bound; lia).
    rewrite Hdiv, Z.mul_comm, <- Z.mul_succ_r. apply Z.mul_le_mono_nonneg_l; lia. }
  set (p30 := prefix <=? 30).
  assert (exists start stop, (if p30 then (1, size - 1) else (0, size)) = (start, stop) /\
    0 <= start /\ start <= stop /\ stop <= size /\ stop - start <= 1022 /\
    forall r, start <= r < stop <-> 0 <= r < size /\ (prefix <= 30 -> r <> 0 /\ r <> size - 1))
    as (start & stop & -> & Hs0 & Hs1 & Hs2 & Hs3 & Hr).
  { unfold p30. destruct (Z.leb_spec prefix 30) as [H30|H30].
    - specialize (H4 H30). exists 1, (size - 1). split_and!; try lia; auto.
    - assert (size <= 2). { unfold size. change 2 with (2 ^ 1) at 2. apply Z.pow_le_mono_r; lia. }
      exists 0, size. split_and!; try lia; auto. }
  exists (map (fun i => base + i) (seqZ start (stop - start))). split_and!.
  - rewrite map_map. apply map_ext_in. intros i Hi.
    apply list_elem_of_In, elem_of_seqZ in Hi. rewrite Z.mod_small by lia. reflexivity.
  - apply sorted_offsets.
  - rewrite length_map, length_seqZ. lia.
  - intros a. rewrite in_map_iff. unfold host_of. fold size. split.
    + intros (i & <- & Hi). apply list_elem_of_In, elem_of_seqZ in Hi.
      assert (start <= i < stop) as Hi' by lia. apply Hr in Hi' as [Hi1 Hi2].
      assert ((base + i) / size = ip / size) as Hq.
      { unfold base. rewrite Z.add_comm, Z.div_add, Z.div_small by lia. lia. }
      assert ((base + i) mod size = i) as Hm.
      { unfold base. rewrite Z.add_comm, Z.mod_add, Z.mod_small by lia. lia. }
      rewrite Hq, Hm. split_and!; auto; lia.
    + intros (_ & Ha & Hd & He). exists (a mod size).
      pose proof (Z.div_mod a size ltac:(lia)) as Hdm.
      pose proof (Z.mod_pos_bound a size ltac:(lia)) as Hmb. split.
      * unfold base. rewrite <- Hd. lia.
      * apply list_elem_of_In, elem_of_seqZ.
        assert (start <= a mod size < stop) by (apply Hr; auto). lia.
Qed.

(** Asking a subnet asks exactly its hosts, each once and in order, and never more than
    1022 of them; a wider subnet, and anything that is no subnet, is not scanned. *)
Theorem subnet_scan_exact target ip prefix : 0 <= ip < 2 ^ 32 -> 0 <= prefix < 2 ^ 32 ->
  (length (expand_target target) <= 1022)%nat /\
  exists l, expand_target (show_ipv4 ip ++ L "/" ++ dec prefix) = map show_ipv4 l /\
    StronglySorted Z.lt l /\ forall a, In a l <-> 22 <= prefix <= 32 /\ host_of ip prefix a.
Proof.
  intros Hip Hp. split.
  - unfold expand_target. destruct (split_once 47 (trim target)) as [[net pr]|].
    2: { destruct (is_empty (trim target)); cbn; lia. }
    destruct (parse_ipv4 (trim net)), (parse_uint 32 (trim pr)) as [q|]; try (cbn; lia).
    destruct (Z.leb_spec 22 q); [|cbn; lia]. destruct (Z.leb_spec q 32); [|cbn; lia]. cbn [andb negb].
    assert (Z.shiftl 1 (32 - q) <= 1024).
    { rewrite Z.shiftl_1_l. change 1024 with (2 ^ 10). apply Z.pow_le_mono_r; lia. }
    destruct (Z.leb_spec q 30); rewrite length_map, length_seqZ; [lia|].
    assert (Z.shiftl 1 (32 - q) <= 2); [|lia].
    rewrite Z.shiftl_1_l. change 2 with (2 ^ 1) at 2. apply Z.pow_le_mono_r; lia.
  - destruct (expand_subnet ip prefix Hip Hp) as (l & ? & ? & _ & ?). eauto.
Qed.

Lemma subnet_scan_exact_witness :
  exists l, expand_target (L "192.168.1.0/30") = map show_ipv4 l /\ StronglySorted Z.lt l /\
    forall a, In a l <-> 22 <= 30 <= 32 /\ host_of 3232235776 30 a.
Proof.
  refine (proj2 (subnet_scan_exact [] 3232235776 30 _ _)); lia.
Defined.

(** ** What a browser answers *)

(** An instance as a browser advertises it. *)
Record advert := {
  ad_host : str; ad_instance : str; ad_clustered : bool; ad_version : str; ad_port : option Z }.

Definition advert_fields (a : advert) : list str :=
  [L "ServerName"; ad_host a; L "InstanceName"; ad_instance a; L "IsClustered";
   if ad_clustered a then L "Yes" else L "No"; L "Version"; ad_version a] ++
  match ad_port a with Some p => [L "tcp"; dec p] | None => [] end.

Definition advert_text (a : advert) : str := join [59] (advert_fields a) ++ [59; 59].

Definition field_ok (s : str) : Prop := s <> [] /\ has_char 59 s = false.

Definition advert_ok (a : advert) : Prop :=
  field_ok (ad_host a) /\ field_ok (ad_instance a) /\ field_ok (ad_version a) /\
  match ad_port a with Some p => u_range 16 p | None => True end.

Definition advert_instance (source : SqlDiscoverySource) (a : advert) : SqlInstance :=
  {| in_server := connect_name (ad_host a) (ad_instance a); in_instance_name := ad_instance a;
     in_host := ad_host a; in_port := ad_port a; in_source := source; in_running := Some true;
     in_service_account := None; in_auth_mode := UnknownMode;
     in_clustered := Some (ad_clustered a); in_tcp_enabled := (fun _ => true) <$> ad_port a |}.

Definition glue (p : str) (l : list str) : list str :=
  match l with h :: t => (p ++ h) :: t | [] => [p] end.

Lemma split_pairs_cons c d s :
  split_pairs (c :: d :: s) =
  if (c =? 59) && (d =? 59) then [] :: split_pairs s else glue [c] (split_pairs (d :: s)).
Proof. reflexivity. Qed.

Lemma split_pairs_ne s : split_pairs s <> [].
Proof.
  destruct s as [|c [|d s]]; [discriminate..|]. rewrite split_pairs_cons.
  destruct (_ && _); [discriminate|]. destruct (split_pairs (d :: s)); discriminate.
Qed.

Lemma split_pairs_glue f s : has_char 59 f = false -> s <> [] ->
  split_pairs (f ++ s) = glue f (split_pairs s).
Proof.
  intros Hf Hs. induction f as [|c f IH].
  { cbn. pose proof (split_pairs_ne s). destruct (split_pairs s); [congruence | reflexivity]. }
  rewrite has_char_cons in Hf. apply orb_false_iff in Hf as [Hc Hf].
  assert (f ++ s <> []) as Hne by (apply app_ne_r, Hs).
  cbn [app]. destruct (f ++ s) as [|d t] eqn:E; [congruence|].
  rewrite split_pairs_cons, (Z.eqb_sym c), Hc. cbn [andb]. rewrite (IH Hf).
  pose proof (split_pairs_ne s). destruct (split_pairs s); [congruence | reflexivity].
Qed.

Lemma split_pairs_join fields r : fields <> [] -> Forall field_ok fields ->
  split_pairs (join [59] fields ++ 59 :: 59 :: r) = join [59] fields :: split_pairs r.
Proof.
  intros Hne HF. induction HF as [|f fields [Hf1 Hf2] HF IH]; [congruence|].
  destruct fields as [|g fields].
  - cbn [join]. rewrite split_pairs_glue by (assumption || discriminate). cbn. rewrite app_nil_r. reflexivity.
  - change (join [59] (f :: g :: fields)) with (f ++ [59] ++ join [59] (g :: fields)).
    rewrite <- !app_assoc. rewrite split_pairs_glue by (assumption || discriminate).
    specialize (IH ltac:(discriminate)).
    assert (exists x t, join [59] (g :: fields) ++ 59 :: 59 :: r = x :: t /\ (x =? 59) = false)
      as (x & t & E & Hx).
    { inversion HF as [|? ? [Hg1 Hg2] _]; subst. destruct g as [|x g]; [congruence|].
      rewrite has_char_cons in Hg2. apply orb_false_iff in Hg2 as [Hx _].
      exists x. destruct fields; cbn; eexists; (split; [reflexivity|]); rewrite Z.eqb_sym; exact Hx. }
    rewrite E in *. cbn [app]. rewrite split_pairs_cons, Hx, andb_false_r, IH. reflexivity.
Qed.

Lemma split_char_join fields : fields <> [] -> Forall field_ok fields ->
  split_char 59 (join [59] fields) = fields.
Proof.
  intros Hne HF. induction HF as [|f fields [Hf1 Hf2] HF IH]; [congruence|].
  destruct fields as [|g fields]; [apply split_char_none, Hf2|].
  change (join [59] (f :: g :: fields)) with (f ++ 59 :: join [59] (g :: fields)).
  rewrite split_char_at by exact Hf2. f_equal. apply IH. discriminate.
Qed.

Lemma advert_fields_ok a : advert_ok a -> Forall field_ok (advert_fields a).
Proof.
  intros (Hh & Hi & Hv & Hp). unfold advert_fields. apply Forall_app. split.
  - rewrite !Forall_cons, Forall_nil. destruct (ad_clustered a);
      split_and!; auto; split; discriminate || reflexivity.
  - destruct (ad_port a) as [p|]; [|constructor]. destruct Hp.
    rewrite !Forall_cons, Forall_nil. split_and!; auto; (split; [|]); try discriminate; try reflexivity.
    + apply dec_nonempty. assumption.
    + apply dec_no_char; [reflexivity | assumption].
Qed.

Lemma read_advert source a : advert_ok a ->
  read_instance source (join [59] (advert_fields a)) = Some (advert_instance source a).
Proof.
  intros Ha. unfold read_instance. rewrite split_char_join by (discriminate || apply advert_fields_ok, Ha).
  destruct Ha as ([Hh _] & [Hi _] & _ & Hp). destruct a as [host inst cl v port]. cbn in Hh, Hi, Hp.
  assert (read_fields (advert_fields {| ad_host := host; ad_instance := inst; ad_clustered := cl;
      ad_version := v; ad_port := port |}) nothing_browsed
    = {| br_server_name := host; br_instance := inst; br_port := port; br_clustered := Some cl |}) as ->.
  { destruct port as [p|]; [|destruct cl; reflexivity].
    transitivity {| br_server_name := host; br_instance := inst;
      br_port := parse_uint 16 (trim (dec p)); br_clustered := Some cl |}; [destruct cl; reflexivity|].
    rewrite solid_trim, parse_uint_dec;
      [reflexivity | exact Hp | apply dec_solid; destruct Hp; assumption]. }
  cbn. destruct host; [congruence|]. destruct inst; [congruence|]. reflexivity.
Qed.

Lemma ascii_lossy s : Forall (fun c => 0 <= c < 128) s -> utf8_lossy (map Z_u8 s) = s.
Proof.
  intros HF. rewrite utf8_lossy_ascii.
  - rewrite map_map. induction HF as [|c s Hc HF IH]; [reflexivity|]. cbn [map]. rewrite IH. f_equal.
    rewrite u8_Z_u8. apply Z.mod_small. lia.
  - induction HF as [|c s Hc HF IH]; cbn [map]; constructor; [|exact IH].
    rewrite u8_Z_u8, Z.mod_small by lia. lia.
Qed.

Lemma split_adverts adverts : Forall advert_ok adverts ->
  split_pairs (concat (map advert_text adverts)) =
  map (fun a => join [59] (advert_fields a)) adverts ++ [[]].
Proof.
  induction 1 as [|a adverts Ha HF IH]; [reflexivity|]. cbn [map concat]. unfold advert_text at 1.
  rewrite <- app_assoc. cbn [app].
  rewrite split_pairs_join by (discriminate || apply advert_fields_ok, Ha). rewrite IH. reflexivity.
Qed.

(** The instances a browser advertises are the instances that are discovered, each with
    its host, name, port and cluster flag. *)
Theorem browser_answer_read source adverts lo hi :
  Forall advert_ok adverts ->
  Forall (fun c => 0 <= c < 128) (concat (map advert_text adverts)) ->
  parse_response (x05 :: lo :: hi :: map Z_u8 (concat (map advert_text adverts))) source
  = map (advert_instance source) adverts.
Proof.
  intros Ha Hc. cbn [parse_response]. rewrite ascii_lossy by exact Hc. rewrite split_adverts by exact Ha.
  clear Hc. induction Ha as [|a adverts Ha HF IH]; [reflexivity|].
  cbn [map app omap list_omap]. rewrite read_advert by exact Ha. f_equal. exact IH.
Qed.

Definition sample_advert : advert :=
  {| ad_host := L "STANLEY"; ad_instance := L "SQLEXPRESS"; ad_clustered := true;
     ad_version := L "15.0"; ad_port := Some 49677 |}.

Lemma browser_answer_read_witness :
  parse_response (x05 :: x00 :: x00 :: map Z_u8 (concat (map advert_text [sample_advert]))) Browser
  = [advert_instance Browser sample_advert].
Proof.
  apply (browser_answer_read Browser [sample_advert]).
  - constructor; [|constructor]. repeat split; discriminate.
  - apply (List.Forall_forall _ _). intros c Hc.
    assert (forallb (fun c => (0 <=? c) && (c <? 128)) (concat (map advert_text [sample_advert])) = true)
      as Hall by (vm_compute; reflexivity).
    rewrite forallb_forall in Hall. specialize (Hall c Hc). lia.
Defined.

(** ** The local registry *)

(** What the registry has on one instance; the id is missing if it cannot be read. *)
Record reg_instance := {
  ri_name : str; ri_id : option str; ri_login_mode : option Z; ri_tcp_enabled : option Z;
  ri_tcp_port : option str; ri_dynamic_ports : option str; ri_cluster : bool }.

Definition first_port (raw : str) : option Z :=
  match split_char 44 raw with first :: _ => parse_uint 16 (trim first) | [] => None end.

(** The static port, or the first dynamic one. *)
Definition tcp_port (i : reg_instance) : option Z :=
  match ri_tcp_port i ≫= first_port with
  | Some p => Some p
  | None => ri_dynamic_ports i ≫= first_port
  end.

Definition local_instance (host : str) (i : reg_instance) : option SqlInstance :=
  _ ← ri_id i;
  Some {| in_server := connect_name host (ri_name i); in_instance_name := ri_name i;
          in_host := host; in_port := tcp_port i; in_source := LocalRegistry; in_running := None;
          in_service_account := None;
          in_auth_mode := match ri_login_mode i with
                          | Some 1 => WindowsOnly | Some 2 => Mixed | _ => UnknownMode end;
          in_clustered := Some (ri_cluster i);
          in_tcp_enabled := (fun e => e =? 1) <$> ri_tcp_enabled i |}.

Definition local_instances (host : str) (registry : list reg_instance) : list SqlInstance :=
  omap (local_instance host) registry.

(** ** Merging what was found *)

Definition server_key (i : SqlInstance) : str := map to_ascii_lowercase (in_server i).

(** [sort_by] of the lower-case names, which is stable. *)
Fixpoint insert_instance (x : SqlInstance) (l : list SqlInstance) : list SqlInstance :=
  match l with
  | [] => [x]
  | y :: l' => if str_lt (server_key y) (server_key x) then y :: insert_instance x l' else x :: l
  end.
Definition sort_instances (l : list SqlInstance) : list SqlInstance :=
  fold_right insert_instance [] l.

(** [dedup_by]: an entry goes when it names the same server as the last one kept. *)
Fixpoint dedup_from (prev : SqlInstance) (l : list SqlInstance) : list SqlInstance :=
  match l with
  | [] => []
  | y :: l => if eq_ignore_ascii_case (in_server y) (in_server prev) then dedup_from prev l
              else y :: dedup_from y l
  end.
Definition dedup_instances (l : list SqlInstance) : list SqlInstance :=
  match l with [] => [] | x :: l => x :: dedup_from x l end.

(** [broadcast] and [scan] are what answers in time. *)
Definition discover (local : list SqlInstance) (include_network : bool) (targets : list str)
    (broadcast : list SqlInstance) (scan : list str -> list SqlInstance) : list SqlInstance :=
  let found := local ++
    if include_network then broadcast ++ scan (concat (map expand_target targets)) else [] in
  dedup_instances (sort_instances found).

Definition same_server (k : str) (i : SqlInstance) : bool := str_eqb (server_key i) k.

Definition instance_le (x y : SqlInstance) : Prop := str_lt (server_key y) (server_key x) = false.

Lemma instance_le_trans x y z : instance_le x y -> instance_le y z -> instance_le x z.
Proof.
  unfold instance_le. intros H1 H2. destruct (str_lt (server_key z) (server_key x)) eqn:E; [|reflexivity].
  destruct (str_lt (server_key x) (server_key y)) eqn:E2.
  - rewrite (str_lt_trans _ _ _ E E2) in H2. discriminate.
  - rewrite (str_lt_total _ _ E2 H1) in E. congruence.
Qed.

Lemma insert_instance_perm x l : Permutation (x :: l) (insert_instance x l).
Proof.
  induction l as [|y l IH]; cbn; [reflexivity|].
  destruct (str_lt _ _); [|reflexivity]. rewrite <- IH. apply perm_swap.
Qed.

Lemma sort_instances_perm l : Permutation l (sort_instances l).
Proof. induction l as [|x l IH]; cbn; [constructor|]. rewrite <- insert_instance_perm. auto. Qed.

Lemma insert_instance_sorted x l :
  StronglySorted instance_le l -> StronglySorted instance_le (insert_instance x l).
Proof.
  induction 1 as [|y l Hl IH Hy]; cbn; [repeat constructor|].
  destruct (str_lt (server_key y) (server_key x)) eqn:E.
  - constructor; [exact IH|]. rewrite <- insert_instance_perm. constructor; [|exact Hy].
    unfold instance_le. destruct (str_lt (server_key x) (server_key y)) eqn:E2; [|reflexivity].
    pose proof (str_lt_trans _ _ _ E E2) as E3. rewrite str_lt_irrefl in E3. discriminate.
  - constructor; [constructor; assumption|]. constructor; [exact E|].
    eapply Forall_impl; [exact Hy|]. intros z Hz. eapply instance_le_trans; [exact E | exact Hz].
Qed.

Lemma sort_instances_sorted l : StronglySorted instance_le (sort_instances l).
Proof. induction l; cbn; [constructor | apply insert_instance_sorted; assumption]. Qed.

(** Sorting keeps the order of entries for the same server. *)
Lemma sort_instances_stable k l :
  List.filter (same_server k) (sort_instances l) = List.filter (same_server k) l.
Proof.
  assert (Hins : forall x l, List.filter (same_server k) (insert_instance x l)
    = List.filter (same_server k) (x :: l)).
  { clear. intros x l. induction l as [|y l IH]; [reflexivity|]. cbn [insert_instance].
    destruct (str_lt (server_key y) (server_key x)) eqn:E; [|reflexivity].
    cbn [List.filter] in *. rewrite IH. unfold same_server.
    destruct (str_eqb (server_key x) k) eqn:Ex, (str_eqb (server_key y) k) eqn:Ey; try reflexivity.
    apply str_eqb_eq in Ex, Ey. subst. rewrite Ey, str_lt_irrefl in E. discriminate. }
  induction l as [|x l IH]; [reflexivity|]. cbn [sort_instances fold_right].
  fold (sort_instances l). rewrite Hins. cbn [List.filter]. rewrite IH. reflexivity.
Qed.

Lemma ignore_case_key x y :
  eq_ignore_ascii_case (in_server x) (in_server y) = true <-> server_key x = server_key y.
Proof. unfold eq_ignore_ascii_case, server_key. apply str_eqb_eq. Qed.

Definition instance_lt (x y : SqlInstance) : Prop := str_lt (server_key x) (server_key y) = true.

Lemma instance_le_ne x y : instance_le x y -> server_key x <> server_key y -> instance_lt x y.
Proof.
  unfold instance_le, instance_lt. intros Hle Hne.
  destruct (str_lt (server_key x) (server_key y)) eqn:E; [reflexivity|].
  destruct (Hne (str_lt_total _ _ E Hle)).
Qed.

(** The entries kept behind [prev] in a sorted list: strictly later names, each the first
    of its name, and every other name is there. *)
Lemma dedup_from_spec prev l :
  StronglySorted instance_le (prev :: l) ->
  StronglySorted instance_lt (prev :: dedup_from prev l) /\
  (forall y, In y (dedup_from prev l) -> find (same_server (server_key y)) (prev :: l) = Some y) /\
  (forall z, In z l -> server_key z = server_key prev \/
     exists y, In y (dedup_from prev l) /\ server_key y = server_key z).
Proof.
  revert prev; induction l as [|y l IH]; intros prev Hs; cbn [dedup_from].
  { split_and!; [repeat constructor | intros ? [] | intros ? []]. }
  apply StronglySorted_inv in Hs as [Hs Hle]. inversion Hle as [|? ? Hpy Hpl]; subst.
  destruct (eq_ignore_ascii_case (in_server y) (in_server prev)) eqn:E.
  - apply ignore_case_key in E. apply StronglySorted_inv in Hs as [Hsl Hyl].
    destruct (IH prev) as (H1 & H2 & H3); [constructor; assumption|]. split_and!; [exact H1 | |].
    + intros z Hz. specialize (H2 z Hz). cbn [find] in *. unfold same_server in *.
      rewrite E. destruct (str_eqb (server_key prev) (server_key z)); exact H2.
    + intros z [<-|Hz]; auto.
  - assert (server_key y <> server_key prev) as Hne.
    { intros Hk. apply ignore_case_key in Hk. congruence. }
    destruct (IH y Hs) as (H1 & H2 & H3).
    assert (instance_lt prev y) as Hlt by (apply instance_le_ne; congruence).
    assert (Hall : Forall (instance_lt prev) (y :: dedup_from y l)).
    { constructor; [exact Hlt|]. apply StronglySorted_inv in H1 as [_ Hy].
      eapply Forall_impl; [exact Hy|]. intros z Hz. unfold instance_lt in *.
      eapply str_lt_trans; eassumption. }
    split_and!.
    + constructor; assumption.
    + intros z Hz. cbn [find]. unfold same_server at 1.
      assert (instance_lt prev z) as Hpz by (rewrite List.Forall_forall in Hall; apply Hall, Hz).
      destruct (str_eqb (server_key prev) (server_key z)) eqn:Ek.
      { apply str_eqb_eq in Ek. unfold instance_lt in Hpz. rewrite Ek, str_lt_irrefl in Hpz. discriminate. }
      destruct Hz as [<-|Hz]; [|apply H2, Hz]. unfold same_server. rewrite str_eqb_refl. reflexivity.
    + intros z [<-|Hz]; right; [exists y; split; [left|]; reflexivity|].
      destruct (H3 z Hz) as [Ek|(w & Hw & Ek)]; [exists y | exists w]; (split; [|congruence]).
      * left. reflexivity.
      * right. exact Hw.
Qed.

Lemma find_filter_head {A} (f : A -> bool) l : find f l = head (List.filter f l).
Proof. induction l as [|x l IH]; cbn; [reflexivity|]. destruct (f x); [reflexivity | exact IH]. Qed.

(** What discovery reports: one entry for each server found, by whatever means and in
    whatever case its name was spelled, in the order of the names; and the entry is the
    first that was found, so that an instance of the local registry, which has more
    detail, is never replaced by an answer from the network. *)
Theorem discover_merges local (include_network : bool) targets broadcast scan :
  let found := local ++
    if include_network then broadcast ++ scan (concat (map expand_target targets)) else [] in
  let result := discover local include_network targets broadcast scan in
  StronglySorted instance_lt result /\
  (forall x, In x found -> exists y, In y result /\ server_key y = server_key x) /\
  (forall y, In y result -> find (same_server (server_key y)) found = Some y).
Proof.
  intros found result. subst result. unfold discover. fold found.
  pose proof (sort_instances_sorted found) as Hs. pose proof (sort_instances_perm found) as Hp.
  assert (Hfind : forall k, find (same_server k) found = find (same_server k) (sort_instances found)).
  { intros k. rewrite !find_filter_head, sort_instances_stable. reflexivity. }
  setoid_rewrite Hfind.
  assert (Hin : forall x, In x found -> In x (sort_instances found)) by (intros x; apply Permutation_in, Hp).
  destruct (sort_instances found) as [|p l]; cbn [dedup_instances].
  { split_and!; [constructor | intros x Hx; destruct (Hin x Hx) | intros y []]. }
  destruct (dedup_from_spec p l Hs) as (H1 & H2 & H3). split_and!; [exact H1 | |].
  - intros x Hx. destruct (Hin x Hx) as [<-|Hx']; [exists p; split; [left|]; reflexivity|].
    destruct (H3 x Hx') as [Ek|(y & Hy & Ek)]; [exists p | exists y]; (split; [|congruence]).
    + left. reflexivity.
    + right. exact Hy.
  - intros y [<-|Hy]; [|apply H2, Hy]. cbn [find]. unfold same_server. rewrite str_eqb_refl. reflexivity.
Qed.

(** The same server from the registry and from the network. *)
Definition local_sample : SqlInstance :=
  {| in_server := L "stanley\SQLEXPRESS"; in_instance_name := L "SQLEXPRESS"; in_host := L "stanley";
     in_port := Some 49677; in_source := LocalRegistry; in_running := None;
     in_service_account := None; in_auth_mode := Mixed; in_clustered := Some false;
     in_tcp_enabled := Some true |}.

Lemma discover_merges_witness :
  let found := [local_sample; advert_instance Browser sample_advert] in
  find (same_server (server_key local_sample)) found = Some local_sample.
Proof.
  refine (proj2 (proj2 (discover_merges [local_sample] true []
    [advert_instance Browser sample_advert] (fun _ => []))) local_sample _).
  vm_compute. left. reflexivity.
Defined.
