(* ===== verification/Metrics.v ===== *)
(** The metrics page ([pbsgui-engine/src/metrics.rs]).

    [render] writes the state of [Runs] in the Prometheus text format.  A reader of
    that format gets back the samples that were meant, whatever characters the names of
    jobs and databases have. *)

From Stdlib Require Import ZArith Lia Strings.Byte Ascii String.
From stdpp Require Import base tactics option numbers list gmap.
From S2P Require Import Prelude Text Base Jobs Stores Plan Runs.
Open Scope Z_scope.

(** Floating point, of which the page only converts, divides and prints. *)
Class Float64 := {
  f64_of : Z -> f64;                  (* as f64 *)
  f64_div : f64 -> f64 -> f64;
  f64_whole : f64 -> bool;            (* fract() == 0.0 && abs() < 1e15 *)
  f64_to_i64 : f64 -> Z;
  f64_show : f64 -> str }.

(** A printed number is on one line. *)
Class Float64Laws `{Float64} := { f64_show_line : forall v, has_char 10 (f64_show v) = false }.

(** ** Writing *)

Section render.
Context `{Float64}.

(** [esc]: backslash, quote and newline, in this order. *)
Definition prom_esc (s : str) : str :=
  replace_char 10 [92; 110] (replace_char 34 [92; 34] (replace_char 92 [92; 92] s)).

Definition line (s : str) : str := s ++ [10].

Definition help (name text kind : str) : str :=
  line (L "# HELP " ++ name ++ L " " ++ text) ++ line (L "# TYPE " ++ name ++ L " " ++ kind).

Definition fmt (v : f64) : str := if f64_whole v then dec (f64_to_i64 v) else f64_show v.

Definition quote (s : str) : str := [34] ++ s ++ [34].

Definition job_gauge (st : metrics) (jobs : list Job) (name text : str)
    (pick : JobRuntime -> option f64) : str :=
  help name text (L "gauge") ++
  concat (map (fun job =>
    match st !! j_id job with
    | Some r => match pick r with
                | Some v => line (name ++ L "{job=" ++ quote (prom_esc (j_name job)) ++ L "} " ++ fmt v)
                | None => []
                end
    | None => []
    end) jobs).

Definition protection_label (p : SqlProtection) : str :=
  match p with
  | PointInTime _ _ => L "point_in_time"
  | DailyRestorePoints _ => L "daily_restore_points"
  | SecondaryCopy _ => L "secondary_copy"
  end.

Definition bit (b : bool) : f64 := f64_of (if b then 1 else 0).

(** Running, and the value if so. *)
Definition while_running (r : JobRuntime) (v : f64) : option f64 :=
  if jr_running r then Some v else None.

Definition job_info_line (job : Job) : str :=
  let '(source, plan) := match j_source job with
    | Sql _ _ protection => (L "sql", protection_label protection)
    | Files _ _ _ => (L "files", [])
    end in
  let destination := match j_destination job with Pbs _ _ => L "pbs" | Folder _ => L "folder" end in
  line (L "pbsgui_job_info{job=" ++ quote (prom_esc (j_name job)) ++ L ",job_id=" ++
        quote (prom_esc (j_id job)) ++ L ",source=" ++ quote source ++ L ",destination=" ++
        quote destination ++ L ",plan=" ++ quote plan ++ L ",encrypted=" ++
        quote (if j_encrypted job then L "true" else L "false") ++ L "} 1").

Definition runs_lines (st : metrics) (job : Job) : str :=
  match st !! j_id job with
  | Some r =>
      let n := prom_esc (j_name job) in
      let sample result count :=
        line (L "pbsgui_job_runs_total{job=" ++ quote n ++ L ",result=" ++ quote result ++ L "} " ++
              dec count) in
      sample (L "success") (jr_runs_success r) ++ sample (L "failure") (jr_runs_failure r) ++
      sample (L "skipped") (jr_runs_skipped r)
  | None => []
  end.

(** The families per database, with what each shows. *)
Definition sql_families : list (str * str * (SqlDbStatus -> option f64)) :=
  [(L "pbsgui_sql_chain_latest_timestamp_seconds",
    L "Newest snapshot time in the shared PBS group.", fun db => f64_of <$> sd_chain_latest db);
   (L "pbsgui_sql_chain_stalled", L "1 if the point-in-time chain has stopped advancing.",
    fun db => Some (bit (sd_stalled db)));
   (L "pbsgui_sql_full_count", L "Full backups retained in the group.",
    fun db => Some (f64_of (sd_full_count db)));
   (L "pbsgui_sql_log_count", L "Log backups retained in the group.",
    fun db => Some (f64_of (sd_log_count db)));
   (L "pbsgui_sql_pit_window_seconds", L "Span of the recoverable point-in-time window.",
    fun db => f64_of <$> sd_pit_window_secs db)].

Definition sql_family (st : metrics) (jobs : list Job)
    (f : str * str * (SqlDbStatus -> option f64)) : str :=
  let '(name, h, val) := f in
  help name h (L "gauge") ++
  concat (map (fun job =>
    match st !! j_id job with
    | Some r => concat (map (fun db =>
        match val db with
        | Some v => line (name ++ L "{job=" ++ quote (prom_esc (j_name job)) ++ L ",database=" ++
                          quote (prom_esc (sd_database db)) ++ L "} " ++ fmt v)
        | None => []
        end) (jr_databases r))
    | None => []
    end) jobs).

(** The gauges of [render] between the static part and the counters. *)
Definition job_gauges : list (str * str * (JobRuntime -> option f64)) :=
  [(L "pbsgui_job_running", L "1 while a backup for the job is running.",
    fun r => Some (bit (jr_running r)));
   (L "pbsgui_job_last_run_timestamp_seconds", L "Time of the last run.",
    fun r => f64_of <$> jr_last_run r);
   (L "pbsgui_job_last_success_timestamp_seconds", L "Time of the last successful run.",
    fun r => f64_of <$> jr_last_success r);
   (L "pbsgui_job_last_run_success", L "1 if the last run succeeded, else 0.",
    fun r => bit <$> jr_last_ok r);
   (L "pbsgui_job_last_duration_seconds", L "Duration of the last run.", jr_last_duration);
   (L "pbsgui_job_last_size_bytes", L "Size of the last backup.",
    fun r => f64_of <$> jr_last_bytes r);
   (L "pbsgui_job_last_chunks", L "Chunks in the last backup.",
    fun r => f64_of <$> jr_last_chunks r);
   (L "pbsgui_job_last_chunks_uploaded", L "Chunks uploaded in the last backup.",
    fun r => f64_of <$> jr_last_uploaded r);
   (L "pbsgui_job_last_chunks_reused", L "Chunks reused (deduplicated) in the last backup.",
    fun r => f64_of <$> jr_last_reused r);
   (L "pbsgui_job_last_uploaded_bytes",
    L "Plaintext bytes uploaded (not deduplicated) in the last backup.",
    fun r => f64_of <$> jr_last_uploaded_bytes r);
   (L "pbsgui_job_last_stored_bytes",
    L "Encoded bytes stored after compression/encryption in the last backup.",
    fun r => f64_of <$> jr_last_stored_bytes r);
   (L "pbsgui_job_last_compression_ratio",
    L "Compression ratio of uploaded data in the last backup (uploaded/stored).",
    fun r => match jr_last_uploaded_bytes r, jr_last_stored_bytes r with
             | Some u, Some s => if 0 <? s then Some (f64_div (f64_of u) (f64_of s)) else None
             | _, _ => None
             end);
   (L "pbsgui_job_progress_bytes", L "Bytes processed so far in the running backup.",
    fun r => while_running r (f64_of (jr_progress_bytes r)));
   (L "pbsgui_job_progress_total_bytes",
    L "Estimated total bytes for the running backup (0 if unknown).",
    fun r => if jr_running r && (0 <? jr_progress_total r)
             then Some (f64_of (jr_progress_total r)) else None);
   (L "pbsgui_job_throughput_bytes_per_second", L "Throughput of the running backup.",
    fun r => while_running r (jr_throughput r))].

Definition render (version commit : str) (start_time : Z) (st : metrics) (jobs : list Job) : str :=
  help (L "pbsgui_build_info") (L "Build information.") (L "gauge") ++
  line (L "pbsgui_build_info{version=" ++ quote version ++ L ",commit=" ++ quote (prom_esc commit)
        ++ L "} 1") ++
  help (L "pbsgui_jobs") (L "Number of configured jobs.") (L "gauge") ++
  line (L "pbsgui_jobs " ++ dec (Z.of_nat (length jobs))) ++
  help (L "pbsgui_engine_start_timestamp_seconds") (L "Engine start time.") (L "gauge") ++
  line (L "pbsgui_engine_start_timestamp_seconds " ++ dec start_time) ++
  help (L "pbsgui_job_info") (L "Static job metadata.") (L "gauge") ++
  concat (map job_info_line jobs) ++
  concat (map (fun '(name, text, pick) => job_gauge st jobs name text pick) job_gauges) ++
  help (L "pbsgui_job_runs_total") (L "Runs by result since engine start.") (L "counter") ++
  concat (map (runs_lines st) jobs) ++
  job_gauge st jobs (L "pbsgui_job_bytes_backed_up_total")
    (L "Cumulative bytes backed up since engine start.") (fun r => Some (f64_of (jr_bytes_total r))) ++
  concat (map (sql_family st jobs) sql_families).

(** ** What the page says *)

Record sample := { sa_labels : list (str * str); sa_value : str }.
Record family := { fa_name : str; fa_help : str; fa_kind : str; fa_samples : list sample }.

Definition job_sample (st : metrics) (pick : JobRuntime -> option f64) (job : Job) : option sample :=
  r ← st !! j_id job;
  v ← pick r;
  Some {| sa_labels := [(L "job", j_name job)]; sa_value := fmt v |}.

Definition gauge_family (st : metrics) (jobs : list Job)
    (f : str * str * (JobRuntime -> option f64)) : family :=
  let '(name, text, pick) := f in
  {| fa_name := name; fa_help := text; fa_kind := L "gauge";
     fa_samples := omap (job_sample st pick) jobs |}.

Definition info_sample (job : Job) : sample :=
  {| sa_labels := [(L "job", j_name job); (L "job_id", j_id job);
       (L "source", match j_source job with Sql _ _ _ => L "sql" | _ => L "files" end);
       (L "destination", match j_destination job with Pbs _ _ => L "pbs" | _ => L "folder" end);
       (L "plan", match j_source job with Sql _ _ p => protection_label p | _ => [] end);
       (L "encrypted", if j_encrypted job then L "true" else L "false")];
     sa_value := L "1" |}.

Definition runs_samples (st : metrics) (job : Job) : list sample :=
  match st !! j_id job with
  | Some r => map (fun x => {| sa_labels := [(L "job", j_name job); (L "result", x.1)];
                               sa_value := dec x.2 |})
                [(L "success", jr_runs_success r); (L "failure", jr_runs_failure r);
                 (L "skipped", jr_runs_skipped r)]
  | None => []
  end.

Definition db_sample (job : Job) (val : SqlDbStatus -> option f64) (db : SqlDbStatus) :
    option sample :=
  v ← val db;
  Some {| sa_labels := [(L "job", j_name job); (L "database", sd_database db)]; sa_value := fmt v |}.

Definition db_samples (st : metrics) (val : SqlDbStatus -> option f64) (job : Job) : list sample :=
  match st !! j_id job with Some r => omap (db_sample job val) (jr_databases r) | None => [] end.

Definition db_family (st : metrics) (jobs : list Job)
    (f : str * str * (SqlDbStatus -> option f64)) : family :=
  let '(name, text, val) := f in
  {| fa_name := name; fa_help := text; fa_kind := L "gauge";
     fa_samples := concat (map (db_samples st val) jobs) |}.

Definition families (version commit : str) (start_time : Z) (st : metrics) (jobs : list Job) :
    list family :=
  let one name text samples :=
    {| fa_name := name; fa_help := text; fa_kind := L "gauge"; fa_samples := samples |} in
  [one (L "pbsgui_build_info") (L "Build information.")
     [{| sa_labels := [(L "version", version); (L "commit", commit)]; sa_value := L "1" |}];
   one (L "pbsgui_jobs") (L "Number of configured jobs.")
     [{| sa_labels := []; sa_value := dec (Z.of_nat (length jobs)) |}];
   one (L "pbsgui_engine_start_timestamp_seconds") (L "Engine start time.")
     [{| sa_labels := []; sa_value := dec start_time |}];
   one (L "pbsgui_job_info") (L "Static job metadata.") (map info_sample jobs)] ++
  map (gauge_family st jobs) job_gauges ++
  [{| fa_name := L "pbsgui_job_runs_total"; fa_help := L "Runs by result since engine start.";
      fa_kind := L "counter"; fa_samples := concat (map (runs_samples st) jobs) |};
   gauge_family st jobs (L "pbsgui_job_bytes_backed_up_total",
     L "Cumulative bytes backed up since engine start.", fun r => Some (f64_of (jr_bytes_total r)))] ++
  map (db_family st jobs) sql_families.

(** The text of a family. *)
Definition label_text (l : str * str) : str := l.1 ++ L "=" ++ quote (prom_esc l.2).

Definition sample_text (name : str) (s : sample) : str :=
  line (name ++ match sa_labels s with
                | [] => []
                | ls => L "{" ++ join (L ",") (map label_text ls) ++ L "}"
                end ++ L " " ++ sa_value s).

Definition family_text (f : family) : str :=
  help (fa_name f) (fa_help f) (fa_kind f) ++ concat (map (sample_text (fa_name f)) (fa_samples f)).

End render.

Section pages.
Context `{Float64}.

Lemma concat_omap {A B C} (f : A -> option B) (g : B -> list C) l :
  concat (map g (omap f l)) = concat (map (fun x => match f x with Some y => g y | None => [] end) l).
Proof. induction l as [|x l IH]; cbn; [reflexivity|]. destruct (f x); cbn; rewrite IH; reflexivity. Qed.

Lemma concat_map_concat {A B C} (f : A -> list B) (g : B -> list C) l :
  concat (map g (concat (map f l))) = concat (map (fun x => concat (map g (f x))) l).
Proof. induction l as [|x l IH]; cbn; [reflexivity|]. rewrite map_app, concat_app, IH. reflexivity. Qed.

Lemma gauge_text st jobs name text pick :
  job_gauge st jobs name text pick = family_text (gauge_family st jobs (name, text, pick)).
Proof.
  unfold job_gauge, family_text. cbn [gauge_family fa_name fa_help fa_kind fa_samples]. f_equal.
  rewrite concat_omap. f_equal. apply map_ext. intros job. unfold job_sample.
  destruct (st !! j_id job) as [r|]; [|reflexivity]. cbn [mbind option_bind].
  destruct (pick r); [|reflexivity]. cbn [mbind option_bind].
  unfold sample_text, line, label_text, quote. cbn [sa_labels sa_value map join fst snd].
  rewrite <- ?app_assoc. reflexivity.
Qed.

Lemma db_text st jobs f : sql_family st jobs f = family_text (db_family st jobs f).
Proof.
  destruct f as [[name text] val]. unfold sql_family, family_text.
  cbn [db_family fa_name fa_help fa_kind fa_samples]. f_equal. rewrite concat_map_concat. f_equal.
  apply map_ext. intros job. unfold db_samples. destruct (st !! j_id job) as [r|]; [|reflexivity].
  rewrite concat_omap. f_equal. apply map_ext. intros db. unfold db_sample.
  destruct (val db); [|reflexivity]. cbn [mbind option_bind].
  unfold sample_text, line, label_text, quote. cbn [sa_labels sa_value map join fst snd].
  rewrite <- ?app_assoc. reflexivity.
Qed.

Lemma info_text job : job_info_line job = sample_text (L "pbsgui_job_info") (info_sample job).
Proof.
  unfold job_info_line, sample_text, info_sample, line, label_text, quote.
  cbn [sa_labels sa_value map join fst snd].
  destruct (j_source job) as [|? ? []], (j_destination job), (j_encrypted job);
    rewrite <- ?app_assoc; reflexivity.
Qed.

Lemma runs_text st job :
  runs_lines st job = concat (map (sample_text (L "pbsgui_job_runs_total")) (runs_samples st job)).
Proof.
  unfold runs_lines, runs_samples. destruct (st !! j_id job) as [r|]; [|reflexivity].
  cbn [map concat]. unfold sample_text, line, label_text. cbn [sa_labels sa_value map join fst snd].
  rewrite app_nil_r, <- !app_assoc. reflexivity.
Qed.

(** A family at the beginning of a text. *)
Lemma family_text_app name text kind samples body rest :
  body = concat (map (sample_text name) samples) ->
  help name text kind ++ body ++ rest =
  family_text {| fa_name := name; fa_help := text; fa_kind := kind; fa_samples := samples |} ++ rest.
Proof. intros ->. unfold family_text. cbn [fa_name fa_help fa_kind fa_samples]. apply app_assoc. Qed.

(** The page is its families. *)
Lemma render_families version commit start_time st jobs : prom_esc version = version ->
  render version commit start_time st jobs =
  concat (map family_text (families version commit start_time st jobs)).
Proof.
  intros Hv. unfold render.
  rewrite (family_text_app _ _ _
    [{| sa_labels := [(L "version", version); (L "commit", commit)]; sa_value := L "1" |}]).
  2: { cbn [map concat]. unfold sample_text, label_text, line, quote.
       cbn [sa_labels sa_value map join fst snd]. rewrite Hv, app_nil_r, <- ?app_assoc. reflexivity. }
  rewrite (family_text_app _ _ _ [{| sa_labels := []; sa_value := dec (Z.of_nat (length jobs)) |}])
    by (symmetry; apply app_nil_r).
  rewrite (family_text_app _ _ _ [{| sa_labels := []; sa_value := dec start_time |}])
    by (symmetry; apply app_nil_r).
  rewrite (family_text_app _ _ _ (map info_sample jobs))
    by (rewrite map_map; f_equal; apply map_ext, info_text).
  rewrite (family_text_app _ _ _ (concat (map (runs_samples st) jobs)))
    by (rewrite concat_map_concat; f_equal; apply map_ext, runs_text).
  rewrite gauge_text, (map_ext _ _ (db_text st jobs)).
  rewrite (map_ext _ (fun x => family_text (gauge_family st jobs x)))
    by (intros [[name text] pick]; apply gauge_text).
  unfold families. rewrite !map_app, !concat_app, !map_map. cbn [map concat].
  rewrite !app_nil_r, <- !app_assoc. reflexivity.
Qed.

(** ** Reading *)

Inductive item := IHelp (name text : str) | IType (name kind : str)
| ISample (name : str) (labels : list (str * str)) (value : str).

(** A label's value, up to its closing quote. *)
Fixpoint read_value (s : str) : option (str * str) :=
  match s with
  | [] => None
  | c :: s =>
      if c =? 34 then Some ([], s)
      else if c =? 92 then
        match s with
        | d :: s =>
            '(v, r) ← read_value s;
            if d =? 92 then Some (92 :: v, r)
            else if d =? 34 then Some (34 :: v, r)
            else if d =? 110 then Some (10 :: v, r) else None
        | [] => None
        end
      else '(v, r) ← read_value s; Some (c :: v, r)
  end.

Fixpoint read_labels (fuel : nat) (s : str) : option (list (str * str) * str) :=
  match fuel with
  | O => None
  | S fuel =>
      '(key, r) ← split_once 61 s;
      match r with
      | 34 :: r =>
          '(v, r) ← read_value r;
          match r with
          | 125 :: r => Some ([(key, v)], r)
          | 44 :: r => '(ls, r) ← read_labels fuel r; Some ((key, v) :: ls, r)
          | _ => None
          end
      | _ => None
      end
  end.

(** The name of a metric, and what follows. *)
Fixpoint read_name (s : str) : str * str :=
  match s with
  | [] => ([], [])
  | c :: s' => if (c =? 123) || (c =? 32) then ([], s)
               else let '(n, r) := read_name s' in (c :: n, r)
  end.

Definition read_sample (s : str) : option item :=
  match read_name s with
  | (name, 123 :: r) =>
      '(ls, r) ← read_labels (length r) r;
      match r with 32 :: value => Some (ISample name ls value) | _ => None end
  | (name, 32 :: value) => Some (ISample name [] value)
  | _ => None
  end.

Definition read_item (s : str) : option item :=
  match strip_prefix (L "# HELP ") s with
  | Some r => '(name, text) ← split_once 32 r; Some (IHelp name text)
  | None =>
      match strip_prefix (L "# TYPE ") s with
      | Some r => '(name, kind) ← split_once 32 r; Some (IType name kind)
      | None => read_sample s
      end
  end.

(** A page is lines, the last of them ended. *)
Definition read_page (s : str) : option (list item) :=
  match rev (split_char 10 s) with
  | [] :: ls => mapM read_item (rev ls)
  | _ => None
  end.

Definition family_items (f : family) : list item :=
  [IHelp (fa_name f) (fa_help f); IType (fa_name f) (fa_kind f)] ++
  map (fun s => ISample (fa_name f) (sa_labels s) (sa_value s)) (fa_samples f).

(** ** Reading what was written *)

(** Names of metrics and labels: small letters and underscores. *)
Definition name_char (c : Z) : bool := ((97 <=? c) && (c <=? 122)) || (c =? 95).
Definition name_ok (n : str) : Prop := n <> [] /\ forallb name_char n = true.

Lemma name_no_char c n : name_char c = false -> name_ok n -> has_char c n = false.
Proof.
  intros Hc [_ Hn]. destruct (has_char c n) eqn:E; [|reflexivity]. apply has_char_In in E.
  rewrite forallb_forall in Hn. rewrite (Hn c E) in Hc. discriminate.
Qed.

Definition esc_char (c : Z) : str :=
  if c =? 92 then [92; 92] else if c =? 34 then [92; 34] else if c =? 10 then [92; 110] else [c].

Lemma replace_char_app c w a b : replace_char c w (a ++ b) = replace_char c w a ++ replace_char c w b.
Proof. unfold replace_char. rewrite map_app, concat_app. reflexivity. Qed.

Lemma prom_esc_cons c s : prom_esc (c :: s) = esc_char c ++ prom_esc s.
Proof.
  unfold prom_esc. change (c :: s) with ([c] ++ s). rewrite !replace_char_app. f_equal.
  unfold esc_char, replace_char at 3. cbn [map concat]. rewrite app_nil_r.
  destruct (Z.eqb_spec c 92); [reflexivity|].
  unfold replace_char at 2. cbn [map concat]. rewrite app_nil_r.
  destruct (Z.eqb_spec c 34); [reflexivity|].
  unfold replace_char. cbn [map concat]. rewrite app_nil_r. reflexivity.
Qed.

Lemma prom_esc_line s : has_char 10 (prom_esc s) = false.
Proof.
  induction s as [|c s IH]; [reflexivity|]. rewrite prom_esc_cons, has_char_app, IH, orb_false_r.
  unfold esc_char. destruct (c =? 92), (c =? 34); try reflexivity.
  destruct (Z.eqb_spec c 10); [reflexivity|]. rewrite has_char_cons. apply orb_false_iff.
  split; [apply Z.eqb_neq; auto | reflexivity].
Qed.

Lemma read_value_esc s r : read_value (prom_esc s ++ 34 :: r) = Some (s, r).
Proof.
  induction s as [|c s IH]; [reflexivity|]. rewrite prom_esc_cons, <- app_assoc. unfold esc_char.
  destruct (Z.eqb_spec c 92) as [->|]; [cbn; rewrite IH; reflexivity|].
  destruct (Z.eqb_spec c 34) as [->|]; [cbn; rewrite IH; reflexivity|].
  destruct (Z.eqb_spec c 10) as [->|]; [cbn; rewrite IH; reflexivity|].
  cbn [app read_value]. destruct (Z.eqb_spec c 34); [congruence|].
  destruct (Z.eqb_spec c 92); [congruence|]. rewrite IH. reflexivity.
Qed.

Lemma read_labels_join ls r fuel : ls <> [] -> Forall (fun l => name_ok l.1) ls ->
  (length ls <= fuel)%nat ->
  read_labels fuel (join (L ",") (map label_text ls) ++ 125 :: r) = Some (ls, r).
Proof.
  intros Hne HF; revert fuel; induction HF as [|[k v] ls Hk HF IH]; intros fuel Hf; [congruence|].
  destruct fuel as [|fuel]; [cbn in Hf; lia|]. cbn [fst] in Hk.
  assert (Hone : forall rest, label_text (k, v) ++ rest = k ++ 61 :: 34 :: prom_esc v ++ 34 :: rest).
  { intros rest. unfold label_text, quote. cbn [fst snd]. rewrite <- !app_assoc. reflexivity. }
  destruct ls as [|l ls].
  - cbn [map join read_labels]. rewrite Hone, split_once_at by (apply name_no_char; [reflexivity | exact Hk]).
    cbn [mbind option_bind]. rewrite read_value_esc. reflexivity.
  - change (join (L ",") (map label_text ((k, v) :: l :: ls)))
      with (label_text (k, v) ++ 44 :: join (L ",") (map label_text (l :: ls))).
    rewrite <- app_assoc, Hone. cbn [read_labels].
    rewrite split_once_at by (apply name_no_char; [reflexivity | exact Hk]).
    cbn [mbind option_bind]. rewrite read_value_esc. cbn [app mbind option_bind].
    rewrite IH; [reflexivity | discriminate | cbn in *; lia].
Qed.

Lemma labels_length (ls : list (str * str)) :
  (length ls <= S (length (join (L ",") (map label_text ls))))%nat.
Proof.
  induction ls as [|l [|m ls] IH]; [cbn; lia | cbn; lia|].
  change (join (L ",") (map label_text (l :: m :: ls)))
    with (label_text l ++ 44 :: join (L ",") (map label_text (m :: ls))).
  rewrite length_app. cbn [length] in *. lia.
Qed.

Lemma read_name_at n c r : name_ok n -> (c =? 123) || (c =? 32) = true ->
  read_name (n ++ c :: r) = (n, c :: r).
Proof.
  intros [_ Hn] Hc. induction n as [|d n IH]; [cbn; rewrite Hc; reflexivity|].
  cbn [forallb] in Hn. apply andb_true_iff in Hn as [Hd Hn]. cbn [app read_name]. rewrite IH by exact Hn.
  destruct (Z.eqb_spec d 123); [subst; discriminate|]. destruct (Z.eqb_spec d 32); [subst; discriminate|].
  reflexivity.
Qed.

Definition sample_ok (s : sample) : Prop :=
  Forall (fun l => name_ok l.1) (sa_labels s) /\ has_char 10 (sa_value s) = false.
Definition family_ok (f : family) : Prop :=
  name_ok (fa_name f) /\ has_char 10 (fa_help f) = false /\ has_char 10 (fa_kind f) = false /\
  Forall sample_ok (fa_samples f).

(** A line without its end. *)
Definition sample_line (name : str) (s : sample) : str :=
  name ++ match sa_labels s with
          | [] => []
          | ls => L "{" ++ join (L ",") (map label_text ls) ++ L "}"
          end ++ L " " ++ sa_value s.

Lemma name_not_comment n r p : name_ok n -> strip_prefix (35 :: p) (n ++ r) = None.
Proof.
  intros Hn. pose proof (name_no_char 35 n eq_refl Hn) as Hc. destruct Hn as [Hne _].
  destruct n as [|c n]; [congruence|]. rewrite has_char_cons in Hc.
  apply orb_false_iff in Hc as [Hc _]. cbn [app strip_prefix]. rewrite Hc. reflexivity.
Qed.

Lemma read_sample_line name s : name_ok name -> sample_ok s ->
  read_item (sample_line name s) = Some (ISample name (sa_labels s) (sa_value s)).
Proof.
  intros Hn [HF _]. unfold read_item, sample_line.
  change (L "# HELP ") with (35 :: L " HELP "). change (L "# TYPE ") with (35 :: L " TYPE ").
  rewrite !name_not_comment by exact Hn. unfold read_sample.
  destruct (sa_labels s) as [|l ls] eqn:El.
  - change (name ++ [] ++ L " " ++ sa_value s) with (name ++ 32 :: sa_value s).
    rewrite read_name_at by auto. reflexivity.
  - change (L "{" ++ join (L ",") (map label_text (l :: ls)) ++ L "}")
      with (123 :: join (L ",") (map label_text (l :: ls)) ++ [125]).
    rewrite <- app_comm_cons, <- app_assoc. cbn [app].
    change ([125] ++ L " " ++ sa_value s) with (125 :: 32 :: sa_value s).
    rewrite read_name_at by auto. rewrite read_labels_join; [reflexivity | discriminate | exact HF|].
    rewrite length_app. pose proof (labels_length (l :: ls)). cbn [length] in *. lia.
Qed.

Lemma has_char_join c sep ls : has_char c sep = false ->
  Forall (fun l => has_char c l = false) ls -> has_char c (join sep ls) = false.
Proof.
  intros Hs. induction 1 as [|l ls Hl HF IH]; [reflexivity|]. destruct ls as [|m ls]; [exact Hl|].
  change (join sep (l :: m :: ls)) with (l ++ sep ++ join sep (m :: ls)).
  rewrite !has_char_app, Hl, Hs, IH. reflexivity.
Qed.

Lemma sample_line_one name s : name_ok name -> sample_ok s -> has_char 10 (sample_line name s) = false.
Proof.
  intros Hn [HF Hv]. unfold sample_line. rewrite !has_char_app, Hv.
  rewrite (name_no_char 10 name eq_refl Hn). destruct (sa_labels s) as [|l ls] eqn:El; [reflexivity|].
  rewrite !has_char_app, has_char_join; [reflexivity | reflexivity|].
  apply List.Forall_forall. intros t ([k v] & <- & Hin)%in_map_iff. rewrite List.Forall_forall in HF.
  pose proof (name_no_char 10 k eq_refl (HF _ Hin)) as Hk.
  unfold label_text, quote. cbn [fst snd]. rewrite !has_char_app, Hk, prom_esc_line. reflexivity.
Qed.

Definition family_lines (f : family) : list str :=
  [L "# HELP " ++ fa_name f ++ L " " ++ fa_help f; L "# TYPE " ++ fa_name f ++ L " " ++ fa_kind f] ++
  map (sample_line (fa_name f)) (fa_samples f).

Lemma family_text_lines f : family_text f = concat (map line (family_lines f)).
Proof.
  unfold family_text, family_lines, help. cbn [map app concat]. rewrite map_map, <- app_assoc. reflexivity.
Qed.

Lemma family_lines_one f : family_ok f -> Forall (fun l => has_char 10 l = false) (family_lines f).
Proof.
  intros (Hn & Hh & Hk & HF). unfold family_lines. cbn [app].
  pose proof (name_no_char 10 _ eq_refl Hn) as Hn'.
  repeat constructor; [rewrite !has_char_app, Hn', Hh; reflexivity | rewrite !has_char_app, Hn', Hk; reflexivity|].
  apply List.Forall_forall. intros t (s & <- & Hin)%in_map_iff. rewrite List.Forall_forall in HF.
  apply sample_line_one; auto.
Qed.

Lemma family_lines_read f : family_ok f ->
  Forall2 (fun l i => read_item l = Some i) (family_lines f) (family_items f).
Proof.
  intros (Hn & _ & _ & HF). unfold family_lines, family_items. cbn [app].
  assert (Hsp : has_char 32 (fa_name f) = false) by (apply name_no_char; [reflexivity | exact Hn]).
  constructor; [|constructor].
  - transitivity ('(name, text) ← split_once 32 (fa_name f ++ 32 :: fa_help f); Some (IHelp name text));
      [reflexivity|]. rewrite split_once_at by exact Hsp. reflexivity.
  - transitivity ('(name, kind) ← split_once 32 (fa_name f ++ 32 :: fa_kind f); Some (IType name kind));
      [reflexivity|]. rewrite split_once_at by exact Hsp. reflexivity.
  - induction HF as [|s ss Hs HF IH]; cbn [map]; constructor; [|exact IH].
    apply read_sample_line; assumption.
Qed.

Lemma split_lines ls : Forall (fun l => has_char 10 l = false) ls ->
  split_char 10 (concat (map line ls)) = ls ++ [[]].
Proof.
  induction 1 as [|l ls Hl HF IH]; [reflexivity|]. cbn [map concat]. unfold line at 1.
  rewrite <- app_assoc. cbn [app]. rewrite split_char_at by exact Hl. rewrite IH. reflexivity.
Qed.

Lemma read_families fs : Forall family_ok fs ->
  read_page (concat (map family_text fs)) = Some (concat (map family_items fs)).
Proof.
  intros HF. rewrite (map_ext _ _ family_text_lines).
  rewrite <- (concat_map_concat family_lines line). unfold read_page. rewrite split_lines.
  - rewrite rev_app_distr. cbn [rev app]. rewrite rev_involutive. apply mapM_Some.
    induction HF as [|f fs Hf HF IH]; [constructor|]. cbn [map concat].
    apply Forall2_app; [apply family_lines_read, Hf | exact IH].
  - induction HF as [|f fs Hf HF IH]; [constructor|]. cbn [map concat].
    apply Forall_app. split; [apply family_lines_one, Hf | exact IH].
Qed.

End pages.

Section exported.
Context `{Float64Laws}.

Lemma dec_line n : has_char 10 (dec n) = false.
Proof.
  destruct (Z.le_gt_cases 0 n) as [Hn|Hn].
  - apply digits_no_char; [reflexivity | apply dec_all_digits, Hn].
  - assert (dec n = 45 :: dec (- n)) as ->.
    { unfold dec. destruct (Z.ltb_spec n 0); [|lia]. destruct (Z.ltb_spec (- n) 0); [lia | reflexivity]. }
    rewrite has_char_cons. apply digits_no_char; [reflexivity | apply dec_all_digits; lia].
Qed.

Lemma fmt_line v : has_char 10 (fmt v) = false.
Proof. unfold fmt. destruct (f64_whole v); [apply dec_line | apply f64_show_line]. Qed.

Definition name_okb (n : str) : bool := negb (is_empty n) && forallb name_char n.

Lemma name_okb_ok n : name_okb n = true -> name_ok n.
Proof.
  unfold name_okb, name_ok. intros [Hn Hc]%andb_true_iff. split; [|exact Hc].
  intros ->. discriminate.
Qed.

(** Names and help texts of a list of families, checked by evaluation. *)
Definition heads_okb {A} (l : list (str * str * A)) : bool :=
  forallb (fun x => name_okb x.1.1 && negb (has_char 10 x.1.2)) l.

Lemma gauge_family_ok st jobs f : name_okb f.1.1 && negb (has_char 10 f.1.2) = true ->
  family_ok (gauge_family st jobs f).
Proof.
  destruct f as [[name text] pick]. cbn [fst snd]. intros [Hn Hh]%andb_true_iff.
  apply negb_true_iff in Hh. unfold family_ok. cbn [gauge_family fa_name fa_help fa_kind fa_samples].
  split_and!; [apply name_okb_ok, Hn | exact Hh | reflexivity|].
  apply List.Forall_forall. intros s Hs. apply list_elem_of_In, list_elem_of_omap in Hs as (job & _ & Hs).
  unfold job_sample in Hs. destruct (st !! j_id job) as [r|]; [|discriminate]. cbn in Hs.
  destruct (pick r) as [v|]; [|discriminate]. injection Hs as <-. split; [|apply fmt_line].
  repeat constructor. apply name_okb_ok. reflexivity.
Qed.

Lemma db_family_ok st jobs f : name_okb f.1.1 && negb (has_char 10 f.1.2) = true ->
  family_ok (db_family st jobs f).
Proof.
  destruct f as [[name text] val]. cbn [fst snd]. intros [Hn Hh]%andb_true_iff.
  apply negb_true_iff in Hh. unfold family_ok. cbn [db_family fa_name fa_help fa_kind fa_samples].
  split_and!; [apply name_okb_ok, Hn | exact Hh | reflexivity|].
  apply List.Forall_forall. intros s (ss & Hss & Hs)%in_concat.
  apply in_map_iff in Hss as (job & <- & _). unfold db_samples in Hs.
  destruct (st !! j_id job) as [r|]; [|destruct Hs].
  apply list_elem_of_In, list_elem_of_omap in Hs as (db & _ & Hs). unfold db_sample in Hs.
  destruct (val db) as [v|]; [|discriminate]. injection Hs as <-. split; [|apply fmt_line].
  repeat constructor; apply name_okb_ok; reflexivity.
Qed.

Lemma map_Forall {A B} (P : B -> Prop) (f : A -> B) (ok : A -> bool) l :
  (forall a, ok a = true -> P (f a)) -> forallb ok l = true -> Forall P (map f l).
Proof.
  intros Hp Hl. rewrite forallb_forall in Hl. apply List.Forall_forall.
  intros b (a & <- & Ha)%in_map_iff. auto.
Qed.

Lemma families_ok version commit start_time st jobs :
  Forall family_ok (families version commit start_time st jobs).
Proof.
  assert (Hkeys : forall ls : list (str * str), forallb (fun l => name_okb l.1) ls = true ->
    Forall (fun l => name_ok l.1) ls).
  { intros ls Hl. rewrite forallb_forall in Hl. apply List.Forall_forall.
    intros l Hin. apply name_okb_ok, Hl, Hin. }
  unfold families. repeat apply Forall_app_2.
  - rewrite !Forall_cons, Forall_nil. split_and!; auto; unfold family_ok;
      cbn [fa_name fa_help fa_kind fa_samples];
      (split_and!; [apply name_okb_ok; reflexivity | reflexivity | reflexivity|]).
    + repeat constructor; apply name_okb_ok; reflexivity.
    + repeat constructor. apply dec_line.
    + repeat constructor. apply dec_line.
    + apply List.Forall_forall. intros s (job & <- & _)%in_map_iff. split; [|reflexivity].
      apply Hkeys. reflexivity.
  - apply (map_Forall _ _ _ _ (gauge_family_ok st jobs)). vm_compute. reflexivity.
  - rewrite !Forall_cons, Forall_nil. split_and!; auto.
    2: apply gauge_family_ok; reflexivity.
    unfold family_ok. cbn [fa_name fa_help fa_kind fa_samples].
    split_and!; [apply name_okb_ok; reflexivity | reflexivity | reflexivity|].
    apply List.Forall_forall. intros s (ss & Hss & Hs)%in_concat.
    apply in_map_iff in Hss as (job & <- & _). unfold runs_samples in Hs.
    destruct (st !! j_id job) as [r|]; [|destruct Hs].
    apply in_map_iff in Hs as (x & <- & _). split; [apply Hkeys; reflexivity | apply dec_line].
  - apply (map_Forall _ _ _ _ (db_family_ok st jobs)). vm_compute. reflexivity.
Qed.

(** A reader of the Prometheus format gets from the page exactly the families that were
    meant, with their help, type, labels and values, whatever characters the names of
    jobs and databases have. *)
Theorem metrics_page_reads version commit start_time st jobs : prom_esc version = version ->
  read_page (render version commit start_time st jobs) =
  Some (concat (map family_items (families version commit start_time st jobs))).
Proof.
  intros Hv. rewrite render_families by exact Hv. apply read_families, families_ok.
Qed.

(** ** Series *)

(** What identifies a sample. *)
Definition family_series (f : family) : list (str * list (str * str)) :=
  map (fun s => (fa_name f, sa_labels s)) (fa_samples f).
Definition series (fs : list family) : list (str * list (str * str)) :=
  concat (map family_series fs).

Lemma series_NoDup fs : NoDup (map fa_name fs) ->
  Forall (fun f => NoDup (map sa_labels (fa_samples f))) fs -> NoDup (series fs).
Proof.
  intros Hn HF. induction HF as [|f fs Hf HF IH]; [constructor|].
  cbn [map] in Hn. apply NoDup_cons in Hn as [Hni Hn].
  unfold series. cbn [map concat]. apply NoDup_app. split_and!; [| |apply IH, Hn].
  - unfold family_series. rewrite <- (map_map sa_labels (fun l => (fa_name f, l))).
    apply NoDup_fmap_2; [|exact Hf]. intros x y [= ->]. reflexivity.
  - intros x Hx Hx'. apply Hni. apply list_elem_of_In in Hx, Hx'.
    apply in_map_iff in Hx as (s & <- & _). apply in_concat in Hx' as (l & Hl & Hx').
    apply in_map_iff in Hl as (g & <- & Hg). apply in_map_iff in Hx' as (s' & E & _).
    injection E as E _. rewrite <- E. apply list_elem_of_In, in_map, Hg.
Qed.

(** The value of the first label, which names the job. *)
Definition first_value (ls : list (str * str)) : str :=
  match ls with (_, v) :: _ => v | [] => [] end.

Lemma omap_sublist {A B C} (f : A -> option B) (g : B -> C) (h : A -> C) l :
  (forall x y, f x = Some y -> g y = h x) -> map g (omap f l) `sublist_of` map h l.
Proof.
  intros Hfg. induction l as [|x l IH]; [constructor|]. cbn. destruct (f x) as [y|] eqn:E.
  - cbn. rewrite (Hfg x y E). apply sublist_skip, IH.
  - apply sublist_cons, IH.
Qed.

Lemma NoDup_by_job {A} (F : Job -> list A) (key : A -> str) jobs :
  NoDup (map j_name jobs) ->
  (forall job, NoDup (F job)) -> (forall job x, In x (F job) -> key x = j_name job) ->
  NoDup (concat (map F jobs)).
Proof.
  intros Hn HF Hk. induction jobs as [|job jobs IH]; [constructor|].
  cbn [map] in Hn. apply NoDup_cons in Hn as [Hni Hn]. cbn [map concat].
  apply NoDup_app. split_and!; [apply HF | | apply IH, Hn].
  intros x Hx Hx'. apply Hni. apply list_elem_of_In in Hx, Hx'. apply in_concat in Hx' as (l & Hl & Hx').
  apply in_map_iff in Hl as (job' & <- & Hj). apply list_elem_of_In.
  rewrite <- (Hk job x Hx), (Hk job' x Hx'). apply in_map, Hj.
Qed.

Lemma map_concat_map {A B C} (g : B -> C) (F : A -> list B) l :
  map g (concat (map F l)) = concat (map (fun x => map g (F x)) l).
Proof. induction l as [|x l IH]; cbn; [reflexivity|]. rewrite map_app, IH. reflexivity. Qed.

Lemma gauge_labels st jobs f : NoDup (map j_name jobs) ->
  NoDup (map sa_labels (fa_samples (gauge_family st jobs f))).
Proof.
  destruct f as [[name text] pick]. intros Hn. cbn [gauge_family fa_samples].
  apply (NoDup_fmap_1 first_value). change (first_value <$> ?l) with (map first_value l).
  rewrite map_map. eapply sublist_NoDup; [exact Hn|]. apply omap_sublist.
  intros job s. unfold job_sample. destruct (st !! j_id job); [|discriminate]. cbn.
  destruct (pick _); [|discriminate]. intros [= <-]. reflexivity.
Qed.

Lemma info_labels jobs : NoDup (map j_name jobs) -> NoDup (map sa_labels (map info_sample jobs)).
Proof.
  intros Hn. apply (NoDup_fmap_1 first_value). change (first_value <$> ?l) with (map first_value l).
  rewrite !map_map. exact Hn.
Qed.

Lemma runs_labels st jobs : NoDup (map j_name jobs) ->
  NoDup (map sa_labels (concat (map (runs_samples st) jobs))).
Proof.
  intros Hn. rewrite map_concat_map. apply (NoDup_by_job _ first_value); [exact Hn | |].
  - intros job. unfold runs_samples. destruct (st !! j_id job); [|constructor].
    apply (NoDup_fmap_1 (fun ls => snd <$> ls !! 1%nat)). apply (bool_decide_unpack _).
    vm_compute. exact I.
  - intros job x. unfold runs_samples. destruct (st !! j_id job); [|intros []].
    cbn [map In]. intuition (subst; reflexivity).
Qed.

Lemma db_labels st jobs f : NoDup (map j_name jobs) ->
  (forall id r, st !! id = Some r -> NoDup (map sd_database (jr_databases r))) ->
  NoDup (map sa_labels (fa_samples (db_family st jobs f))).
Proof.
  destruct f as [[name text] val]. intros Hn Hd. cbn [db_family fa_samples].
  assert (Hdb : forall job db s, db_sample job val db = Some s ->
    sa_labels s = [(L "job", j_name job); (L "database", sd_database db)]).
  { intros job db s. unfold db_sample. destruct (val db); [|discriminate]. intros [= <-]. reflexivity. }
  rewrite map_concat_map. apply (NoDup_by_job _ first_value); [exact Hn | |].
  - intros job. unfold db_samples. destruct (st !! j_id job) as [r|] eqn:Er; [|constructor].
    apply (NoDup_fmap_1 (fun ls => default [] (snd <$> ls !! 1%nat))).
    change ((fun ls => default [] (snd <$> ls !! 1%nat)) <$> ?l)
      with (map (fun ls : list (str * str) => default [] (snd <$> ls !! 1%nat)) l).
    rewrite map_map. eapply sublist_NoDup; [exact (Hd _ _ Er)|]. apply omap_sublist.
    intros db s Hs. rewrite (Hdb _ _ _ Hs). reflexivity.
  - intros job x. unfold db_samples. destruct (st !! j_id job) as [r|]; [|intros []].
    intros (s & <- & Hs)%in_map_iff. apply list_elem_of_In, list_elem_of_omap in Hs as (db & _ & Hs).
    rewrite (Hdb _ _ _ Hs). reflexivity.
Qed.

Definition running_gauge : str * str * (JobRuntime -> option f64) :=
  (L "pbsgui_job_running", L "1 while a backup for the job is running.",
   fun r => Some (bit (jr_running r))).

Lemma series_elem_NoDup fs f : NoDup (series fs) -> In f fs -> NoDup (family_series f).
Proof.
  intros Hnd (l1 & l2 & ->)%in_split. unfold series in Hnd. rewrite map_app, concat_app in Hnd.
  cbn [map concat] in Hnd. apply NoDup_app in Hnd as (_ & _ & Hnd). apply NoDup_app in Hnd. apply Hnd.
Qed.

(** Each series of the page is there once when the jobs have different names; but the
    samples are labelled with the job's name only, and two jobs of the same name that
    have run give the same series twice. *)
Theorem metrics_series version commit start_time st jobs :
  (forall id r, st !! id = Some r -> NoDup (map sd_database (jr_databases r))) ->
  (NoDup (map j_name jobs) -> NoDup (series (families version commit start_time st jobs))) /\
  (forall jobs1 a jobs2 b jobs3, jobs = jobs1 ++ a :: jobs2 ++ b :: jobs3 -> j_name a = j_name b ->
     is_Some (st !! j_id a) -> is_Some (st !! j_id b) ->
     ~ NoDup (series (families version commit start_time st jobs))).
Proof.
  intros Hd. split.
  - intros Hn. apply series_NoDup.
    + change (map fa_name (families version commit start_time st jobs))
        with (map fa_name (families [] [] 0 ∅ [])).
      apply (bool_decide_unpack _). vm_compute. exact I.
    + unfold families. repeat apply Forall_app_2.
      * rewrite !Forall_cons, Forall_nil. cbn [fa_samples].
        split_and!; auto using info_labels; apply NoDup_singleton.
      * apply List.Forall_forall. intros f (g & <- & _)%in_map_iff. apply gauge_labels, Hn.
      * rewrite !Forall_cons, Forall_nil. split_and!; auto using gauge_labels. apply runs_labels, Hn.
      * apply List.Forall_forall. intros f (g & <- & _)%in_map_iff. apply db_labels; assumption.
  - intros jobs1 a jobs2 b jobs3 -> Hab [ra Ha] [rb Hb] Hnd.
    eapply (series_elem_NoDup _ (gauge_family st _ running_gauge)) in Hnd.
    2: { unfold families. apply in_or_app. right. apply in_or_app. left. left. reflexivity. }
    unfold family_series in Hnd. cbn [running_gauge gauge_family fa_name fa_samples] in Hnd.
    rewrite !omap_app in Hnd. cbn [omap list_omap] in Hnd. rewrite omap_app in Hnd.
    cbn [omap list_omap] in Hnd. unfold job_sample at 2 4 in Hnd. rewrite Ha, Hb, Hab in Hnd.
    cbn [mbind option_bind] in Hnd. rewrite !map_app in Hnd. cbn [map sa_labels] in Hnd.
    rewrite map_app in Hnd. cbn [map sa_labels] in Hnd.
    apply NoDup_app in Hnd as (_ & _ & Hnd). apply NoDup_cons in Hnd as [Hni _].
    apply Hni. apply elem_of_app. right. left.
Qed.

End exported.

(** ** Examples *)

Module SampleFloat.
#[export] Instance floats : Float64 := {|
  f64_of := fun z => z; f64_div := Z.div; f64_whole := fun _ => true; f64_to_i64 := fun v => v;
  f64_show := dec |}.
#[export] Instance float_laws : Float64Laws.
Proof. constructor. intros v. apply dec_line. Qed.
End SampleFloat.
Import SampleFloat.

Definition folder_job (id name : str) : Job :=
  {| j_id := id; j_name := name; j_source := Files [] [] false; j_destination := Folder [];
     j_schedule := Manual; j_last_run := None; j_last_status := None; j_encrypted := false;
     j_compress := true |}.

Definition ran (ids : list str) : metrics := list_to_map (map (fun id => (id, runtime0)) ids).

Lemma metrics_page_reads_witness :
  read_page (render (L "0.0.1") (L "dev") 5 (ran [L "a"]) [folder_job (L "a") [34; 92; 10]]) =
  Some (concat (map family_items
    (families (L "0.0.1") (L "dev") 5 (ran [L "a"]) [folder_job (L "a") [34; 92; 10]]))).
Proof. apply metrics_page_reads. vm_compute. reflexivity. Defined.

Lemma metrics_series_witness :
  ~ NoDup (series (families (L "0.0.1") (L "dev") 5 (ran [L "a"; L "b"])
      [folder_job (L "a") (L "nightly"); folder_job (L "b") (L "nightly")])).
Proof.
  refine (proj2 (metrics_series (L "0.0.1") (L "dev") 5 (ran [L "a"; L "b"])
    [folder_job (L "a") (L "nightly"); folder_job (L "b") (L "nightly")] _)
    [] (folder_job (L "a") (L "nightly")) [] (folder_job (L "b") (L "nightly")) [] _ _ _ _);
    [|reflexivity | reflexivity | eexists; vm_compute; reflexivity..].
  intros id r Hr. apply elem_of_list_to_map_2, list_elem_of_In in Hr.
  apply in_map_iff in Hr as (x & [= <- <-] & _). constructor.
Defined.
