(* ===== verification/Notify.v ===== *)
(** Settings and notifications: [pbsgui-engine/src/notify.rs], the settings files of
    [notify.rs] and [metrics.rs], and the requests of [handler.rs] about them.

    The settings are plain JSON files that are written in place; the SMTP password and
    the webhook's URL are secrets.  What is sent is a list of deliveries, which the
    mail server and the webhook may refuse.  The theorems: what is saved is what is
    read back, what a save that fails leaves behind, and that no secret gets into a
    settings file; which deliveries a notification makes, whatever fails; and the
    shape of the webhook's text. *)

From Stdlib Require Import ZArith Lia Strings.Byte Ascii String.
From stdpp Require Import base tactics option numbers gmap list countable.
From S2P Require Import Prelude Text Base Jobs Sched Stores Upload Runs Requests.
Open Scope Z_scope.

(** ** Settings (protocol.rs) *)

Inductive EmailSecurity := Starttls | Tls | NoSecurity.

Record EmailSettings := {
  em_enabled : bool; em_host : str; em_port : Z; em_security : EmailSecurity;
  em_username : str; em_from : str; em_to : list str }.

Record NotificationSettings := {
  nt_on_success : bool; nt_on_failure : bool; nt_on_stall : bool; nt_email : EmailSettings;
  nt_webhook_enabled : bool }.

Inductive NotifyChannel := ByEmail | ByWebhook.

Inductive MetricsMode := Off | Endpoint | Textfile.
Record MetricsSettings := {
  mt_mode : MetricsMode; mt_port : Z; mt_bind : str; mt_textfile_dir : str }.

(** [notify::default_settings] and [metrics::default_settings]. *)
Definition notify_defaults : NotificationSettings :=
  {| nt_on_success := false; nt_on_failure := true; nt_on_stall := true;
     nt_email := {| em_enabled := false; em_host := []; em_port := 587; em_security := Starttls;
                    em_username := []; em_from := []; em_to := [] |};
     nt_webhook_enabled := false |}.
Definition metrics_defaults : MetricsSettings :=
  {| mt_mode := Off; mt_port := 9654; mt_bind := L "127.0.0.1"; mt_textfile_dir := [] |}.

(** serde_json for a settings type. *)
Class SettingsJson (A : Type) := {
  set_pretty : A -> result str bytes; set_parse : bytes -> option A }.
Class SettingsLaws (A : Type) `{SettingsJson A} :=
  settings_inverse : forall a b, set_pretty a = Ok b -> set_parse b = Some a.

(** How [std::fs::write] goes: the file may not open, which leaves it as it was, or
    writing may stop after [n] bytes. *)
Inductive fs_write := Written | NotOpened (e : str) | CutShort (n : nat) (e : str).

Section files.
Context {A : Type} `{SettingsJson A}.

(** [load] of both modules. *)
Definition load_settings (path : str) (defaults : A) (w : world) : A :=
  match w_read_error w with
  | Some _ => defaults
  | None => default defaults (w_files w !! path ≫= set_parse)
  end.

(** [save] of both modules: the directory, the JSON, the file. *)
Definition save_settings (path : str) (settings : A) (fs : fs_write) : io unit := fun w =>
  match w_mkdir_error w, set_pretty settings with
  | Some e, _ => (Err e, w)
  | None, Err e => (Err e, w)
  | None, Ok b =>
      match fs with
      | Written => (Ok tt, set_files (<[path := b]> (w_files w)) w)
      | NotOpened e => (Err e, w)
      | CutShort n e => (Err e, set_files (<[path := take n b]> (w_files w)) w)
      end
  end.

End files.

Definition NOTIFY_FILE : str := L "notifications.json".
Definition METRICS_FILE : str := L "metrics.json".
Definition SMTP_SECRET_KEY : str := L "notify:smtp".
Definition WEBHOOK_SECRET_KEY : str := L "notify:webhook".

(** [set_smtp_password], [set_webhook_url]: nothing given keeps what is stored. *)
Definition set_smtp_password (password : option str) : io unit :=
  match password with Some p => secrets_set SMTP_SECRET_KEY p | None => mret tt end.
Definition set_webhook_url (url : option str) : io unit :=
  match url with Some u => secrets_set WEBHOOK_SECRET_KEY u | None => mret tt end.

Definition stored_secret (key : str) (w : world) : option str :=
  match (secrets_get key w).1 with Ok o => o | Err _ => None end.
Definition secret_flags (w : world) : bool * bool :=
  (bool_decide (is_Some (stored_secret SMTP_SECRET_KEY w)),
   bool_decide (is_Some (stored_secret WEBHOOK_SECRET_KEY w))).

(** ** The requests about settings (handler.rs) *)

Section requests.
Context `{SettingsJson NotificationSettings} `{SettingsJson MetricsSettings}.

Definition load_notify : world -> NotificationSettings := load_settings NOTIFY_FILE notify_defaults.
Definition load_metrics : world -> MetricsSettings := load_settings METRICS_FILE metrics_defaults.

Definition get_notifications (w : world) : NotificationSettings * (bool * bool) :=
  (load_notify w, secret_flags w).

Definition save_notifications (settings : NotificationSettings) (smtp_password webhook_url : option str)
    (fs : fs_write) (w : world) : Reply * world :=
  let '(r, w') := (_ ← set_smtp_password smtp_password;
                   _ ← set_webhook_url webhook_url;
                   save_settings NOTIFY_FILE settings fs) w in
  (saved_reply (L "notifications") r, w').

(** [SaveMetrics]: on success the exporter is started over ([metrics::apply]), which
    reads the settings again. *)
Definition save_metrics (settings : MetricsSettings) (fs : fs_write) (w : world) :
    result str MetricsMode * world :=
  match save_settings METRICS_FILE settings fs w with
  | (Ok _, w') => (Ok (mt_mode (load_metrics w')), w')
  | (Err e, w') => (Err e, w')
  end.

End requests.

(** ** Messages *)

Definition SEP : str := [32; 183; 32].
Definition ELLIPSIS : Z := 8230.
Definition TICK : str := [9989].
Definition WARNING_SIGN : str := [9888; 65039].
Definition CROSS : str := [10060].

Definition status_badge (o : JobOutcome) : str * str :=
  let s := jo_status o in
  if str_eqb s (L "ok") then (TICK, L "OK")
  else if str_eqb s (L "warning") then (WARNING_SIGN, L "WARNINGS")
  else if str_eqb s (L "no-change") then (WARNING_SIGN, L "NO CHANGE")
  else if str_eqb s (L "error") then (CROSS, L "FAILED")
  else if str_eqb s (L "stalled") then (WARNING_SIGN, L "STALLED")
  else if jo_success o then (TICK, L "OK") else (CROSS, L "FAILED").

Definition DB_MAX : nat := 3.

Definition db_list (dbs : list str) : str :=
  if (length dbs <=? DB_MAX)%nat then join (L ", ") dbs
  else join (L ", ") (take DB_MAX dbs) ++ L " (+" ++ dec (Z.of_nat (length dbs - DB_MAX)) ++ L " more)".

Definition truncate (s : str) (max : nat) : str :=
  let s := trim s in
  if (length s <=? max)%nat then s else trim_end (take max s) ++ [ELLIPSIS].

Section messages.
(** [human_bytes] of backup.rs, and the text of [reused / chunks * 100] without
    decimals; both format floating-point numbers. *)
Variable human_bytes : Z -> str.
Variable percent : Z -> Z -> str.

Definition stats_line (s : BackupStats) : str :=
  human_bytes (st_bytes s) ++ L " backed up"
  ++ (if 0 <? st_stored_bytes s then SEP ++ human_bytes (st_stored_bytes s) ++ L " stored" else [])
  ++ (if 0 <? st_chunks s then SEP ++ percent (st_reused s) (st_chunks s) ++ L "% dedup" else []).

Definition MESSAGE_MAX : nat := 200.

Definition slack_text (o : JobOutcome) : str :=
  let '(icon, word) := status_badge o in
  let head := icon ++ L " *" ++ word ++ L "*" ++ SEP ++ jo_job_name o ++ SEP ++ jo_kind o
    ++ match jo_databases o with [] => [] | dbs => L " of " ++ db_list dbs end in
  let detail := match jo_stats o with Some s => stats_line s | None => truncate (jo_message o) MESSAGE_MAX end in
  if is_empty detail then head else head ++ [10] ++ detail.

Definition render_body (o : JobOutcome) : str :=
  join [10] ([L "Job: " ++ jo_job_name o; L "Type: " ++ jo_kind o]
    ++ match jo_databases o with [] => [] | dbs => [L "Databases: " ++ join (L ", ") dbs] end
    ++ [L "Status: " ++ jo_status o; L "Message: " ++ jo_message o]).

(** ** Delivery *)

(** What is handed to a mail server: to whom, what, and how it is reached. *)
Record mail := {
  ml_host : str; ml_port : Z; ml_security : EmailSecurity; ml_credentials : option (str * str);
  ml_from : str; ml_to : list str; ml_subject : str; ml_body : str }.

Record payload := {
  pl_text : str; pl_job : str; pl_kind : str; pl_databases : list str; pl_status : str;
  pl_success : bool; pl_message : str; pl_stats : option (Z * Z * Z * Z) }.

Inductive delivery := Mailed (m : mail) | Posted (url : str) (p : payload).

(** lettre and reqwest: which addresses and messages are accepted, whether TLS for a
    host can be set up, and how the sending goes. *)
Record net_env := {
  ne_mailbox : str -> result str unit;
  ne_message : str -> str -> result str unit;
  ne_tls : str -> result str unit;
  ne_send : mail -> result str unit;
  ne_post : str -> payload -> result str Z }.

Variable net : net_env.

Definition parse_recipients : list str -> result str unit :=
  fix go tos := match tos with
    | [] => Ok tt
    | to :: tos => _ ← add_context (L "invalid recipient: " ++ to) (ne_mailbox net to); go tos
    end.

(** The message and the transport, before it is sent. *)
Definition prepare_mail (email : EmailSettings) (subject body : str) (w : world) : result str mail :=
  _ ← ensure (negb (is_empty (trim (em_host email)))) (L "no SMTP host configured");
  _ ← ensure (negb (bool_decide (em_to email = []))) (L "no recipients configured");
  _ ← add_context (L "invalid from address: " ++ em_from email) (ne_mailbox net (em_from email));
  _ ← parse_recipients (em_to email);
  _ ← ne_message net subject body;
  _ ← ne_tls net (em_host email);
  credentials ← (if is_empty (em_username email) then Ok None
    else stored ← (secrets_get SMTP_SECRET_KEY w).1;
         password ← ok_or stored (L "no SMTP password stored");
         Ok (Some (em_username email, password)));
  Ok {| ml_host := em_host email; ml_port := em_port email; ml_security := em_security email;
        ml_credentials := credentials; ml_from := em_from email; ml_to := em_to email;
        ml_subject := subject; ml_body := body |}.

Definition send_email (email : EmailSettings) (subject body : str) (w : world) :
    result str unit * list delivery :=
  match prepare_mail email subject body w with
  | Err e => (Err e, [])
  | Ok m => (add_context (L "SMTP send") (ne_send net m), [Mailed m])
  end.

Definition payload_of (o : JobOutcome) : payload :=
  {| pl_text := slack_text o; pl_job := jo_job_name o; pl_kind := jo_kind o;
     pl_databases := jo_databases o; pl_status := jo_status o; pl_success := jo_success o;
     pl_message := jo_message o;
     pl_stats := (fun s => (st_bytes s, st_chunks s, st_uploaded s, st_reused s)) <$> jo_stats o |}.

Definition webhook_url (w : world) : result str str :=
  stored ← (secrets_get WEBHOOK_SECRET_KEY w).1;
  ok_or stored (L "no webhook URL stored").

Definition send_webhook (o : JobOutcome) (w : world) : result str unit * list delivery :=
  match webhook_url w with
  | Err e => (Err e, [])
  | Ok url =>
      (status ← add_context (L "posting to the webhook") (ne_post net url (payload_of o));
       ensure ((200 <=? status) && (status <? 300)) (L "webhook returned HTTP " ++ dec status),
       [Posted url (payload_of o)])
  end.

Context `{SettingsJson NotificationSettings}.

(** [job_finished]: the results of the channels are only logged. *)
Definition notify_finished (o : JobOutcome) (w : world) : list delivery :=
  let settings := load_notify w in
  let wanted := if jo_success o then nt_on_success settings else nt_on_failure settings in
  if negb wanted then []
  else
    let subject := L "[pbsgui] " ++ headline o in
    let body := render_body o in
    (if em_enabled (nt_email settings) then (send_email (nt_email settings) subject body w).2 else [])
    ++ (if nt_webhook_enabled settings then (send_webhook o w).2 else []).

Definition TEST_SUBJECT : str := L "[pbsgui] test notification".
Definition TEST_BODY : str :=
  L "This is a test notification from pbsgui. If you can read this, the channel works.".

(** [send_test], and the reply of [TestNotification]. *)
Definition send_test (channel : NotifyChannel) (w : world) : result str unit * list delivery :=
  match channel with
  | ByEmail => send_email (nt_email (load_notify w)) TEST_SUBJECT TEST_BODY w
  | ByWebhook =>
      send_webhook {| jo_job_name := L "test"; jo_kind := L "test notification"; jo_databases := [];
                      jo_success := true; jo_status := L "ok"; jo_message := TEST_BODY;
                      jo_stats := None |} w
  end.

Definition stall_body (database : str) (hours : Z) : str :=
  L "No backup has reached the chain for database " ++ database ++ L " in about " ++ dec hours
  ++ L "h. Point-in-time recovery is falling behind and the transaction log may be growing. Check that pbsgui is running on the active (Always On preferred) replica and that SQL Server is reachable.".

Definition backup_stalled (job_name database : str) (hours : Z) (w : world) : list delivery :=
  let settings := load_notify w in
  if negb (nt_on_stall settings) then []
  else
    let body := stall_body database hours in
    (if em_enabled (nt_email settings)
     then (send_email (nt_email settings) (L "[pbsgui] " ++ job_name ++ L ": backup chain stalled") body w).2
     else [])
    ++ (if nt_webhook_enabled settings
        then (send_webhook {| jo_job_name := job_name; jo_kind := L "point-in-time backup";
                              jo_databases := [database]; jo_success := false;
                              jo_status := L "stalled"; jo_message := body; jo_stats := None |} w).2
        else []).

End messages.

(** ** Lemmas: settings files *)

Lemma files_set_files f w : w_files (set_files f w) = f.
Proof. reflexivity. Qed.

Section settings_lemmas.
Context {A : Type} `{SettingsLaws A}.

Lemma load_written path (defaults a : A) b w :
  set_pretty a = Ok b -> w_read_error w = None ->
  load_settings path defaults (set_files (<[path := b]> (w_files w)) w) = a.
Proof.
  intros Hb Hr. unfold load_settings. cbn. rewrite Hr, lookup_insert_eq. cbn.
  rewrite (settings_inverse _ _ Hb). reflexivity.
Qed.

(** A save changes no other file, no secret and nothing else of the world. *)
Lemma save_settings_world path (a : A) fs w r w' :
  save_settings path a fs w = (r, w') ->
  exists f, w' = set_files f w /\ forall q, q <> path -> f !! q = w_files w !! q.
Proof.
  unfold save_settings. destruct (w_mkdir_error w), (set_pretty a), fs; intros [= <- <-].
  all: try (exists (w_files w); split; [destruct w; reflexivity | auto]; fail).
  all: eexists; split; [reflexivity | intros q Hq; apply lookup_insert_ne; congruence].
Qed.

(** What saving a settings file does: after a success the settings read back; after a
    failure to make the directory, to serialize or to open the file the old settings
    are still there; but the file is not replaced as a whole, as a store's is: after a
    write that stops half way it holds a beginning of the new JSON, and unless that
    happens to parse the settings read back are the defaults. *)
Theorem settings_saved path (a defaults : A) fs w : w_read_error w = None ->
  let '(r, w') := save_settings path a fs w in
  match r, fs with
  | Ok _, _ => load_settings path defaults w' = a
  | Err _, CutShort n _ =>
      load_settings path defaults w' = load_settings path defaults w \/
      exists b, set_pretty a = Ok b /\
        load_settings path defaults w' = default defaults (set_parse (take n b))
  | Err _, _ => load_settings path defaults w' = load_settings path defaults w
  end.
Proof.
  intros Hr. unfold save_settings. destruct (w_mkdir_error w); [destruct fs; auto|].
  destruct (set_pretty a) as [b|e] eqn:Hb; [|destruct fs; auto].
  destruct fs as [|e|n e]; [apply load_written; auto | reflexivity |].
  right. exists b. split; [reflexivity|]. unfold load_settings. cbn. rewrite Hr, lookup_insert_eq.
  reflexivity.
Qed.

End settings_lemmas.

(** ** Lemmas: secrets *)

Lemma secrets_set_ok key v w w' : secrets_set key v w = (Ok tt, w') ->
  w_cred_error w = None /\ w' = set_secrets (<[key := v]> (w_secrets w)) w.
Proof. unfold secrets_set. destruct (w_cred_error w); intros [= <-]. auto. Qed.

Lemma set_optional_ok key o w u w' :
  (match o with Some p => secrets_set key p | None => mret tt end) w = (Ok u, w') ->
  exists s, w' = set_secrets s w /\ s !! key = or_else o (w_secrets w !! key) /\
    (w_cred_error w = None \/ o = None) /\ forall k, k <> key -> s !! k = w_secrets w !! k.
Proof.
  destruct o as [p|]; intros E.
  - destruct u. apply secrets_set_ok in E as [Hc ->]. eexists.
    split_and!; [reflexivity | apply lookup_insert_eq | auto |].
    intros k Hk. apply lookup_insert_ne. congruence.
  - assert (w' = w) as -> by (unfold mret, io_ret in E; congruence). exists (w_secrets w). split_and!; auto.
    destruct w; reflexivity.
Qed.

Lemma io_bind_ok {A B} (m : io A) (f : A -> io B) w b w' :
  (m ≫= f) w = (Ok b, w') -> exists a w1, m w = (Ok a, w1) /\ f a w1 = (Ok b, w').
Proof. unfold mbind, io_bind. destruct (m w) as [[a|e] w1]; [eauto | discriminate]. Qed.

Section saved.
Context `{SettingsLaws NotificationSettings}.

Lemma save_no_secrets settings fs w : save_notifications settings None None fs w =
  (saved_reply (L "notifications") (save_settings NOTIFY_FILE settings fs w).1,
   (save_settings NOTIFY_FILE settings fs w).2).
Proof.
  unfold save_notifications. change ((_ ← set_smtp_password None; _ ← set_webhook_url None;
    save_settings NOTIFY_FILE settings fs) w) with (save_settings NOTIFY_FILE settings fs w).
  destruct (save_settings _ _ _ _). reflexivity.
Qed.

(** Saving the notification settings: when the reply says they are saved, the next
    reader gets them, sees a password and a URL as stored exactly if one was given now
    or was there before, and finds the given ones in the credential store; and the
    settings file is the same whatever the secrets are, so no secret is in it. *)
Theorem notifications_saved settings password url fs w id w' :
  w_read_error w = None -> w_cred_error w = None ->
  save_notifications settings password url fs w = (RSaved id, w') ->
  get_notifications w' =
    (settings, (bool_decide (is_Some (or_else password (w_secrets w !! SMTP_SECRET_KEY))),
                bool_decide (is_Some (or_else url (w_secrets w !! WEBHOOK_SECRET_KEY))))) /\
  w_secrets w' !! SMTP_SECRET_KEY = or_else password (w_secrets w !! SMTP_SECRET_KEY) /\
  w_secrets w' !! WEBHOOK_SECRET_KEY = or_else url (w_secrets w !! WEBHOOK_SECRET_KEY) /\
  w_files w' = w_files (save_notifications settings None None fs w).2.
Proof.
  intros Hr Hc. rewrite save_no_secrets. unfold save_notifications.
  destruct ((_ ← set_smtp_password password; _) w) as [r w1] eqn:E.
  destruct r as [u|e]; intros [= _ <-].
  apply io_bind_ok in E as (u1 & wa & E1%set_optional_ok & E).
  destruct E1 as (s1 & -> & Hs1 & _ & Ho1).
  apply io_bind_ok in E as (u2 & wb & E2%set_optional_ok & E).
  destruct E2 as (s2 & -> & Hs2 & _ & Ho2). cbn in Hs2, Ho2.
  assert (K1 : s2 !! SMTP_SECRET_KEY = or_else password (w_secrets w !! SMTP_SECRET_KEY)).
  { rewrite Ho2 by discriminate. exact Hs1. }
  assert (K2 : s2 !! WEBHOOK_SECRET_KEY = or_else url (w_secrets w !! WEBHOOK_SECRET_KEY)).
  { rewrite Hs2, Ho1 by discriminate. reflexivity. }
  unfold save_settings in E. cbn in E.
  cbn [snd]. unfold save_settings.
  destruct (w_mkdir_error w); [discriminate|].
  destruct (set_pretty settings) as [b|] eqn:Hb; [|discriminate].
  destruct fs; try discriminate. injection E as _ <-. cbn [w_secrets set_files w_files fst snd].
  split_and!; [|exact K1 | exact K2 | reflexivity].
  unfold get_notifications, secret_flags, stored_secret, secrets_get. cbn.
  rewrite Hc. cbn. rewrite K1, K2. f_equal. unfold load_notify, load_settings. cbn.
  rewrite Hr, lookup_insert_eq. cbn. rewrite (settings_inverse _ _ Hb). reflexivity.
Qed.

End saved.

(** ** Lemmas: deliveries *)

Section delivery_lemmas.
Variable human_bytes : Z -> str.
Variable percent : Z -> Z -> str.
Variable net : net_env.
Context `{SettingsJson NotificationSettings}.

(** A delivery goes where the settings and the credential store say. *)
Definition as_configured (w : world) (d : delivery) : Prop :=
  match d with
  | Mailed m =>
      let e := nt_email (load_notify w) in
      ml_host m = em_host e /\ ml_port m = em_port e /\ ml_security m = em_security e /\
      ml_from m = em_from e /\ ml_to m = em_to e /\ em_to e <> [] /\
      match ml_credentials m with
      | None => em_username e = []
      | Some (user, password) => user = em_username e /\ w_secrets w !! SMTP_SECRET_KEY = Some password
      end
  | Posted url _ => w_secrets w !! WEBHOOK_SECRET_KEY = Some url
  end.

Lemma secrets_get_some key w s : (secrets_get key w).1 = Ok (Some s) -> w_secrets w !! key = Some s.
Proof. unfold secrets_get. destruct (w_cred_error w); cbn; congruence. Qed.

Lemma is_empty_nil s : is_empty s = true -> s = [].
Proof. destruct s; [reflexivity | discriminate]. Qed.

Lemma prepare_mail_configured subject body w m :
  prepare_mail net (nt_email (load_notify w)) subject body w = Ok m -> as_configured w (Mailed m).
Proof.
  unfold prepare_mail. set (em := nt_email (load_notify w)). intros E. inv_ok. cbn. fold em.
  split_and!; auto.
  { intros Hn. rewrite bool_decide_eq_true_2 in *; [discriminate | exact Hn]. }
  destruct (is_empty (em_username em)) eqn:Hu; inv_ok; [apply is_empty_nil, Hu|].
  split; [reflexivity|]. apply secrets_get_some. congruence.
Qed.

Lemma send_email_configured subject body w :
  Forall (as_configured w) (send_email net (nt_email (load_notify w)) subject body w).2.
Proof.
  unfold send_email. destruct (prepare_mail _ _ _ _ _) as [m|e] eqn:E; cbn [snd]; [|constructor].
  constructor; [exact (prepare_mail_configured _ _ _ _ E) | constructor].
Qed.

Lemma send_webhook_configured o w : Forall (as_configured w) (send_webhook human_bytes percent net o w).2.
Proof.
  unfold send_webhook. destruct (webhook_url w) as [url|e] eqn:E; cbn [snd]; [|constructor].
  unfold webhook_url in E. inv_ok. constructor; [|constructor]. apply secrets_get_some. congruence.
Qed.

Lemma sent_mail m email subject body w :
  In (Mailed m) (send_email net email subject body w).2 <-> prepare_mail net email subject body w = Ok m.
Proof.
  unfold send_email. destruct (prepare_mail _ _ _ _ _); cbn; [|split; [tauto | discriminate]].
  split; [intros [[= ->]|[]]; reflexivity | intros [= ->]; auto].
Qed.

Lemma sent_post url p o w :
  In (Posted url p) (send_webhook human_bytes percent net o w).2 <->
  webhook_url w = Ok url /\ p = payload_of human_bytes percent o.
Proof.
  unfold send_webhook. destruct (webhook_url w); cbn; [|split; [tauto | intros [[=] _]]].
  split; [intros [[= -> ->]|[]]; auto | intros [[= ->] ->]; auto].
Qed.

Lemma mail_not_posted url p email subject body w :
  ~ In (Posted url p) (send_email net email subject body w).2.
Proof. unfold send_email. destruct (prepare_mail _ _ _ _ _); cbn; [intros [[=]|[]] | tauto]. Qed.

Lemma post_not_mailed m o w : ~ In (Mailed m) (send_webhook human_bytes percent net o w).2.
Proof. unfold send_webhook. destruct (webhook_url w); cbn; [intros [[=]|[]] | tauto]. Qed.

(** Every delivery the engine makes, for a finished job, a stalled chain or a test:
    a mail goes only to the configured server, over the configured security, from and
    to the configured addresses, with the stored password of the configured user or
    without credentials if there is no user; a post goes only to the stored URL.  For
    a finished job both channels are used exactly when they are enabled and wanted and
    have what they need: a mail that cannot be made or sent never keeps the webhook
    from being posted. *)
Theorem deliveries_configured w o channel job_name database hours :
  let settings := load_notify w in
  let wanted := if jo_success o then nt_on_success settings else nt_on_failure settings in
  let finished := notify_finished human_bytes percent net o w in
  Forall (as_configured w) (finished
    ++ backup_stalled human_bytes percent net job_name database hours w
    ++ (send_test human_bytes percent net channel w).2) /\
  (forall m, In (Mailed m) finished <-> wanted = true /\ em_enabled (nt_email settings) = true /\
     prepare_mail net (nt_email settings) (L "[pbsgui] " ++ headline o) (render_body o) w = Ok m) /\
  (forall url p, In (Posted url p) finished <-> wanted = true /\ nt_webhook_enabled settings = true /\
     webhook_url w = Ok url /\ p = payload_of human_bytes percent o).
Proof.
  cbn zeta. split_and!.
  - pose proof (fun s b => send_email_configured s b w) as He.
    pose proof (fun o => send_webhook_configured o w) as Hw.
    apply Forall_app_2; [|apply Forall_app_2].
    + unfold notify_finished. destruct (negb _); [constructor|].
      apply Forall_app_2; [destruct (em_enabled _) | destruct (nt_webhook_enabled _)]; auto; constructor.
    + unfold backup_stalled. destruct (negb _); [constructor|].
      apply Forall_app_2; [destruct (em_enabled _) | destruct (nt_webhook_enabled _)]; auto; constructor.
    + destruct channel; unfold send_test; auto.
  - intros m. unfold notify_finished. rewrite <- sent_mail.
    destruct (if jo_success o then _ else _); cbn [negb]; [|split; [intros [] | intros [[=] _]]].
    rewrite in_app_iff. pose proof (post_not_mailed m o w).
    destruct (em_enabled _), (nt_webhook_enabled _); cbn [In]; intuition congruence.
  - intros url p. unfold notify_finished. rewrite <- sent_post.
    destruct (if jo_success o then _ else _); cbn [negb]; [|split; [intros [] | intros [[=] _]]].
    rewrite in_app_iff.
    pose proof (mail_not_posted url p (nt_email (load_notify w)) (L "[pbsgui] " ++ headline o) (render_body o) w).
    destruct (em_enabled _), (nt_webhook_enabled _); cbn [In]; intuition congruence.
Qed.

End delivery_lemmas.

(** ** What a run notifies and what is delivered *)

Section refines.
Variable human_bytes : Z -> str.
Variable percent : Z -> Z -> str.
Variable net : net_env.
Context `{SettingsJson NotificationSettings}.

Definition switches (s : NotificationSettings) : NotifySettings :=
  {| ns_on_success := nt_on_success s; ns_on_failure := nt_on_failure s;
     ns_email := em_enabled (nt_email s); ns_webhook := nt_webhook_enabled s |}.

Definition deliver_mail (w : world) (n : notification) : list delivery :=
  match n with
  | Email subject o => (send_email net (nt_email (load_notify w)) subject (render_body o) w).2
  | Webhook o => (send_webhook human_bytes percent net o w).2
  end.

(** The notifications that the end of a run records ([end_run] of [Runs]) are the ones
    that are delivered. *)
Theorem notifications_delivered w o :
  notify_finished human_bytes percent net o w =
  concat (map (deliver_mail w) (job_finished (switches (load_notify w)) o)).
Proof.
  unfold notify_finished, job_finished, switches. cbn.
  destruct (negb _); [reflexivity|]. rewrite map_app, concat_app.
  destruct (em_enabled _), (nt_webhook_enabled _); cbn; rewrite ?app_nil_r; reflexivity.
Qed.

End refines.

(** ** Lengths of messages *)

(** A message is cut to [max] characters and an ellipsis, and only when it is longer
    without the white space around it. *)
Theorem truncate_spec s max :
  (length (truncate s max) <= S max)%nat /\
  ((length (trim s) <= max)%nat -> truncate s max = trim s) /\
  exists cut rest, trim s = cut ++ rest /\
    truncate s max = cut ++ (if (length (trim s) <=? max)%nat then [] else [ELLIPSIS]).
Proof.
  unfold truncate. destruct (Nat.leb_spec (length (trim s)) max) as [Hl|Hl]; split_and!; auto; try lia.
  - exists (trim s), []. rewrite !app_nil_r. auto.
  - destruct (trim_end_prefix (take max (trim s))) as [q Hq].
    assert (length (take max (trim s)) = length (trim_end (take max (trim s))) + length q)%nat as E
      by (rewrite <- length_app, <- Hq; reflexivity).
    rewrite length_take in E. rewrite length_app. cbn. lia.
  - destruct (trim_end_prefix (take max (trim s))) as [q Hq].
    exists (trim_end (take max (trim s))), (q ++ drop max (trim s)). split; [|reflexivity].
    rewrite app_assoc, <- Hq. symmetry. apply take_drop.
Qed.

(** ** Witnesses *)

Module SampleSettings.

#[export] Instance security_eq : EqDecision EmailSecurity.
Proof. solve_decision. Defined.
#[export] Instance security_countable : Countable EmailSecurity.
Proof.
  refine (inj_countable' (fun c => match c with Starttls => 0 | Tls => 1 | NoSecurity => 2 end)
    (fun n => if n =? 0 then Starttls else if n =? 1 then Tls else NoSecurity) _).
  by intros [].
Defined.

Definition fields (s : NotificationSettings) :=
  let e := nt_email s in
  (nt_on_success s, nt_on_failure s, nt_on_stall s, nt_webhook_enabled s,
   (em_enabled e, em_host e, em_port e, em_security e, em_username e, em_from e, em_to e)).
Definition of_fields (t : bool * bool * bool * bool *
    (bool * str * Z * EmailSecurity * str * str * list str)) : NotificationSettings :=
  let '(a, b, c, d, (e, f, g, h, i, j, k)) := t in
  {| nt_on_success := a; nt_on_failure := b; nt_on_stall := c; nt_webhook_enabled := d;
     nt_email := {| em_enabled := e; em_host := f; em_port := g; em_security := h;
                    em_username := i; em_from := j; em_to := k |} |}.

#[export] Instance settings_json : SettingsJson NotificationSettings := {|
  set_pretty s := Ok (SampleJson.pos_bytes (encode (fields s)));
  set_parse b := of_fields <$> countable.decode (SampleJson.bytes_pos b) |}.

#[export] Instance settings_laws : SettingsLaws NotificationSettings.
Proof.
  intros s b [= <-]. cbn [set_parse settings_json]. rewrite SampleJson.pos_bytes_inv, decode_encode.
  destruct s as [a b c []]; reflexivity.
Qed.

Definition mailing : NotificationSettings :=
  {| nt_on_success := true; nt_on_failure := true; nt_on_stall := true; nt_webhook_enabled := true;
     nt_email := {| em_enabled := true; em_host := L "mail"; em_port := 587; em_security := Starttls;
                    em_username := L "u"; em_from := L "a@b"; em_to := [L "c@d"] |} |}.

End SampleSettings.
Import SampleSettings SampleStore.

Lemma settings_saved_witness :
  load_settings NOTIFY_FILE notify_defaults (save_settings NOTIFY_FILE mailing Written world0).2 = mailing.
Proof. exact (settings_saved NOTIFY_FILE mailing notify_defaults Written world0 eq_refl). Defined.

(** A write that stops half way: the next start has the defaults, with every channel
    off. *)
Example interrupted_save_disables_alerts :
  let w := (save_notifications mailing None None Written world0).2 in
  let w' := (save_notifications mailing None None (CutShort 3 (L "disk full")) w).2 in
  load_notify w = mailing /\ load_notify w' = notify_defaults.
Proof. vm_compute. auto. Qed.

Lemma notifications_saved_witness :
  (get_notifications (save_notifications mailing (Some (L "pw")) None Written world0).2).2 = (true, false).
Proof.
  destruct (notifications_saved mailing (Some (L "pw")) None Written world0 (L "notifications")
    (save_notifications mailing (Some (L "pw")) None Written world0).2 eq_refl eq_refl) as [E _].
  { vm_compute. reflexivity. }
  rewrite E. reflexivity.
Defined.

Lemma truncate_spec_witness : truncate (L " ab ") 2 = L "ab".
Proof. apply (truncate_spec (L " ab ") 2). vm_compute. lia. Defined.

(** The webhook's text has more than two lines when the message has several. *)
Example multi_line_message :
  length (List.filter (Z.eqb 10) (slack_text dec (fun _ _ => [])
    {| jo_job_name := L "j"; jo_kind := L "full backup"; jo_databases := []; jo_success := false;
       jo_status := L "error"; jo_message := L "a" ++ [10] ++ L "b"; jo_stats := None |})) = 2%nat.
Proof. vm_compute. reflexivity. Qed.
