(* ===== verification/Loop.v ===== *)
(** The scheduler's loop ([pbsgui-engine/src/scheduler.rs]: [run], [run_due] and
    [refresh_sql_health]), over the runs of [Runs], the stores of [Stores], the chain
    status of [Requests] and the alerts of [Notify].

    A turn of the loop is a function of what the outside world answers, how each run
    goes and what the health check finds, and of what requests and runs started by hand do
    beside it: they can change the stores, the timers and the metrics at any of its
    awaits.  The theorems: a turn asks for a run of exactly the jobs that are due, each
    once, as far as nothing beside it changes their timers, since a run changes no other
    job's state; a job whose run ended is due again only when its schedule says so; and
    alerts about a stalled chain are at least six hours apart while none is missed. *)

From Stdlib Require Import ZArith Lia Strings.Byte Ascii String Sorting.Sorted.
From stdpp Require Import base tactics option numbers gmap list.
From S2P Require Import Prelude Text Base Blob Index Repository HttpApi Session Upload Jobs Sched Stores Plan Runs Tsql Requests.
Open Scope Z_scope.

(** ** The state of the loop *)

Record alert := { al_job_id : str; al_job_name : str; al_database : str; al_hours : Z; al_time : Z }.
Definition alert_key (a : alert) : str * str := (al_job_id a, al_database a).

Record engine := {
  e_config : config_state; e_disk : disk; e_metrics : metrics; e_notified : list notification;
  e_last_stall_check : Z; e_alerted : gmap (str * str) Z; e_alerts : list alert }.

(** What requests and other runs do beside the loop while it waits: to the stores, the state
    files and the metrics.  The rest is the loop's own. *)
Record beside := {
  bs_config : config_state -> config_state; bs_disk : disk -> disk; bs_metrics : metrics -> metrics;
  bs_notified : list notification }.

Definition interfere (b : beside) (e : engine) : engine :=
  {| e_config := bs_config b (e_config e); e_disk := bs_disk b (e_disk e); e_metrics := bs_metrics b (e_metrics e);
     e_notified := e_notified e ++ bs_notified b; e_last_stall_check := e_last_stall_check e;
     e_alerted := e_alerted e; e_alerts := e_alerts e |}.

(** How a run goes: whether another run of the job holds the registry, whether it is
    cancelled, what its calls answer, when it ends; or that its task panics, with the
    timers it had stored until then (after which [run_due] goes on); and what goes on beside
    the loop before it comes to the job, and while the run goes on. *)
Record run_answers := {
  ra_busy : bool; ra_cancelled : bool; ra_env : run_env; ra_panic : option (str * option State); ra_ended : Z;
  ra_duration : f64; ra_recorded : Z; ra_before : beside; ra_during : beside }.

Section loop.
Context `{SchedJson} `{DebugFmt} `{Base64} `{HashLib} `{HmacLib} `{EnvelopeJson} `{ListJson Job}.
Variable human_bytes : Z -> str.
Variable settings : NotifySettings.

(** [run_job_kind] of a scheduled run that has the claim: the run, its end. *)
Definition scheduled_run (c : config_state) (job : Job) (kind : SqlRun) (a : run_answers) (d : disk)
    (m : metrics) : result str RunReport * disk * metrics * list notification :=
  let m := set_running (j_id job) true m in
  let '(outcome, d, _) := run_inner human_bytes c job kind (ra_env a) d in
  let e := end_run settings job kind (ra_cancelled a) outcome (ra_ended a) (ra_duration a) d m in
  (en_report e, en_disk e, en_metrics e, en_notified e).

Definition with_jobs (jobs : JobStore) (w : world) (c : config_state) : config_state :=
  {| c_jobs := jobs; c_sql := c_sql c; c_pbs := c_pbs c; c_world := w |}.

(** The status [run_due] records: the report's, the error's text, or the panic's. *)
Definition due_status (handle : result str (result str RunReport)) : str :=
  match handle with
  | Ok (Ok report) => report_status report
  | Ok (Err x) => x
  | Err p => L "task failed: " ++ p
  end.

(** The task of a run: another run of the job can turn it away, and it can panic. *)
Definition run_task (job : Job) (kind : SqlRun) (a : run_answers) (e : engine) :
    result str (result str RunReport) * disk * metrics * list notification :=
  if ra_busy a then
    (Ok (Ok (plain_report (L "skipped: a run is already in progress"))), e_disk e, e_metrics e, [])
  else
    match ra_panic a with
    | Some (p, stored) =>
        (Err p, match stored with Some st => sched_store (e_disk e) (j_id job) st | None => e_disk e end,
         set_running (j_id job) true (e_metrics e), [])
    | None =>
        let '(r, d, m, ns) := scheduled_run (e_config e) job kind a (e_disk e) (e_metrics e) in
        (Ok r, d, m, ns)
    end.

(** [run_due]: the run's task, and then what is recorded of it in the store as it is by
    then. *)
Definition run_due (job : Job) (kind : SqlRun) (a : run_answers) (e : engine) : engine :=
  let '(handle, d, m, ns) := run_task job kind a e in
  let status := due_status handle in
  let c := bs_config (ra_during a) (e_config e) in
  let '(_, jobs, w) := record_run (j_id job) (ra_recorded a) status (c_jobs c) (c_world c) in
  {| e_config := with_jobs jobs w c; e_disk := bs_disk (ra_during a) d; e_metrics := bs_metrics (ra_during a) m;
     e_notified := e_notified e ++ ns ++ bs_notified (ra_during a); e_last_stall_check := e_last_stall_check e;
     e_alerted := e_alerted e; e_alerts := e_alerts e |}.

Context `{Chrono}.

(** The jobs of one turn, with the runs it asks for and whether each could start. *)
Fixpoint run_jobs (now : Z) (answers : str -> run_answers) (jobs : list Job) (e : engine) :
    list (Job * SqlRun * bool) * engine :=
  match jobs with
  | [] => ([], e)
  | job :: jobs =>
      let a := answers (j_id job) in
      let e := interfere (ra_before a) e in
      match due_kind (e_disk e) job now with
      | Some kind =>
          let '(runs, e') := run_jobs now answers jobs (run_due job kind a e) in
          ((job, kind, negb (ra_busy a)) :: runs, e')
      | None => run_jobs now answers jobs e
      end
  end.

Definition REALERT_SECS : Z := 6 * 3600.

(** One database of the health check. *)
Definition alert_db (now : Z) (status : JobSqlStatus) (db : SqlDbStatus)
    (s : gmap (str * str) Z * list alert) : gmap (str * str) Z * list alert :=
  let '(alerted, sent) := s in
  if negb (sd_stalled db) then s
  else
    let key := (js_job_id status, sd_database db) in
    let recent := match alerted !! key with Some t => now - t <? REALERT_SECS | None => false end in
    if recent then s
    else
      (<[key := now]> alerted,
       sent ++ [{| al_job_id := js_job_id status; al_job_name := js_job_name status;
                   al_database := sd_database db;
                   al_hours := match sd_chain_latest db with
                               | Some l => Z.max ((now - l) ÷ 3600) 1
                               | None => 0
                               end;
                   al_time := now |}]).

Definition alert_job (now : Z) (s : gmap (str * str) Z * list alert) (status : JobSqlStatus) :
    gmap (str * str) Z * list alert :=
  fold_left (fun s db => alert_db now status db s) (js_databases status) s.

Definition refresh_sql_health (now : Z) (statuses : list JobSqlStatus) (e : engine) : engine :=
  let '(alerted, sent) := fold_left (alert_job now) statuses (e_alerted e, e_alerts e) in
  {| e_config := e_config e; e_disk := e_disk e;
     e_metrics := fold_left (fun m s => set_sql_status (js_job_id s) (js_databases s) m) statuses
                    (e_metrics e);
     e_notified := e_notified e; e_last_stall_check := e_last_stall_check e;
     e_alerted := alerted; e_alerts := sent |}.

Definition set_checked (now : Z) (e : engine) : engine :=
  {| e_config := e_config e; e_disk := e_disk e; e_metrics := e_metrics e; e_notified := e_notified e;
     e_last_stall_check := now; e_alerted := e_alerted e; e_alerts := e_alerts e |}.

(** What a turn meets: the time, what went on since the turn before, how its runs go, what
    goes on behind the last of them, and what the servers answer to its health check. *)
Record turn := {
  tn_now : Z; tn_begin : beside; tn_answers : str -> run_answers; tn_check : beside; tn_env : req_env }.

(** The turn up to its health check: [now] is read once, before the runs. *)
Definition turn_runs (t : turn) (e : engine) : list (Job * SqlRun * bool) * engine :=
  let e := interfere (tn_begin t) e in
  let '(runs, e) := run_jobs (tn_now t) (tn_answers t) (js_items (c_jobs (e_config e))) e in
  (runs, interfere (tn_check t) e).

(** One turn of [run]'s loop. *)
Definition loop_turn (t : turn) (e : engine) : list (Job * SqlRun * bool) * engine :=
  let '(runs, e) := turn_runs t e in
  (runs,
   if 15 * 60 <=? tn_now t - e_last_stall_check e
   then refresh_sql_health (tn_now t) (collect_sql_status (tn_env t) (e_config e) (tn_now t))
          (set_checked (tn_now t) e)
   else e).

End loop.

(** ** Lemmas: a run changes only its own job's files *)

Lemma other_files_refl id d : other_files_same id d d.
Proof. split; auto. Qed.

Lemma other_files_trans id d1 d2 d3 :
  other_files_same id d1 d2 -> other_files_same id d2 d3 -> other_files_same id d1 d3.
Proof. intros [E1 F1] [E2 F2]. split; [congruence|]. intros q Hs Hf. rewrite F2, F1 by auto. reflexivity. Qed.

#[local] Hint Resolve other_files_refl : pbs.

Section own_files.
Context `{SchedJson}.

Lemma sched_store_own d id s : other_files_same id d (sched_store d id s).
Proof.
  unfold sched_store. destruct (d_writable d) eqn:Hw; [|apply other_files_refl].
  split; [cbn; congruence|]. intros q Hs _. cbn. apply lookup_insert_ne. congruence.
Qed.

#[local] Hint Resolve sched_store_own : pbs.

Lemma fp_save_own d id fp : other_files_same id d (fp_save d id fp).
Proof.
  unfold fp_save. destruct (d_writable d) eqn:Hw; [|apply other_files_refl].
  split; [cbn; congruence|]. intros q _ Hf. cbn. apply lookup_insert_ne. congruence.
Qed.


Lemma clear_no_chain_own d id db : other_files_same id d (clear_no_chain d id db).
Proof. unfold clear_no_chain. destruct (_ !! db); auto with pbs. Qed.

Context `{DebugFmt}.

Lemma backup_db_own c conn plan run sid bid id k z db e t :
  other_files_same id (t_disk t) (t_disk (backup_db c conn plan run sid bid id k z db e t)).
Proof.
  unfold backup_db. destruct (de_state e) as [s|]; [|apply other_files_refl].
  destruct (Plan.decide _ _ _ _) as [kind co note|]; [|apply other_files_refl].
  destruct (sql_group_and_archive _ _ _) as [g a].
  destruct (pbs_session_params _ _ _ _ _); [|apply other_files_refl].
  destruct (de_backup e _ _ _ _ _ _ _).
  - unfold db_done. cbn [t_disk emit]. destruct (run_is_log_but_full _ _); [|apply clear_no_chain_own].
    eapply other_files_trans; [apply clear_no_chain_own | apply sched_store_own].
  - unfold db_error. destruct (_ && _); [|apply other_files_refl].
    unfold note_no_chain. cbn. destruct (_ <=? _); apply sched_store_own.
Qed.

Lemma backup_dbs_own c conn plan run sid bid id k z dbs : forall t,
  other_files_same id (t_disk t) (t_disk (backup_dbs c conn plan run sid bid id k z dbs t)).
Proof.
  induction dbs as [|[db e] dbs IH]; intros t; [apply other_files_refl|].
  eapply other_files_trans; [apply backup_db_own | apply IH].
Qed.

Context `{Base64} `{HashLib}.
Variable human_bytes : Z -> str.

Lemma do_backup_own c job run e d :
  other_files_same (j_id job) d (do_backup human_bytes c job run e d).1.2.
Proof.
  unfold do_backup. destruct (j_source job), (j_destination job).
  - destruct (for_job _ _).1; [|apply other_files_refl].
    destruct (backup_files_to_pbs _ _ _ _ _ _ _). apply other_files_refl.
  - apply other_files_refl.
  - destruct (for_job _ _).1; [|apply other_files_refl]. unfold backup_sql_to_pbs.
    destruct databases; [apply other_files_refl|].
    destruct (sql_conn_and_password _ _) as [[conn pw]|]; [|apply other_files_refl].
    destruct (re_connected e); [|destruct (sc_failover_cluster _); apply other_files_refl].
    apply (backup_dbs_own _ _ _ _ _ _ _ _ _ _ (start_tally _ d _)).
  - destruct (backup_sql_to_folder _ _ _ _ _ _). apply other_files_refl.
Qed.

Lemma run_inner_own c job run e d :
  other_files_same (j_id job) d (run_inner human_bytes c job run e d).1.2.
Proof.
  unfold run_inner. destruct (job_fingerprint job e) as [fp|]; [|apply other_files_refl].
  destruct (bool_decide _); [apply other_files_refl|].
  pose proof (do_backup_own c job run e d) as Ho.
  destruct (do_backup _ _ _ _ _ _) as [[[[[m st] w]|x] d1] ev]; [|exact Ho]. cbn in *.
  destruct fp; [|exact Ho]. eapply other_files_trans; [exact Ho | apply fp_save_own].
Qed.


Variable settings : NotifySettings.


Context `{HmacLib} `{EnvelopeJson} `{ListJson Job}.

(** What goes on beside the loop leaves the timers of a job. *)
Definition leaves (id : str) (b : beside) : Prop := forall d, sched_load (bs_disk b d) id = sched_load d id.



Context `{Chrono}.

(** When a job is due depends only on the job and its own timers. *)
Lemma due_kind_timers d d' job now : sched_load d' (j_id job) = sched_load d (j_id job) ->
  due_kind d' job now = due_kind d job now.
Proof.
  intros E. unfold due_kind. destruct (j_source job); [reflexivity|].
  unfold sql_due_kind, last_full_attempt, last_log_attempt, last_full. now rewrite E.
Qed.

End own_files.

(** ** Lemmas: alerts *)

Definition spaced (a b : alert) : Prop :=
  alert_key a = alert_key b -> REALERT_SECS <= al_time b - al_time a.

(** The table holds the time of the last alert of each chain. *)
Record alerts_inv (s : gmap (str * str) Z * list alert) : Prop := {
  ai_spaced : ForallOrdPairs spaced s.2;
  ai_latest : forall a, In a s.2 -> exists t, s.1 !! alert_key a = Some t /\ al_time a <= t;
  ai_sent : forall key t, s.1 !! key = Some t -> exists a, In a s.2 /\ alert_key a = key /\ al_time a = t }.

Lemma ord_pairs_snoc {A} (R : A -> A -> Prop) l x :
  ForallOrdPairs R l -> Forall (fun y => R y x) l -> ForallOrdPairs R (l ++ [x]).
Proof.
  induction 1 as [|y l Hy Hl IH]; intros Hf; cbn; [repeat constructor|].
  apply List.Forall_cons_iff in Hf as [Hyx Hf]. constructor; [|auto].
  apply List.Forall_app. auto.
Qed.

Lemma alert_db_inv now status db s : alerts_inv s -> alerts_inv (alert_db now status db s).
Proof.
  destruct s as [alerted sent]. intros [Hp Hl Hs]. cbn in *. unfold alert_db.
  destruct (sd_stalled db); cbn [negb]; [|split; auto].
  set (key := (js_job_id status, sd_database db)).
  destruct (match alerted !! key with Some t => now - t <? REALERT_SECS | None => false end) eqn:Hr;
    [split; auto|].
  assert (Ht : forall t, alerted !! key = Some t -> REALERT_SECS <= now - t).
  { intros t E. rewrite E in Hr. lia. }
  assert (Ho : forall a, In a sent -> alert_key a = key -> REALERT_SECS <= now - al_time a).
  { intros a Ha Hk. destruct (Hl a Ha) as (t & E & Hle). rewrite Hk in E. specialize (Ht t E). lia. }
  split; cbn [fst snd].
  - apply ord_pairs_snoc; [exact Hp|]. apply List.Forall_forall. intros a Ha Hk. apply Ho; assumption.
  - intros a [Ha|[<-|[]]]%in_app_iff; [|exists now; split; [apply lookup_insert_eq | cbn; lia]].
    destruct (base.decide (alert_key a = key)) as [Hk|Hk].
    + exists now. rewrite Hk, lookup_insert_eq. split; [reflexivity|].
      specialize (Ho a Ha Hk). unfold REALERT_SECS in Ho. lia.
    + destruct (Hl a Ha) as (t & E & Hle). exists t. rewrite lookup_insert_ne by congruence. auto.
  - intros k t [[<- <-]|[Hk E]]%lookup_insert_Some.
    + eexists. split; [apply in_app_iff; right; left; reflexivity | auto].
    + destruct (Hs k t E) as (a & Ha & ? & ?). exists a. split; [apply in_app_iff|]; auto.
Qed.

(** Alerts are never taken back. *)
Lemma alert_db_grows now status db s : exists l, (alert_db now status db s).2 = s.2 ++ l.
Proof.
  destruct s as [alerted sent]. unfold alert_db.
  destruct (negb _); [exists []; symmetry; apply app_nil_r|].
  cbv zeta. case_match; [exists []; symmetry; apply app_nil_r | eexists; reflexivity].
Qed.

Definition covered (now : Z) (key : str * str) (s : gmap (str * str) Z * list alert) : Prop :=
  exists a, In a s.2 /\ alert_key a = key /\ now - al_time a < REALERT_SECS.

Lemma alert_db_covers now status db s : alerts_inv s -> sd_stalled db = true ->
  covered now (js_job_id status, sd_database db) (alert_db now status db s).
Proof.
  destruct s as [alerted sent]. intros Hi Hd. unfold alert_db, covered. rewrite Hd. cbn [negb].
  set (key := (js_job_id status, sd_database db)).
  destruct (alerted !! key) as [t|] eqn:E.
  - destruct (Z.ltb_spec (now - t) REALERT_SECS) as [Hlt|_]; cbn [snd].
    + destruct (ai_sent _ Hi key t E) as (a & Ha & Hk & <-). exists a. auto.
    + eexists. split; [apply in_app_iff; right; left; reflexivity|]. cbn. split; [reflexivity|]. unfold REALERT_SECS; lia.
  - cbn [snd]. eexists. split; [apply in_app_iff; right; left; reflexivity|]. cbn. split; [reflexivity|]. unfold REALERT_SECS; lia.
Qed.

(** The same three facts for a step that handles a list of such things. *)
Section fold_alerts.
Context {A : Type} (f : gmap (str * str) Z * list alert -> A -> gmap (str * str) Z * list alert).
Hypothesis f_inv : forall s x, alerts_inv s -> alerts_inv (f s x).
Hypothesis f_grows : forall s x, exists l, (f s x).2 = s.2 ++ l.

Lemma fold_alerts_inv l : forall s, alerts_inv s -> alerts_inv (fold_left f l s).
Proof. induction l; cbn; auto. Qed.

Lemma fold_alerts_grows l : forall s, exists m, (fold_left f l s).2 = s.2 ++ m.
Proof.
  induction l as [|x l IH]; intros s; cbn; [exists []; symmetry; apply app_nil_r|].
  destruct (IH (f s x)) as [m ->], (f_grows s x) as [k ->]. exists (k ++ m). symmetry. apply app_assoc.
Qed.

Lemma fold_alerts_covered now key x l : In x l ->
  (forall s, alerts_inv s -> covered now key (f s x)) ->
  forall s, alerts_inv s -> covered now key (fold_left f l s).
Proof.
  intros (l1 & l2 & ->)%in_split Hx s Hs. rewrite fold_left_app. cbn [fold_left].
  destruct (Hx _ (fold_alerts_inv l1 s Hs)) as (a & Ha & Hk).
  destruct (fold_alerts_grows l2 (f (fold_left f l1 s) x)) as [m E].
  exists a. split; [|exact Hk]. rewrite E. apply in_app_iff. auto.
Qed.

End fold_alerts.

Lemma alert_job_inv now s status : alerts_inv s -> alerts_inv (alert_job now s status).
Proof. apply fold_alerts_inv. intros. now apply alert_db_inv. Qed.

Lemma alert_job_grows now s status : exists l, (alert_job now s status).2 = s.2 ++ l.
Proof. apply fold_alerts_grows. intros. apply alert_db_grows. Qed.

Lemma alert_job_covers now s status db : alerts_inv s -> In db (js_databases status) ->
  sd_stalled db = true -> covered now (js_job_id status, sd_database db) (alert_job now s status).
Proof.
  intros Hs Hin Hd. eapply fold_alerts_covered; [| | exact Hin | | exact Hs].
  - intros. now apply alert_db_inv.
  - intros. apply alert_db_grows.
  - intros. now apply alert_db_covers.
Qed.

Definition alert_state (e : engine) := (e_alerted e, e_alerts e).

Lemma refresh_alerts now statuses e :
  alert_state (refresh_sql_health now statuses e) = fold_left (alert_job now) statuses (alert_state e).
Proof. unfold refresh_sql_health, alert_state. destruct (fold_left _ statuses _). reflexivity. Qed.

(** ** Properties *)

Section properties.
Context `{SchedJsonLaws} `{DebugFmt} `{Base64} `{HashLib} `{HmacLib} `{EnvelopeJson} `{ListJson Job}
  `{Chrono}.
Variable human_bytes : Z -> str.
Variable settings : NotifySettings.






(** The time since [t] the schedule of this kind of run asks for has passed. *)
Definition its_time (job : Job) (kind : SqlRun) (t now : Z) : Prop :=
  match j_source job, kind with
  | Files _ _ _, _ => elapsed (j_schedule job) t now
  | Sql _ _ p, RunFull => elapsed (full_schedule p) t now
  | Sql _ _ p, RunLog => exists full i, p = PointInTime full i /\ Z.max i 1 * 60 <= now - t
  end.

Lemma js_update_get (jobs : JobStore) w id f job : js_load_error jobs = None ->
  js_get jobs id = Some job -> (forall j, j_id (f j) = j_id j) ->
  js_get (js_update (update_first id f) jobs w).1.2 id = Some (f job).
Proof.
  intros Hl Hg Hf. unfold js_update, js_ensure_writable. rewrite Hl.
  destruct (js_persist _ w) as [r w']. cbn. unfold js_get in *. cbn.
  induction (js_items jobs) as [|j js IH]; [discriminate|]. cbn in *.
  destruct (has_id id j) eqn:E.
  - injection Hg as ->. cbn. replace (has_id id (f job)) with true; [reflexivity|].
    unfold has_id, id_of, job_id in *. rewrite Hf. auto.
  - cbn. rewrite E. auto.
Qed.

(** The stores as the run leaves them to be recorded in. *)
Definition during (a : run_answers) (e : engine) : config_state := bs_config (ra_during a) (e_config e).

Lemma run_due_recorded job kind a e : js_load_error (c_jobs (during a e)) = None ->
  js_get (c_jobs (during a e)) (j_id job) = Some job ->
  exists status, js_get (c_jobs (e_config (run_due human_bytes settings job kind a e))) (j_id job)
    = Some (with_run (ra_recorded a) status job).
Proof.
  intros Hl Hg. unfold run_due. fold (during a e).
  destruct (run_task _ _ _ _ _ _) as [[[handle d] m] ns].
  exists (due_status handle).
  pose proof (js_update_get (c_jobs (during a e)) (c_world (during a e)) (j_id job)
    (with_run (ra_recorded a) (due_status handle)) job Hl Hg (fun _ => eq_refl)) as E.
  unfold record_run. destruct (js_update _ _ _) as [[r jobs] w]. exact E.
Qed.

Lemma run_due_timers job kind a e : ra_busy a = false -> ra_panic a = None -> is_sql job = true ->
  leaves (j_id job) (ra_during a) ->
  exists d ok, d_writable d = d_writable (e_disk e) /\
    sched_load (e_disk (run_due human_bytes settings job kind a e)) (j_id job) =
    sched_load (record_outcome d (j_id job) kind ok (ra_ended a)) (j_id job).
Proof.
  intros Hb Hp Hs Hl. unfold run_due, run_task. rewrite Hp, Hb. unfold scheduled_run.
  pose proof (run_inner_own human_bytes (e_config e) job kind (ra_env a) (e_disk e)) as [Hw _].
  destruct (run_inner _ _ _ _ _ _) as [[o d] ev]. cbn in Hw.
  destruct (record_run _ _ _ _ _) as [[r jobs] w]. cbn [e_disk]. rewrite Hl. exists d. unfold end_run.
  destruct (ra_cancelled a && negb (is_ok o)); cbn; rewrite Hs; eauto.
Qed.

Lemma full_due_again d id ok t p now : d_writable d = true ->
  sql_due_kind (record_outcome d id RunFull ok t) id p now = Some RunFull -> elapsed (full_schedule p) t now.
Proof.
  intros Hw. pose proof (recorded_full_attempt d id ok t Hw) as Hf. rewrite <- schedule_due_elapsed.
  destruct p; cbn [sql_due_kind full_schedule]; rewrite Hf; repeat case_match; congruence.
Qed.

Lemma log_due_again d id ok t p now : d_writable d = true ->
  sql_due_kind (record_outcome d id RunLog ok t) id p now = Some RunLog ->
  exists full i, p = PointInTime full i /\ Z.max i 1 * 60 <= now - t.
Proof.
  intros Hw. pose proof (recorded_log_attempt d id ok t Hw) as Hl.
  destruct p as [full i|s|s]; cbn [sql_due_kind]; rewrite ?Hl; repeat case_match; try discriminate.
  intros _. exists full, i. cbn [or_else log_due] in *. split; [reflexivity | lia].
Qed.

(** C21: no storm of runs: after a scheduled run that started and ended, successfully, with an
    error or cancelled, the same kind of run of the job is due again only when the job's
    schedule says so, counted from the end of the run.  This is for a run whose task does
    not panic, a state directory that can be written, a job store that was loaded, and a job
    that nothing beside the run changes: the next theorem has what a panic does. *)
Theorem no_storm job kind a e now' :
  js_load_error (c_jobs (during a e)) = None -> js_get (c_jobs (during a e)) (j_id job) = Some job ->
  leaves (j_id job) (ra_during a) -> d_writable (e_disk e) = true -> ra_busy a = false -> ra_panic a = None ->
  let e' := run_due human_bytes settings job kind a e in
  exists job', js_get (c_jobs (e_config e')) (j_id job) = Some job' /\
    (due_kind (e_disk e') job' now' = Some kind ->
     its_time job kind (if is_sql job then ra_ended a else ra_recorded a) now').
Proof.
  intros Hl Hg Hv Hw Hb Hp e'. destruct (run_due_recorded job kind a e Hl Hg) as [status E].
  exists (with_run (ra_recorded a) status job). split; [exact E|].
  pose proof (run_due_timers job kind a e Hb Hp) as Ht. fold e' in Ht. unfold is_sql in *.
  destruct (j_source job) as [sources ex cd|cid dbs p] eqn:Es.
  - unfold its_time, due_kind. cbn [with_run j_source j_schedule j_last_run j_id]. rewrite Es.
    destruct (schedule_due _ _ _) eqn:Hd; [|discriminate]. intros _. apply schedule_due_elapsed, Hd.
  - destruct (Ht eq_refl Hv) as (d & ok & Hd & E').
    rewrite (due_kind_timers (record_outcome d (j_id job) kind ok (ra_ended a))) by exact E'.
    unfold its_time, due_kind. cbn [with_run j_source j_schedule j_last_run j_id]. rewrite Es, Hw in *.
    destruct kind; eauto using full_due_again, log_due_again.
Qed.

(** A SQL run whose task panics before it has stored a timer leaves the job as due as it
    was: the next turn asks for the same run again. *)
Theorem panicked_run_due_again job kind a e p now :
  ra_busy a = false -> ra_panic a = Some (p, None) -> is_sql job = true -> leaves (j_id job) (ra_during a) ->
  due_kind (e_disk e) job now = Some kind ->
  forall t status, due_kind (e_disk (run_due human_bytes settings job kind a e)) (with_run t status job) now = Some kind.
Proof.
  intros Hb Hp Hs Hl Hd t status. rewrite (due_kind_timers (e_disk e)).
  - revert Hd. unfold due_kind, is_sql in *. cbn [with_run j_source j_id]. destruct (j_source job); [discriminate | auto].
  - unfold run_due, run_task. rewrite Hb, Hp. destruct (record_run _ _ _ _ _) as [[? ?] ?]. apply Hl.
Qed.

(** ** Alerts over the life of the loop *)

Definition engine_start (c : config_state) (d : disk) (m : metrics) : engine :=
  {| e_config := c; e_disk := d; e_metrics := m; e_notified := []; e_last_stall_check := 0;
     e_alerted := ∅; e_alerts := [] |}.

Definition run_loop (turns : list turn) (e : engine) : engine :=
  fold_left (fun e t => (loop_turn human_bytes settings t e).2) turns e.

(** The state in which a turn makes its health check, if it makes one. *)
Definition check_state (t : turn) (e : engine) : option engine :=
  let e' := (turn_runs human_bytes settings t e).2 in
  if 15 * 60 <=? tn_now t - e_last_stall_check e' then Some e' else None.

Lemma run_due_alerts job kind a e : alert_state (run_due human_bytes settings job kind a e) = alert_state e.
Proof.
  unfold run_due.
  destruct (run_task _ _ _ _ _ _) as [[[handle d] m] ns].
  destruct (record_run _ _ _ _ _) as [[? ?] ?]. reflexivity.
Qed.

Lemma run_jobs_alerts now answers jobs : forall e,
  alert_state (run_jobs human_bytes settings now answers jobs e).2 = alert_state e.
Proof.
  induction jobs as [|job jobs IH]; intros e; [reflexivity|]. cbn [run_jobs].
  set (e1 := interfere _ e). destruct (due_kind _ _ _) as [kind|]; [|exact (IH e1)].
  specialize (IH (run_due human_bytes settings job kind (answers (j_id job)) e1)).
  destruct (run_jobs _ _ _ _ jobs _) as [runs e']. cbn in *. rewrite IH, run_due_alerts. reflexivity.
Qed.

Lemma turn_runs_alerts t e : alert_state (turn_runs human_bytes settings t e).2 = alert_state e.
Proof.
  unfold turn_runs. set (e1 := interfere (tn_begin t) e).
  pose proof (run_jobs_alerts (tn_now t) (tn_answers t) (js_items (c_jobs (e_config e1))) e1) as E.
  destruct (run_jobs _ _ _ _ _ _) as [runs e']. exact E.
Qed.

Lemma turn_alerts t e :
  alert_state (loop_turn human_bytes settings t e).2 =
  match check_state t e with
  | Some e' => fold_left (alert_job (tn_now t)) (collect_sql_status (tn_env t) (e_config e') (tn_now t)) (alert_state e)
  | None => alert_state e
  end.
Proof.
  unfold loop_turn, check_state. pose proof (turn_runs_alerts t e) as E.
  destruct (turn_runs _ _ _ _) as [runs e']. cbn [snd] in *.
  destruct (15 * 60 <=? _); [|exact E]. rewrite refresh_alerts.
  change (alert_state (set_checked (tn_now t) e')) with (alert_state e'). rewrite E. reflexivity.
Qed.

Lemma turn_alerts_inv t e : alerts_inv (alert_state e) ->
  alerts_inv (alert_state (loop_turn human_bytes settings t e).2).
Proof.
  intros Hi. rewrite turn_alerts. destruct (check_state _ _); [|exact Hi].
  apply fold_alerts_inv; [intros; now apply alert_job_inv | exact Hi].
Qed.

Lemma run_loop_inv turns : forall e, alerts_inv (alert_state e) -> alerts_inv (alert_state (run_loop turns e)).
Proof.
  induction turns as [|t turns IH]; intros e Hi; [exact Hi|]. cbn. apply IH, turn_alerts_inv, Hi.
Qed.

Lemma run_loop_grows turns : forall e, exists l, e_alerts (run_loop turns e) = e_alerts e ++ l.
Proof.
  induction turns as [|t turns IH]; intros e; [exists []; symmetry; apply app_nil_r|].
  cbn [run_loop fold_left]. set (e1 := (loop_turn human_bytes settings t e).2).
  destruct (IH e1) as [l El]. unfold run_loop in El. rewrite El.
  assert (exists k, e_alerts e1 = e_alerts e ++ k) as [k ->].
  { change (e_alerts e1) with (alert_state e1).2. unfold e1. rewrite turn_alerts.
    destruct (check_state _ _); [|exists []; symmetry; apply app_nil_r].
    apply (fold_alerts_grows (alert_job (tn_now t))). intros. apply alert_job_grows. }
  exists (k ++ l). symmetry. apply app_assoc.
Qed.

Lemma start_inv c d m : alerts_inv (alert_state (engine_start c d m)).
Proof.
  split; cbn; [constructor | tauto|]. intros key t E. rewrite lookup_empty in E. discriminate.
Qed.

(** C20: over any number of turns, whatever the clock shows, whatever goes on beside the loop
    and whatever the servers answer in each turn: two alerts about the same chain are at
    least six hours apart; and whenever a health check finds a chain stalled, an alert about
    it has been sent in the six hours before or is sent now. *)
Theorem stall_alerts c d m turns :
  let final := run_loop turns (engine_start c d m) in
  ForallOrdPairs spaced (e_alerts final) /\
  forall before t after e status db,
    turns = before ++ t :: after ->
    check_state t (run_loop before (engine_start c d m)) = Some e ->
    In status (collect_sql_status (tn_env t) (e_config e) (tn_now t)) -> In db (js_databases status) ->
    sd_stalled db = true ->
    exists a, In a (e_alerts final) /\ alert_key a = (js_job_id status, sd_database db) /\
      tn_now t - al_time a < REALERT_SECS.
Proof.
  cbn zeta. split; [apply (ai_spaced _ (run_loop_inv turns _ (start_inv c d m)))|].
  intros before t after e status db -> Hc Hs Hdb Hst.
  set (e1 := run_loop before (engine_start c d m)) in *.
  pose proof (run_loop_inv before _ (start_inv c d m)) as Hi. fold e1 in Hi.
  unfold run_loop at 1. rewrite fold_left_app. cbn [fold_left].
  change (fold_left _ before (engine_start c d m)) with e1.
  set (e2 := (loop_turn human_bytes settings t e1).2).
  destruct (run_loop_grows after e2) as [l El]. unfold run_loop in El. rewrite El.
  assert (covered (tn_now t) (js_job_id status, sd_database db) (alert_state e2)) as (a & Ha & Hk).
  { unfold e2. rewrite turn_alerts, Hc.
    eapply (fold_alerts_covered (alert_job (tn_now t))); [| | exact Hs | | exact Hi].
    - intros. now apply alert_job_inv.
    - intros. apply alert_job_grows.
    - intros. now apply alert_job_covers. }
  exists a. split; [apply in_app_iff; auto | exact Hk].
Qed.

End properties.

(** ** Witnesses *)

Section witnesses.
Import SampleStore SampleJson SampleChrono.
Local Existing Instance sample_debug.
Local Existing Instance Sample.hash.

Definition pit_job : Job := sql_job (L "a") (L "sql") [L "db"].
Definition loop_config : config_state :=
  {| c_jobs := with_items [pit_job; files_job] (store0 JOBS); c_sql := c_sql sample_config;
     c_pbs := c_pbs sample_config; c_world := c_world sample_config |}.
Definition loop_start : engine := engine_start loop_config sample_disk ∅.
Definition nothing : beside :=
  {| bs_config := id; bs_disk := id; bs_metrics := id; bs_notified := [] |}.
Definition failing_run (_ : str) : run_answers :=
  {| ra_busy := false; ra_cancelled := false; ra_env := sample_run (fun _ => Ok sample_stats);
     ra_panic := None; ra_ended := clock + 60; ra_duration := f64_zero; ra_recorded := clock + 61;
     ra_before := nothing; ra_during := nothing |}.
Definition sample_turn (now : Z) : turn :=
  {| tn_now := now; tn_begin := nothing; tn_answers := failing_run; tn_check := nothing; tn_env := Requests.sample_env |}.


Lemma no_storm_witness : exists job',
  due_kind (e_disk (run_due dec sample_settings pit_job RunFull (failing_run (L "a")) loop_start))
    job' (clock + 86400) = Some RunFull /\
  its_time pit_job RunFull (clock + 60) (clock + 86400).
Proof.
  destruct (no_storm dec sample_settings pit_job RunFull (failing_run (L "a")) loop_start (clock + 86400)
    eq_refl eq_refl (fun _ => eq_refl) eq_refl eq_refl eq_refl) as (job' & E & Ht).
  exists job'.
  assert (Hd : due_kind (e_disk (run_due dec sample_settings pit_job RunFull (failing_run (L "a")) loop_start))
    job' (clock + 86400) = Some RunFull).
  { assert (Some job' = js_get (c_jobs (e_config (run_due dec sample_settings pit_job RunFull
      (failing_run (L "a")) loop_start))) (j_id pit_job)) as Ej by (symmetry; exact E).
    vm_compute in Ej. injection Ej as ->. vm_compute. reflexivity. }
  split; [exact Hd | exact (Ht Hd)].
Defined.

Lemma stall_alerts_witness :
  let turns := [sample_turn clock; sample_turn (clock + 3600)] in
  exists a, In a (e_alerts (run_loop dec sample_settings turns loop_start)) /\
    alert_key a = (L "a", L "db") /\ clock + 3600 - al_time a < REALERT_SECS.
Proof.
  intros turns.
  set (x := check_state dec sample_settings (sample_turn (clock + 3600))
    (run_loop dec sample_settings [sample_turn clock] loop_start)).
  set (found := collect_sql_status Requests.sample_env (e_config (default loop_start x)) (clock + 3600)).
  assert (Hx : match x with Some _ => true | None => false end = true) by (vm_compute; reflexivity).
  assert (Hf : map (fun s => (js_job_id s, map (fun d => (sd_database d, sd_stalled d)) (js_databases s)))
    found = [(L "a", [(L "db", true)])]) by (vm_compute; reflexivity).
  destruct x as [e|] eqn:E; [|discriminate Hx]. cbn [default] in found.
  destruct found as [|status rest] eqn:Ec; [discriminate Hf|]. unfold found in Ec.
  injection Hf as Ej Hf _. destruct (js_databases status) as [|db dbs] eqn:Ed; [discriminate Hf|].
  injection Hf as En Hst _.
  assert (Hk : (js_job_id status, sd_database db) = (L "a", L "db")) by congruence.
  destruct (proj2 (stall_alerts dec sample_settings loop_config sample_disk ∅ turns)
    [sample_turn clock] (sample_turn (clock + 3600)) [] e status db eq_refl E) as (a & Ha & Ek & Ht);
    [change (In status (collect_sql_status Requests.sample_env (e_config (id e)) (clock + 3600)));
      rewrite Ec; left; reflexivity | rewrite Ed; left; reflexivity | exact Hst|].
  exists a. rewrite <- Hk. auto.
Defined.

End witnesses.
