(* ===== verification/Vss.v ===== *)
(** Volume shadow copies: the requester of [pbsgui-vss/src/imp.rs] and [lib.rs] that
    file backups read from, and the capture of a domain controller's System State in
    [pbsgui-ad-engine/src/vss.rs].

    The VSS service is an oracle that answers every call as it likes, given the calls
    so far; what a function did is the log of its calls.  The file system of the shadow
    copies and the writers' metadata are data.  The theorem here: the calls follow the
    order VSS asks of a requester, whatever it answers.  What the shadow copies hold is
    the matter of [Captured], and what the writers are told that of [Capture]. *)

From Stdlib Require Import ZArith Lia Strings.Byte Ascii String Sorted.
From stdpp Require Import base tactics option numbers gmap list.
From S2P Require Import Prelude Text Glob.
Open Scope Z_scope.

Definition guid := Z.

(** ** The service *)

(** A component of the backup set. *)
Record AddedComponent := {
  ad_instance : guid; ad_writer : guid; ad_kind : Z; ad_logical : option str; ad_name : str }.

Inductive vss_call :=
| InitializeForBackup
| SetContext
| SetBackupState (component_mode bootable full : bool)
| GatherWriterMetadata
| AddComponent (c : AddedComponent)
| FreeWriterMetadata
| StartSnapshotSet
| AddToSnapshotSet (vol : str)
| PrepareForBackup
| DoSnapshotSet
| GatherWriterStatus
| FreeWriterStatus
| GetSnapshotProperties (vol : str)
| SetBackupSucceeded (c : AddedComponent) (succeeded : bool)
| BackupComplete
| SaveAsXML
| AbortBackup.

(** What a call answers: its own result and, for an asynchronous one, the results of
    waiting for it and of asking for its status. *)
Record vss_answer := {
  va_call : result str unit; va_wait : result str unit; va_status : result str Z; va_message : str }.

Abbreviation oracle := (list vss_call -> vss_call -> vss_answer).

Definition vm (A : Type) : Type := list vss_call -> result str A * list vss_call.
#[export] Instance vm_ret : MRet vm := fun A a log => (Ok a, log).
#[export] Instance vm_bind : MBind vm := fun A B f m log =>
  match m log with (Ok a, log') => f a log' | (Err e, log') => (Err e, log') end.
Definition vm_lift {A} (r : result str A) : vm A := fun log => (r, log).
Definition vm_fail {A} (e : str) : vm A := fun log => (Err e, log).

(** [.context(..)], shown with [{:#}]. *)
Definition in_context {A} (msg : str) (r : result str A) : result str A :=
  map_err (fun e => msg ++ L ": " ++ e) r.

Definition VSS_S_ASYNC_FINISHED : Z := 0x4230A.

Section service.
Variable ask : oracle.

(** A call whose failure is reported with [msg]. *)
Definition call (msg : str) (c : vss_call) : vm unit := fun log =>
  (in_context msg (va_call (ask log c)), log ++ [c]).

(** [let _ = ..] *)
Definition call_ignored (c : vss_call) : vm unit := fun log => (Ok tt, log ++ [c]).

(** [wait_async(call_async(..), what, ..)]: the call, the wait and the status. *)
Definition wait_async (what : str) (c : vss_call) : vm unit := fun log =>
  let a := ask log c in
  ((_ ← in_context (what ++ L " did not start") (in_context (L "starting the async operation failed") (va_call a));
    _ ← in_context (what ++ L " wait failed") (va_wait a);
    hr ← in_context (what ++ L " status query failed") (va_status a);
    ensure (hr =? VSS_S_ASYNC_FINISHED) (what ++ L " did not finish: " ++ va_message a)),
   log ++ [c]).

(** ** Writers *)

(** A writer's status after the snapshot: id, name, state, whether its result is an
    error, and the result's text. *)
Record writer_status := {
  ws_writer : guid; ws_name : str; ws_state : Z; ws_error : bool; ws_result : str }.

(** What the service reports about writers: their statuses (each may fail to be read). *)
Variable statuses : result str (list (result str writer_status)).

Definition writer_failed (s : writer_status) : bool :=
  ws_error s || ((6 <=? ws_state s) && (ws_state s <=? 15)).

Fixpoint read_statuses (l : list (result str writer_status)) : result str (list (guid * str)) :=
  match l with
  | [] => Ok []
  | r :: l =>
      s ← in_context (L "GetWriterStatus failed") r;
      rest ← read_statuses l;
      Ok (if writer_failed s
          then (ws_writer s, ws_name s ++ L " (state " ++ dec (ws_state s) ++ L ", " ++ ws_result s ++ L ")") :: rest
          else rest)
  end.

Definition failed_writers : vm (list (guid * str)) :=
  _ ← wait_async (L "GatherWriterStatus") GatherWriterStatus;
  l ← vm_lift (in_context (L "GetWriterStatusCount failed") statuses);
  failures ← vm_lift (read_statuses l);
  _ ← call (L "FreeWriterStatus failed") FreeWriterStatus;
  mret failures.

(** ** Shadow copies of volumes (imp.rs) *)

Variable volume_of : str -> result str str.      (* GetVolumePathNameW *)
Variable device_of : str -> str.                  (* m_pwszSnapshotDeviceObject *)

Definition same_volume (a b : str) : bool := eq_ignore_ascii_case a b.

(** A volume is added once, whatever the case. *)
Definition add_volume (vol : str) (volumes : list str) : list str :=
  if existsb (fun v => same_volume v vol) volumes then volumes else volumes ++ [vol].

Fixpoint collect_volumes (paths : list str) (volumes warnings : list str) : list str * list str :=
  match paths with
  | [] => (volumes, warnings)
  | p :: paths =>
      match volume_of p with
      | Ok vol => collect_volumes paths (add_volume vol volumes) warnings
      | Err e => collect_volumes paths volumes (warnings ++ [p ++ L ": not on a local volume, read live (" ++ e ++ L ")"])
      end
  end.

(** Volumes that cannot be added are left out with a warning. *)
Fixpoint add_volumes (volumes ids warnings : list str) : vm (list str * list str) := fun log =>
  match volumes with
  | [] => (Ok (ids, warnings), log)
  | vol :: volumes =>
      let c := AddToSnapshotSet vol in
      match va_call (ask log c) with
      | Ok _ => add_volumes volumes (ids ++ [vol]) warnings (log ++ [c])
      | Err e => add_volumes volumes ids
          (warnings ++ [vol ++ L ": VSS cannot snapshot this volume, read live (" ++ e ++ L ")"]) (log ++ [c])
      end
  end.

Definition lowercase (s : str) : str := map to_ascii_lowercase s.

Fixpoint snapshot_roots (trim_device : bool) (ids : list str) : vm (list (str * str)) :=
  match ids with
  | [] => mret []
  | vol :: ids =>
      _ ← call (L "GetSnapshotProperties(" ++ vol ++ L ") failed") (GetSnapshotProperties vol);
      roots ← snapshot_roots trim_device ids;
      let device := device_of vol in
      mret ((lowercase vol, if trim_device then trim_end_char 92 device else device) :: roots)
  end.

Record VolumeSnapshot := { sn_roots : list (str * str); sn_warnings : list str }.

Definition snapshot_create (paths : list str) : vm VolumeSnapshot :=
  _ ← call (L "InitializeForBackup failed (is the VSS service running, and is pbsgui elevated?)") InitializeForBackup;
  _ ← call (L "SetContext failed") SetContext;
  _ ← call (L "SetBackupState failed") (SetBackupState false false false);
  _ ← wait_async (L "GatherWriterMetadata") GatherWriterMetadata;
  _ ← call_ignored FreeWriterMetadata;
  let '(volumes, warnings) := collect_volumes paths [] [] in
  _ ← call (L "StartSnapshotSet failed") StartSnapshotSet;
  '(ids, warnings) ← add_volumes volumes [] warnings;
  match ids with
  | [] => mret {| sn_roots := []; sn_warnings := warnings |}
  | _ =>
      _ ← wait_async (L "PrepareForBackup") PrepareForBackup;
      _ ← wait_async (L "DoSnapshotSet") DoSnapshotSet;
      failed ← failed_writers;
      roots ← snapshot_roots true ids;
      mret {| sn_roots := roots;
              sn_warnings := warnings ++ map (fun f => L "VSS writer " ++ f.2
                ++ L " failed; its files are crash-consistent only") failed |}
  end.

(** [lib.rs].  The source slices by bytes; since a slice that differs from the root in
    more than the case of ASCII letters gives [None] either way, characters do. *)
Definition shadow_path (device vol path : str) : option str :=
  if eq_ignore_ascii_case path (trim_end_char 92 vol) then Some (device ++ [92])
  else if (length path <? length vol)%nat then None
  else if negb (eq_ignore_ascii_case (take (length vol) path) vol) then None
  else Some (device ++ [92] ++ drop (length vol) path).

Definition snapshot_map (s : VolumeSnapshot) (path : str) : option str :=
  match volume_of path with
  | Err _ => None
  | Ok v =>
      let vol := lowercase v in
      r ← find (fun r => str_eqb r.1 vol) (sn_roots s);
      shadow_path r.2 vol path
  end.

(** [complete], and the [Drop] of a session that was not completed. *)
Definition snapshot_complete (s : VolumeSnapshot) : vm unit :=
  match sn_roots s with
  | [] => mret tt
  | _ => wait_async (L "BackupComplete") BackupComplete
  end.

Definition abort (log : list vss_call) : list vss_call := log ++ [AbortBackup].

(** ** System State (vss.rs of the AD engine) *)

Definition NTDS_WRITER : guid := 0xb2014c9e87114c5ca5a93cf384484757.
Definition DFSR_WRITER : guid := 0x2707761b2324473d88ebeb007a359533.
Definition FRS_WRITER : guid := 0xd76f5a2830924589ba482958fb88ce29.
Definition REGISTRY_WRITER : guid := 0xafbab4a2367d4d15a58671dbb18f8485.
Definition COMPLUS_REGDB_WRITER : guid := 0x542da469d3e1473c9f4f7847f01fc64f.
Definition WMI_WRITER : guid := 0xa6ad56c2b5094e6cbb1949d8f43532f0.
Definition SYSTEM_WRITER : guid := 0xe81329756f934464a53e1050253ae220.

Definition SYSTEM_STATE_WRITERS : list guid :=
  [NTDS_WRITER; DFSR_WRITER; FRS_WRITER; REGISTRY_WRITER; COMPLUS_REGDB_WRITER; WMI_WRITER; SYSTEM_WRITER].

(** A descriptor as a writer declares it, and as it is kept. *)
Record wm_filedesc := { wf_path : str; wf_spec : str; wf_recursive : bool }.
Record FileDescriptor := {
  fd_writer : guid; fd_directory : str; fd_spec : str; fd_recursive : bool }.

(** A component of a writer: its files, database files and log files, each of which may
    fail to be read, and the release of its description. *)
Record wm_component := {
  wc_logical_path : str; wc_name : str; wc_kind : Z;
  wc_files : list (result str wm_filedesc); wc_databases : list (result str wm_filedesc);
  wc_logs : list (result str wm_filedesc); wc_freed : result str unit }.

Record wm_writer := {
  ww_instance : guid; ww_id : guid; ww_name : str;
  ww_components : result str (list (result str wm_component)) }.

Variable expand : str -> str.                     (* expand_env with the environment *)

Fixpoint push_descs (writer : guid) (l : list (result str wm_filedesc)) :
    result str (list FileDescriptor) :=
  match l with
  | [] => Ok []
  | r :: l =>
      f ← r;
      rest ← push_descs writer l;
      Ok ({| fd_writer := writer; fd_directory := expand (wf_path f); fd_spec := wf_spec f;
             fd_recursive := wf_recursive f |} :: rest)
  end.

Definition added_of (w : wm_writer) (c : wm_component) : AddedComponent :=
  {| ad_instance := ww_instance w; ad_writer := ww_id w; ad_kind := wc_kind c;
     ad_logical := if is_empty (wc_logical_path c) then None else Some (wc_logical_path c);
     ad_name := wc_name c |}.

(** The descriptors of a component: files, databases, logs. *)
Definition component_descs (writer : guid) (c : wm_component) : result str (list FileDescriptor) :=
  files ← push_descs writer (wc_files c);
  dbs ← push_descs writer (wc_databases c);
  logs ← push_descs writer (wc_logs c);
  _ ← wc_freed c;
  Ok (files ++ dbs ++ logs).

Fixpoint add_components (w : wm_writer) (l : list (result str wm_component)) :
    vm (list AddedComponent * list FileDescriptor) :=
  match l with
  | [] => mret ([], [])
  | r :: l =>
      c ← vm_lift r;
      _ ← call (L "AddComponent(" ++ wc_name c ++ L ") failed") (AddComponent (added_of w c));
      descs ← vm_lift (component_descs (ww_id w) c);
      '(added, rest) ← add_components w l;
      mret (added_of w c :: added, descs ++ rest)
  end.

Definition SelectedSystemState := (list AddedComponent * list FileDescriptor * list (guid * str))%type.

Fixpoint select_writers (l : list (result str wm_writer)) : vm SelectedSystemState :=
  match l with
  | [] => mret ([], [], [])
  | r :: l =>
      w ← vm_lift r;
      if negb (existsb (Z.eqb (ww_id w)) SYSTEM_STATE_WRITERS) then select_writers l
      else
        components ← vm_lift (in_context (L "GetFileCounts failed") (ww_components w));
        '(added, descs) ← add_components w components;
        '(added', descs', names) ← select_writers l;
        mret (added ++ added', descs ++ descs', (ww_id w, ww_name w) :: names)
  end.

Definition select_system_state (writers : result str (list (result str wm_writer))) :
    vm SelectedSystemState :=
  l ← vm_lift (in_context (L "GetWriterMetadataCount failed") writers);
  selected ← select_writers l;
  _ ← call (L "FreeWriterMetadata failed") FreeWriterMetadata;
  mret selected.

Definition check_writers_ok (names : list (guid * str)) : vm unit :=
  failed ← failed_writers;
  match map snd (List.filter (fun f => existsb (fun n => n.1 =? f.1) names) failed) with
  | [] => mret tt
  | failures => vm_fail (L "writer(s) failed during the snapshot: " ++ join (L "; ") failures)
  end.

(** *** Files *)

(** A directory of the shadow copy; a folder that cannot be listed is [None]. *)
Inductive entry :=
| EFile (name : str) (size : option Z)
| EDir (name : str) (children : option (list entry))
| EOther (name : str).

Record CapturedFile := {
  cf_shadow_path : str; cf_original_path : str; cf_archive_name : str; cf_size : Z; cf_writer : str }.

Definition below (dir name : str) : str := trim_end_char 92 dir ++ [92] ++ name.

(** [replace(':', "").replace('\\', "/")]. *)
Definition state_name (original_path : str) : str :=
  map (fun c => if c =? 92 then 47 else c) (List.filter (fun c => negb (c =? 58)) original_path).

Variable path_join : str -> str -> str.           (* Path::join, of DirEntry::path *)
Variable to_lower : str -> str.                   (* str::to_lowercase *)

Abbreviation captured := (list CapturedFile).

(** A [BTreeMap] by archive name, as its values in order; [entry(..).or_insert(..)]. *)
Fixpoint or_insert (f : CapturedFile) (files : captured) : captured :=
  match files with
  | [] => [f]
  | g :: rest =>
      if str_eqb (cf_archive_name f) (cf_archive_name g) then files
      else if str_lt (cf_archive_name f) (cf_archive_name g) then f :: files
      else g :: or_insert f rest
  end.

Definition found_file (shadow_dir original_dir writer name : str) (size : option Z) : CapturedFile :=
  let original := below original_dir name in
  {| cf_shadow_path := path_join shadow_dir name; cf_original_path := original;
     cf_archive_name := state_name original; cf_size := default 0 size; cf_writer := writer |}.

Section walk.
Variables (spec : str) (recursive : bool) (writer : str).

Definition matches_spec (name : str) : bool := default false (filespec_matches to_lower spec name).

Fixpoint collect_entry (shadow_dir original_dir : str) (e : entry) (files : captured) : captured :=
  match e with
  | EOther _ => files
  | EFile name size =>
      if matches_spec name then or_insert (found_file shadow_dir original_dir writer name size) files
      else files
  | EDir name children =>
      if recursive then
        match children with
        | Some l => fold_left (fun fs e => collect_entry (path_join shadow_dir name) (below original_dir name) e fs)
                      l files
        | None => files
        end
      else files
  end.

Definition collect_matching (shadow_dir original_dir : str) (listing : option (list entry))
    (files : captured) : captured :=
  match listing with
  | None => files
  | Some l => fold_left (fun fs e => collect_entry shadow_dir original_dir e fs) l files
  end.

End walk.

Variable read_dir : str -> option (list entry).

Definition shadow_dir_of (device vol directory : str) : str :=
  device ++ [92] ++ trim_start_char 92 (drop (length vol) directory).

(** The slice of a directory shorter than its volume's root panics, which ends the
    capture's thread. *)
Definition PANICKED : str := L "the capture thread panicked".

Fixpoint resolve_files (descriptors : list FileDescriptor) (shadow_roots : list (str * str))
    (names : list (guid * str)) (files : captured) : result str captured :=
  match descriptors with
  | [] => Ok files
  | d :: descriptors =>
      let writer := match find (fun n => n.1 =? fd_writer d) names with Some n => n.2 | None => [] end in
      vol ← volume_of (fd_directory d);
      match find (fun r => str_eqb r.1 (lowercase vol)) shadow_roots with
      | None => resolve_files descriptors shadow_roots names files
      | Some (_, device) =>
          _ ← ensure (length vol <=? length (fd_directory d))%nat PANICKED;
          let dir := shadow_dir_of device vol (fd_directory d) in
          resolve_files descriptors shadow_roots names
            (collect_matching (fd_spec d) (fd_recursive d) writer dir (fd_directory d) (read_dir dir) files)
      end
  end.

(** *** The session *)

Record WriterSummary := { wr_name : str; wr_components : Z; wr_files : Z; wr_bytes : Z }.

Record SystemStateCapture := {
  ss_added : list AddedComponent; ss_files : captured; ss_writers : list WriterSummary }.

Definition summary_of (added : list AddedComponent) (files : captured) (n : guid * str) : WriterSummary :=
  let mine := List.filter (fun f => str_eqb (cf_writer f) n.2) files in
  {| wr_name := n.2;
     wr_components := Z.of_nat (length (List.filter (fun c => ad_writer c =? n.1) added));
     wr_files := Z.of_nat (length mine);
     wr_bytes := fold_left (fun t f => (t + cf_size f) mod 2 ^ 64) mine 0 |}.

Fixpoint desc_volumes (descriptors : list FileDescriptor) (volumes : list str) : result str (list str) :=
  match descriptors with
  | [] => Ok volumes
  | d :: descriptors => vol ← volume_of (fd_directory d); desc_volumes descriptors (add_volume vol volumes)
  end.

(** Here a volume that cannot be added is an error. *)
Fixpoint add_all_volumes (volumes : list str) : vm unit :=
  match volumes with
  | [] => mret tt
  | vol :: volumes =>
      _ ← call (L "AddToSnapshotSet(" ++ vol ++ L ") failed") (AddToSnapshotSet vol);
      add_all_volumes volumes
  end.

Definition capture_create (writers : result str (list (result str wm_writer))) : vm SystemStateCapture :=
  _ ← call (L "InitializeForBackup failed (is the VSS service running?)") InitializeForBackup;
  _ ← call (L "SetContext failed") SetContext;
  _ ← call (L "SetBackupState failed") (SetBackupState true true true);
  _ ← wait_async (L "GatherWriterMetadata") GatherWriterMetadata;
  '(added, descriptors, names) ← select_system_state writers;
  _ ← vm_lift (ensure (negb (Nat.eqb (length added) 0))
    (L "no System State writers reported components; is this machine a Domain Controller with the VSS service healthy? (vssadmin list writers)"));
  _ ← vm_lift (ensure (existsb (fun n => n.1 =? NTDS_WRITER) names)
    (L "the NTDS writer is not present, so this machine does not look like a Domain Controller (vssadmin list writers should show 'NTDS')"));
  volumes ← vm_lift (desc_volumes descriptors []);
  _ ← call (L "StartSnapshotSet failed") StartSnapshotSet;
  _ ← add_all_volumes volumes;
  _ ← wait_async (L "PrepareForBackup") PrepareForBackup;
  _ ← wait_async (L "DoSnapshotSet") DoSnapshotSet;
  _ ← check_writers_ok names;
  roots ← snapshot_roots false volumes;
  files ← vm_lift (resolve_files descriptors roots names []);
  mret {| ss_added := added; ss_files := files; ss_writers := map (summary_of added files) names |}.

(** The outcome is told to every component, then the session ends; a session that does
    not end well is aborted. *)
Fixpoint tell_all (succeeded : bool) (l : list AddedComponent) : vm unit :=
  match l with
  | [] => mret tt
  | c :: l => _ ← call (L "SetBackupSucceeded failed") (SetBackupSucceeded c succeeded); tell_all succeeded l
  end.

Variable xml : str.                               (* the Backup Components Document *)

Definition capture_complete (s : SystemStateCapture) (succeeded : bool) : vm str := fun log =>
  match (_ ← tell_all succeeded (ss_added s);
         wait_async (L "BackupComplete") BackupComplete) log with
  | (Err e, log) => (Err e, abort log)
  | (Ok _, log) => (_ ← call (L "SaveAsXML failed") SaveAsXML; mret xml) log
  end.

Definition components_xml : vm str := _ ← call (L "SaveAsXML failed") SaveAsXML; mret xml.

End service.

(** ** The order of the calls *)

(** Where a requester is with the service: a call that failed leaves only the abort. *)
Inductive stage :=
| Fresh | Initialized | Contextual | Configured | Gathered | Collecting | Prepared | Snapshotted
| Telling | Ended | Broken | Aborted.

#[export] Instance stage_eq_dec : EqDecision stage.
Proof. solve_decision. Defined.

(** The calls a stage allows, by the documentation of VSS. *)
Definition allowed (s : stage) (c : vss_call) : option stage :=
  match s, c with
  | Fresh, InitializeForBackup => Some Initialized
  | Initialized, SetContext => Some Contextual
  | Contextual, SetBackupState _ _ _ => Some Configured
  | Configured, GatherWriterMetadata => Some Gathered
  | Gathered, (AddComponent _ | FreeWriterMetadata) => Some Gathered
  | Gathered, StartSnapshotSet => Some Collecting
  | Collecting, AddToSnapshotSet _ => Some Collecting
  | Collecting, PrepareForBackup => Some Prepared
  | Prepared, DoSnapshotSet => Some Snapshotted
  | Snapshotted, (GatherWriterStatus | FreeWriterStatus | GetSnapshotProperties _ | SaveAsXML) =>
      Some Snapshotted
  | (Snapshotted | Telling), SetBackupSucceeded _ _ => Some Telling
  | (Snapshotted | Telling), BackupComplete => Some Ended
  | Ended, SaveAsXML => Some Ended
  | _, AbortBackup => Some Aborted
  | _, _ => None
  end.

(** A call that may fail without harm. *)
Definition optional (c : vss_call) : bool :=
  match c with AddToSnapshotSet _ | FreeWriterMetadata => true | _ => false end.

Definition is_async (c : vss_call) : bool :=
  match c with
  | GatherWriterMetadata | PrepareForBackup | DoSnapshotSet | GatherWriterStatus | BackupComplete => true
  | _ => false
  end.

Definition succeeded (a : vss_answer) (c : vss_call) : bool :=
  is_ok (va_call a) &&
  (if is_async c
   then is_ok (va_wait a) && match va_status a with Ok hr => hr =? VSS_S_ASYNC_FINISHED | Err _ => false end
   else true).

Section protocol.
Variable ask : oracle.

Definition advance (log : list vss_call) (c : vss_call) (s : stage) : option stage :=
  s' ← allowed s c;
  Some (if succeeded (ask log c) c || optional c || bool_decide (s' = Aborted) then s' else Broken).

Fixpoint stages (before : list vss_call) (s : stage) (log : list vss_call) : option stage :=
  match log with
  | [] => Some s
  | c :: log => s' ← advance before c s; stages (before ++ [c]) s' log
  end.

Definition stage_of (log : list vss_call) : option stage := stages [] Fresh log.

Lemma stages_snoc log c : forall before s,
  stages before s (log ++ [c]) = s' ← stages before s log; advance (before ++ log) c s'.
Proof.
  induction log as [|d log IH]; intros before s; cbn.
  - rewrite app_nil_r. destruct (advance before c s); reflexivity.
  - destruct (advance before d s); cbn; [|reflexivity]. rewrite IH, <- app_assoc. reflexivity.
Qed.

Lemma stage_snoc log c s : stage_of log = Some s -> stage_of (log ++ [c]) = advance log c s.
Proof. unfold stage_of. rewrite stages_snoc. intros ->. reflexivity. Qed.

(** [m] takes a requester from stage [P] to the stage [Q] of its result, or fails
    without having made a call out of order. *)
Definition moves {A} (P : stage) (m : vm A) (Q : A -> stage) : Prop :=
  forall log, stage_of log = Some P ->
  match m log with
  | (Ok a, log') => stage_of log' = Some (Q a)
  | (Err _, log') => is_Some (stage_of log')
  end.

Lemma moves_ret {A} (a : A) P : moves P (mret a) (fun _ => P).
Proof. intros log H. exact H. Qed.

Lemma moves_lift {A} (r : result str A) P : moves P (vm_lift r) (fun _ => P).
Proof. intros log H. destruct r; cbn; [exact H | rewrite H; eauto]. Qed.

Lemma moves_fail {A} e P Q : moves P (vm_fail (A := A) e) Q.
Proof. intros log H. cbn. rewrite H. eauto. Qed.

Lemma moves_bind {A B} (m : vm A) (f : A -> vm B) P Q R :
  moves P m Q -> (forall a, moves (Q a) (f a) R) -> moves P (m ≫= f) R.
Proof.
  intros Hm Hf log H. specialize (Hm log H). unfold mbind, vm_bind.
  destruct (m log) as [[a|e] log']; [apply Hf, Hm | exact Hm].
Qed.

Lemma moves_call msg c P Q : allowed P c = Some Q -> is_async c = false ->
  moves P (call ask msg c) (fun _ => Q).
Proof.
  intros Ha Hs log H. unfold call. rewrite (stage_snoc _ _ _ H). unfold advance, succeeded.
  rewrite Ha, Hs. cbn. destruct (va_call (ask log c)); cbn; [reflexivity | eauto].
Qed.

Lemma moves_ignored c P Q : allowed P c = Some Q -> optional c = true ->
  moves P (call_ignored c) (fun _ => Q).
Proof.
  intros Ha Ho log H. unfold call_ignored. rewrite (stage_snoc _ _ _ H). unfold advance.
  rewrite Ha, Ho, orb_true_r. reflexivity.
Qed.

Lemma moves_async what c P Q : allowed P c = Some Q -> is_async c = true ->
  moves P (wait_async ask what c) (fun _ => Q).
Proof.
  intros Ha Hs log H. unfold wait_async. rewrite (stage_snoc _ _ _ H). unfold advance, succeeded.
  rewrite Ha, Hs. cbn. destruct (ask log c) as [[] [] [hr|] msg]; cbn; eauto.
  destruct (hr =? VSS_S_ASYNC_FINISHED); cbn; eauto.
Qed.

End protocol.

Create HintDb vss.
#[export] Hint Resolve moves_ret moves_lift moves_fail : vss.
#[export] Hint Extern 1 (moves _ _ (call _ _ _) _) => apply moves_call; reflexivity : vss.
#[export] Hint Extern 1 (moves _ _ (call_ignored _) _) => apply moves_ignored; reflexivity : vss.
#[export] Hint Extern 1 (moves _ _ (wait_async _ _ _) _) => apply moves_async; reflexivity : vss.

(** Steps through a sequence of calls. *)
Ltac vss_step :=
  match goal with
  | |- moves _ _ (mbind _ _) _ => eapply moves_bind; [solve [eauto with vss] | intros ?; cbv beta]
  | |- moves _ _ (let '(_, _) := ?x in _) _ => destruct x
  | |- moves _ _ (if ?b then _ else _) _ => destruct b
  | |- moves _ _ (match ?x with [] => _ | _ => _ end) _ => destruct x
  end.
Ltac vss_steps := repeat vss_step; try solve [eauto with vss].

Section order.
Variable ask : oracle.
Variable statuses : result str (list (result str writer_status)).
Variable volume_of : str -> result str str.
Variable device_of : str -> str.
Variable expand : str -> str.
Variable path_join : str -> str -> str.
Variable to_lower : str -> str.
Variable read_dir : str -> option (list entry).
Variable xml : str.

Lemma moves_failed_writers : moves ask Snapshotted (failed_writers ask statuses) (fun _ => Snapshotted).
Proof. unfold failed_writers. vss_steps. Qed.

Lemma moves_roots b ids : moves ask Snapshotted (snapshot_roots ask device_of b ids) (fun _ => Snapshotted).
Proof. induction ids; cbn [snapshot_roots]; vss_steps. Qed.

Lemma moves_add_volumes volumes : forall ids warnings,
  moves ask Collecting (add_volumes ask volumes ids warnings) (fun _ => Collecting).
Proof.
  induction volumes as [|vol volumes IH]; intros ids warnings log H; [exact H|]. cbn [add_volumes].
  assert (stage_of ask (log ++ [AddToSnapshotSet vol]) = Some Collecting) as H'.
  { rewrite (stage_snoc _ _ _ _ H). unfold advance. cbn. rewrite orb_true_r. reflexivity. }
  destruct (va_call (ask log (AddToSnapshotSet vol))); apply IH, H'.
Qed.

#[local] Hint Resolve moves_failed_writers moves_roots moves_add_volumes : vss.

Definition snapshot_stage (s : VolumeSnapshot) : stage :=
  match sn_roots s with [] => Collecting | _ => Snapshotted end.

Definition roots_stage (roots : list (str * str)) : stage :=
  match roots with [] => Collecting | _ => Snapshotted end.

Lemma moves_ret_at {A} (a : A) P Q : Q a = P -> moves ask P (mret a) Q.
Proof. intros <- log H. exact H. Qed.

Lemma moves_some_roots b vol ids :
  moves ask Snapshotted (snapshot_roots ask device_of b (vol :: ids)) roots_stage.
Proof. cbn [snapshot_roots]. vss_steps. apply moves_ret_at. reflexivity. Qed.

Lemma moves_snapshot_create paths :
  moves ask Fresh (snapshot_create ask statuses volume_of device_of paths) snapshot_stage.
Proof.
  unfold snapshot_create. do 9 vss_step. destruct l1 as [|vol ids].
  - apply moves_ret_at. reflexivity.
  - do 3 vss_step. eapply moves_bind; [apply moves_some_roots|].
    intros roots. apply moves_ret_at. reflexivity.
Qed.

Lemma moves_add_components w l :
  moves ask Gathered (add_components ask expand w l) (fun _ => Gathered).
Proof. induction l; cbn [add_components]; vss_steps. Qed.

#[local] Hint Resolve moves_add_components : vss.

Lemma moves_select_writers l : moves ask Gathered (select_writers ask expand l) (fun _ => Gathered).
Proof. induction l; cbn [select_writers]; vss_steps. Qed.

Lemma moves_add_all volumes : moves ask Collecting (add_all_volumes ask volumes) (fun _ => Collecting).
Proof. induction volumes; cbn [add_all_volumes]; vss_steps. Qed.

#[local] Hint Resolve moves_select_writers moves_add_all : vss.

Lemma moves_select_system_state writers :
  moves ask Gathered (select_system_state ask expand writers) (fun _ => Gathered).
Proof. unfold select_system_state. vss_steps. Qed.

Lemma moves_check_writers names :
  moves ask Snapshotted (check_writers_ok ask statuses names) (fun _ => Snapshotted).
Proof. unfold check_writers_ok. vss_steps. Qed.

#[local] Hint Resolve moves_select_system_state moves_check_writers : vss.

Lemma moves_capture_create writers :
  moves ask Fresh
    (capture_create ask statuses volume_of device_of expand path_join to_lower read_dir writers)
    (fun _ => Snapshotted).
Proof. unfold capture_create. vss_steps. Qed.

Lemma moves_telling b l : moves ask Telling (tell_all ask b l) (fun _ => Telling).
Proof. induction l; cbn [tell_all]; vss_steps. Qed.

#[local] Hint Resolve moves_telling : vss.

Lemma moves_end b l :
  moves ask Snapshotted (_ ← tell_all ask b l; wait_async ask (L "BackupComplete") BackupComplete)
    (fun _ => Ended).
Proof.
  destruct l as [|c l]; cbn [tell_all]; vss_steps.
  eapply moves_bind; [eapply moves_bind; [apply moves_call; reflexivity | intros; apply moves_telling] |].
  intros. vss_steps.
Qed.

Lemma stage_abort log s : stage_of ask log = Some s -> stage_of ask (abort log) = Some Aborted.
Proof.
  intros H. unfold abort. rewrite (stage_snoc _ _ _ _ H). unfold advance.
  destruct s; cbn; rewrite orb_true_r; reflexivity.
Qed.

Lemma moves_capture_complete s b :
  moves ask Snapshotted (capture_complete ask xml s b) (fun _ => Ended).
Proof.
  intros log H. unfold capture_complete. pose proof (moves_end b (ss_added s) log H) as He.
  destruct ((_ ← tell_all ask b (ss_added s); wait_async ask (L "BackupComplete") BackupComplete) log)
    as [[[]|e] log'].
  - revert He. generalize log'. change (moves ask Ended (components_xml ask xml) (fun _ => Ended)).
    unfold components_xml. vss_steps.
  - destruct He as [st He]. rewrite (stage_abort _ _ He). eauto.
Qed.

(** The session of a file backup: completed when the archive has been written, and
    aborted when that panicked. *)
Definition file_session (paths : list str) (completed : bool) : result str unit * list vss_call :=
  match snapshot_create ask statuses volume_of device_of paths [] with
  | (Err e, log) => (Err e, log)
  | (Ok s, log) => if completed then snapshot_complete ask s log else (Ok tt, abort log)
  end.

(** Every call of a file backup's session comes where VSS allows it, whatever the
    service answers to each call: nothing is asked of it out of order or after a step
    that failed.  A session that ends well either ended the backup, so that the writers
    were released, or was aborted, or has no volume in its snapshot set. *)
Theorem file_session_ordered paths completed :
  match file_session paths completed with
  | (Err _, log) => is_Some (stage_of ask log)
  | (Ok _, log) =>
      stage_of ask log = Some (if completed then Ended else Aborted) \/ stage_of ask log = Some Collecting
  end.
Proof.
  unfold file_session. pose proof (moves_snapshot_create paths [] eq_refl) as Hc.
  destruct (snapshot_create _ _ _ _ paths []) as [[s|e] log]; [|exact Hc].
  destruct completed.
  - unfold snapshot_complete. unfold snapshot_stage in Hc. destruct (sn_roots s); [right; exact Hc|].
    pose proof (moves_async ask (L "BackupComplete") BackupComplete Snapshotted Ended eq_refl eq_refl log Hc) as H.
    destruct (wait_async _ _ _ log) as [[|] ?]; [left; exact H | exact H].
  - left. apply (stage_abort _ _ Hc).
Qed.

End order.
