(* ===== verification/Captured.v ===== *)
(** What a shadow copy holds: that a System State capture ([resolve_files] and
    [create_inner] of [pbsgui-ad-engine/src/vss.rs], modelled in [Vss]) resolves exactly
    the files the System State writers declare, and that a file backup reads a path from
    the shadow copy of its own volume ([map] of [pbsgui-vss/src/imp.rs]). *)

From Stdlib Require Import ZArith Lia Strings.Byte Ascii String Sorted.
From stdpp Require Import base tactics option numbers gmap list.
From S2P Require Import Prelude Text Glob Vss.
Open Scope Z_scope.

(** ** Files resolved once *)

Section resolution.
Abbreviation captured := (list CapturedFile).
Variable volume_of : str -> result str str.
Variable path_join : str -> str -> str.
Variable to_lower : str -> str.
Variable read_dir : str -> option (list entry).

(** The files below a directory of the shadow copy that a descriptor declares. *)
Inductive on_copy (spec : str) (recursive : bool) (writer : str) :
    str -> str -> entry -> CapturedFile -> Prop :=
| copy_file dir orig name size :
    matches_spec to_lower spec name = true ->
    on_copy spec recursive writer dir orig (EFile name size) (found_file path_join dir orig writer name size)
| copy_below dir orig name l e f :
    recursive = true -> In e l ->
    on_copy spec recursive writer (path_join dir name) (below orig name) e f ->
    on_copy spec recursive writer dir orig (EDir name (Some l)) f.

Definition named_before (f g : CapturedFile) : Prop :=
  str_lt (cf_archive_name f) (cf_archive_name g) = true.

(** [new] is [old] with the files of [D], one for each archive name. *)
Record adds (old new : captured) (D : CapturedFile -> Prop) : Prop := {
  adds_sorted : StronglySorted named_before old -> StronglySorted named_before new;
  adds_kept : forall f, In f old -> In f new;
  adds_only : forall f, In f new -> In f old \/ D f;
  adds_all : forall f, D f -> exists g, In g new /\ cf_archive_name g = cf_archive_name f }.

Lemma adds_none files : adds files files (fun _ => False).
Proof. split; try tauto. Qed.

Lemma adds_equiv old new D D' : (forall f, D f <-> D' f) -> adds old new D -> adds old new D'.
Proof. intros E [Hs Hk Ho Ha]. split; auto; intros f Hf; [destruct (Ho f Hf); [left | right; apply E] | apply Ha, E]; auto. Qed.

Lemma adds_trans a b c D D' : adds a b D -> adds b c D' -> adds a c (fun f => D f \/ D' f).
Proof.
  intros [Hs Hk Ho Ha] [Hs' Hk' Ho' Ha']. split; auto.
  - intros f Hf. destruct (Ho' f Hf) as [H|H]; [destruct (Ho f H)|]; auto.
  - intros f [H|H]; [|auto]. destruct (Ha f H) as (g & Hg & E). eauto.
Qed.

Lemma or_insert_in f files g : In g (or_insert f files) -> g = f \/ In g files.
Proof.
  induction files as [|h files IH]; cbn; [intuition|].
  destruct (str_eqb _ _); [auto|]. destruct (str_lt _ _); cbn; intuition.
Qed.

Lemma or_insert_sorted f files :
  StronglySorted named_before files -> StronglySorted named_before (or_insert f files).
Proof.
  induction 1 as [|g files Hs IH Hg]; cbn; [repeat constructor|].
  destruct (str_eqb (cf_archive_name f) (cf_archive_name g)) eqn:E; [constructor; assumption|].
  destruct (str_lt (cf_archive_name f) (cf_archive_name g)) eqn:El.
  - repeat constructor; [assumption | assumption | exact El |].
    eapply List.Forall_impl; [|exact Hg]. intros h Hh. unfold named_before in *. eapply str_lt_trans; eassumption.
  - constructor; [exact IH|]. apply List.Forall_forall. intros h Hh.
    destruct (or_insert_in _ _ _ Hh) as [->|Hin]; [|exact (proj1 (List.Forall_forall _ _) Hg h Hin)].
    unfold named_before. destruct (str_lt (cf_archive_name g) (cf_archive_name f)) eqn:E2; [reflexivity|].
    apply bool_decide_eq_false in E. destruct (E (str_lt_total _ _ El E2)).
Qed.

Lemma adds_insert f files : adds files (or_insert f files) (eq f).
Proof.
  split.
  - apply or_insert_sorted.
  - intros g. induction files as [|h files IH]; cbn; [tauto|].
    destruct (str_eqb _ _); [auto|]. destruct (str_lt _ _); cbn; intuition.
  - intros g Hg. destruct (or_insert_in _ _ _ Hg); auto.
  - intros g <-. induction files as [|h files IH]; cbn; [eauto|].
    destruct (str_eqb (cf_archive_name f) (cf_archive_name h)) eqn:E.
    { apply str_eqb_eq in E. exists h. split; [left; reflexivity | congruence]. }
    destruct (str_lt _ _); [exists f; split; [left|]; reflexivity|].
    destruct IH as (g & Hg & Eg). exists g. split; [right|]; assumption.
Qed.

Lemma adds_fold {A} (step : captured -> A -> captured) (D : A -> CapturedFile -> Prop) l :
  (forall a files, In a l -> adds files (step files a) (D a)) ->
  forall files, adds files (fold_left step l files) (fun f => exists a, In a l /\ D a f).
Proof.
  induction l as [|a l IH]; intros Hstep files; cbn.
  - eapply adds_equiv; [|apply adds_none]. firstorder.
  - eapply adds_equiv; [|eapply adds_trans; [apply Hstep; left; reflexivity|
      apply IH; intros b fs Hb; apply Hstep; right; exact Hb]].
    intros f. split; [intros [H | (b & Hb & H)]; eauto | intros (b & [<-|Hb] & H); eauto].
Qed.

(** Induction through the folders of a tree. *)
Fixpoint entry_tree_ind (P : entry -> Prop)
    (Hfile : forall name size, P (EFile name size))
    (Hdir : forall name l, (forall e, In e l -> P e) -> P (EDir name (Some l)))
    (Hnone : forall name, P (EDir name None)) (Hother : forall name, P (EOther name)) (e : entry) : P e :=
  match e with
  | EFile name size => Hfile name size
  | EOther name => Hother name
  | EDir name None => Hnone name
  | EDir name (Some l) =>
      Hdir name l ((fix all (l : list entry) : forall e, In e l -> P e :=
        match l with
        | [] => fun e H => match H with end
        | x :: l => fun e H =>
            match H with
            | or_introl E => eq_ind x P (entry_tree_ind P Hfile Hdir Hnone Hother x) e E
            | or_intror H => all l e H
            end
        end) l)
  end.

Lemma collect_entry_adds spec recursive writer e : forall dir orig files,
  adds files (collect_entry path_join to_lower spec recursive writer dir orig e files)
    (on_copy spec recursive writer dir orig e).
Proof.
  induction e as [name size | name l IH | name | name] using entry_tree_ind;
    intros dir orig files; cbn [collect_entry].
  - destruct (matches_spec _ _ _) eqn:E.
    + eapply adds_equiv; [|apply adds_insert]. intros f.
      split; [intros <-; constructor; exact E | intros H; inversion H; reflexivity].
    + eapply adds_equiv; [|apply adds_none]. intros f. split; [tauto | intros H; inversion H; congruence].
  - destruct recursive eqn:Er.
    + eapply adds_equiv; [|apply adds_fold with (D := fun e => on_copy spec true writer (path_join dir name) (below orig name) e);
        intros e fs He; apply IH; exact He].
      intros f. split; [intros (e & He & H); econstructor; eauto | intros H; inversion H; eauto].
    + eapply adds_equiv; [|apply adds_none]. intros f. split; [tauto | intros H; inversion H; congruence].
  - destruct recursive; (eapply adds_equiv; [|apply adds_none]); intros f; (split; [tauto | intros H; inversion H]).
  - eapply adds_equiv; [|apply adds_none]. intros f. split; [tauto | intros H; inversion H].
Qed.

Definition writer_name (names : list (guid * str)) (id : guid) : str :=
  match find (fun n => n.1 =? id) names with Some n => n.2 | None => [] end.

(** What a descriptor declares on the shadow copy at [device] of its volume [vol]. *)
Definition declares (names : list (guid * str)) (device vol : str) (d : FileDescriptor)
    (f : CapturedFile) : Prop :=
  let dir := shadow_dir_of device vol (fd_directory d) in
  exists l e, read_dir dir = Some l /\ In e l /\
    on_copy (fd_spec d) (fd_recursive d) (writer_name names (fd_writer d)) dir (fd_directory d) e f.

(** The device of a descriptor's volume. *)
Definition device_at (roots : list (str * str)) (d : FileDescriptor) (device vol : str) : Prop :=
  volume_of (fd_directory d) = Ok vol /\
  find (fun r => str_eqb r.1 (lowercase vol)) roots = Some (lowercase vol, device).

Lemma find_root (roots : list (str * str)) vol r :
  find (fun r => str_eqb r.1 (lowercase vol)) roots = Some r -> r.1 = lowercase vol.
Proof. intros H. apply find_some in H as [_ H]. apply str_eqb_eq, H. Qed.

Lemma resolve_files_adds descriptors roots names : forall files files',
  resolve_files volume_of path_join to_lower read_dir descriptors roots names files = Ok files' ->
  adds files files' (fun f => exists d device vol, In d descriptors /\
    device_at roots d device vol /\ declares names device vol d f).
Proof.
  induction descriptors as [|d descriptors IH]; cbn [resolve_files]; intros files files' H.
  { injection H as <-. eapply adds_equiv; [|apply adds_none]. firstorder. }
  inv_ok. rename x into vol. destruct (find _ roots) as [[k device]|] eqn:Ef.
  - pose proof (find_root _ _ _ Ef) as Ek. cbn in Ek. subst k. inv_ok.
    eapply adds_equiv; [|eapply adds_trans; [|eapply IH; eassumption]]; cycle 1.
    + instantiate (1 := declares names device vol d). unfold declares, collect_matching. cbv zeta.
      destruct (read_dir _) as [l|] eqn:El.
      * eapply adds_equiv; [|apply adds_fold; intros e fs He; apply collect_entry_adds].
        intros f. split; [intros (e & He & Hf); eauto 8 |
          intros (l' & e & [= ->] & He & Hf); eauto].
      * eapply adds_equiv; [|apply adds_none]. intros f. split; [tauto | intros (l' & e & Hn & _); discriminate].
    + intros f. split.
      * intros [Hf | (d' & dev & v & Hd & Hf)]; [exists d, device, vol | exists d', dev, v];
          [repeat split; auto; left; reflexivity | split; [right|]; assumption].
      * intros (d' & dev & v & [<-|Hd] & [Hv Hr] & Hf); [left | right; exists d', dev, v; repeat split; assumption].
        assert (v = vol) as -> by congruence. assert (dev = device) as -> by congruence. exact Hf.
  - eapply adds_equiv; [|eapply IH; eassumption]. intros f. split.
    + intros (d' & dev & v & Hd & Hf). exists d', dev, v. split; [right|]; assumption.
    + intros (d' & dev & v & [<-|Hd] & [Hv Hr] & Hf); [|exists d', dev, v; repeat split; assumption].
      assert (v = vol) as -> by congruence. congruence.
Qed.

End resolution.

(** ** What a capture contains *)

Lemma vm_bind_ok {A B} (m : vm A) (f : A -> vm B) log b log' :
  (m ≫= f) log = (Ok b, log') <-> exists a log1, m log = (Ok a, log1) /\ f a log1 = (Ok b, log').
Proof.
  unfold mbind, vm_bind. destruct (m log) as [[a|e] log1]; split.
  - eauto.
  - intros (a' & l & [= <- <-] & H). exact H.
  - discriminate.
  - intros (a' & l & H & _). discriminate.
Qed.

Lemma vm_lift_ok {A} (r : result str A) log a log' :
  vm_lift r log = (Ok a, log') <-> r = Ok a /\ log' = log.
Proof. unfold vm_lift. split; [intros [= -> ->]; auto | intros [-> ->]; reflexivity]. Qed.

Lemma vm_ret_ok {A} (a b : A) (log log' : list vss_call) :
  (mret a : vm A) log = (Ok b, log') <-> a = b /\ log' = log.
Proof. cbn. split; [intros [= -> ->]; auto | intros [-> ->]; reflexivity]. Qed.

Lemma in_context_ok {A} msg (r : result str A) a : in_context msg r = Ok a <-> r = Ok a.
Proof. destruct r; cbn; split; congruence. Qed.

(** Splits every hypothesis saying that a sequence of calls succeeded. *)
Ltac inv_vm :=
  repeat match goal with
  | H : mbind _ _ _ = (Ok _, _) |- _ => apply vm_bind_ok in H as (? & ? & ? & ?)
  | H : vm_lift _ _ = (Ok _, _) |- _ => apply vm_lift_ok in H as [? ?]; try subst
  | H : vm_bind _ _ _ _ _ = (Ok _, _) |- _ => apply vm_bind_ok in H as (? & ? & ? & ?)
  | H : mret _ _ = (Ok _, _) |- _ => apply vm_ret_ok in H as [? ?]; try subst
  | H : in_context _ _ = Ok _ |- _ => apply in_context_ok in H
  | H : ensure _ _ = Ok _ |- _ => apply ensure_ok in H
  | H : vm_fail _ _ = (Ok _, _) |- _ => discriminate H
  | H : (_, _) = (_, _) |- _ => apply pair_equal_spec in H as [? ?]; try subst
  | x : (_ * _)%type |- _ => destruct x
  end.

Section contents.
Variable ask : oracle.
Variable statuses : result str (list (result str writer_status)).
Variable volume_of : str -> result str str.
Variable device_of : str -> str.
Variable expand : str -> str.
Variable path_join : str -> str -> str.
Variable to_lower : str -> str.
Variable read_dir : str -> option (list entry).

Definition desc_of (writer : guid) (f : wm_filedesc) : FileDescriptor :=
  {| fd_writer := writer; fd_directory := expand (wf_path f); fd_spec := wf_spec f;
     fd_recursive := wf_recursive f |}.

Definition wc_all (c : wm_component) : list (result str wm_filedesc) :=
  wc_files c ++ wc_databases c ++ wc_logs c.

Definition selected (l : list (result str wm_writer)) (w : wm_writer) : Prop :=
  In (Ok w) l /\ In (ww_id w) SYSTEM_STATE_WRITERS.

Definition component_of (w : wm_writer) (c : wm_component) : Prop :=
  exists cs, ww_components w = Ok cs /\ In (Ok c) cs.

(** The components and descriptors of the System State writers. *)
Definition in_state (l : list (result str wm_writer)) (a : AddedComponent) : Prop :=
  exists w c, selected l w /\ component_of w c /\ a = added_of w c.
Definition declared (l : list (result str wm_writer)) (d : FileDescriptor) : Prop :=
  exists w c f, selected l w /\ component_of w c /\ In (Ok f) (wc_all c) /\ d = desc_of (ww_id w) f.

Lemma push_descs_ok writer l : forall ds, push_descs expand writer l = Ok ds ->
  forall d, In d ds <-> exists f, In (Ok f) l /\ d = desc_of writer f.
Proof.
  induction l as [|r l IH]; cbn [push_descs]; intros ds H d.
  { injection H as <-. firstorder. }
  inv_ok. cbn. rewrite (IH _ ltac:(eassumption) d). split.
  - intros [<-|(f & Hf & ->)]; eauto.
  - intros (f & [E|Hf] & ->); [injection E as ->; left; reflexivity | eauto].
Qed.

Lemma component_descs_ok writer c ds : component_descs expand writer c = Ok ds ->
  forall d, In d ds <-> exists f, In (Ok f) (wc_all c) /\ d = desc_of writer f.
Proof.
  unfold component_descs, wc_all. intros H d. inv_ok. rewrite !in_app_iff.
  repeat match goal with H : push_descs _ _ _ = Ok _ |- _ => rewrite (push_descs_ok _ _ _ H d); clear H end.
  split; [|intros (f & Hf & ->); rewrite !in_app_iff in Hf; intuition eauto].
  intros [(f & Hf & ->)|[(f & Hf & ->)|(f & Hf & ->)]]; exists f; rewrite !in_app_iff; auto.
Qed.

Lemma add_components_ok w l : forall log added descs log',
  add_components ask expand w l log = (Ok (added, descs), log') ->
  (forall a, In a added <-> exists c, In (Ok c) l /\ a = added_of w c) /\
  (forall d, In d descs <-> exists c f, In (Ok c) l /\ In (Ok f) (wc_all c) /\ d = desc_of (ww_id w) f).
Proof.
  induction l as [|r l IH]; cbn [add_components]; intros log added descs log' H.
  { inv_vm. firstorder. }
  inv_vm. rename select (add_components _ _ _ _ _ = _) into Hl. rename select (component_descs _ _ _ = _) into Hds.
  destruct (IH _ _ _ _ Hl) as [Ha Hd]. split.
  - intros a. cbn. rewrite Ha. split.
    + intros [<-|(c & Hc & ->)]; eauto.
    + intros (c & [E|Hc] & ->); [injection E as ->; left; reflexivity | eauto].
  - intros d. cbn [In]. rewrite in_app_iff, Hd, (component_descs_ok _ _ _ Hds). split.
    + intros [(f & Hf & ->)|(c & f & Hc & Hf & ->)]; eauto 8.
    + intros (c & f & [E|Hc] & Hf & ->); [injection E as ->|]; eauto 8.
Qed.

Lemma component_of_ok w cs c : ww_components w = Ok cs -> component_of w c <-> In (Ok c) cs.
Proof. unfold component_of. intros E. split; [intros (cs' & E' & H); congruence | eauto]. Qed.

Lemma selected_cons r l w : selected (r :: l) w <->
  (r = Ok w /\ In (ww_id w) SYSTEM_STATE_WRITERS) \/ selected l w.
Proof. unfold selected. cbn. tauto. Qed.

Lemma state_writer id : existsb (Z.eqb id) SYSTEM_STATE_WRITERS = true <-> In id SYSTEM_STATE_WRITERS.
Proof.
  rewrite existsb_exists. split; [intros (x & Hx & E); apply Z.eqb_eq in E; congruence|].
  intros H. exists id. split; [exact H | apply Z.eqb_refl].
Qed.

Lemma select_writers_ok l : forall log added descs names log',
  select_writers ask expand l log = (Ok (added, descs, names), log') ->
  (forall a, In a added <-> in_state l a) /\ (forall d, In d descs <-> declared l d) /\
  (forall n, In n names <-> exists w, selected l w /\ n = (ww_id w, ww_name w)).
Proof.
  induction l as [|r l IH]; cbn [select_writers]; intros log added descs names log' H.
  { inv_vm. unfold in_state, declared, selected. firstorder. }
  inv_vm. rename x into w. destruct (existsb _ _) eqn:Ew; cbn [negb] in *.
  - apply state_writer in Ew. inv_vm.
    rename select (add_components _ _ _ _ _ = _) into Hc. rename select (ww_components _ = _) into Hw.
    edestruct IH as (Ha & Hd & Hn); [eassumption|]. destruct (add_components_ok _ _ _ _ _ _ Hc) as [Ha' Hd'].
    unfold in_state, declared in *. split; [|split].
    + intros a. rewrite in_app_iff, Ha, Ha'. split.
      * intros [(c & Hin & ->)|(v & c & Hv & Hin)]; [exists w, c | exists v, c]; rewrite selected_cons;
          [rewrite (component_of_ok _ _ _ Hw)|]; auto.
      * intros (v & c & Hv & Hin & ->). rewrite selected_cons in Hv.
        destruct Hv as [[[= <-] _]|Hv]; [rewrite (component_of_ok _ _ _ Hw) in Hin|]; eauto 8.
    + intros d. rewrite in_app_iff, Hd, Hd'. split.
      * intros [(c & f & Hin & Hf & ->)|(v & c & f & Hv & Hin)]; [exists w, c, f | exists v, c, f];
          rewrite selected_cons; [rewrite (component_of_ok _ _ _ Hw)|]; auto.
      * intros (v & c & f & Hv & Hin & Hf & ->). rewrite selected_cons in Hv.
        destruct Hv as [[[= <-] _]|Hv]; [rewrite (component_of_ok _ _ _ Hw) in Hin|]; eauto 9.
    + intros n. cbn. rewrite Hn. split.
      * intros [<-|(v & Hv & ->)]; [exists w | exists v]; rewrite selected_cons; auto.
      * intros (v & Hv & ->). rewrite selected_cons in Hv. destruct Hv as [[[= <-] _]|Hv]; eauto.
  - assert (forall v, selected (Ok w :: l) v <-> selected l v) as E.
    { intros v. rewrite selected_cons. split; [|auto]. intros [[[= <-] Hs]|Hv]; [|exact Hv].
      apply state_writer in Hs. congruence. }
    destruct (IH _ _ _ _ _ H0) as (Ha & Hd & Hn).
    unfold in_state, declared in *. setoid_rewrite E. auto.
Qed.

Lemma add_volume_in vol v volumes : In v (add_volume vol volumes) -> In v volumes \/ v = vol.
Proof. unfold add_volume. destruct (existsb _ _); [auto|]. rewrite in_app_iff. intros [H|[H|[]]]; auto. Qed.

Definition holds_volume (volumes : list str) (vol : str) : Prop :=
  exists v, In v volumes /\ lowercase v = lowercase vol.

Lemma add_volume_holds vol volumes : holds_volume (add_volume vol volumes) vol /\
  forall u, holds_volume volumes u -> holds_volume (add_volume vol volumes) u.
Proof.
  unfold add_volume, holds_volume. destruct (existsb _ _) eqn:E.
  - apply existsb_exists in E as (v & Hv & E). apply str_eqb_eq in E. eauto.
  - split; [exists vol; rewrite in_app_iff; cbn; auto|].
    intros u (v & Hv & Ev). exists v. rewrite in_app_iff. auto.
Qed.

Lemma desc_volumes_ok ds : forall volumes volumes', desc_volumes volume_of ds volumes = Ok volumes' ->
  (forall u, holds_volume volumes u -> holds_volume volumes' u) /\
  (forall d, In d ds -> exists vol, volume_of (fd_directory d) = Ok vol /\ holds_volume volumes' vol) /\
  (forall v, In v volumes' -> In v volumes \/ exists d, In d ds /\ volume_of (fd_directory d) = Ok v).
Proof.
  induction ds as [|d ds IH]; cbn [desc_volumes]; intros volumes volumes' H.
  { injection H as <-. firstorder. }
  inv_ok. destruct (IH _ _ ltac:(eassumption)) as (Hm & Hd & Hv), (add_volume_holds x volumes) as [Hx Ho].
  split; [|split].
  - auto.
  - intros e [<-|He]; [exists x; auto | auto].
  - intros v Hin. destruct (Hv v Hin) as [Ha|(e & He & E)]; [|right; exists e; cbn; auto].
    destruct (add_volume_in _ _ _ Ha) as [Hi|Hi]; [auto | subst v; right; exists d; cbn; auto].
Qed.

Lemma snapshot_roots_ok b ids : forall log roots log',
  snapshot_roots ask device_of b ids log = (Ok roots, log') ->
  roots = map (fun v => (lowercase v, if b then trim_end_char 92 (device_of v) else device_of v)) ids.
Proof.
  induction ids as [|v ids IH]; cbn [snapshot_roots]; intros log roots log' H; inv_vm; [reflexivity|].
  cbn. f_equal. eapply IH; eassumption.
Qed.

Lemma read_statuses_ok l : forall failures, read_statuses l = Ok failures ->
  forall s, In (Ok s) l -> writer_failed s = true -> exists text, In (ws_writer s, text) failures.
Proof.
  induction l as [|r l IH]; cbn [read_statuses]; intros failures H s Hin Hf; [destruct Hin|].
  inv_ok. apply in_context_ok in H as ->. destruct Hin as [[= ->]|Hin].
  - rewrite Hf. eexists. left. reflexivity.
  - destruct (IH _ ltac:(eassumption) s Hin Hf) as [t Ht].
    destruct (writer_failed x); eauto using in_cons.
Qed.

Lemma check_writers_sound names log u log' : check_writers_ok ask statuses names log = (Ok u, log') ->
  exists l, statuses = Ok l /\ forall s n, In (Ok s) l -> In n names -> n.1 = ws_writer s -> writer_failed s = false.
Proof.
  unfold check_writers_ok, failed_writers. intros H. inv_vm.
  rename select (read_statuses _ = _) into Hr. rename select (statuses = _) into Hs.
  eexists. split; [exact Hs|]. intros s n Hin Hn E. destruct (writer_failed s) eqn:Ef; [|reflexivity].
  destruct (read_statuses_ok _ _ Hr s Hin Ef) as [text Ht].
  match goal with H : (match map snd ?fs with [] => _ | _ => _ end) _ = _ |- _ =>
    assert (In (ws_writer s, text) fs) as Hbad; [|destruct fs; [destruct Hbad | discriminate H]] end.
  apply filter_In. split; [exact Ht|]. apply existsb_exists. exists n. split; [exact Hn | apply Z.eqb_eq, E].
Qed.

(** What a capture of the writers [l] holds, with the shadow copies [roots] and the
    writers' display names [names]. *)
Record captures (l : list (result str wm_writer)) (roots : list (str * str)) (names : list (guid * str))
    (s : SystemStateCapture) : Prop := {
  captures_components : forall a, In a (ss_added s) <-> in_state l a;
  captures_ntds : exists w, selected l w /\ ww_id w = NTDS_WRITER;
  captures_healthy : exists st, statuses = Ok st /\ forall x w,
    In (Ok x) st -> selected l w -> ww_id w = ws_writer x -> writer_failed x = false;
  captures_names : forall n, In n names <-> exists w, selected l w /\ n = (ww_id w, ww_name w);
  captures_own_volumes : forall r, In r roots ->
    exists d v, declared l d /\ volume_of (fd_directory d) = Ok v /\ r = (lowercase v, device_of v);
  captures_sorted : StronglySorted named_before (ss_files s);
  captures_all : forall d, declared l d -> exists device vol, device_at volume_of roots d device vol /\
    forall f, declares path_join to_lower read_dir names device vol d f ->
    exists g, In g (ss_files s) /\ cf_archive_name g = cf_archive_name f;
  captures_only : forall f, In f (ss_files s) -> exists d device vol, declared l d /\
    device_at volume_of roots d device vol /\ declares path_join to_lower read_dir names device vol d f }.

Lemma device_found volumes roots d vol :
  roots = map (fun v => (lowercase v, device_of v)) volumes ->
  volume_of (fd_directory d) = Ok vol -> holds_volume volumes vol ->
  exists device, device_at volume_of roots d device vol.
Proof.
  intros -> Hv (v & Hin & E). unfold device_at.
  destruct (find _ _) as [[k device]|] eqn:Ef.
  - pose proof (find_root _ _ _ Ef) as Ek. cbn in Ek. subst k. eauto.
  - eapply find_none in Ef; [|apply in_map; exact Hin]. cbn in Ef.
    rewrite E, (proj2 (str_eqb_eq _ _) eq_refl) in Ef. discriminate.
Qed.

(** C24: a System State capture that succeeds holds what the System State writers
    declared, and nothing else: every component of theirs is in the backup set, the NTDS
    writer is among them and none of them failed; the volume of every descriptor has a
    shadow copy, every file on it that the descriptor declares is captured, one file for
    each name of the archive, in the order of the names; and every captured file is one
    that a descriptor declares, on the shadow copy of its volume. *)
Theorem capture_contents writers s log :
  capture_create ask statuses volume_of device_of expand path_join to_lower read_dir writers [] = (Ok s, log) ->
  exists l roots names, writers = Ok l /\ captures l roots names s.
Proof.
  unfold capture_create, select_system_state. intros H. inv_vm.
  rename select (desc_volumes _ _ _ = _) into Hv. rename select (resolve_files _ _ _ _ _ _ _ _ = _) into Hr.
  rename select (check_writers_ok _ _ _ _ = _) into Hw. rename select (snapshot_roots _ _ _ _ _ = _) into Hs.
  rename select (existsb _ _ = true) into Hn.
  edestruct select_writers_ok as (Ha & Hd & Hnames); [eassumption|].
  apply snapshot_roots_ok in Hs. apply resolve_files_adds in Hr as [Hsort _ Honly Hall].
  apply desc_volumes_ok in Hv as (_ & Hvol & Hown). apply check_writers_sound in Hw as (st & Hst & Hok).
  match type of Hs with ?r = _ => set (roots := r) in * end.
  eexists _, roots, _. split; [reflexivity|]. split; cbn [ss_added ss_files].
  - exact Ha.
  - apply existsb_exists in Hn as (n & Hn & E). apply Hnames in Hn as (w & Hsel & ->).
    exists w. split; [exact Hsel | apply Z.eqb_eq, E].
  - exists st. split; [exact Hst|]. intros y w Hy Hsel E.
    apply (Hok y (ww_id w, ww_name w)); [exact Hy | apply Hnames; eauto | exact E].
  - exact Hnames.
  - rewrite Hs. intros r Hr. apply in_map_iff in Hr as (v & <- & Hin).
    destruct (Hown v Hin) as [[]|(d & Hdd & E)]. exists d, v. rewrite <- Hd. auto.
  - apply Hsort. constructor.
  - intros d Hdd. apply Hd in Hdd. destruct (Hvol d Hdd) as (vol & E & Hold).
    destruct (device_found _ _ _ _ Hs E Hold) as [device Hdev].
    exists device, vol. split; [exact Hdev|]. intros f Hf. apply Hall. exists d, device, vol. auto.
  - intros f Hf. destruct (Honly f Hf) as [[]|(d & device & vol & Hdd & Hdev & Hf')].
    exists d, device, vol. rewrite <- Hd. auto.
Qed.

(** *** Paths of a file backup *)

Lemma lowercase_idem s : lowercase (lowercase s) = lowercase s.
Proof.
  unfold lowercase. rewrite map_map. apply map_ext. intros c. unfold to_ascii_lowercase, is_ascii_upper, in_range.
  destruct ((65 <=? c) && (c <=? 90)) eqn:E; [|rewrite E; reflexivity].
  destruct ((65 <=? c + 32) && (c + 32 <=? 90)) eqn:E2; [lia | reflexivity].
Qed.

(** The volumes of the paths, as they are collected. *)
Lemma collect_volumes_in paths : forall volumes warnings v,
  In v (collect_volumes volume_of paths volumes warnings).1 ->
  In v volumes \/ exists p, In p paths /\ volume_of p = Ok v.
Proof.
  induction paths as [|p paths IH]; cbn [collect_volumes]; intros volumes warnings v H; [auto|].
  destruct (volume_of p) as [vol|e] eqn:E; destruct (IH _ _ _ H) as [Hin|(q & Hq & Eq)];
    try (right; exists q; cbn; auto; fail); [|auto].
  destruct (add_volume_in _ _ _ Hin) as [Hi|Hi]; [auto|]. subst v. right. exists p. cbn. auto.
Qed.

(** A volume is kept when the service added it. *)
Lemma add_volumes_in volumes : forall ids warnings log ids' warnings' log',
  add_volumes ask volumes ids warnings log = (Ok (ids', warnings'), log') ->
  forall v, In v ids' -> In v ids \/
    (In v volumes /\ exists before, va_call (ask before (AddToSnapshotSet v)) = Ok tt).
Proof.
  induction volumes as [|vol volumes IH]; cbn [add_volumes]; intros ids warnings log ids' warnings' log' H v Hv.
  { injection H as <- <- <-. auto. }
  destruct (va_call (ask log (AddToSnapshotSet vol))) as [[]|e] eqn:E;
    destruct (IH _ _ _ _ _ _ H v Hv) as [Hin|[Hin Hb]]; try (right; cbn; auto; fail); [|auto].
  rewrite in_app_iff in Hin. destruct Hin as [Hin|[<-|[]]]; [auto | right; cbn; eauto].
Qed.

Lemma snapshot_create_roots paths s log :
  snapshot_create ask statuses volume_of device_of paths [] = (Ok s, log) ->
  forall r, In r (sn_roots s) -> exists v p,
    r = (lowercase v, trim_end_char 92 (device_of v)) /\ In p paths /\ volume_of p = Ok v /\
    exists before, va_call (ask before (AddToSnapshotSet v)) = Ok tt.
Proof.
  unfold snapshot_create. intros H r Hr. inv_vm.
  destruct (collect_volumes _ _ _ _) as [volumes warnings] eqn:Ec. inv_vm.
  rename select (add_volumes _ _ _ _ _ = _) into Ha.
  destruct l1 as [|v ids]; inv_vm; cbn [sn_roots] in Hr; [destruct Hr|].
  rename select (snapshot_roots _ _ _ _ _ = _) into Hs. apply snapshot_roots_ok in Hs. rewrite Hs in Hr.
  apply in_map_iff in Hr as (u & <- & Hu).
  destruct (add_volumes_in _ _ _ _ _ _ _ Ha u Hu) as [[]|[Hin Hb]].
  destruct (collect_volumes_in paths [] [] u) as [[]|(p & Hp & E)]; [rewrite Ec; exact Hin|].
  exists u, p. auto.
Qed.

(** A path that a file backup reads from a shadow copy is read from the copy of its
    own volume, at the place it has on the volume, and that volume is one that holds a
    source and that the service added to the snapshot; any other path is read live. *)
Theorem mapped_to_own_volume paths s log path copy :
  snapshot_create ask statuses volume_of device_of paths [] = (Ok s, log) ->
  snapshot_map volume_of s path = Some copy ->
  exists vol v p, volume_of path = Ok vol /\ lowercase v = lowercase vol /\
    In p paths /\ volume_of p = Ok v /\
    (exists before, va_call (ask before (AddToSnapshotSet v)) = Ok tt) /\
    let device := trim_end_char 92 (device_of v) in
    (copy = device ++ [92] /\ eq_ignore_ascii_case path (trim_end_char 92 (lowercase vol)) = true) \/
    (exists rest, copy = device ++ [92] ++ rest /\
       path = take (length vol) path ++ rest /\ lowercase (take (length vol) path) = lowercase vol).
Proof.
  intros Hc Hm. unfold snapshot_map in Hm. destruct (volume_of path) as [vol|] eqn:Ev; [|discriminate].
  apply bind_Some in Hm as ([k device] & Hf & Hm). pose proof (find_root _ _ _ Hf) as Ek. cbn in Ek.
  apply find_some in Hf as [Hin _].
  destruct (snapshot_create_roots _ _ _ Hc _ Hin) as (v & p & E & Hp & Hv & Hb). injection E as -> ->.
  exists vol, v, p. repeat (split; [eassumption || reflexivity|]). cbv zeta. cbn [snd] in Hm.
  unfold shadow_path, eq_ignore_ascii_case in Hm.
  assert (length (lowercase vol) = length vol) as El by (unfold lowercase; apply length_map). rewrite El in Hm.
  destruct (str_eqb (map _ path) _) eqn:E1.
  { left. injection Hm as <-. auto. }
  destruct (_ <? _)%nat; [discriminate|]. destruct (str_eqb (map _ (take _ _)) _) eqn:E2; [|discriminate].
  right. injection Hm as <-. apply str_eqb_eq in E2. exists (drop (length vol) path).
  rewrite take_drop, <- (lowercase_idem vol). auto.
Qed.

End contents.

(** ** A domain controller *)

Module SampleController.

Definition good : vss_answer :=
  {| va_call := Ok tt; va_wait := Ok tt; va_status := Ok VSS_S_ASYNC_FINISHED; va_message := [] |}.

(** Answers every call; [D:\] cannot be snapshotted. *)
Definition service : oracle := fun _ c =>
  match c with
  | AddToSnapshotSet vol =>
      if same_volume vol (L "D:\") then
        {| va_call := Err (L "0x8004230C"); va_wait := Ok tt; va_status := Ok 0; va_message := [] |}
      else good
  | _ => good
  end.

Definition volume_of (path : str) : result str str :=
  match path with
  | c :: 58 :: _ => Ok ([c] ++ L ":\")
  | _ => Err (L "no volume")
  end.
Definition device_of (_ : str) : str := L "\\?\GLOBALROOT\Device\HarddiskVolumeShadowCopy3".

Definition ntds : wm_writer :=
  {| ww_instance := 1; ww_id := NTDS_WRITER; ww_name := L "NTDS";
     ww_components := Ok [Ok {| wc_logical_path := []; wc_name := L "C:_Windows_NTDS_ntds"; wc_kind := 1;
       wc_files := [];
       wc_databases := [Ok {| wf_path := L "C:\Windows\NTDS"; wf_spec := L "ntds.dit"; wf_recursive := false |}];
       wc_logs := [Ok {| wf_path := L "C:\Windows\NTDS\"; wf_spec := L "*.LOG"; wf_recursive := true |}];
       wc_freed := Ok tt |}] |}.

(** Not of the System State. *)
Definition other : wm_writer :=
  {| ww_instance := 2; ww_id := 7; ww_name := L "SqlServerWriter"; ww_components := Err (L "no counts") |}.

Definition folder : list entry :=
  [EFile (L "ntds.dit") (Some 100); EFile (L "edb.log") (Some 10); EFile (L "edb.chk") (Some 1);
   EDir (L "old") (Some [EFile (L "edb0.LOG") None])].

Definition read_dir (p : str) : option (list entry) :=
  if starts_with (device_of [] ++ L "\Windows\NTDS") p then Some folder else None.

Definition path_join (dir name : str) : str :=
  trim_end_char 92 dir ++ [92] ++ name.

Definition healthy : result str (list (result str writer_status)) :=
  Ok [Ok {| ws_writer := NTDS_WRITER; ws_name := L "NTDS"; ws_state := 1; ws_error := false; ws_result := L "S_OK" |};
      Ok {| ws_writer := 7; ws_name := L "SqlServerWriter"; ws_state := 9; ws_error := true; ws_result := L "E" |}].

Definition create (expand : str -> str) :=
  capture_create service healthy volume_of device_of expand path_join lowercase read_dir
    (Ok [Ok other; Ok ntds]) [].

Definition the_capture : SystemStateCapture :=
  match (create id).1 with Ok s => s | Err _ => {| ss_added := []; ss_files := []; ss_writers := [] |} end.

Example captured_names : map cf_archive_name (ss_files the_capture) =
  [L "C/Windows/NTDS/edb.log"; L "C/Windows/NTDS/ntds.dit"; L "C/Windows/NTDS/old/edb0.LOG"].
Proof. vm_compute. reflexivity. Qed.

Definition the_snapshot : VolumeSnapshot :=
  match (snapshot_create service healthy volume_of device_of [L "c:\Users"; L "C:\x"; L "D:\data"] []).1 with
  | Ok s => s
  | Err _ => {| sn_roots := []; sn_warnings := [] |}
  end.

(** The volume of both sources is snapshotted once; the path of [D:] is read live. *)
Example mapped_paths :
  (length (sn_roots the_snapshot), snapshot_map volume_of the_snapshot (L "C:\Users\pat"),
   snapshot_map volume_of the_snapshot (L "D:\data\x")) =
  (1%nat, Some (device_of [] ++ L "\Users\pat"), None).
Proof. vm_compute. reflexivity. Qed.

(** A source written with forward slashes is on the snapshotted volume, and is read
    live nevertheless. *)
Example forward_slashes_read_live :
  volume_of (L "C:/Users/pat") = Ok (L "C:\") /\
  snapshot_map volume_of the_snapshot (L "C:/Users/pat") = None.
Proof. split; vm_compute; reflexivity. Qed.

(** A writer that declares the root of a volume without its separator ends the whole
    capture, although [shadow_path] knows such a path. *)
Example bare_root_panics :
  resolve_files volume_of path_join lowercase read_dir
    [{| fd_writer := SYSTEM_WRITER; fd_directory := L "C:"; fd_spec := L "bootmgr"; fd_recursive := false |}]
    [(L "c:\", device_of [])] [] [] = Err PANICKED /\
  shadow_path (device_of []) (L "c:\") (L "C:") = Some (device_of [] ++ [92]).
Proof. split; vm_compute; reflexivity. Qed.

End SampleController.

Lemma capture_contents_witness : exists l roots names,
  (Ok [Ok SampleController.other; Ok SampleController.ntds] : result str _) = Ok l /\
  captures SampleController.healthy SampleController.volume_of SampleController.device_of id
    SampleController.path_join lowercase SampleController.read_dir l roots names SampleController.the_capture.
Proof.
  apply (capture_contents SampleController.service _ _ _ _ _ _ _ _ _ (SampleController.create id).2).
  vm_compute. reflexivity.
Defined.

Lemma mapped_to_own_volume_witness : exists vol v p,
  SampleController.volume_of (L "C:\Users\pat") = Ok vol /\ lowercase v = lowercase vol /\
  In p [L "c:\Users"; L "C:\x"; L "D:\data"] /\ SampleController.volume_of p = Ok v /\ True.
Proof.
  destruct (mapped_to_own_volume SampleController.service SampleController.healthy SampleController.volume_of
    SampleController.device_of [L "c:\Users"; L "C:\x"; L "D:\data"] SampleController.the_snapshot
    (snapshot_create SampleController.service SampleController.healthy SampleController.volume_of
      SampleController.device_of [L "c:\Users"; L "C:\x"; L "D:\data"] []).2
    (L "C:\Users\pat") (SampleController.device_of [] ++ L "\Users\pat")
    ltac:(vm_compute; reflexivity) ltac:(vm_compute; reflexivity)) as (vol & v & p & H1 & H2 & H3 & H4 & _).
  exists vol, v, p. auto.
Defined.
