(* ===== verification/Capture.v ===== *)
(** The backup of a domain controller's System State
    ([pbsgui-ad-engine/src/capture.rs]): the shadow copies are made and their files
    resolved ([Vss], [Captured]), a thread archives the files into a channel
    ([Channels]), the uploader reads the channel and stores the archive on the backup
    server ([Upload]), and the writers are told whether the backup succeeded.

    The theorems: the calls of a whole run come where VSS allows them, whatever the
    service, the server and the files do; and the writers are told of success only when
    the server has finished a snapshot whose archive holds every captured file as it was
    read from the shadow copy, or when nothing was to be uploaded. *)

From Stdlib Require Import ZArith Lia Strings.Byte Ascii String Sorted.
From stdpp Require Import base tactics option numbers gmap list relations.
From S2P Require Import Prelude Text Base Blob Index Repository HttpApi Session Upload Stores Channels Glob Files Vss Captured.
Open Scope Z_scope.

Record BackupOptions := {
  bo_repository : option str; bo_fingerprint : str; bo_namespace : option str;
  bo_backup_id : option str; bo_compress : bool }.

Definition AD_ARCHIVE_NAME : str := L "systemstate.didx".
Definition AD_META_BLOB_NAME : str := L "ad-meta.json.blob".

Record AdMeta := {
  am_host : str; am_captured_unix : Z; am_writers : list WriterSummary;
  am_files : list (str * Z); am_xml : str }.

(** What the machine, the service and the uploader do: the answers of VSS, the
    environment variables and the clock, the files of the shadow copies, when the upload
    side stops reading, and the state the uploader ends in. *)
Record capture_env := {
  ce_com : result str unit;
  ce_ask : oracle;
  ce_statuses : result str (list (result str writer_status));
  ce_volume_of : str -> result str str;
  ce_device_of : str -> str;
  ce_expand : str -> str;
  ce_join : str -> str -> str;
  ce_lower : str -> str;
  ce_read_dir : str -> option (list entry);
  ce_writers : result str (list (result str wm_writer));
  ce_xml : str;
  ce_secret : option str;                          (* PBSGUI_AD_PBS_SECRET, else PBS_PASSWORD *)
  ce_hostname : option str;                        (* COMPUTERNAME *)
  ce_now : Z; ce_captured_now : Z;
  ce_meta_json : AdMeta -> result str bytes;
  ce_open : str -> result str file_data;
  ce_head : str -> result str Z;                   (* opening a file and reading its head *)
  ce_room : option nat;
  ce_panics : bool;                                (* the archive thread panics *)
  ce_chunks : bytes -> list bytes;                 (* the chunker *)
  ce_buffer : nat;                                 (* what the chunker reads at once *)
  ce_width : Z; ce_uuid : bytes;
  ce_upload : config -> up_state }.

Section run.
Context `{ArchiveLib} `{DebugFmt}.
Variable e : capture_env.

Definition hostname : str := default (L "dc") (ce_hostname e).

(** ** The archive thread *)

(** [append_path_with_name] on the channel's writer, which is left as it was when a
    write fails: then nobody reads the channel any more.  The file is on a shadow copy, which
    is read-only: the size in its metadata is the size of what is read from it. *)
Definition append_path_with_name (name : str) (f : file_data) (w : ChannelWriter) :
    result io_error unit * ChannelWriter :=
  if negb (tar_name_ok name) then (Err (IoError InvalidInput (L "paths in archives must be relative")), w)
  else
    let pieces := tar_pieces name (Z.of_nat (length (fd_data f))) (fd_data f) in
    match write_each ad_write (match fd_error f with None => pieces | Some (k, _) => take k pieces end) w with
    | Err err => (Err err, w)
    | Ok w => (match fd_error f with None => Ok tt | Some (_, err) => Err err end, w)
    end.

Definition archiving_failed (name text : str) : str := L "archiving " ++ name ++ L ": " ++ text.

Fixpoint archive_entries (entries : list (str * str)) (w : ChannelWriter) :
    result str unit * ChannelWriter :=
  match entries with
  | [] => (Ok tt, w)
  | (path, name) :: entries =>
      match ce_open e path with
      | Err err => (Err (archiving_failed name err), w)
      | Ok f =>
          match append_path_with_name name f w with
          | (Err err, w) => (Err (archiving_failed name (io_text err)), w)
          | (Ok _, w) => archive_entries entries w
          end
      end
  end.

(** The thread's result and what it has sent. *)
Definition tar_thread (entries : list (str * str)) : result str unit * list bytes :=
  let '(r, w) := archive_entries entries (open_writer (ce_room e)) in
  match (_ ← r; map_err io_text (w ← write_each ad_write tar_end w; ad_flush w)) with
  | Ok w => (Ok tt, tx_sent (cw_tx w))
  | Err err => (Err err, tx_sent (cw_tx w))
  end.

(** ** The run *)

Definition state_size (files : list CapturedFile) : Z :=
  fold_left (fun t f => (t + cf_size f) mod 2 ^ 64) files 0.

Definition meta_of (s : SystemStateCapture) (xml : str) : AdMeta :=
  {| am_host := hostname; am_captured_unix := ce_captured_now e; am_writers := ss_writers s;
     am_files := map (fun f => (cf_archive_name f, cf_size f)) (ss_files s); am_xml := xml |}.

Definition set_namespace (ns : option str) (p : SessionParams) : SessionParams :=
  {| sp_host := sp_host p; sp_port := sp_port p; sp_datastore := sp_datastore p;
     sp_auth_id := sp_auth_id p; sp_secret := sp_secret p; sp_fingerprint := sp_fingerprint p;
     sp_backup_type := sp_backup_type p; sp_backup_id := sp_backup_id p;
     sp_backup_time := sp_backup_time p; sp_namespace := ns |}.

(** Everything before the upload: each step may fail and end the run. *)
Definition prepare (o : BackupOptions) (repository : str) (s : SystemStateCapture) :
    vm (SessionParams * bytes) :=
  repo ← vm_lift (map_err show_error (from_str repository));
  secret ← vm_lift (ok_or (ce_secret e)
    (L "set PBSGUI_AD_PBS_SECRET (or PBS_PASSWORD) to the PBS API token secret"));
  let backup_id := default (ce_lower e hostname ++ L "-ad") (bo_backup_id o) in
  params ← vm_lift (map_err show_error
    (from_repository repo secret (bo_fingerprint o) (L "host") backup_id (ce_now e)));
  xml ← components_xml (ce_ask e) (ce_xml e);
  json ← vm_lift (ce_meta_json e (meta_of s xml));
  mret (set_namespace (bo_namespace o) params, json).

(** What the uploader reads: the chunks of the stream, and how it ends. *)
Definition delivered (sent : list bytes) (done : option bool) : list bytes * result PbsError unit :=
  match drain (S (length (concat sent))) (Nat.max 1 (ce_buffer e)) (ad_reader_new sent done) with
  | Some (Ok b) => (ce_chunks e b, Ok tt)
  | Some (Err err) => (ce_chunks e (concat sent), Err (Io err))
  | None => ([], Err (Protocol (L "the reader does not end")))
  end.

Definition config_of (o : BackupOptions) (params : SessionParams) (json : bytes) (s : SystemStateCapture)
    (sent : list bytes) (done : option bool) : config :=
  let '(stream, reader_end) := delivered sent done in
  {| cfg_params := params; cfg_archive := AD_ARCHIVE_NAME; cfg_dedup := true;
     cfg_compress := bo_compress o; cfg_total_bytes := state_size (ss_files s); cfg_crypt := None;
     cfg_catalog := Some (Some (AD_META_BLOB_NAME, json)); cfg_width := ce_width e; cfg_uuid := ce_uuid e;
     cfg_stream := stream; cfg_reader_end := reader_end |}.

Definition upload_result (u : up_state) : result str BackupStats :=
  match u_phase u with
  | Done stats => Ok stats
  | Failed err => Err (show_error err)
  | _ => Err (L "the upload has not ended")
  end.

Definition state_entries (s : SystemStateCapture) : list (str * str) :=
  map (fun f => (cf_shadow_path f, cf_archive_name f)) (ss_files s).

(** The upload, and what the writers are told of it. *)
Definition upload_state (o : BackupOptions) (repository : str) (s : SystemStateCapture)
    (log : list vss_call) : result str unit * list vss_call :=
  match prepare o repository s log with
  | (Err err, log) => (Err err, abort log)
  | (Ok (params, json), log) =>
      let '(tar, sent) := tar_thread (state_entries s) in
      let done := if ce_panics e then None else Some (is_ok tar) in
      let up := upload_result (ce_upload e (config_of o params json s sent done)) in
      if ce_panics e then (Err (L "the archive thread panicked"), abort log)
      else match tar, up with
           | Ok _, Ok _ =>
               let '(r, log) := capture_complete (ce_ask e) (ce_xml e) s true log in (_ ← r; Ok tt, log)
           | _, _ =>
               let '(_, log) := capture_complete (ce_ask e) (ce_xml e) s false log in
               (match tar with
                | Err err => Err (L "building the archive failed: " ++ err)
                | Ok _ => map_err (fun err => L "PBS upload failed: " ++ err) (_ ← up; Ok tt)
                end, log)
           end
  end.

(** [max_by_key]: the last of the biggest. *)
Definition biggest (files : list CapturedFile) : option CapturedFile :=
  fold_left (fun best f =>
    match best with
    | Some b => if cf_size f <? cf_size b then best else Some f
    | None => Some f
    end) files None.

Definition smoke_test (s : SystemStateCapture) (log : list vss_call) : result str unit * list vss_call :=
  match match biggest (ss_files s) with Some f => _ ← ce_head e (cf_shadow_path f); Ok tt | None => Ok tt end with
  | Err err => (Err err, abort log)
  | Ok _ => let '(r, log) := capture_complete (ce_ask e) (ce_xml e) s true log in (_ ← r; Ok tt, log)
  end.

Definition create_capture : result str SystemStateCapture * list vss_call :=
  capture_create (ce_ask e) (ce_statuses e) (ce_volume_of e) (ce_device_of e) (ce_expand e)
    (ce_join e) (ce_lower e) (ce_read_dir e) (ce_writers e) [].

Definition run (o : BackupOptions) : result str unit * list vss_call :=
  match ce_com e with
  | Err err => (Err (L "CoInitializeEx failed: " ++ err), [])
  | Ok _ =>
      match create_capture with
      | (Err err, log) => (Err err, log)
      | (Ok s, log) =>
          match bo_repository o with
          | None => smoke_test s log
          | Some repository => upload_state o repository s log
          end
      end
  end.

(** ** The order of the calls *)

Lemma moves_components_xml :
  moves (ce_ask e) Snapshotted (components_xml (ce_ask e) (ce_xml e)) (fun _ => Snapshotted).
Proof. unfold components_xml. vss_steps. Qed.

#[local] Hint Resolve moves_components_xml : vss.

Lemma moves_prepare o repository s :
  moves (ce_ask e) Snapshotted (prepare o repository s) (fun _ => Snapshotted).
Proof. unfold prepare. vss_steps. Qed.

(** The end of a run: its last calls are in order, and it succeeds only if they did. *)
Definition well_ended (x : result str unit * list vss_call) : Prop :=
  match x with
  | (Ok _, log) => stage_of (ce_ask e) log = Some Ended
  | (Err _, log) => is_Some (stage_of (ce_ask e) log)
  end.

Lemma complete_ended s b log : stage_of (ce_ask e) log = Some Snapshotted ->
  well_ended (let '(r, log) := capture_complete (ce_ask e) (ce_xml e) s b log in (_ ← r; Ok tt, log)) /\
  is_Some (stage_of (ce_ask e) (capture_complete (ce_ask e) (ce_xml e) s b log).2).
Proof.
  intros Hl. pose proof (moves_capture_complete (ce_ask e) (ce_xml e) s b log Hl) as Hm.
  destruct (capture_complete _ _ _ _ _) as [[x|err] log']; cbn in *; [rewrite Hm|]; eauto.
Qed.

Lemma abort_ended log err st : stage_of (ce_ask e) log = Some st -> well_ended (Err err, abort log).
Proof. intros Hl. cbn. rewrite (stage_abort _ _ _ Hl). eauto. Qed.

(** Every call a System State backup makes to VSS comes where VSS allows it, whatever
    the service, the files, the archive thread and the backup server do; the session of a
    run that reports success was ended, not left or aborted. *)
Theorem state_session_ordered o : well_ended (run o).
Proof.
  unfold run. destruct (ce_com e) as [|err]; [|cbn; eauto].
  pose proof (moves_capture_create (ce_ask e) (ce_statuses e) (ce_volume_of e) (ce_device_of e)
    (ce_expand e) (ce_join e) (ce_lower e) (ce_read_dir e) (ce_writers e) [] eq_refl) as Hc.
  fold create_capture in Hc. destruct create_capture as [[s|err] log]; [|exact Hc].
  destruct (bo_repository o) as [repository|].
  - unfold upload_state. pose proof (moves_prepare o repository s log Hc) as Hp.
    destruct (prepare _ _ _ _) as [[[params json]|err] log1]; [|destruct Hp as [st Hp]; eapply abort_ended, Hp].
    destruct (tar_thread _) as [tar sent]. destruct (ce_panics e); [eapply abort_ended, Hp|].
    destruct (upload_result (ce_upload e _)) as [stats|uerr], tar as [[]|terr]; [apply complete_ended, Hp|..];
      (destruct (complete_ended s false log1 Hp) as [_ Hd];
       destruct (capture_complete _ _ _ _ _) as [r log2]; exact Hd).
  - unfold smoke_test. destruct (match biggest _ with Some _ => _ | None => _ end);
      [apply complete_ended, Hc | eapply abort_ended, Hc].
Qed.

(** ** What the writers are told *)

(** [m] makes only calls of [P]. *)
Definition emits {A} (P : vss_call -> bool) (m : vm A) : Prop :=
  forall log, exists l, (m log).2 = log ++ l /\ forallb P l = true.

Section emits.
Variable P : vss_call -> bool.

Lemma emits_ret {A} (a : A) : emits P (mret a).
Proof. intros log. exists []. rewrite app_nil_r. auto. Qed.

Lemma emits_lift {A} (r : result str A) : emits P (vm_lift r).
Proof. intros log. exists []. rewrite app_nil_r. auto. Qed.

Lemma emits_fail {A} err : emits P (vm_fail (A := A) err).
Proof. intros log. exists []. rewrite app_nil_r. auto. Qed.

Lemma emits_bind {A B} (m : vm A) (f : A -> vm B) :
  emits P m -> (forall a, emits P (f a)) -> emits P (m ≫= f).
Proof.
  intros Hm Hf log. destruct (Hm log) as (l & El & Hl). unfold mbind, vm_bind.
  destruct (m log) as [[a|err] log']; cbn in El; subst log'; [|eauto].
  destruct (Hf a (log ++ l)) as (l' & El' & Hl'). exists (l ++ l').
  rewrite El', app_assoc, forallb_app, Hl, Hl'. auto.
Qed.

Lemma emits_one {A} c (g : list vss_call -> result str A) : P c = true ->
  emits P (fun log => (g log, log ++ [c])).
Proof. intros Hc log. exists [c]. cbn. rewrite Hc. auto. Qed.

End emits.

End run.

(** Whether a call tells a writer that the backup succeeded. *)
Definition not_told (c : vss_call) : bool :=
  match c with SetBackupSucceeded _ true => false | _ => true end.

#[export] Hint Resolve emits_ret emits_lift emits_fail : vss.
#[export] Hint Extern 1 (emits _ (call _ _ _)) => apply emits_one; reflexivity : vss.
#[export] Hint Extern 1 (emits _ (call_ignored _)) => apply emits_one; reflexivity : vss.
#[export] Hint Extern 1 (emits _ (wait_async _ _ _)) => apply emits_one; reflexivity : vss.

Ltac emit_steps :=
  repeat match goal with
  | |- emits _ (mbind _ _) => apply emits_bind; [solve [auto with vss] | intros ?; cbv beta]
  | |- emits _ (let '(_, _) := ?x in _) => destruct x
  | |- emits _ (if ?b then _ else _) => destruct b
  | |- emits _ (match ?x with [] => _ | _ => _ end) => destruct x
  end; try solve [auto with vss].

Section told.
Context `{ArchiveLib} `{DebugFmt}.
Variable e : capture_env.

Lemma create_not_told : forallb not_told (create_capture e).2 = true.
Proof.
  assert (emits not_told (capture_create (ce_ask e) (ce_statuses e) (ce_volume_of e) (ce_device_of e)
    (ce_expand e) (ce_join e) (ce_lower e) (ce_read_dir e) (ce_writers e))) as Hc.
  { assert (forall w l, emits not_told (add_components (ce_ask e) (ce_expand e) w l)) as Ha
      by (intros w l; induction l; cbn [add_components]; emit_steps).
    assert (forall l, emits not_told (select_writers (ce_ask e) (ce_expand e) l)) as Hs
      by (intros l; induction l; cbn [select_writers]; emit_steps).
    assert (forall l, emits not_told (add_all_volumes (ce_ask e) l)) as Hv
      by (intros l; induction l; cbn [add_all_volumes]; emit_steps).
    assert (forall b l, emits not_told (snapshot_roots (ce_ask e) (ce_device_of e) b l)) as Hr
      by (intros b l; induction l; cbn [snapshot_roots]; emit_steps).
    assert (emits not_told (failed_writers (ce_ask e) (ce_statuses e))) as Hf
      by (unfold failed_writers; emit_steps).
    assert (forall names, emits not_told (check_writers_ok (ce_ask e) (ce_statuses e) names)) as Hk
      by (intros names; unfold check_writers_ok; emit_steps).
    assert (emits not_told (select_system_state (ce_ask e) (ce_expand e) (ce_writers e))) as Ht
      by (unfold select_system_state; emit_steps).
    unfold capture_create. emit_steps. }
  unfold create_capture. destruct (Hc []) as (l & -> & Hl). exact Hl.
Qed.

Lemma emits_components_xml : emits not_told (components_xml (ce_ask e) (ce_xml e)).
Proof. unfold components_xml. emit_steps. Qed.

Lemma emits_tell_false l : emits not_told (tell_all (ce_ask e) false l).
Proof. induction l; cbn [tell_all]; emit_steps. Qed.

#[local] Hint Resolve emits_components_xml emits_tell_false : vss.

Lemma emits_prepare o repository s : emits not_told (prepare e o repository s).
Proof. unfold prepare. emit_steps. Qed.

Lemma emits_run {A} (m : vm A) log : emits not_told m -> forallb not_told log = true ->
  forallb not_told (m log).2 = true.
Proof. intros Hm Hl. destruct (Hm log) as (l & -> & H'). rewrite forallb_app, Hl, H'. reflexivity. Qed.

Lemma abort_not_told log : forallb not_told log = true -> forallb not_told (abort log) = true.
Proof. intros Hl. unfold abort. rewrite forallb_app, Hl. reflexivity. Qed.

Lemma complete_false_not_told s log : forallb not_told log = true ->
  forallb not_told (capture_complete (ce_ask e) (ce_xml e) s false log).2 = true.
Proof.
  intros Hl. unfold capture_complete.
  assert (emits not_told (_ ← tell_all (ce_ask e) false (ss_added s);
    wait_async (ce_ask e) (L "BackupComplete") BackupComplete)) as Hm by emit_steps.
  pose proof (emits_run _ log Hm Hl) as Hd.
  destruct ((_ ← tell_all _ _ _; _) log) as [[u|err] log']; cbn in Hd;
    [apply (emits_run (components_xml _ _)); auto with vss | apply abort_not_told, Hd].
Qed.

(** *** The archive *)

Definition file_bytes (path : str) : bytes :=
  match ce_open e path with Ok f => fd_data f | Err _ => [] end.

Definition readable (path : str) : Prop := exists f, ce_open e path = Ok f /\ fd_error f = None.

Lemma append_ok name f w w' : append_path_with_name name f w = (Ok tt, w') ->
  fd_error f = None /\ taken w' = taken w ++ concat (tar_pieces name (Z.of_nat (length (fd_data f))) (fd_data f)).
Proof.
  unfold append_path_with_name. destruct (negb _); [discriminate|].
  destruct (write_each ad_write _ w) as [w1|err] eqn:E; [|discriminate].
  destruct (fd_error f) as [[]|]; [discriminate|]. intros [= <-]. split; [reflexivity|].
  exact (write_each_taken _ _ _ _ write_taken_ad E).
Qed.

Lemma archive_entries_ok entries : forall w w', archive_entries e entries w = (Ok tt, w') ->
  Forall (fun en => readable en.1) entries /\
  taken w' = taken w ++ concat (map (fun en => concat (tar_pieces en.2 (Z.of_nat (length (file_bytes en.1))) (file_bytes en.1))) entries).
Proof.
  induction entries as [|[path name] entries IH]; cbn [archive_entries]; intros w w' Hr.
  { injection Hr as <-. cbn. rewrite app_nil_r. auto. }
  destruct (ce_open e path) as [f|err] eqn:Ef; [|discriminate].
  destruct (append_path_with_name name f w) as [[[]|err] w1] eqn:Ea; [|discriminate].
  destruct (append_ok _ _ _ _ Ea) as [Hn Ht], (IH _ _ Hr) as [HF Ht'].
  split; [constructor; [exists f; auto | exact HF]|].
  cbn [map concat]. unfold file_bytes at 1 2. cbn [fst snd]. rewrite Ef, Ht', Ht, <- app_assoc. reflexivity.
Qed.

Lemma tar_thread_ok entries sent : tar_thread e entries = (Ok tt, sent) ->
  Forall (fun en => readable en.1) entries /\
  concat sent = tar_of (map (fun en => (en.2, file_bytes en.1)) entries).
Proof.
  unfold tar_thread. destruct (archive_entries _ _ _) as [[[]|err] w] eqn:Ea; [|discriminate].
  destruct (archive_entries_ok _ _ _ Ea) as [HF Ht].
  destruct (write_each ad_write tar_end w) as [w1|] eqn:Ew; [|discriminate].
  cbn. destruct (ad_flush w1) as [w2|] eqn:Efl; [|discriminate]. cbn. intros [= <-].
  split; [exact HF|]. destruct (flush_taken _ _ Efl) as [Ht2 Hb].
  rewrite (write_each_taken _ _ _ _ write_taken_ad Ew), Ht in Ht2. unfold taken in Ht2. rewrite Hb in Ht2.
  cbn in Ht2. rewrite app_nil_r in Ht2. rewrite Ht2. unfold tar_of, tar_written. rewrite !map_map. reflexivity.
Qed.

Lemma delivered_done sent : delivered e sent (Some true) = (ce_chunks e (concat sent), Ok tt).
Proof.
  unfold delivered. rewrite drain_all; [|lia | cbn; lia]. reflexivity.
Qed.

Context `{PercentLib} `{HexLib} `{SessionLibs} `{Crc32Lib} `{HashLib} `{ZstdLib} `{AeadLib}
  `{ManifestJson}.

(** The server has finished a snapshot whose archive is [data], and has every chunk of it. *)
Definition stored_on_server (cfg : config) (data : bytes) : Prop :=
  let u := ce_upload e cfg in
  cfg_archive cfg = AD_ARCHIVE_NAME /\ concat (cfg_stream cfg) = data /\ EvFinish true ∈ u_log u /\
  Forall (fun c => stored (u_known u) (u_log u) (plain_digest (cfg_crypt cfg) c)) (cfg_stream cfg).

(** An upload that has ended well. *)
Lemma upload_stored cfg stats : reachable cfg (ce_upload e cfg) ->
  upload_result (ce_upload e cfg) = Ok stats -> cfg_archive cfg = AD_ARCHIVE_NAME ->
  stored_on_server cfg (concat (cfg_stream cfg)).
Proof.
  intros Hr Hu Ha. unfold upload_result in Hu. destruct (u_phase _) eqn:Hp; try discriminate.
  destruct (finished_stats _ _ _ Hr Hp) as (_ & _ & _ & _ & _ & Hf).
  split; [exact Ha|]. split; [reflexivity|]. split; [exact Hf|].
  apply list_elem_of_split in Hf as (l1 & l2 & El).
  destruct (inv_reachable _ _ Hr) as (Hl & _). destruct (Hl _ _ _ El) as (_ & (_ & Hs & _) & _).
  rewrite El. eapply Forall_impl; [exact Hs|]. intros x Hx. apply stored_app, Hx.
Qed.

(** C9: the writers are told that a backup succeeded, so that Active Directory records
    it, only when the server has finished a snapshot that has every captured file, each
    read without an error and with the bytes it has on the shadow copy, in one archive of
    which the server holds every chunk; or when the run was not given a repository, and
    nothing was uploaded. *)
Theorem recorded_only_when_stored o c :
  (forall cfg, reachable cfg (ce_upload e cfg)) -> (forall b, concat (ce_chunks e b) = b) ->
  In (SetBackupSucceeded c true) (run e o).2 ->
  bo_repository o = None \/
  exists s cfg, (create_capture e).1 = Ok s /\
    Forall (fun f => readable (cf_shadow_path f)) (ss_files s) /\
    stored_on_server cfg (tar_of (map (fun f => (cf_archive_name f, file_bytes (cf_shadow_path f))) (ss_files s))).
Proof.
  intros Hup Hch Hin.
  assert (forall log, forallb not_told log = true -> ~ In (SetBackupSucceeded c true) log) as Hno.
  { intros log Hl Hi. rewrite forallb_forall in Hl. discriminate (Hl _ Hi). }
  unfold run in Hin. destruct (ce_com e); [|destruct Hin].
  pose proof create_not_told as Hc. destruct (create_capture e) as [[s|err] log]; [|destruct (Hno _ Hc Hin)].
  destruct (bo_repository o) as [repository|]; [right|left; reflexivity].
  unfold upload_state in Hin. pose proof (emits_run _ log (emits_prepare o repository s) Hc) as Hp.
  destruct (prepare e o repository s log) as [[[params json]|err] log1];
    [|destruct (Hno _ (abort_not_told _ Hp) Hin)].
  destruct (tar_thread e (state_entries s)) as [tar sent] eqn:Et.
  destruct (ce_panics e); [destruct (Hno _ (abort_not_told _ Hp) Hin)|].
  set (cfg := config_of e o params json s sent (Some (is_ok tar))) in Hin.
  pose proof (complete_false_not_told s log1 Hp) as Hf.
  destruct (capture_complete (ce_ask e) (ce_xml e) s false log1) as [r log2].
  destruct tar as [[]|terr]; [|destruct (Hno _ Hf Hin)].
  destruct (upload_result (ce_upload e cfg)) as [stats|uerr] eqn:Eu; [|destruct (Hno _ Hf Hin)].
  destruct (tar_thread_ok _ _ Et) as [HF Ht].
  exists s, cfg. split; [reflexivity|]. split; [exact (proj1 (Forall_map _ _ _) HF)|].
  assert (cfg_archive cfg = AD_ARCHIVE_NAME /\ cfg_stream cfg = ce_chunks e (concat sent)) as [Ea Es]
    by (subst cfg; unfold config_of; cbn [is_ok]; rewrite delivered_done; split; reflexivity).
  pose proof (upload_stored cfg stats (Hup cfg) Eu Ea) as Hs.
  rewrite Es, Hch, Ht in Hs. unfold state_entries in Hs. rewrite map_map in Hs. exact Hs.
Qed.

End told.

(** ** A run that uploads *)

(** The uploader with a server that accepts everything, one step at a time: a chunk that
    is not on the server is encoded and uploaded when all have been read. *)
Section friendly.
Context `{PercentLib} `{HexLib} `{SessionLibs} `{Crc32Lib} `{HashLib} `{ZstdLib} `{AeadLib}
  `{ManifestJson}.
Variables (env : upgrade_env) (cfg : config).

Definition task_next (wid : Z) (t : task) : option (task * Z * list event) :=
  match t_state t with
  | Encoding =>
      match encode_chunk (cfg_crypt cfg) (cfg_compress cfg) (Ok []) (t_data t) with
      | Ok enc => Some ({| t_digest := t_digest t; t_data := t_data t; t_state := Uploading enc |},
                        Z.of_nat (length enc), [])
      | Err _ => None
      end
  | Uploading enc =>
      let r := call_result (upload_dynamic_chunk wid (t_digest t) (Z.of_nat (length (t_data t))) enc) accepted in
      Some ({| t_digest := t_digest t; t_data := t_data t; t_state := Finished r |}, 0,
            [EvChunk (t_digest t) enc (is_ok r)])
  | Finished _ => None
  end.

Definition up_next (s : up_state) : up_state :=
  match u_phase s with
  | Connect => set_phase (match (backup_connect env (cfg_params cfg)).1 with
                          | Ok _ => if cfg_dedup cfg then Previous else Create
                          | Err e => Failed e
                          end) s
  | Previous => match call_result (download_previous (cfg_archive cfg)) accepted with
                | Ok prev => set_phase Create (set_known (known_of prev) s)
                | Err e => set_phase (Failed e) s
                end
  | Create => match call_result (create_dynamic_index (cfg_archive cfg)) accepted with
              | Ok wid => set_phase Recv (set_wid wid s)
              | Err e => set_phase (Failed e) s
              end
  | Recv =>
      match u_stream s with
      | [] => set_phase Drain s
      | data :: rest =>
          let d := plain_digest (cfg_crypt cfg) data in
          if bool_decide (d ∈ u_known s)
          then indexed (cfg_total_bytes cfg) d (u_end s) (received data rest true s)
          else set_phase (Acquire d data (u_end s)) (received data rest false s)
      end
  | Acquire d data start =>
      if running s <? cfg_width cfg then set_phase (Reap d start) (spawned d data s) else s
  | Reap d start =>
      if forallb is_running (u_inflight s)
      then set_phase Recv (indexed (cfg_total_bytes cfg) d start s) else s
  | Drain =>
      match u_inflight s with
      | [] => set_phase (Append (batches s)) s
      | t :: rest =>
          match t_state t, task_next (u_wid s) t with
          | Finished r, _ =>
              set_phase (match r with Ok _ => Drain | Err e => Failed e end) (with_tasks rest 0 [] s)
          | _, Some (t', stored, evs) => with_tasks (t' :: rest) stored evs s
          | _, None => s
          end
      end
  | Append [] => set_phase AwaitChunker s
  | Append ((ds, offs) :: bs) =>
      answered (EvAppend ds offs) (call_result (append_dynamic_index (u_wid s) ds offs) accepted) (Append bs) s
  | AwaitChunker => set_phase (match cfg_reader_end cfg with Ok _ => Close | Err e => Failed e end) s
  | Close =>
      let count := Dynamic.entry_count (u_builder s) in
      let size := Dynamic.b_total_size (u_builder s) in
      let csum := Dynamic.dyn_index_csum (u_builder s) in
      answered (EvClose count size csum)
        (call_result (close_dynamic_index (u_wid s) count size csum) accepted) Catalog s
  | Catalog =>
      match cfg_catalog cfg with
      | Some (Some (name, content)) =>
          match encode_chunk (cfg_crypt cfg) (cfg_compress cfg) (Ok []) content with
          | Ok blob => answered (EvBlob name blob) (call_result (upload_blob name blob) accepted) Manifest s
          | Err e => set_phase (Failed e) s
          end
      | _ => set_phase Manifest s
      end
  | Manifest =>
      match to_json_bytes (manifest_of cfg s) with
      | Ok js =>
          let blob := encode_uncompressed js in
          answered (EvBlob MANIFEST_BLOB_NAME blob)
            (call_result (upload_blob MANIFEST_BLOB_NAME blob) accepted) Finish s
      | Err e => set_phase (Failed (Protocol (L "encoding manifest: " ++ e))) s
      end
  | Finish => answered EvFinish (call_result finish accepted) (Done (stats_of s)) s
  | Done _ | Failed _ => s
  end.

Lemma task_next_step wid t t' stored evs :
  task_next wid t = Some (t', stored, evs) -> task_step cfg wid t t' stored evs.
Proof.
  unfold task_next. destruct t as [d data []]; cbn [t_state t_digest t_data]; [|..|discriminate].
  - destruct (encode_chunk _ _ _ _) eqn:E; [|discriminate]. intros [= <- <- <-]. econstructor. exact E.
  - intros [= <- <- <-]. eapply task_uploaded. reflexivity.
Qed.

Lemma up_next_step s : up_next s = s \/ step cfg s (up_next s).
Proof.
  unfold up_next. destruct (u_phase s) as [| | | |d data start|d start| |[|[ds offs] bs]| | | | | | |] eqn:Hp;
    try (left; reflexivity); try (right; econstructor; eassumption); try (right; by econstructor).
  - destruct (u_stream s) as [|data rest] eqn:Es; [right; by constructor|].
    destruct (bool_decide_reflect (plain_digest (cfg_crypt cfg) data ∈ u_known s)); right; by constructor.
  - destruct (Z.ltb_spec (running s) (cfg_width cfg)); [right; by constructor | left; reflexivity].
  - destruct (forallb is_running (u_inflight s)) eqn:E; [right | left; reflexivity].
    constructor; [exact Hp|]. intros r rest (l1 & t & l2 & Hi & Hst & _).
    rewrite forallb_forall in E. assert (is_running t = true) as Ht
      by (apply E; rewrite Hi, in_app_iff; right; left; reflexivity).
    unfold is_running in Ht. rewrite Hst in Ht. discriminate.
  - destruct (u_inflight s) as [|t rest] eqn:Ei; [right; by constructor|].
    destruct (t_state t) as [|enc|r] eqn:Et; [..|right; apply step_drain; [exact Hp | exists [], t, rest; auto]];
      (destruct (task_next (u_wid s) t) as [[[t' stored] evs]|] eqn:En; [right | left; reflexivity];
       apply (step_task cfg s [] t rest); [exact Ei | apply task_next_step, En]).
  - destruct (cfg_catalog cfg) as [[[name content]|]|] eqn:Ec;
      [destruct (encode_chunk _ _ _ _) eqn:E|..]; right; [by econstructor..| |];
      (constructor; [exact Hp | congruence]).
  - destruct (to_json_bytes _) eqn:Ej; right; by econstructor.
Qed.

Fixpoint up_run (n : nat) (s : up_state) : up_state :=
  match n with O => s | S n => up_run n (up_next s) end.

Lemma up_run_reachable n : reachable cfg (up_run n (init cfg)).
Proof.
  unfold reachable. generalize (init cfg). induction n as [|n IH]; intros s; cbn [up_run]; [reflexivity|].
  destruct (up_next_step s) as [E|Hs]; [rewrite E; apply IH | eapply rtc_l; [exact Hs | apply IH]].
Qed.

End friendly.

Module SampleBackup.
Import Sample SampleTar SampleController.
#[local] Existing Instance sample_percent.
#[local] Existing Instance sample_libs.
#[local] Existing Instance sample_manifest_json.
#[local] Existing Instance SampleTar.lib.
#[local] Instance debug : DebugFmt := id.

(** The domain controller of [SampleController], whose files hold their own path. *)
Definition machine (panics : bool) (room : option nat) : capture_env :=
  {| ce_com := Ok tt; ce_ask := service; ce_statuses := healthy;
     ce_volume_of := SampleController.volume_of; ce_device_of := device_of; ce_expand := id;
     ce_join := path_join; ce_lower := lowercase; ce_read_dir := read_dir;
     ce_writers := Ok [Ok other; Ok ntds]; ce_xml := L "<BCD/>"; ce_secret := Some (L "secret");
     ce_hostname := Some (L "DC1"); ce_now := 1; ce_captured_now := 2;
     ce_meta_json := fun _ => Ok (bstr "{}");
     ce_open := fun p => Ok {| fd_len := None; fd_stat := Ok 4; fd_data := map Z_u8 (take 4 (rev p)); fd_error := None |};
     ce_head := fun _ => Ok 1; ce_room := room; ce_panics := panics; ce_chunks := fun b => [b];
     ce_buffer := 16; ce_width := 1; ce_uuid := replicate 16 x00;
     ce_upload := fun cfg => up_run sample_env cfg 40 (init cfg) |}.

Definition options (repository : option str) : BackupOptions :=
  {| bo_repository := repository; bo_fingerprint := sp_fingerprint sample_params; bo_namespace := None;
     bo_backup_id := None; bo_compress := true |}.

Definition to_pbs : BackupOptions := options (Some (L "a@pbs!t@pbs:store")).

Definition told (x : result str unit * list vss_call) : bool * nat :=
  (is_ok x.1, length (List.filter (fun c => negb (not_told c)) x.2)).

(** The component of the NTDS writer. *)
Definition ntds_component : AddedComponent :=
  {| ad_instance := 1; ad_writer := NTDS_WRITER; ad_kind := 1; ad_logical := None;
     ad_name := L "C:_Windows_NTDS_ntds" |}.

(** The one component is told of success when all went well, and not when the archive
    thread panics or the upload side closes. *)
Example told_truthfully :
  (told (run (machine false None) to_pbs), told (run (machine true None) to_pbs),
   told (run (machine false (Some 0%nat)) to_pbs)) = ((true, 1%nat), (false, 0%nat), (false, 0%nat)).
Proof. vm_compute. reflexivity. Qed.

(** A capture that uploads nothing is recorded by the writers as a backup. *)
Example recorded_without_upload :
  told (run (machine false None) (options None)) = (true, 1%nat).
Proof. vm_compute. reflexivity. Qed.

Lemma ntds_told : nth_error (run (machine false None) to_pbs).2 14 = Some (SetBackupSucceeded ntds_component true).
Proof. vm_compute. reflexivity. Qed.

Lemma three_files : forall s, (create_capture (machine false None)).1 = Ok s -> length (ss_files s) = 3%nat.
Proof.
  intros s Hs. apply (f_equal (fun r => match r with Ok s => length (ss_files s) | Err _ => 0%nat end)) in Hs.
  rewrite <- Hs. vm_compute. reflexivity.
Qed.

Lemma recorded_only_when_stored_witness :
  exists s cfg, (create_capture (machine false None)).1 = Ok s /\ length (ss_files s) = 3%nat /\
    stored_on_server (machine false None) cfg
      (tar_of (map (fun f => (cf_archive_name f, file_bytes (machine false None) (cf_shadow_path f))) (ss_files s))).
Proof.
  destruct (recorded_only_when_stored (machine false None) to_pbs ntds_component
    (fun cfg => up_run_reachable sample_env cfg 40) (fun b => app_nil_r b)
    (nth_error_In _ _ ntds_told)) as [E|(s & cfg & Hs & _ & Hst)]; [discriminate E|].
  exists s, cfg. split; [exact Hs|]. split; [exact (three_files s Hs) | exact Hst].
Defined.

End SampleBackup.
