(* ===== verification/Probe.v ===== *)
(** Asking a SQL Server instance what it is and what may be backed up there
    ([pbsgui-engine/src/sql/probe.rs]) and whether it is ready for it
    ([sql/check.rs]).

    The server is its catalog views, each query a function of them that follows the
    text of the query, of which it reads the name of the database, and any query may fail.  The theorems: whichever replicas of an
    availability group run a job, each database is backed up on exactly one of them, by
    what the queries report and the rules of [Plan] decide; and the readiness checks
    pass exactly when a backup can start. *)

From Stdlib Require Import ZArith Lia Strings.Byte Ascii String.
From stdpp Require Import base tactics option numbers list.
From S2P Require Import Prelude Text Base Jobs Sched Stores Plan Chain Tsql.
Open Scope Z_scope.

(** ** What the GUI is shown (protocol.rs) *)

Inductive SqlTopology :=
| StandaloneInstance
| FailoverClusterInstance (virtual_name current_node : str)
| AvailabilityGroup (group_name role : str) (is_preferred_backup_replica : bool).

Record SqlDatabase := {
  sd_name : str; sd_recovery_model : str; sd_state : str; sd_log_reuse_wait : option str;
  sd_in_availability_group : bool; sd_is_preferred_backup_replica : option bool; sd_system : bool }.

Record SqlProbe := {
  pr_product_version : str; pr_edition : str; pr_topology : SqlTopology; pr_databases : list SqlDatabase }.

Inductive CheckStatus := CheckOk | CheckWarn | CheckFail.

Record SqlCheck := { ck_name : str; ck_status : CheckStatus; ck_detail : str; ck_hint : option str }.

(** ** The server *)

(** [sys.databases]. *)
Record sys_database := {
  db_name : str; db_id : Z; db_replica : option Z; db_recovery : str; db_state_desc : str;
  db_reuse_wait : option str; db_read_only : bool }.

(** [sys.dm_hadr_availability_replica_states]. *)
Record replica_state := { rs_replica : Z; rs_local : bool; rs_role : option str }.

(** [sys.availability_replicas] joined with [sys.availability_groups]. *)
Record ag_replica := { ar_replica : Z; ar_group_name : str; ar_basic : bool }.

Inductive query := QIdentity | QDatabases | QAgDetails | QState | QBasic | QSize | QLogin | QSysadmin.

Record sql_server := {
  sv_databases : list sys_database;
  sv_same_name : str -> str -> bool;                (* [=] of the server's collation *)
  sv_by_name : list SqlDatabase -> list SqlDatabase; (* ORDER BY d.name *)
  sv_replica_states : list replica_state;
  sv_ag_replicas : list ag_replica;
  sv_local_databases : list Z;                      (* dm_hadr_database_replica_states, is_local = 1 *)
  sv_log_lsns : list (Z * option Z);                (* sys.database_recovery_status *)
  sv_preferred : str -> option Z;                   (* fn_hadr_backup_is_preferred_replica *)
  sv_files : list (Z * Z * Z);                      (* sys.master_files: database, type, pages *)
  sv_identity : option (option str * option str * option Z * option Z * option str * option str);
  sv_login : option str; sv_sysadmin : option Z;
  sv_fails : query -> option str }.

(** A query's rows, or its failure. *)
Definition ask_sql {A} (s : sql_server) (q : query) (a : A) : result str A :=
  match sv_fails s q with Some e => Err e | None => Ok a end.

(** A query about one database: the server takes its name from the text. *)
Definition ask_about {A} (s : sql_server) (q : query) (sql : str) (rows : str -> list A) : result str (list A) :=
  ask_sql s q (match named sql with Some database => rows database | None => [] end).

Lemma ask_about_named {A} s q sql database (rows : str -> list A) :
  asks_about sql -> ask_about s q (sql database) rows = ask_sql s q (rows database).
Proof. intros Ha. unfold ask_about. rewrite asks_named by exact Ha. reflexivity. Qed.

Lemma state_asks : asks_about db_state_sql.
Proof. apply (proj1 (List.Forall_forall _ _) queries_ask). cbn. auto. Qed.

(** LEFT JOIN: a row without a partner is kept once. *)
Definition left_join {A B} (on : A -> B -> bool) (l : list A) (r : list B) : list (A * option B) :=
  concat (map (fun a =>
    match List.filter (on a) r with
    | [] => [(a, None)]
    | bs => map (fun b => (a, Some b)) bs
    end) l).

(** ** The state of a database *)

Record state_row := {
  sr_in_ag : option Z; sr_preferred : option Z; sr_role : option str; sr_simple : option Z;
  sr_read_only : option Z; sr_log_chain : option Z }.

Definition flag (b : bool) : option Z := Some (if b then 1 else 0).

(** The SELECT list of the query. *)
Definition state_row_of (s : sql_server) (d : sys_database) (rs : option replica_state)
    (lsn : option (Z * option Z)) : state_row :=
  {| sr_in_ag := flag (match db_replica d with None => false | Some _ => true end);
     sr_preferred := flag (match db_replica d with
                           | None => true
                           | Some _ => bool_decide (sv_preferred s (db_name d) = Some 1)
                           end);
     sr_role := rs ≫= rs_role;
     sr_simple := flag (str_eqb (db_recovery d) (L "SIMPLE"));
     sr_read_only := flag (db_read_only d);
     sr_log_chain := flag (match lsn with Some (_, Some _) => true | _ => false end) |}.

Definition state_rows (s : sql_server) (database : str) : list state_row :=
  map (fun '((d, rs), lsn) => state_row_of s d rs lsn)
    (left_join (fun x lsn => lsn.1 =? db_id x.1)
       (left_join (fun d rs => bool_decide (db_replica d = Some (rs_replica rs)) && rs_local rs)
          (List.filter (fun d => sv_same_name s (db_name d) database) (sv_databases s))
          (sv_replica_states s))
       (sv_log_lsns s)).

Definition basic_rows (s : sql_server) (database : str) : list ag_replica :=
  concat (map (fun d => List.filter (fun ar => bool_decide (db_replica d = Some (ar_replica ar)))
                          (sv_ag_replicas s))
            (List.filter (fun d => sv_same_name s (db_name d) database) (sv_databases s))).

(** A failed query means no. *)
Definition is_basic_ag (s : sql_server) (database : str) : bool :=
  match ask_about s QBasic (basic_ag_sql database) (basic_rows s) with
  | Ok (ar :: _) => ar_basic ar
  | _ => false
  end.

Definition role_of (in_ag : bool) (role : option str) : Role :=
  match in_ag, role with
  | false, _ => Standalone
  | true, Some r => if eq_ignore_ascii_case r (L "PRIMARY") then Primary else Secondary
  | true, None => Secondary
  end.

Definition db_state (s : sql_server) (database : str) : result str DbState :=
  rows ← ask_about s QState (db_state_sql database) (state_rows s);
  row ← ok_or (head rows) (L "database [" ++ database ++ L "] not found on this instance");
  let in_ag := bool_decide (sr_in_ag row = Some 1) in
  let role := role_of in_ag (sr_role row) in
  let preferred :=
    if in_ag && is_basic_ag s database then bool_decide (role = Primary)
    else negb (bool_decide (sr_preferred row = Some 0)) in
  Ok {| ds_role := role; ds_preferred := preferred;
        ds_simple_recovery := bool_decide (sr_simple row = Some 1);
        ds_read_only := bool_decide (sr_read_only row = Some 1);
        ds_log_chain := bool_decide (sr_log_chain row = Some 1) |}.

(** The data files of the database [DB_ID] finds. *)
Definition size_rows (s : sql_server) (database : str) : list (Z * Z * Z) :=
  match find (fun d => sv_same_name s (db_name d) database) (sv_databases s) with
  | Some d => List.filter (fun f => (f.1.1 =? db_id d) && (f.1.2 =? 0)) (sv_files s)
  | None => []
  end.

(** An estimate for the progress bar; the sum is a [bigint] of SQL, whose overflow is an
    error. *)
Definition data_size_bytes (s : sql_server) (database : str) : option Z :=
  v ← match ask_about s QSize (data_size_sql database) (size_rows s) with
      | Ok [] | Err _ => None
      | Ok fs =>
          let v := fold_right (fun f t => f.2 + t) 0 fs * 8192 in
          if v <? 2 ^ 63 then Some v else None
      end;
  if 0 <? v then Some v else None.

(** ** The probe *)

Record Identity := {
  id_product_version : str; id_edition : str; id_is_clustered : bool; id_is_hadr : bool;
  id_machine_name : str; id_physical_node : str }.

Definition text_or_empty (o : option str) : str := default [] o.
Definition int_or_zero (o : option Z) : Z := default 0 o.

Definition identity (s : sql_server) : result str Identity :=
  row ← ask_sql s QIdentity (sv_identity s);
  row ← ok_or row (L "identity query returned no rows");
  let '(version, edition, clustered, hadr, machine, node) := row in
  Ok {| id_product_version := text_or_empty version; id_edition := text_or_empty edition;
        id_is_clustered := int_or_zero clustered =? 1; id_is_hadr := int_or_zero hadr =? 1;
        id_machine_name := text_or_empty machine; id_physical_node := text_or_empty node |}.

(** [tempdb] is left out; the first four databases are the system's. *)
Definition databases (s : sql_server) : result str (list SqlDatabase) :=
  ask_sql s QDatabases (sv_by_name s
    (map (fun '(d, local) =>
       let in_ag := match local : option Z with Some _ => true | None => false end in
       {| sd_name := db_name d; sd_recovery_model := db_recovery d; sd_state := db_state_desc d;
          sd_log_reuse_wait := db_reuse_wait d; sd_in_availability_group := in_ag;
          sd_is_preferred_backup_replica :=
            if in_ag then Some (bool_decide (sv_preferred s (db_name d) = Some 1)) else None;
          sd_system := db_id d <=? 4 |})
      (left_join (fun d id => id =? db_id d)
         (List.filter (fun d => negb (db_id d =? 2)) (sv_databases s)) (sv_local_databases s)))).

Section probe.
Variable to_lowercase : str -> str.

(** TOP 1 of the groups with a local replica. *)
Definition ag_details (s : sql_server) : result str (str * str) :=
  let rows := concat (map (fun ar =>
    map (fun rs => (ar_group_name ar, text_or_empty (rs_role rs)))
      (List.filter (fun rs => (rs_replica rs =? ar_replica ar) && rs_local rs) (sv_replica_states s)))
    (sv_ag_replicas s)) in
  rows ← ask_sql s QAgDetails rows;
  row ← ok_or (head rows) (L "no local availability replica");
  Ok (row.1, to_lowercase row.2).

Definition topology (s : sql_server) (id : Identity) (dbs : list SqlDatabase) : SqlTopology :=
  if id_is_hadr id then
    let '(group_name, role) :=
      match ag_details s with Ok x => x | Err _ => (L "unknown", L "unknown") end in
    AvailabilityGroup group_name role
      (existsb (fun d => bool_decide (sd_is_preferred_backup_replica d = Some true)) dbs)
  else if id_is_clustered id then FailoverClusterInstance (id_machine_name id) (id_physical_node id)
  else StandaloneInstance.

(** *** Connecting *)

Inductive auth_used := AuthSql (username password : str) | AuthIntegrated | AuthWindows (username password : str).

(** On Windows. *)
Definition auth_method (auth : SqlAuth) (password : option str) : result str auth_used :=
  match auth with
  | SqlLogin username =>
      p ← ok_or password (L "SQL login requires a password"); Ok (AuthSql username p)
  | Integrated => Ok AuthIntegrated
  | WindowsAccount username =>
      p ← ok_or password (L "Windows account requires a password"); Ok (AuthWindows username p)
  | AzureAd _ => Err (L "Azure AD authentication is not yet supported")
  end.

(** The network and the login of the instance that listens at a host and a port. *)
Record sql_net := {
  sn_tcp : str -> Z -> result str unit; sn_nodelay : result str unit;
  sn_login : str -> Z -> auth_used -> result str sql_server }.

Definition connect (net : sql_net) (server : str) (port : option Z) (auth : SqlAuth)
    (password : option str) : result str sql_server :=
  let host := match split_char 92 server with h :: _ => h | [] => server end in
  let port := default 1433 port in
  method ← auth_method auth password;
  _ ← map_err (fun e => L "connecting to " ++ host ++ L ":" ++ dec port ++ L ": " ++ e) (sn_tcp net host port);
  _ ← sn_nodelay net;
  map_err (fun e => L "SQL Server login failed: " ++ e) (sn_login net host port method).

Definition probe (net : sql_net) (server : str) (port : option Z) (auth : SqlAuth)
    (password : option str) : result str SqlProbe :=
  client ← connect net server port auth password;
  id ← identity client;
  dbs ← databases client;
  Ok {| pr_product_version := id_product_version id; pr_edition := id_edition id;
        pr_topology := topology client id dbs; pr_databases := dbs |}.

End probe.

(** ** Readiness checks *)

Definition check_ok (name detail : str) : SqlCheck :=
  {| ck_name := name; ck_status := CheckOk; ck_detail := detail; ck_hint := None |}.
Definition check_fail (name detail hint : str) : SqlCheck :=
  {| ck_name := name; ck_status := CheckFail; ck_detail := detail; ck_hint := Some hint |}.

(** A failed query is no answer. *)
Definition scalar {A} (s : sql_server) (q : query) (v : option A) : option A :=
  match ask_sql s q v with Ok v => v | Err _ => None end.

Definition check (net : sql_net) (server : str) (port : option Z) (auth : SqlAuth)
    (password : option str) : list SqlCheck :=
  match connect net server port auth password with
  | Err e =>
      [check_fail (L "Connectivity") e
         (L "Make sure the SQL Server service is running and TCP/IP is enabled in SQL Server Configuration Manager (Protocols > TCP/IP), then restart the service. If the error mentions 'login failed', the account this connection uses needs a SQL Server login on this instance. For a remote instance with the service account, that is the computer account (DOMAIN\HOSTNAME$); otherwise edit the connection to use a Windows account or a SQL login.")]
  | Ok client =>
      let principal := scalar client QLogin (sv_login client) in
      let is_sysadmin := bool_decide (scalar client QSysadmin (sv_sysadmin client) = Some 1) in
      [check_ok (L "Connectivity") (L "Connected to the instance.")]
      ++ match principal with Some name => [check_ok (L "Login") (L "Connected as " ++ name ++ L ".")] | None => [] end
      ++ [if is_sysadmin
          then check_ok (L "sysadmin role") (L "The connection is a sysadmin, which VDI backup requires.")
          else check_fail (L "sysadmin role")
                 (L "VDI backup requires the connecting login to be in the sysadmin server role.")
                 (L "In SSMS, connected as an administrator, run: ALTER SERVER ROLE sysadmin ADD MEMBER ["
                  ++ default (L "your login") principal ++ L "];")]
  end.

(** The checks pass exactly when the connection can be made and its login is in the
    sysadmin role; a failed check always has a hint, and a query that fails never makes
    the checks pass. *)
Theorem checks_ready net server port auth password :
  forallb (fun c => match ck_status c with CheckOk => true | _ => false end)
    (check net server port auth password) = true <->
  exists client, connect net server port auth password = Ok client /\
    sv_fails client QSysadmin = None /\ sv_sysadmin client = Some 1.
Proof.
  unfold check. destruct (connect _ _ _ _ _) as [client|e]; cbn;
    [|split; [discriminate | intros (c & [=] & _)]].
  rewrite forallb_app. unfold scalar, ask_sql.
  assert (forall p : option str, forallb (fun c => match ck_status c with CheckOk => true | _ => false end)
    match p with Some name => [check_ok (L "Login") (L "Connected as " ++ name ++ L ".")] | None => [] end = true)
    as -> by (intros []; reflexivity).
  destruct (sv_fails client QSysadmin) eqn:E; cbn.
  - split; [discriminate | intros (c & [= <-] & H & _); congruence].
  - case_bool_decide as H; cbn; (split; [intros Hc; try discriminate; exists client; auto |
      intros (c & [= <-] & _ & Hs); congruence]).
Qed.

(** ** One replica of a group *)

(** What the catalog says of a database: its local role, and whether this is the
    preferred replica. *)
Definition local_role (s : sql_server) (database : str) : option str :=
  d ← find (fun d => sv_same_name s (db_name d) database) (sv_databases s);
  rs ← find (fun rs => bool_decide (db_replica d = Some (rs_replica rs)) && rs_local rs) (sv_replica_states s);
  rs_role rs.

Definition primary (s : sql_server) (database : str) : bool :=
  match local_role s database with Some r => eq_ignore_ascii_case r (L "PRIMARY") | None => false end.

Definition prefers (s : sql_server) (database : str) : bool :=
  match find (fun d => sv_same_name s (db_name d) database) (sv_databases s) with
  | Some d => bool_decide (sv_preferred s (db_name d) = Some 1)
  | None => false
  end.

(** A replica of the group: it has the database, in a group that is Basic or not. *)
Definition in_group (database : str) (basic : bool) (s : sql_server) : Prop :=
  (exists d, find (fun d => sv_same_name s (db_name d) database) (sv_databases s) = Some d /\
     db_replica d <> None) /\
  sv_fails s QState = None /\ is_basic_ag s database = basic.

(** The replica backs the database up in a run of a job with this plan. *)
Definition backs_up (plan : PlanKind) (run : SqlRun) (local_full : sql_server -> bool) (database : str)
    (s : sql_server) : bool :=
  match db_state s database with
  | Ok st => match decide plan run st (local_full s) with Backup _ _ _ => true | Skip _ => false end
  | Err _ => false
  end.

(** Log backups are possible: the database has them, and the primary has started the chain. *)
Definition chain_started (local_full : sql_server -> bool) (database : str) (s : sql_server) : Prop :=
  match db_state s database with
  | Ok st => ds_simple_recovery st = false /\ ds_read_only st = false /\
             (ds_role st = Primary -> ds_log_chain st = true /\ local_full s = true)
  | Err _ => False
  end.

(** The replica that is to take the backup. *)
Definition chosen_replica (plan : PlanKind) (run : SqlRun) (basic : bool) (database : str) (s : sql_server) : bool :=
  match plan, run with
  | PkPointInTime, RunFull => primary s database
  | _, _ => if basic then primary s database else prefers s database
  end.

Lemma filter_find {A} (p : A -> bool) l : head (List.filter p l) = find p l.
Proof. induction l as [|a l IH]; cbn; [reflexivity|]. destruct (p a); [reflexivity | exact IH]. Qed.

Lemma left_join_head {A B} (on : A -> B -> bool) a l r :
  head (left_join on (a :: l) r) = Some (a, find (on a) r).
Proof.
  unfold left_join. cbn [map concat]. rewrite <- filter_find.
  destruct (List.filter (on a) r); reflexivity.
Qed.

Lemma db_state_in_group database basic s : in_group database basic s ->
  exists st, db_state s database = Ok st /\
    ds_role st = (if primary s database then Primary else Secondary) /\
    ds_preferred st = (if basic then primary s database else prefers s database).
Proof.
  intros ((d & Hd & Hr) & Hf & Hb). unfold db_state. rewrite ask_about_named by apply state_asks.
  unfold ask_sql. rewrite Hf. cbn [mbind].
  assert (exists lsn, head (state_rows s database) = Some (state_row_of s d
    (find (fun rs => bool_decide (db_replica d = Some (rs_replica rs)) && rs_local rs) (sv_replica_states s)) lsn))
    as [lsn Hrow].
  { unfold state_rows. rewrite <- filter_find in Hd.
    destruct (List.filter _ (sv_databases s)) as [|d' l]; [discriminate|]. injection Hd as ->.
    set (lj := left_join _ (d :: l) (sv_replica_states s)).
    assert (head lj = Some (d, find (fun rs => bool_decide (db_replica d = Some (rs_replica rs)) && rs_local rs)
      (sv_replica_states s))) as Hlj by apply left_join_head.
    destruct lj as [|x lj]; [discriminate|]. injection Hlj as ->.
    match goal with |- context [left_join ?on ((d, ?f) :: lj) ?r] =>
      pose proof (left_join_head on (d, f) lj r) as Hh; destruct (left_join on ((d, f) :: lj) r) as [|y ys] end;
      [discriminate|]. injection Hh as ->. eexists. reflexivity. }
  unfold result_bind. cbn. rewrite Hrow. cbn. eexists. split; [reflexivity|]. cbn.
  assert (bool_decide (flag match db_replica d with Some _ => true | None => false end = Some 1) = true) as ->
    by (destruct (db_replica d); [reflexivity | congruence]).
  rewrite Hb. cbn [role_of].
  unfold primary, local_role, prefers. rewrite Hd. cbn [mbind option_bind].
  change (fun rs : replica_state => rs_role rs) with rs_role.
  destruct (find _ (sv_replica_states s) ≫= rs_role) as [r|]; destruct basic; cbn [andb];
    try destruct (eq_ignore_ascii_case r (L "PRIMARY")); (split; [reflexivity|]); try reflexivity;
    (destruct (db_replica d); [|congruence]); destruct (bool_decide (sv_preferred s (db_name d) = Some 1)); reflexivity.
Qed.

Lemma backs_up_chosen plan run lf database basic s : in_group database basic s ->
  (plan = PkPointInTime -> run = RunLog -> chain_started lf database s) ->
  backs_up plan run lf database s = chosen_replica plan run basic database s.
Proof.
  intros Hg Hc. destruct (db_state_in_group _ _ _ Hg) as (st & Hst & Hrole & Hpref).
  unfold chain_started in Hc. unfold backs_up, chosen_replica. rewrite Hst in *.
  destruct st as [role pref simple ro chain]; cbn in *. subst role pref. unfold decide. cbn.
  destruct plan, run; [destruct (primary s database); reflexivity| |..].
  - destruct (Hc eq_refl eq_refl) as (-> & -> & Hp).
    destruct (primary s database) eqn:Ep, basic; cbn in *;
      try (destruct (Hp eq_refl) as [-> ->]; cbn); try reflexivity; destruct (prefers s database); reflexivity.
  - destruct basic; [destruct (primary s database) | destruct (prefers s database)]; reflexivity.
  - destruct basic; [destruct (primary s database) | destruct (prefers s database)]; reflexivity.
  - destruct basic; [destruct (primary s database) | destruct (prefers s database)]; reflexivity.
  - destruct basic; [destruct (primary s database) | destruct (prefers s database)]; reflexivity.
Qed.

(** When the same job runs on every replica of an availability group, which SQL Server
    gives one primary and one preferred backup replica, what each replica reads from its
    own catalog makes exactly one of them back the database up: the primary for the full
    backups of a point-in-time job and in a Basic group, whose secondaries allow no
    backups whatever the preference says, and else the preferred replica. *)
Theorem group_backs_up_once cluster database basic plan run lf :
  Forall (in_group database basic) cluster ->
  (plan = PkPointInTime -> run = RunLog -> Forall (chain_started lf database) cluster) ->
  length (List.filter (fun s => primary s database) cluster) = 1%nat ->
  length (List.filter (fun s => prefers s database) cluster) = 1%nat ->
  length (List.filter (backs_up plan run lf database) cluster) = 1%nat /\
  List.filter (backs_up plan run lf database) cluster =
  List.filter (chosen_replica plan run basic database) cluster.
Proof.
  intros Hg Hc Hp Hq.
  assert (List.filter (backs_up plan run lf database) cluster =
          List.filter (chosen_replica plan run basic database) cluster) as E.
  { apply filter_one. intros s Hs. rewrite List.Forall_forall in Hg. apply backs_up_chosen; [apply Hg, Hs|].
    intros E1 E2. specialize (Hc E1 E2). rewrite List.Forall_forall in Hc. apply Hc, Hs. }
  split; [|exact E]. rewrite E. unfold chosen_replica. destruct plan, run, basic; assumption.
Qed.

(** Two replicas: the first is the primary and the second the preferred one. *)
Definition sample_replica (role : string) (preferred : Z) (basic : bool) : sql_server :=
  {| sv_databases := [{| db_name := L "db"; db_id := 5; db_replica := Some 7; db_recovery := L "FULL";
                         db_state_desc := L "ONLINE"; db_reuse_wait := None; db_read_only := false |}];
     sv_same_name := str_eqb; sv_by_name := id;
     sv_replica_states := [{| rs_replica := 7; rs_local := true; rs_role := Some (L role) |}];
     sv_ag_replicas := [{| ar_replica := 7; ar_group_name := L "ag"; ar_basic := basic |}];
     sv_local_databases := [5]; sv_log_lsns := [(5, Some 3)]; sv_preferred := fun _ => Some preferred;
     sv_files := [(5, 0, 10); (5, 1, 4)];
     sv_identity := Some (Some (L "16.0"), Some (L "Standard"), Some 0, Some 1, Some (L "SQL1"), Some (L "SQL1"));
     sv_login := Some (L "sa"); sv_sysadmin := Some 1; sv_fails := fun _ => None |}.

Definition sample_cluster (basic : bool) : list sql_server :=
  [sample_replica "PRIMARY" 0 basic; sample_replica "SECONDARY" 1 basic].

Lemma group_backs_up_once_witness :
  map (backs_up PkPointInTime RunLog (fun _ => true) (L "db")) (sample_cluster false) = [false; true] /\
  length (List.filter (backs_up PkPointInTime RunLog (fun _ => true) (L "db")) (sample_cluster false)) = 1%nat /\
  length (List.filter (backs_up PkSecondaryCopy RunFull (fun _ => true) (L "db")) (sample_cluster true)) = 1%nat.
Proof.
  split; [vm_compute; reflexivity|]. split.
  - apply (group_backs_up_once (sample_cluster false) (L "db") false PkPointInTime RunLog (fun _ => true)).
    + repeat constructor; (eexists; split; [reflexivity | discriminate]).
    + intros _ _. repeat constructor.
    + vm_compute. reflexivity.
    + vm_compute. reflexivity.
  - apply (group_backs_up_once (sample_cluster true) (L "db") true PkSecondaryCopy RunFull (fun _ => true)).
    + repeat constructor; (eexists; split; [reflexivity | discriminate]).
    + discriminate.
    + vm_compute. reflexivity.
    + vm_compute. reflexivity.
Defined.

(** In a Basic group the secondary never runs, although it is the preferred replica. *)
Example basic_group_primary :
  map (backs_up PkRestorePoints RunFull (fun _ => true) (L "db")) (sample_cluster true) = [true; false] /\
  data_size_bytes (sample_replica "PRIMARY" 0 true) (L "db") = Some 81920.
Proof. split; vm_compute; reflexivity. Qed.
