(* ===== verification/Gui.v ===== *)
(** The desktop application ([src-tauri/src/lib.rs]) and the messages between it and
    the engine ([pbsgui-ipc/src/protocol.rs]).

    A command of the GUI asks whether the engine is there, sends one request and turns
    the replies into a value or an error for the window.  The theorem: on the requests
    that change the configuration, the window shows what the engine answered ([Stores]),
    and when the connection ends before the answer it shows an error, except for the
    commands that delete something, which then report success. *)

From Stdlib Require Import ZArith Lia Strings.Byte Ascii String.
From stdpp Require Import base tactics option numbers list gmap.
From S2P Require Import Prelude Text Base Jobs Stores Requests Files Browse Discover Notify Probe.
Open Scope Z_scope.

(** ** Messages *)

(** The fraction in percent. *)
Record RunningJob := { rj_job_id : str; rj_started : Z; rj_percent : Z; rj_message : str }.

Record RelayAgentInfo := {
  ra_name : str; ra_connected : bool; ra_host : option str; ra_version : option str }.

Inductive ipc_request :=
| ReqPing
| ReqConfig (r : Request)
| ReqRunJob (id : str)
| ReqCancelJob (id : str)
| ReqListRunning
| ReqListSnapshots (job_id : str)
| ReqListFiles (job_id : str) (backup_time : Z)
| ReqRestore (job_id : str) (backup_time : Z) (files : option (list str)) (destination : str)
    (dest_credentials : option DestCredentials)
| ReqDiscoverSql (include_network : bool) (targets : list str)
| ReqProbeSql (server : str) (port : option Z) (auth : SqlAuth) (password connection_id : option str)
| ReqCheckSql (server : str) (port : option Z) (auth : SqlAuth) (password connection_id : option str)
| ReqListSqlSnapshots (job_id database : str)
| ReqGetSqlRestoreWindow (job_id database : str)
| ReqRestoreSql (job_id database target_database : str) (point : SqlRestorePoint)
    (target_connection_id : option str)
| ReqRestoreSqlToFile (job_id database : str) (point : SqlRestorePoint) (destination : str)
    (dest_credentials : option DestCredentials)
| ReqTestPbsServer (server : PbsServer) (secret : option str)
| ReqGetNotifications
| ReqSaveNotifications (settings : NotificationSettings) (smtp_password webhook_url : option str)
| ReqTestNotification (channel : NotifyChannel)
| ReqGetMetrics
| ReqSaveMetrics (settings : MetricsSettings)
| ReqListRelayAgents.

Inductive ipc_reply :=
| RepPong
| RepConfig (r : Reply)
| RepSnapshots (snapshots : list SnapshotInfo)
| RepFiles (files : list FileInfo)
| RepSqlInstances (instances : list SqlInstance)
| RepSqlProbe (probe : SqlProbe)
| RepSqlChecks (checks : list SqlCheck)
| RepSqlRestoreWindow (window : SqlRestoreWindow)
| RepNotifications (settings : NotificationSettings) (has_smtp_password has_webhook_url : bool)
| RepMetrics (settings : MetricsSettings)
| RepRelayAgents (agents : list RelayAgentInfo)
| RepRunning (jobs : list RunningJob)
| RepStream (r : stream_reply).

(** [Reply::is_terminal]. *)
Definition reply_is_terminal (r : ipc_reply) : bool :=
  match r with RepStream s => Browse.is_terminal s | _ => true end.

(** The message of [Reply::Error]. *)
Definition error_message (r : ipc_reply) : option str :=
  match r with
  | RepConfig (RError m) => Some m
  | RepStream (Failed_with m) => Some m
  | _ => None
  end.

(** ** The connection *)

(** The socket's name, and what [send_request] returns and passes to its callback, for
    the ping and for the request behind it. *)
Record gui_env := {
  ge_socket : result str unit;
  ge_ping : result str unit * list ipc_reply;
  ge_answer : ipc_request -> result str unit * list ipc_reply }.

Section commands.
Variable env : gui_env.

Definition ping_once : result str bool :=
  _ ← ge_socket env;
  let '(r, replies) := ge_ping env in
  _ ← r;
  Ok (existsb (fun r => match r with RepPong => true | _ => false end) replies).

Definition ensure_engine : result str unit :=
  if match ping_once with Ok b => b | Err _ => false end then Ok tt
  else Err (L "backup service is not reachable (is the pbsgui-engine service running?)").

Definition request_all (request : ipc_request) : result str (list ipc_reply) :=
  _ ← ensure_engine;
  _ ← ge_socket env;
  let '(r, replies) := ge_answer env request in
  _ ← r;
  Ok replies.

Fixpoint find_map {A B} (f : A -> option B) (l : list A) : option B :=
  match l with [] => None | x :: l => match f x with Some y => Some y | None => find_map f l end end.

Definition first_error (replies : list ipc_reply) : option str := find_map error_message replies.

(** The replies of a request, unless one of them is an error. *)
Definition answer_of (request : ipc_request) : result str (list ipc_reply) :=
  replies ← request_all request;
  match first_error replies with Some err => Err err | None => Ok replies end.

Definition saved_id (replies : list ipc_reply) : result str str :=
  match first_error replies with
  | Some err => Err err
  | None => ok_or (find_map (fun r => match r with RepConfig (RSaved id) => Some id | _ => None end) replies)
              (L "engine did not confirm the save")
  end.

Definition enc_key_info (replies : list ipc_reply) : result str (option EncryptionKeyInfo) :=
  match first_error replies with
  | Some err => Err err
  | None => ok_or (find_map (fun r => match r with RepConfig (REncryptionKey info) => Some info | _ => None end) replies)
              (L "engine did not return a key result")
  end.

(** ** The commands *)

Definition engine_ping : result str str := _ ← ensure_engine; Ok (L "connected").
Definition engine_status : bool := match ping_once with Ok b => b | Err _ => false end.

Definition gui_list_jobs : result str (list Job) :=
  replies ← answer_of (ReqConfig ListJobs);
  ok_or (find_map (fun r => match r with RepConfig (RJobs jobs) => Some jobs | _ => None end) replies)
    (L "engine did not return a job list").

Definition gui_save_job (job : Job) : result str str :=
  replies ← request_all (ReqConfig (SaveJob job)); saved_id replies.

Definition gui_delete_job (id : str) : result str unit :=
  _ ← answer_of (ReqConfig (DeleteJob id)); Ok tt.

(** A command that streams: every reply is passed on to the window, in order. *)
Definition gui_stream (request : ipc_request) : result str unit * list ipc_reply :=
  match (_ ← ensure_engine; ge_socket env) with
  | Err e => (Err e, [])
  | Ok _ => ge_answer env request
  end.

Definition gui_run_job (id : str) := gui_stream (ReqRunJob id).

Definition gui_cancel_job (id : str) : result str unit := _ ← answer_of (ReqCancelJob id); Ok tt.

Definition gui_list_running : result str (list RunningJob) :=
  replies ← answer_of ReqListRunning;
  ok_or (find_map (fun r => match r with RepRunning jobs => Some jobs | _ => None end) replies)
    (L "engine did not return the running list").

Definition gui_list_snapshots (job_id : str) : result str (list SnapshotInfo) :=
  replies ← answer_of (ReqListSnapshots job_id);
  ok_or (find_map (fun r => match r with RepSnapshots l => Some l | _ => None end) replies)
    (L "engine did not return snapshots").

Definition gui_list_files (job_id : str) (backup_time : Z) : result str (list FileInfo) :=
  replies ← answer_of (ReqListFiles job_id backup_time);
  ok_or (find_map (fun r => match r with RepFiles l => Some l | _ => None end) replies)
    (L "engine did not return a file list").

Definition gui_restore (job_id : str) (backup_time : Z) (files : option (list str)) (destination : str)
    (creds : option DestCredentials) := gui_stream (ReqRestore job_id backup_time files destination creds).

Definition gui_discover_sql (include_network : bool) (targets : list str) : result str (list SqlInstance) :=
  replies ← answer_of (ReqDiscoverSql include_network targets);
  ok_or (find_map (fun r => match r with RepSqlInstances l => Some l | _ => None end) replies)
    (L "engine did not return SQL instances").

Definition gui_list_sql_connections : result str (list SqlConnection) :=
  replies ← answer_of (ReqConfig ListSqlConnections);
  ok_or (find_map (fun r => match r with RepConfig (RSqlConnections l) => Some l | _ => None end) replies)
    (L "engine did not return SQL connections").

Definition gui_list_relay_agents : result str (list RelayAgentInfo) :=
  replies ← answer_of ReqListRelayAgents;
  ok_or (find_map (fun r => match r with RepRelayAgents l => Some l | _ => None end) replies)
    (L "engine did not return relay agents").

Definition gui_save_sql_connection (connection : SqlConnection) (secret : option str) : result str str :=
  replies ← request_all (ReqConfig (SaveSqlConnection connection secret)); saved_id replies.

Definition gui_delete_sql_connection (id : str) : result str unit :=
  _ ← answer_of (ReqConfig (DeleteSqlConnection id)); Ok tt.

Definition gui_list_pbs_servers : result str (list PbsServer) :=
  replies ← answer_of (ReqConfig ListPbsServers);
  ok_or (find_map (fun r => match r with RepConfig (RPbsServers l) => Some l | _ => None end) replies)
    (L "engine did not return PBS servers").

Definition gui_save_pbs_server (server : PbsServer) (secret : option str) : result str str :=
  replies ← request_all (ReqConfig (SavePbsServer server secret)); saved_id replies.

Definition gui_delete_pbs_server (id : str) : result str unit :=
  _ ← answer_of (ReqConfig (DeletePbsServer id)); Ok tt.

(** The outcome of a test. *)
Definition test_result (replies : list ipc_reply) : result str str :=
  default (Err (L "engine did not return a test result"))
    (find_map (fun r => match r with
       | RepStream (Finished success message) => Some (if success then Ok message else Err message)
       | _ => None
       end) replies).

Definition gui_test_pbs_server (server : PbsServer) (secret : option str) : result str str :=
  replies ← answer_of (ReqTestPbsServer server secret); test_result replies.

Definition NO_KEY : str := L "engine did not return a key".

Definition gui_generate_encryption_key (job_id : str) : result str EncryptionKeyInfo :=
  replies ← request_all (ReqConfig (GenerateEncryptionKey job_id));
  info ← enc_key_info replies;
  ok_or info NO_KEY.

Definition gui_import_encryption_key (job_id key : str) : result str EncryptionKeyInfo :=
  replies ← request_all (ReqConfig (ImportEncryptionKey job_id key));
  info ← enc_key_info replies;
  ok_or info NO_KEY.

Definition gui_get_encryption_key (job_id : str) : result str (option EncryptionKeyInfo) :=
  replies ← request_all (ReqConfig (GetEncryptionKey job_id)); enc_key_info replies.

Definition gui_clear_encryption_key (job_id : str) : result str unit :=
  _ ← answer_of (ReqConfig (ClearEncryptionKey job_id)); Ok tt.

Definition NotificationsView := (NotificationSettings * bool * bool)%type.

Definition gui_get_notifications : result str NotificationsView :=
  replies ← answer_of ReqGetNotifications;
  ok_or (find_map (fun r => match r with RepNotifications s a b => Some (s, a, b) | _ => None end) replies)
    (L "engine did not return notification settings").

Definition gui_save_notifications (settings : NotificationSettings) (smtp_password webhook_url : option str) :
    result str str :=
  replies ← request_all (ReqSaveNotifications settings smtp_password webhook_url); saved_id replies.

Definition gui_test_notification (channel : NotifyChannel) : result str str :=
  replies ← answer_of (ReqTestNotification channel); test_result replies.

Definition metrics_of (replies : list ipc_reply) : result str MetricsSettings :=
  ok_or (find_map (fun r => match r with RepMetrics s => Some s | _ => None end) replies)
    (L "engine did not return metrics settings").

Definition gui_get_metrics : result str MetricsSettings := replies ← answer_of ReqGetMetrics; metrics_of replies.

Definition gui_save_metrics (settings : MetricsSettings) : result str MetricsSettings :=
  replies ← answer_of (ReqSaveMetrics settings); metrics_of replies.

Definition gui_probe_sql (server : str) (port : option Z) (auth : SqlAuth) (password connection_id : option str) :
    result str SqlProbe :=
  replies ← answer_of (ReqProbeSql server port auth password connection_id);
  ok_or (find_map (fun r => match r with RepSqlProbe p => Some p | _ => None end) replies)
    (L "engine did not return a probe result").

Definition gui_list_sql_snapshots (job_id database : str) : result str (list SnapshotInfo) :=
  replies ← answer_of (ReqListSqlSnapshots job_id database);
  ok_or (find_map (fun r => match r with RepSnapshots l => Some l | _ => None end) replies)
    (L "engine did not return snapshots").

Definition gui_get_sql_restore_window (job_id database : str) : result str SqlRestoreWindow :=
  replies ← answer_of (ReqGetSqlRestoreWindow job_id database);
  ok_or (find_map (fun r => match r with RepSqlRestoreWindow w => Some w | _ => None end) replies)
    (L "engine did not return a restore window").

Definition gui_restore_sql (job_id database target_database : str) (point : SqlRestorePoint)
    (target_connection_id : option str) :=
  gui_stream (ReqRestoreSql job_id database target_database point target_connection_id).

Definition gui_restore_sql_to_file (job_id database : str) (point : SqlRestorePoint) (destination : str)
    (creds : option DestCredentials) := gui_stream (ReqRestoreSqlToFile job_id database point destination creds).

Definition gui_check_sql (server : str) (port : option Z) (auth : SqlAuth) (password connection_id : option str) :
    result str (list SqlCheck) :=
  replies ← answer_of (ReqCheckSql server port auth password connection_id);
  ok_or (find_map (fun r => match r with RepSqlChecks l => Some l | _ => None end) replies)
    (L "engine did not return checks").

End commands.

(** ** What the window shows *)

(** The value of a command that configures the engine. *)
Inductive gui_value :=
| ShowJobs (jobs : list Job) | ShowSql (l : list SqlConnection) | ShowPbs (l : list PbsServer)
| ShowSaved (id : str) | ShowDone | ShowKey (info : option EncryptionKeyInfo).

(** The command behind each of these requests. *)
Definition gui_command (env : gui_env) (r : Request) : result str gui_value :=
  match r with
  | ListJobs => ShowJobs <$> gui_list_jobs env
  | SaveJob job => ShowSaved <$> gui_save_job env job
  | DeleteJob id => (fun _ => ShowDone) <$> gui_delete_job env id
  | ListSqlConnections => ShowSql <$> gui_list_sql_connections env
  | SaveSqlConnection conn secret => ShowSaved <$> gui_save_sql_connection env conn secret
  | DeleteSqlConnection id => (fun _ => ShowDone) <$> gui_delete_sql_connection env id
  | ListPbsServers => ShowPbs <$> gui_list_pbs_servers env
  | SavePbsServer server secret => ShowSaved <$> gui_save_pbs_server env server secret
  | DeletePbsServer id => (fun _ => ShowDone) <$> gui_delete_pbs_server env id
  | GenerateEncryptionKey id => (fun k => ShowKey (Some k)) <$> gui_generate_encryption_key env id
  | ImportEncryptionKey id key => (fun k => ShowKey (Some k)) <$> gui_import_encryption_key env id key
  | GetEncryptionKey id => ShowKey <$> gui_get_encryption_key env id
  | ClearEncryptionKey id => (fun _ => ShowDone) <$> gui_clear_encryption_key env id
  end.

(** What a reply means to the user. *)
Definition reply_value (r : Request) (rep : Reply) : result str gui_value :=
  match rep with
  | RJobs jobs => Ok (ShowJobs jobs)
  | RSqlConnections l => Ok (ShowSql l)
  | RPbsServers l => Ok (ShowPbs l)
  | RSaved id => Ok (ShowSaved id)
  | RDeleted => Ok ShowDone
  | REncryptionKey info =>
      match r with ClearEncryptionKey _ => Ok ShowDone | _ => Ok (ShowKey info) end
  | RError m => Err m
  end.

(** The commands that only look for an error. *)
Definition unconfirmed (r : Request) : bool :=
  match r with
  | DeleteJob _ | DeleteSqlConnection _ | DeletePbsServer _ | ClearEncryptionKey _ => true
  | _ => false
  end.

Section shown.
Context `{Base64} `{HmacLib} `{EnvelopeJson} `{HashLib}.
Context `{ListJson Job} `{ListJson SqlConnection} `{ListJson PbsServer}.

(** The connection to an engine that answers the ping, and to each request [q] what
    [answer q] says. *)
Definition engine_env (answer : ipc_request -> result str unit * list ipc_reply) : gui_env :=
  {| ge_socket := Ok tt; ge_ping := (Ok tt, [RepPong]); ge_answer := answer |}.

(** An engine in the state [c] that serves the request it is sent by its handler; the
    connection ends, with or without an error, before or after the answer. *)
Definition serves_request (c : config_state) (r : Request) (delivered : bool) (ended : result str unit)
    (answer : ipc_request -> result str unit * list ipc_reply) : Prop :=
  answer (ReqConfig r) = (ended, if delivered then [RepConfig (handle r c).1] else []).

(** The replies each request can have. *)
Definition reply_fits (r : Request) (rep : Reply) : bool :=
  match rep, r with
  | RError _, _ => true
  | RJobs _, ListJobs | RSqlConnections _, ListSqlConnections | RPbsServers _, ListPbsServers => true
  | RSaved _, (SaveJob _ | SaveSqlConnection _ _ | SavePbsServer _ _) => true
  | RDeleted, (DeleteJob _ | DeleteSqlConnection _ | DeletePbsServer _) => true
  | REncryptionKey (Some _), (GenerateEncryptionKey _ | ImportEncryptionKey _ _) => true
  | REncryptionKey _, (GetEncryptionKey _ | ClearEncryptionKey _) => true
  | _, _ => false
  end.

Lemma handle_fits r c : reply_fits r (handle r c).1 = true.
Proof.
  destruct r; cbn -[js_save save_job job_delete save_with_secret delete_with_secret];
    unfold list_reply, save_job_request, delete_job_request, save_sql_request, delete_sql_request,
      save_pbs_request, delete_pbs_request, get_key_request, clear_key_request, saved_reply, deleted_reply, enc_key_reply;
    repeat (case_match; simplify_eq/=; try reflexivity).
Qed.

(** What the command of a request makes of the engine's answer to that request. *)
Lemma command_result r answer ended replies : answer (ReqConfig r) = (ended, replies) ->
  gui_command (engine_env answer) r =
  gui_command (engine_env (fun _ => (ended, replies))) r.
Proof.
  intros Ha. destruct r; unfold gui_command, gui_list_jobs, gui_save_job, gui_delete_job, gui_list_sql_connections,
    gui_save_sql_connection, gui_delete_sql_connection, gui_list_pbs_servers, gui_save_pbs_server,
    gui_delete_pbs_server, gui_generate_encryption_key, gui_import_encryption_key, gui_get_encryption_key,
    gui_clear_encryption_key, answer_of, request_all, engine_env; cbn [ge_answer]; rewrite Ha; reflexivity.
Qed.

Lemma command_shows r rep : reply_fits r rep = true ->
  gui_command (engine_env (fun _ => (Ok tt, [RepConfig rep]))) r = reply_value r rep.
Proof. destruct r, rep as [| | | | |[]|]; intros [=]; reflexivity. Qed.

(** The error when the engine did not answer. *)
Definition no_answer (r : Request) : str :=
  match r with
  | ListJobs => L "engine did not return a job list"
  | ListSqlConnections => L "engine did not return SQL connections"
  | ListPbsServers => L "engine did not return PBS servers"
  | SaveJob _ | SaveSqlConnection _ _ | SavePbsServer _ _ => L "engine did not confirm the save"
  | _ => L "engine did not return a key result"
  end.

(** C33: every command of the GUI that reads or changes the configuration sends the
    request it is for: from an engine that serves this request by its handler, whatever
    it would answer to others, the window shows exactly what the handler answered, when
    the answer arrives.  When the connection ends before the answer, the window shows an
    error, except for the commands that delete a job, a connection, a server or a key:
    those report success if the connection was closed cleanly, whatever the engine did. *)
Theorem gui_shows_engine c r delivered ended answer :
  serves_request c r delivered ended answer ->
  gui_command (engine_env answer) r =
  match ended, delivered with
  | Err e, _ => Err e
  | Ok _, true => reply_value r (handle r c).1
  | Ok _, false => if unconfirmed r then Ok ShowDone else Err (no_answer r)
  end.
Proof.
  unfold serves_request. intros ->%command_result.
  destruct ended as [[]|e]; [|destruct r; reflexivity]. destruct delivered; [|destruct r; reflexivity].
  apply command_shows, handle_fits.
Qed.

End shown.

Section example.
Import SampleStore.
Local Existing Instance Sample.hash.

(** The engine in the state [c]. *)
Definition sample_engine (c : config_state) (q : ipc_request) : result str unit * list ipc_reply :=
  match q with ReqConfig r => (Ok tt, [RepConfig (handle r c).1]) | _ => (Err (L "closed"), []) end.

Lemma gui_shows_engine_witness :
  gui_command (engine_env (sample_engine refused0)) (DeleteJob (L "a")) = Err (L "could not load jobs.json").
Proof.
  rewrite (gui_shows_engine refused0 (DeleteJob (L "a")) true (Ok tt) (sample_engine refused0));
    vm_compute; reflexivity.
Defined.

(** A job of a store that cannot be written is reported as deleted when the engine goes
    away before its answer, an error. *)
Example unconfirmed_delete :
  gui_command (engine_env (fun _ => (Ok tt, []))) (DeleteJob (L "a")) = Ok ShowDone /\
  (handle (DeleteJob (L "a")) refused0).1 = RError (L "could not load jobs.json").
Proof. split; vm_compute; reflexivity. Qed.

End example.
