(* ===== verification/Enrol.v ===== *)
(** Setting up a relay ([pbsgui-engine/src/relay/setup.rs], [relay/tls.rs]): the files
    and tokens that make a machine a proxy or an agent, the commands that write them, and
    what the engine starts from them.

    The theorems: an agent that was added on a proxy and joined with what the proxy
    printed is let in after both engines restart, over TLS pinned to the proxy's own
    certificate; and the other agents of the proxy stay configured. *)

From Stdlib Require Import ZArith Lia Strings.Byte Ascii String.
From stdpp Require Import base tactics option numbers list gmap.
From S2P Require Import Prelude Text Base Repository HttpApi Session Jobs Sched Stores Frames Proxy Agent Notify Gui.
Open Scope Z_scope.

Record AgentFile := { af_proxy_addr : str; af_proxy_fingerprint : str; af_agent_name : str }.

Record ServerFile := { sf_enabled : bool; sf_bind : str; sf_port : Z; sf_agents : list str }.

Definition AGENT_FILE : str := L "relay.json".
Definition SERVER_FILE : str := L "relay-server.json".
Definition CERT_FILE : str := L "relay/relay-cert.der".
Definition KEY_FILE : str := L "relay/relay-key.der".

Definition AGENT_TOKEN_KEY : str := L "relay:proxy".
Definition agent_token_key (name : str) : str := L "relayagent:" ++ name.

(** A file that cannot be read or parsed is no file. *)
Definition load_relay_file {A} `{SettingsJson A} (path : str) (w : world) : option A :=
  match w_read_error w with
  | Some _ => None
  | None => w_files w !! path ≫= set_parse
  end.

Definition load_agent_file `{SettingsJson AgentFile} (w : world) : option AgentFile :=
  load_relay_file AGENT_FILE w.
Definition load_server_file `{SettingsJson ServerFile} (w : world) : option ServerFile :=
  load_relay_file SERVER_FILE w.

Definition no_server_file : ServerFile :=
  {| sf_enabled := true; sf_bind := L "0.0.0.0"; sf_port := DEFAULT_RELAY_PORT; sf_agents := [] |}.

(** [std::fs::write]. *)
Definition write_file (path : str) (b : bytes) (fs : fs_write) : io unit := fun w =>
  match fs with
  | Written => (Ok tt, set_files (<[path := b]> (w_files w)) w)
  | NotOpened e => (Err e, w)
  | CutShort n e => (Err e, set_files (<[path := take n b]> (w_files w)) w)
  end.

Definition io_context {A} (msg : str) (m : io A) : io A := fun w =>
  let '(r, w') := m w in (map_err (fun e => msg ++ L ": " ++ e) r, w').

(** ** TLS *)

(** Two upper-case digits a byte, with colons between. *)
Definition upper_hex_byte (b : byte) : str :=
  map (fun c => if (97 <=? c) && (c <=? 102) then c - 32 else c) (hex_byte b).

Section setup.
Context `{HashLib} `{HexLib} `{SettingsJson AgentFile} `{SettingsJson ServerFile}.

Definition fingerprint_hex (cert_der : bytes) : str := join [58] (map upper_hex_byte (sha256 cert_der)).

(** What rcgen generates, how the two files are written, and what rustls says of the pair. *)
Record tls_env := {
  te_generated : result str (bytes * bytes); te_cert_write : fs_write; te_key_write : fs_write;
  te_config : bytes -> bytes -> result str unit }.

(** The certificate: kept if both files are there, else generated and written. *)
Definition server_tls (env : tls_env) : io (bytes * str) := fun w =>
  match w_mkdir_error w with
  | Some e => (Err (L "creating the relay config dir: " ++ e), w)
  | None =>
      (pair ← match w_files w !! CERT_FILE, w_files w !! KEY_FILE with
              | Some cert, Some key =>
                  io_context (L "reading the relay certificate")
                    (io_lift (match w_read_error w with Some e => Err e | None => Ok (cert, key) end))
              | _, _ =>
                  pair ← io_context (L "generating the relay certificate") (io_lift (te_generated env));
                  _ ← io_context (L "persisting the relay certificate") (write_file CERT_FILE pair.1 (te_cert_write env));
                  _ ← io_context (L "persisting the relay key") (write_file KEY_FILE pair.2 (te_key_write env));
                  mret pair
              end;
       _ ← io_context (L "relay TLS certificate") (io_lift (te_config env pair.1 pair.2));
       mret (pair.1, fingerprint_hex pair.1)) w
  end.

(** The agent's connector pins the fingerprint. *)
Definition relay_connector (config : result str unit) (fingerprint : str) : result str bytes :=
  map_err (fun e => L "relay TLS connector: " ++ show_error e) (tls_connector config fingerprint).

(** ** The commands *)

Definition name_ok (name : str) : bool :=
  negb (is_empty name) && forallb (fun c => is_ascii_alphanumeric c || (c =? 45)) name.

(** What [relay add-agent] prints for [relay join]. *)
Record join_command := { jc_port : Z; jc_fingerprint : str; jc_name : str; jc_token : str }.

Definition add_name (name : str) (agents : list str) : list str :=
  if existsb (str_eqb name) agents then agents else agents ++ [name].

(** The token, then the file with the name in it. *)
Definition configure_agent (fs : fs_write) (token name fingerprint : str) : io join_command := fun w =>
  let file := default no_server_file (load_server_file w) in
  let file := {| sf_enabled := sf_enabled file; sf_bind := sf_bind file; sf_port := sf_port file;
                 sf_agents := add_name name (sf_agents file) |} in
  (_ ← secrets_set (agent_token_key name) token;
   b ← io_lift (set_pretty file);
   _ ← io_context (L "writing relay-server.json") (write_file SERVER_FILE b fs);
   mret {| jc_port := sf_port file; jc_fingerprint := fingerprint; jc_name := name; jc_token := token |}) w.

(** [token] is a fresh UUID. *)
Definition cli_add_agent (env : tls_env) (fs : fs_write) (token name : str) : io join_command :=
  _ ← io_lift (ensure (name_ok name) (L "agent names are ascii letters, digits, and dashes"));
  tls ← server_tls env;
  configure_agent fs token name tls.2.

Definition cli_join (fs : fs_write) (proxy fingerprint name token : str) : io unit :=
  _ ← secrets_set AGENT_TOKEN_KEY token;
  b ← io_lift (set_pretty {| af_proxy_addr := proxy; af_proxy_fingerprint := fingerprint; af_agent_name := name |});
  io_context (L "writing relay.json") (write_file AGENT_FILE b fs).

(** [relay show]: the two lines it prints.  Looking at the certificate makes one if there is
    none. *)
Definition proxy_line (f : ServerFile) (fingerprint : str) : str :=
  L "proxy role: " ++ (if sf_enabled f then L "enabled" else L "disabled") ++ L " on " ++ sf_bind f ++ L ":" ++
  dec (sf_port f) ++ L " - agents: " ++
  (match sf_agents f with [] => L "(none)" | agents => join (L ", ") agents end) ++
  L " - fingerprint " ++ fingerprint.

Definition agent_line (f : AgentFile) (token : result str (option str)) : str :=
  L "agent role: '" ++ af_agent_name f ++ L "' toward " ++ af_proxy_addr f ++ L " (token " ++
  (match token with Ok (Some _) => L "stored" | _ => L "MISSING - run relay join again" end) ++ L ")".

Definition cli_show (env : tls_env) (w : world) : list str * world :=
  let '(proxy, w) :=
    match load_server_file w with
    | Some f =>
        let '(tls, w) := server_tls env w in
        (proxy_line f (match tls with Ok t => t.2 | Err e => L "(unavailable: " ++ e ++ L ")" end), w)
    | None => (L "proxy role: not configured (relay-server.json absent)", w)
    end in
  ([proxy;
    match load_agent_file w with
    | Some f => agent_line f (secrets_get AGENT_TOKEN_KEY w).1
    | None => L "agent role: not configured (relay.json absent)"
    end], w).

(** ** Starting *)

(** The agents with a stored token. *)
Fixpoint agent_tokens (names : list str) : io (list AgentAuth) :=
  match names with
  | [] => mret []
  | name :: names =>
      token ← secrets_get (agent_token_key name);
      rest ← agent_tokens names;
      mret (match token with Some t => {| aa_name := name; aa_token := t |} :: rest | None => rest end)
  end.

(** The proxy's certificate and state once its port is bound. *)
Definition start_server (env : tls_env) (bind : str -> result str unit) (file : ServerFile) : io (bytes * server) :=
  tls ← server_tls env;
  agents ← agent_tokens (sf_agents file);
  let addr := sf_bind file ++ L ":" ++ dec (sf_port file) in
  _ ← io_context (L "binding the relay listener on " ++ addr) (io_lift (bind addr));
  mret (tls.1, server_new agents).

(** The roles an engine starts in; a failure of one is logged. *)
Definition start_roles (env : tls_env) (bind : str -> result str unit) (w : world) :
    option (bytes * server) * option AgentConfig * world :=
  let '(proxy, w) :=
    match load_server_file w with
    | Some file =>
        if sf_enabled file then
          let '(r, w) := start_server env bind file w in
          (match r with Ok x => Some x | Err _ => None end, w)
        else (None, w)
    | None => (None, w)
    end in
  let agent :=
    match load_agent_file w with
    | Some file =>
        match (secrets_get AGENT_TOKEN_KEY w).1 with
        | Ok (Some token) =>
            Some {| proxy_addr := af_proxy_addr file; proxy_fingerprint := af_proxy_fingerprint file;
                    agent_name := af_agent_name file; agent_token := token |}
        | _ => None
        end
    | None => None
    end in
  (proxy, agent, w).

(** The agents the GUI lists: those configured, with what the live registry says. *)
Definition agent_infos (live : option Shared) (w : world) : list RelayAgentInfo :=
  let configured := match load_server_file w with Some f => sf_agents f | None => [] end in
  let connected := match live with Some sh => relay_agents sh | None => [] end in
  map (fun name =>
    let live := find (fun a => str_eqb (as_name a) name) connected in
    {| ra_name := name; ra_connected := match live with Some _ => true | None => false end;
       ra_host := as_host <$> live; ra_version := as_version <$> live |}) configured.

(** ** Lemmas *)

Lemma io_bind_inv {A B} (m : io A) (f : A -> io B) w b w' :
  (m ≫= f) w = (Ok b, w') -> exists a w1, m w = (Ok a, w1) /\ f a w1 = (Ok b, w').
Proof. unfold mbind, io_bind. destruct (m w) as [[a|e] w1]; [eauto | discriminate]. Qed.

Lemma io_lift_inv {A} (r : result str A) w a w' : io_lift r w = (Ok a, w') -> r = Ok a /\ w' = w.
Proof. unfold io_lift. intros [= -> ->]. auto. Qed.

Lemma io_context_inv {A} msg (m : io A) w a w' : io_context msg m w = (Ok a, w') -> m w = (Ok a, w').
Proof. unfold io_context. destruct (m w) as [[x|e] w1]; cbn; [intros [= -> ->]; reflexivity | discriminate]. Qed.

Lemma write_file_inv path b fs w u w' : write_file path b fs w = (Ok u, w') ->
  w' = set_files (<[path := b]> (w_files w)) w.
Proof. unfold write_file. destruct fs; try discriminate. intros [= _ <-]. reflexivity. Qed.

Lemma secrets_set_inv k v w u w' : secrets_set k v w = (Ok u, w') ->
  w_cred_error w = None /\ w' = set_secrets (<[k := v]> (w_secrets w)) w.
Proof. unfold secrets_set. destruct (w_cred_error w); [discriminate|]. intros [= _ <-]. auto. Qed.

(** The certificate is in its files afterwards, and nothing else has changed. *)
Record tls_kept (cert : bytes) (w w' : world) : Prop := {
  tk_cert : w_files w' !! CERT_FILE = Some cert;
  tk_key : is_Some (w_files w' !! KEY_FILE);
  tk_files : forall f, f <> CERT_FILE -> f <> KEY_FILE -> w_files w' !! f = w_files w !! f;
  tk_secrets : w_secrets w' = w_secrets w;
  tk_errors : w_read_error w' = w_read_error w /\ w_cred_error w' = w_cred_error w /\
              w_mkdir_error w' = w_mkdir_error w }.

Lemma generated_kept env w pair w1 :
  (pair ← io_context (L "generating the relay certificate") (io_lift (te_generated env));
   _ ← io_context (L "persisting the relay certificate") (write_file CERT_FILE pair.1 (te_cert_write env));
   _ ← io_context (L "persisting the relay key") (write_file KEY_FILE pair.2 (te_key_write env));
   mret pair) w = (Ok pair, w1) -> tls_kept pair.1 w w1.
Proof.
  intros Hp. apply io_bind_inv in Hp as (p & w2 & Hg & Hp). apply io_context_inv, io_lift_inv in Hg as [_ ->].
  apply io_bind_inv in Hp as (u & w3 & Hc & Hp). apply io_context_inv, write_file_inv in Hc as ->.
  apply io_bind_inv in Hp as (u' & w4 & Hk & Hp). apply io_context_inv, write_file_inv in Hk as ->.
  injection Hp as -> <-. split; try reflexivity.
  - cbn. rewrite lookup_insert_ne by discriminate. apply lookup_insert_eq.
  - cbn. rewrite lookup_insert_eq. eauto.
  - intros f Hf1 Hf2. cbn. rewrite !lookup_insert_ne by congruence. reflexivity.
  - auto.
Qed.

Lemma server_tls_inv env w x w' : server_tls env w = (Ok x, w') ->
  x.2 = fingerprint_hex x.1 /\ w_mkdir_error w = None /\ tls_kept x.1 w w'.
Proof.
  unfold server_tls. destruct (w_mkdir_error w) eqn:Em; [discriminate|]. intros Hs.
  apply io_bind_inv in Hs as ([cert' key] & w1 & Hp & Hs).
  apply io_bind_inv in Hs as (u & w2 & Hc & Hs).
  apply io_context_inv, io_lift_inv in Hc as [_ ->]. cbn in Hs. injection Hs as <- <-.
  split; [reflexivity|]. split; [reflexivity|]. cbn [fst].
  destruct (w_files w !! CERT_FILE) as [c0|] eqn:Ec; [destruct (w_files w !! KEY_FILE) as [k0|] eqn:Ek|];
    [|exact (generated_kept _ _ _ _ Hp)..].
  apply io_context_inv, io_lift_inv in Hp as [Hp ->]. destruct (w_read_error w); [discriminate|].
  injection Hp as -> ->. split; eauto.
Qed.

Definition has_certificate (cert : bytes) (w : world) : Prop :=
  w_files w !! CERT_FILE = Some cert /\ is_Some (w_files w !! KEY_FILE).

(** The certificate stays what it is. *)
Lemma server_tls_again env cert w : has_certificate cert w -> w_read_error w = None -> w_mkdir_error w = None ->
  (forall c k, te_config env c k = Ok tt) ->
  server_tls env w = (Ok (cert, fingerprint_hex cert), w).
Proof.
  intros [Hc [key Hk]] Hr Hm He. unfold server_tls. rewrite Hm, Hc, Hk, Hr.
  unfold mbind, io_bind, io_context, io_lift. cbn. rewrite He. reflexivity.
Qed.

Definition with_token (w : world) (name : str) : option AgentAuth :=
  (fun t => {| aa_name := name; aa_token := t |}) <$> w_secrets w !! agent_token_key name.

Lemma agent_tokens_all names w : w_cred_error w = None -> agent_tokens names w = (Ok (omap (with_token w) names), w).
Proof.
  intros Hc. induction names as [|name names IH]; [reflexivity|]. cbn [agent_tokens omap list_omap].
  unfold mbind, io_bind, secrets_get. rewrite Hc, IH. unfold with_token.
  destruct (w_secrets w !! agent_token_key name); reflexivity.
Qed.

Lemma tokens_of names w name : forall m,
  fold_left (fun m a => <[aa_name a := aa_token a]> m) (omap (with_token w) names) m !! name =
  if existsb (str_eqb name) names
  then match w_secrets w !! agent_token_key name with Some t => Some t | None => (m : gmap str str) !! name end
  else m !! name.
Proof.
  induction names as [|n names IH]; intros m; [reflexivity|]. cbn [existsb].
  change (omap (with_token w) (n :: names)) with
    (match with_token w n with Some a => a :: omap (with_token w) names | None => omap (with_token w) names end).
  unfold with_token at 1. destruct (str_eqb name n) eqn:E; cbn [orb].
  - apply str_eqb_eq in E as <-. destruct (w_secrets w !! agent_token_key name) as [t|] eqn:Et; cbn [fmap option_fmap option_map fold_left];
      rewrite IH; destruct (existsb _ names); rewrite ?Et; cbn; rewrite ?lookup_insert_eq; reflexivity.
  - apply bool_decide_eq_false in E.
    destruct (w_secrets w !! agent_token_key n) as [t|]; cbn [fmap option_fmap option_map fold_left]; rewrite IH; [|reflexivity].
    cbn. rewrite lookup_insert_ne by congruence. reflexivity.
Qed.

Lemma add_name_in name other agents : existsb (str_eqb other) agents = true ->
  existsb (str_eqb other) (add_name name agents) = true.
Proof. intros Ho. unfold add_name. destruct (existsb (str_eqb name) agents); [exact Ho|]. rewrite existsb_app, Ho. reflexivity. Qed.

Lemma add_name_self name agents : existsb (str_eqb name) (add_name name agents) = true.
Proof.
  unfold add_name. destruct (existsb (str_eqb name) agents) eqn:E; [exact E|].
  rewrite existsb_app. cbn. rewrite (proj2 (str_eqb_eq _ _) eq_refl). apply orb_true_r.
Qed.

(** What the proxy shows is what the connector reads. *)
Lemma clean_byte b : filter (fun c => is_whitespace c = false /\ c <> COLON) (upper_hex_byte b) = upper_hex_byte b.
Proof. destruct b; vm_compute; reflexivity. Qed.

Lemma clean_fingerprint l :
  filter (fun c => is_whitespace c = false /\ c <> COLON) (join [58] (map upper_hex_byte l)) =
  concat (map upper_hex_byte l).
Proof.
  induction l as [|b [|b' l] IH]; [reflexivity | cbn [map join concat]; rewrite app_nil_r; apply clean_byte|].
  change (join [58] (map upper_hex_byte (b :: b' :: l))) with
    (upper_hex_byte b ++ [58] ++ join [58] (map upper_hex_byte (b' :: l))).
  rewrite !filter_app, clean_byte, IH. reflexivity.
Qed.

Lemma fingerprint_pins cert :
  (forall l, hex_decode (concat (map upper_hex_byte l)) = Ok l) ->
  relay_connector (Ok tt) (fingerprint_hex cert) = Ok (sha256 cert).
Proof.
  intros Hx. unfold relay_connector, tls_connector, parse_fingerprint, fingerprint_hex.
  rewrite clean_fingerprint, Hx. cbn. rewrite sha256_len. reflexivity.
Qed.

(** Whatever starting as a proxy does, it touches only the certificate. *)
Record same_config (w w' : world) : Prop := {
  sc_files : forall f, f <> CERT_FILE -> f <> KEY_FILE -> w_files w' !! f = w_files w !! f;
  sc_secrets : w_secrets w' = w_secrets w;
  sc_errors : w_read_error w' = w_read_error w /\ w_cred_error w' = w_cred_error w }.

Lemma same_refl w : same_config w w.
Proof. split; auto. Qed.

Lemma same_trans w1 w2 w3 : same_config w1 w2 -> same_config w2 w3 -> same_config w1 w3.
Proof.
  intros [F1 S1 [R1 C1]] [F2 S2 [R2 C2]]. split; [|congruence | split; congruence].
  intros f Hc Hk. rewrite F2, F1 by assumption. reflexivity.
Qed.

(** A computation that changes no more than that. *)
Definition keeps {A} (m : io A) : Prop := forall w, same_config w (m w).2.

Lemma keeps_bind {A B} (m : io A) (f : A -> io B) : keeps m -> (forall a, keeps (f a)) -> keeps (m ≫= f).
Proof.
  intros Hm Hf w. unfold mbind, io_bind. specialize (Hm w). destruct (m w) as [[a|e] w1]; [|exact Hm].
  eapply same_trans; [exact Hm | apply Hf].
Qed.

Lemma keeps_context {A} msg (m : io A) : keeps m -> keeps (io_context msg m).
Proof. intros Hm w. unfold io_context. specialize (Hm w). destruct (m w). exact Hm. Qed.

Lemma keeps_lift {A} (r : result str A) : keeps (io_lift r).
Proof. intros w. apply same_refl. Qed.

Lemma keeps_ret {A} (a : A) : keeps (mret a).
Proof. intros w. apply same_refl. Qed.

Lemma keeps_write path b fs : path = CERT_FILE \/ path = KEY_FILE -> keeps (write_file path b fs).
Proof.
  intros Hp w. destruct fs; cbn; [|apply same_refl|]; (split; [|reflexivity | auto]);
    intros f Hc Hk; cbn; rewrite lookup_insert_ne by (destruct Hp; congruence); reflexivity.
Qed.

Lemma keeps_get key : keeps (secrets_get key).
Proof. intros w. unfold secrets_get. destruct (w_cred_error w); apply same_refl. Qed.

#[local] Hint Resolve keeps_bind keeps_context keeps_lift keeps_ret keeps_write keeps_get : core.

Lemma keeps_start env bind file : keeps (start_server env bind file).
Proof.
  assert (keeps (server_tls env)) as Ht.
  { intros w. unfold server_tls. destruct (w_mkdir_error w); [apply same_refl|].
    apply keeps_bind; [|intros; auto]. destruct (w_files w !! CERT_FILE), (w_files w !! KEY_FILE);
      [auto|..]; (apply keeps_bind; [auto|]; intros; apply keeps_bind; [auto 6|]; intros; auto 6). }
  assert (forall names, keeps (agent_tokens names)) as Ha by (induction names; cbn; auto).
  unfold start_server. auto.
Qed.

(** The agent's machine, whatever its own role as a proxy does. *)
Lemma start_agent env bind w file token :
  load_agent_file w = Some file -> w_cred_error w = None -> w_secrets w !! AGENT_TOKEN_KEY = Some token ->
  (start_roles env bind w).1.2 =
  Some {| proxy_addr := af_proxy_addr file; proxy_fingerprint := af_proxy_fingerprint file;
          agent_name := af_agent_name file; agent_token := token |}.
Proof.
  intros Hf Hc Ht.
  assert (forall w', same_config w w' -> load_agent_file w' = Some file /\ w_cred_error w' = None /\
    w_secrets w' !! AGENT_TOKEN_KEY = Some token) as Hsame.
  { intros w' [F S [R C]]. unfold load_agent_file, load_relay_file in *.
    rewrite R, S, C, F by discriminate. auto. }
  unfold start_roles.
  match goal with |- context [match ?x with Some file => if sf_enabled file then _ else _ | None => _ end] =>
    destruct x as [sf|] end; [destruct (sf_enabled sf)|]; cbn [fst snd];
    try (rewrite Hf; unfold secrets_get; rewrite Hc, Ht; reflexivity).
  pose proof (keeps_start env bind sf w) as Hk. destruct (start_server env bind sf w) as [r w']. cbn [fst snd] in *.
  destruct (Hsame w' Hk) as (-> & Hc' & Ht'). unfold secrets_get. rewrite Hc', Ht'. reflexivity.
Qed.

Context `{!SettingsLaws AgentFile} `{!SettingsLaws ServerFile}.

(** The file with an agent in it. *)
Definition with_agent (name : str) (file : ServerFile) : ServerFile :=
  {| sf_enabled := sf_enabled file; sf_bind := sf_bind file; sf_port := sf_port file;
     sf_agents := add_name name (sf_agents file) |}.

Definition server_file (w : world) : ServerFile := default no_server_file (load_server_file w).

(** What [relay add-agent] leaves on the proxy. *)
Lemma add_agent_inv env fs token name w cmd w' :
  cli_add_agent env fs token name w = (Ok cmd, w') -> w_read_error w = None ->
  exists cert, has_certificate cert w' /\
    (w_read_error w' = None /\ w_mkdir_error w' = None /\ w_cred_error w' = None) /\
    cmd = {| jc_port := sf_port (server_file w); jc_fingerprint := fingerprint_hex cert;
             jc_name := name; jc_token := token |} /\
    w_secrets w' = <[agent_token_key name := token]> (w_secrets w) /\
    load_server_file w' = Some (with_agent name (server_file w)).
Proof.
  intros Ha Hr. apply io_bind_inv in Ha as (u & w0 & Hn & Ha). apply io_lift_inv in Hn as [_ ->].
  apply io_bind_inv in Ha as ([cert fp] & w1 & Ht & Ha).
  destruct (server_tls_inv _ _ _ _ Ht) as (Hfp & Hm & Hk). cbn in Hfp. subst fp. unfold configure_agent in Ha.
  apply io_bind_inv in Ha as (u2 & w2 & Hs & Ha). apply secrets_set_inv in Hs as [Hc ->].
  apply io_bind_inv in Ha as (b & w3 & Hb & Ha). apply io_lift_inv in Hb as [Hb ->].
  apply io_bind_inv in Ha as (u3 & w4 & Hw & Ha). apply io_context_inv, write_file_inv in Hw as ->.
  cbn in Ha. injection Ha as <- <-. destruct Hk as [Kc Kk Kf Ks (Kr & Kce & Km)]. cbn [fst] in *.
  assert (load_server_file w1 = load_server_file w) as Hl.
  { unfold load_server_file, load_relay_file. rewrite Kr, Hr, Kf by discriminate. reflexivity. }
  rewrite Hl in *. fold (server_file w) in Hb |- *. fold (with_agent name (server_file w)) in Hb.
  exists cert. split; [|split; [|split; [reflexivity|split]]].
  - split; cbn; rewrite lookup_insert_ne by discriminate; assumption.
  - cbn. split_and!; congruence.
  - cbn. rewrite Ks. reflexivity.
  - unfold load_server_file, load_relay_file. cbn. rewrite Kr, Hr, lookup_insert_eq. cbn.
    rewrite (settings_inverse _ _ Hb). reflexivity.
Qed.

(** What [relay show] prints on the proxy after it is what [relay join] was given, and
    showing changes nothing. *)
Lemma shown_after_add env fs token name w cmd w' env' :
  cli_add_agent env fs token name w = (Ok cmd, w') -> w_read_error w = None ->
  (forall c k, te_config env' c k = Ok tt) ->
  head (cli_show env' w').1 = Some (proxy_line (with_agent name (server_file w)) (jc_fingerprint cmd)) /\
  (cli_show env' w').2 = w'.
Proof.
  intros Ha Hr He. destruct (add_agent_inv _ _ _ _ _ _ _ Ha Hr) as (cert & Hc & (Er & Em & _) & -> & _ & El).
  unfold cli_show. rewrite El, (server_tls_again env' cert w' Hc Er Em He). auto.
Qed.

(** What [relay join] leaves on the agent. *)
Lemma join_inv fs proxy fingerprint name token w u w' :
  cli_join fs proxy fingerprint name token w = (Ok u, w') -> w_read_error w = None ->
  load_agent_file w' = Some {| af_proxy_addr := proxy; af_proxy_fingerprint := fingerprint; af_agent_name := name |} /\
  w_cred_error w' = None /\ w_secrets w' !! AGENT_TOKEN_KEY = Some token.
Proof.
  intros Hj Hr. apply io_bind_inv in Hj as (u1 & w1 & Hs & Hj). apply secrets_set_inv in Hs as [Hc ->].
  apply io_bind_inv in Hj as (b & w2 & Hb & Hj). apply io_lift_inv in Hb as [Hb ->].
  apply io_context_inv, write_file_inv in Hj as ->. cbn. split; [|split; [exact Hc | apply lookup_insert_eq]].
  unfold load_agent_file, load_relay_file. cbn. rewrite Hr, lookup_insert_eq. cbn.
  apply (settings_inverse _ _ Hb).
Qed.

(** C31: enrolment: an agent that is added on a proxy, and joins on its own machine with
    what the proxy printed, is let in when both engines have restarted: the proxy has its
    listener, the agent's connector accepts exactly the proxy's certificate, and its
    registration is served under its name; and every agent the proxy had keeps its token. *)
Theorem enrolled_agent_admitted env fs token name w cmd w' fsa addr wa u wa' env' bind enva binda :
  (forall l, hex_decode (concat (map upper_hex_byte l)) = Ok l) ->
  w_read_error w = None -> w_read_error wa = None -> sf_enabled (server_file w) = true ->
  cli_add_agent env fs token name w = (Ok cmd, w') ->
  cli_join fsa addr (jc_fingerprint cmd) (jc_name cmd) (jc_token cmd) wa = (Ok u, wa') ->
  (forall c k, te_config env' c k = Ok tt) -> (forall a, bind a = Ok tt) ->
  exists cert s cfg, (start_roles env' bind w').1.1 = Some (cert, s) /\
    (start_roles enva binda wa').1.2 = Some cfg /\ proxy_addr cfg = addr /\
    relay_connector (Ok tt) (proxy_fingerprint cfg) = Ok (sha256 cert) /\
    (forall c host version, sv_conns (handle_conn c (Some (Control (register_msg cfg host version))) true s) !! c
       = Some (Serving name token)) /\
    (forall other t, other <> name -> In other (sf_agents (server_file w)) ->
       w_secrets w !! agent_token_key other = Some t -> sh_tokens (sv_shared s) !! other = Some t).
Proof.
  intros Hx Hr Hra He Ha Hj Hcfg Hbind.
  destruct (add_agent_inv _ _ _ _ _ _ _ Ha Hr) as (cert & Hc & (Hr' & Hm' & Hc') & -> & Hs & Hl). cbn in Hj.
  destruct (join_inv _ _ _ _ _ _ _ _ Hj Hra) as (Hf & Hce & Ht).
  pose proof (start_agent enva binda wa' _ _ Hf Hce Ht) as Hagent. cbn in Hagent.
  assert (start_server env' bind (with_agent name (server_file w)) w' =
    (Ok (cert, server_new (omap (with_token w') (add_name name (sf_agents (server_file w))))), w')) as Hstart.
  { unfold start_server, mbind, io_bind. rewrite (server_tls_again _ _ _ Hc Hr' Hm' Hcfg).
    cbn [with_agent sf_agents]. rewrite (agent_tokens_all _ _ Hc').
    unfold io_context, io_lift. rewrite Hbind. reflexivity. }
  eexists cert, _, _. split; [|split; [exact Hagent|]].
  { unfold start_roles. rewrite Hl. cbn [with_agent sf_enabled]. rewrite He.
    change (Build_ServerFile _ _ _ _) with (with_agent name (server_file w)).
    rewrite Hstart. reflexivity. }
  split; [reflexivity|]. split; [apply fingerprint_pins, Hx|].
  assert (forall n t, existsb (str_eqb n) (add_name name (sf_agents (server_file w))) = true ->
    w_secrets w' !! agent_token_key n = Some t ->
    sh_tokens (sv_shared (server_new (omap (with_token w') (add_name name (sf_agents (server_file w)))))) !! n = Some t)
    as Htok.
  { intros n t Hn Hw. cbn. rewrite tokens_of, Hn, Hw. reflexivity. }
  split.
  - intros c host version. unfold register_msg. cbn [handle_conn agent_name agent_token].
    unfold serve_control, refusal. rewrite Z.eqb_refl. cbn [negb].
    rewrite (Htok name token); [|apply add_name_self | rewrite Hs; apply lookup_insert_eq].
    rewrite (proj2 (str_eqb_eq _ _) eq_refl). cbn. apply lookup_insert_eq.
  - intros other t Hne Hin Ht'. apply Htok.
    + apply add_name_in, existsb_exists. exists other. split; [exact Hin | apply str_eqb_eq; reflexivity].
    + rewrite Hs, lookup_insert_ne; [exact Ht'|]. unfold agent_token_key. intros E. apply app_inv_head in E. congruence.
Qed.

End setup.

(** ** Two machines *)

Module SampleRelay.
Import Sample SampleStore.

#[export] Instance agent_json : SettingsJson AgentFile := {|
  set_pretty f := Ok (SampleJson.pos_bytes (encode (af_proxy_addr f, af_proxy_fingerprint f, af_agent_name f)));
  set_parse b := (fun '(a, p, n) => {| af_proxy_addr := a; af_proxy_fingerprint := p; af_agent_name := n |})
                 <$> countable.decode (SampleJson.bytes_pos b) |}.
#[export] Instance agent_laws : SettingsLaws AgentFile.
Proof.
  intros f b [= <-]. cbn [set_parse agent_json]. rewrite SampleJson.pos_bytes_inv, decode_encode.
  destruct f; reflexivity.
Qed.

#[export] Instance server_json : SettingsJson ServerFile := {|
  set_pretty f := Ok (SampleJson.pos_bytes (encode (sf_enabled f, sf_bind f, sf_port f, sf_agents f)));
  set_parse b := (fun '(e, h, p, l) => {| sf_enabled := e; sf_bind := h; sf_port := p; sf_agents := l |})
                 <$> countable.decode (SampleJson.bytes_pos b) |}.
#[export] Instance server_laws : SettingsLaws ServerFile.
Proof.
  intros f b [= <-]. cbn [set_parse server_json]. rewrite SampleJson.pos_bytes_inv, decode_encode.
  destruct f; reflexivity.
Qed.

Definition tls0 : tls_env :=
  {| te_generated := Ok (bstr "cert", bstr "key"); te_cert_write := Written; te_key_write := Written;
     te_config := fun _ _ => Ok tt |}.

Definition added (name token : string) (w : world) := cli_add_agent tls0 Written (L token) (L name) w.
Definition proxy1 : world := (added "sql1" "t1" world0).2.
Definition proxy2 : world := (added "sql2" "t2" proxy1).2.
Definition command : join_command :=
  {| jc_port := DEFAULT_RELAY_PORT; jc_fingerprint := fingerprint_hex (bstr "cert"); jc_name := L "sql2";
     jc_token := L "t2" |}.
Definition agent2 : world :=
  (cli_join Written (L "proxy:8317") (fingerprint_hex (bstr "cert")) (L "sql2") (L "t2") world0).2.

Lemma upper_hex_value b : unhex (upper_hex_byte b) = Some [b].
Proof. destruct b; vm_compute; reflexivity. Qed.

Lemma upper_hex_read l : hex_decode (concat (map upper_hex_byte l)) = Ok l.
Proof.
  cbn. assert (unhex (concat (map upper_hex_byte l)) = Some l) as ->; [|reflexivity].
  induction l as [|b l IH]; [reflexivity|].
  pose proof (upper_hex_value b) as Hb. change (map upper_hex_byte (b :: l)) with (upper_hex_byte b :: map upper_hex_byte l).
  change (concat (?x :: ?y)) with (x ++ concat y).
  unfold upper_hex_byte at 1. unfold upper_hex_byte, hex_byte in Hb. cbn [map hex_byte app] in *.
  cbn [unhex] in *. rewrite IH. repeat case_match; simplify_eq/=; reflexivity.
Qed.

Lemma proxy1_enabled : sf_enabled (server_file proxy1) = true.
Proof. vm_compute. reflexivity. Qed.
Lemma added2 : cli_add_agent tls0 Written (L "t2") (L "sql2") proxy1 = (Ok command, proxy2).
Proof. vm_compute. reflexivity. Qed.
Lemma joined2 : cli_join Written (L "proxy:8317") (jc_fingerprint command) (jc_name command) (jc_token command) world0
  = (Ok tt, agent2).
Proof. vm_compute. reflexivity. Qed.
Lemma configured1 : In (L "sql1") (sf_agents (server_file proxy1)).
Proof. vm_compute. auto. Qed.
Lemma token1 : w_secrets proxy1 !! agent_token_key (L "sql1") = Some (L "t1").
Proof. vm_compute. reflexivity. Qed.

(** The second agent's registration is served, and the first agent keeps its token. *)
Lemma enrolled_agent_admitted_witness : exists cert s cfg,
  (start_roles tls0 (fun _ => Ok tt) proxy2).1.1 = Some (cert, s) /\
  (start_roles tls0 (fun _ => Ok tt) agent2).1.2 = Some cfg /\
  relay_connector (Ok tt) (proxy_fingerprint cfg) = Ok (sha256 cert) /\
  sv_conns (handle_conn 1 (Some (Control (register_msg cfg (L "h") (L "v")))) true s) !! 1%nat
    = Some (Serving (L "sql2") (L "t2")) /\
  sh_tokens (sv_shared s) !! (L "sql1") = Some (L "t1").
Proof.
  destruct (enrolled_agent_admitted tls0 Written (L "t2") (L "sql2") proxy1 command proxy2 Written
    (L "proxy:8317") world0 tt agent2 tls0 (fun _ => Ok tt) tls0 (fun _ => Ok tt) upper_hex_read
    eq_refl eq_refl proxy1_enabled added2 joined2
    (fun _ _ => eq_refl) (fun _ => eq_refl)) as (cert & s & cfg & Hp & Ha & _ & Hc & Hreg & Hold).
  exists cert, s, cfg. split; [exact Hp|]. split; [exact Ha|]. split; [exact Hc|].
  split; [exact (Hreg 1%nat (L "h") (L "v")) | exact (Hold (L "sql1") (L "t1") ltac:(discriminate) configured1 token1)].
Defined.

(** A file that cannot be parsed is replaced by one with the new agent alone: the others
    are no longer configured, although the command succeeded. *)
Example damaged_file_loses_agents :
  let damaged := set_files (<[SERVER_FILE := bstr "{"]> (w_files proxy1)) proxy1 in
  is_ok (added "sql2" "t2" damaged).1 = true /\
  sf_agents <$> load_server_file (added "sql2" "t2" damaged).2 = Some [L "sql2"].
Proof. split; vm_compute; reflexivity. Qed.

End SampleRelay.
