(* ===== verification/SqlBackup.v ===== *)
(** The backup of one database to the backup server, from the statement to the
    snapshot: [backup_database_to_pbs] and [backup_database_to_file] of
    [pbsgui-engine/src/sql/vdi.rs], [backup_database_to_pbs] of
    [pbsgui-engine/src/relay/backup.rs], and the choice between them in
    [pbsgui-engine/src/backup.rs].

    The [BACKUP] statement ([Tsql]), the virtual device ([Vdi]), the channel or the
    relay that carries its bytes ([Channels], [Relay]) and the uploader ([Upload]) run
    side by side.  What SQL Server answers, what the device loop sees, the reads of the
    relay's stream and the state the uploader ends in are an environment; the theorems
    take any uploader state that [Upload]'s steps reach.  They show that a local backup
    is committed only when its statement succeeded, that a relayed one is committed only
    when its device was closed cleanly (whatever the statement answered, which an example
    shows to be less), and that every database of a run is on the server or reported. *)

From Stdlib Require Import ZArith Lia Strings.Byte Ascii String.
From stdpp Require Import base tactics option numbers gmap list relations.
From S2P Require Import Prelude Text Base Blob Index Repository HttpApi Session Upload Chain Jobs Sched Stores Plan Channels Frames Relay Tsql Vdi Probe Capture.
Open Scope Z_scope.

(** ** The environment *)

(** What the device thread meets: COM, the device set, SQL Server attaching, the
    commands, and whether the thread panics at the end of them. *)
Record device_answers := {
  da_com : result str unit; da_create : result str unit; da_create_ex : result str unit;
  da_attach : attach; da_open : result str unit; da_script : list turn; da_panics : option str }.

(** What the relay does: whether this machine listens, what opening a session answers,
    and the reads the uploader makes on its stream. *)
Record relay_answers := {
  ra_listening : bool;
  ra_stream : str -> option str -> str -> result str unit;
  ra_reads : list (nat * result io_error bytes) }.

Record sql_backup_env := {
  be_net : sql_net;
  be_ask : oracle;                                  (* what SQL Server answers *)
  be_uuid : str;                                    (* of the device set *)
  be_meta_json : SqlBackupMeta -> result str bytes;
  be_device : device_answers;
  be_relay : relay_answers;
  be_cancelled : bool;
  be_chunks : bytes -> list bytes;                  (* the chunker, on a whole stream *)
  be_cut : bytes -> list bytes;                     (* the chunks before a read fails *)
  be_buffer : nat;
  be_width : Z; be_index_uuid : bytes;
  be_upload : config -> up_state }.

Definition set_name (e : sql_backup_env) : str := L "pbsgui-" ++ be_uuid e.

(** What the caller gives besides the connection. *)
Record sql_target := {
  tg_params : SessionParams; tg_archive : str; tg_crypt : option CryptConfig;
  tg_compress : bool; tg_total : Z }.

Section backup.
Context `{DebugFmt}.
Variable e : sql_backup_env.

(** ** The device thread *)

Definition run_device_loop (sink : Sink) : option (result str unit) * loop_end * Sink :=
  let a := be_device e in
  let '(r, _, sink') := drain_session (open_device (da_attach a) (da_open a)) (da_script a) sink in
  let '(ready, res) := run_device_session (da_com a) (da_create a) (da_create_ex a) r in
  (ready, res, match ready with Some (Ok _) => sink' | _ => sink end).

(** [ready_rx.await], with both errors. *)
Definition await_ready (ready : option (result str unit)) : result str unit :=
  match ready with
  | None => Err (L "VDI thread exited before signaling readiness")
  | Some r => r
  end.

(** What the device thread has put into the channel of the uploader. *)
Definition channel_sent : list bytes :=
  match (run_device_loop (SinkChannel (Sender [] None))).2 with
  | SinkChannel tx => tx_sent tx
  | _ => []
  end.

(** ** The statement, then the metadata of the backup *)

Definition backup_and_meta (database : str) (ty : SqlBackupType) (copy_only : bool) :
    result str unit * option (str * bytes) * list str :=
  match issue_backup (be_ask e) database (set_name e) ty copy_only [] with
  | (Err err, log) => (Err err, None, log)
  | (Ok _, log) =>
      match query_backup_meta (be_ask e) database log with
      | (Ok meta, log) =>
          (Ok tt, match be_meta_json e meta with
                  | Ok js => Some (META_BLOB_NAME, js)
                  | Err _ => None
                  end, log)
      | (Err _, log) => (Ok tt, None, log)
      end
  end.

(** ** What the uploader reads *)

Definition config_for (g : sql_target) (catalog : option (str * bytes))
    (d : list bytes * result PbsError unit) : config :=
  {| cfg_params := tg_params g; cfg_archive := tg_archive g; cfg_dedup := true;
     cfg_compress := tg_compress g; cfg_total_bytes := tg_total g; cfg_crypt := tg_crypt g;
     cfg_catalog := Some catalog; cfg_width := be_width e; cfg_uuid := be_index_uuid e;
     cfg_stream := d.1; cfg_reader_end := d.2 |}.

(** From the channel of the device thread; [verdict] is what the reader is told of the
    statement ([None]: the run was dropped before it was known). *)
Definition local_delivered (verdict : option (result str unit)) : list bytes * result PbsError unit :=
  let sent := channel_sent in
  match drain (S (length (concat sent))) (Nat.max 1 (be_buffer e))
          (channel_reader_new sent (match verdict with Some r => Some (is_ok r) | None => None end)) with
  | Some (Ok b) => (be_chunks e b, Ok tt)
  | Some (Err err) => (be_cut e (concat sent), Err (Io err))
  | None => ([], Err (Protocol (L "the reader does not end")))
  end.

Definition local_config (g : sql_target) (verdict : option (result str unit))
    (catalog : option (str * bytes)) : config :=
  config_for g catalog (local_delivered verdict).

(** From the stream of the relay: the bytes read, and how the reads ended, if they did. *)
Fixpoint read_to_end (reads : list (nat * result io_error bytes)) :
    bytes * option (result io_error unit) :=
  match reads with
  | [] => ([], None)
  | (_, Err err) :: _ => ([], Some (Err err))
  | (_, Ok []) :: _ => ([], Some (Ok tt))
  | (_, Ok d) :: reads => let '(b, r) := read_to_end reads in (d ++ b, r)
  end.

Definition relay_delivered : list bytes * result PbsError unit :=
  match read_to_end (ra_reads (be_relay e)) with
  | (b, Some (Ok _)) => (be_chunks e b, Ok tt)
  | (b, Some (Err err)) => (be_cut e b, Err (Io err))
  | (b, None) => (be_cut e b, Err (Protocol (L "the stream has not ended")))
  end.

Definition relay_config (g : sql_target) (catalog : option (str * bytes)) : config :=
  config_for g catalog relay_delivered.

(** ** The backups *)

(** [vdi::backup_database_to_pbs], with the statements it issued. *)
Definition backup_database_to_pbs (server : str) (port : option Z) (auth : SqlAuth)
    (password : option str) (database : str) (g : sql_target) (ty : SqlBackupType)
    (copy_only : bool) : result str BackupStats * list str :=
  match connect (be_net e) server port auth password with
  | Err err => (Err err, [])
  | Ok _ =>
  match await_ready (run_device_loop (SinkChannel (Sender [] None))).1.1 with
  | Err err => (Err err, [])
  | Ok _ =>
      let '(backup, catalog, log) := backup_and_meta database ty copy_only in
      let upload := upload_result (be_upload e (local_config g (Some backup) catalog)) in
      (match da_panics (be_device e) with
       | Some err => Err (L "VDI thread panicked: " ++ err)
       | None => combine_pbs_result backup upload
       end, log)
  end end.

(** [relay::backup::backup_database_to_pbs]. *)
Definition relay_backup_database (agent server : str) (port : option Z) (auth : SqlAuth)
    (password : option str) (database : str) (g : sql_target) (ty : SqlBackupType)
    (copy_only : bool) : result str BackupStats * list str :=
  if negb (ra_listening (be_relay e)) then
    (Err (L "this machine has no relay listener configured; run `pbsgui-engine relay add-agent` here first (the proxy is the machine that runs the backup jobs)"), [])
  else
  match connect (be_net e) server port auth password with
  | Err err => (Err err, [])
  | Ok _ =>
  match ra_stream (be_relay e) agent (instance_of server) (set_name e) with
  | Err err => (Err (L "starting the relay session on agent '" ++ agent ++ L "': " ++ err), [])
  | Ok _ =>
      if be_cancelled e then (Err (L "cancelled by request"), [])
      else
        let '(backup, catalog, log) := backup_and_meta database ty copy_only in
        let backup := map_err (fun err => L "the BACKUP statement failed on the remote instance: " ++ err) backup in
        (combine_pbs_result backup (upload_result (be_upload e (relay_config g catalog))), log)
  end end.

(** The choice of [backup_sql_to_pbs]. *)
Definition backup_one (relay_agent : option str) (server : str) (port : option Z) (auth : SqlAuth)
    (password : option str) (database : str) (g : sql_target) (ty : SqlBackupType)
    (copy_only : bool) : result str BackupStats * list str :=
  match relay_agent with
  | Some agent => relay_backup_database agent server port auth password database g ty copy_only
  | None => backup_database_to_pbs server port auth password database g ty copy_only
  end.

(** [backup_database_to_file]: the result and the file at [output_path], if it was
    created; [created] is how creating it went, [room] the space on the disk. *)
Definition backup_database_to_file (server : str) (port : option Z) (auth : SqlAuth)
    (password : option str) (database output_path : str) (created : result str unit)
    (room : option nat) : result str Z * option bytes * list str :=
  match connect (be_net e) server port auth password with
  | Err err => (Err err, None, [])
  | Ok _ =>
  match created with
  | Err err => (Err (L "creating backup file " ++ output_path ++ L ": " ++ err), None, [])
  | Ok _ =>
      let '(ready, res, sink) := run_device_loop (SinkFile [] room) in
      let file := Some (sink_data sink) in
      match await_ready ready with
      | Err err => (Err err, file, [])
      | Ok _ =>
          let '(backup, log) := issue_backup (be_ask e) database (set_name e) Full true [] in
          (match da_panics (be_device e) with
           | Some err => Err (L "VDI thread panicked: " ++ err)
           | None => combine_file_result backup
               (match res with Returns r => r | Waits => Err (L "the device loop has not ended") end)
           end, file, log)
      end
  end end.

End backup.

(** ** What is committed *)

(** Everything SQL Server wrote to the device of this environment. *)
Definition device_written (e : sql_backup_env) : bytes := concat (written (da_script (be_device e))).

(** The device was opened and closed cleanly. *)
Definition closed_cleanly (e : sql_backup_env) : Prop :=
  exists n, (run_device_loop e (SinkChannel (Sender [] None))).1.2 = Returns (Ok n).

Lemma channel_sent_clean e : closed_cleanly e -> concat (channel_sent e) = device_written e.
Proof.
  unfold closed_cleanly, channel_sent, run_device_loop, device_written, drain_session.
  destruct (open_device _ _) as [u|err].
  2:{ destruct (da_com _), (da_create _), (da_create_ex _); cbn; intros [n E]; discriminate. }
  destruct (drain_device _ _ _) as [[r cs] sink] eqn:E.
  destruct (da_com _), (da_create _), (da_create_ex _); cbn; intros [n Er]; try discriminate.
  subst r. destruct (drain_sound _ _ _ _ _ _ E) as [_ Hd]. destruct (Hd n eq_refl) as (Hs & Ha & _).
  pose proof (drain_keeps_kind _ _ _ _ _ _ E) as Hk.
  destruct sink as [|tx|]; try discriminate. cbn in *. rewrite Hs, Ha. reflexivity.
Qed.

Section committed.
Context `{DebugFmt} `{PercentLib} `{HexLib} `{SessionLibs} `{Crc32Lib} `{HashLib} `{ZstdLib} `{AeadLib}
  `{ManifestJson}.
Variable e : sql_backup_env.

(** The archive of the snapshot that [u] has finished is [data], and the server has
    every chunk of it. *)
Definition committed (cfg : config) (u : up_state) (data : bytes) : Prop :=
  concat (cfg_stream cfg) = data /\
  Forall (fun c => stored (u_known u) (u_log u) (plain_digest (cfg_crypt cfg) c)) (cfg_stream cfg).

Lemma local_delivered_end verdict :
  (local_delivered e verdict).2 = Ok tt ->
  verdict = Some (Ok tt) /\ (local_delivered e verdict).1 = be_chunks e (concat (channel_sent e)).
Proof.
  unfold local_delivered. rewrite drain_all; [|lia | cbn; lia].
  destruct verdict as [[[]|err]|]; cbn; [auto | discriminate..].
Qed.

Lemma local_committed g verdict catalog u ok :
  (forall b, concat (be_chunks e b) = b) ->
  reachable (local_config e g verdict catalog) u -> EvFinish ok ∈ u_log u ->
  verdict = Some (Ok tt) /\
  committed (local_config e g verdict catalog) u (concat (channel_sent e)).
Proof.
  intros Hch Hr Hf. destruct (finish_stored _ _ _ Hr Hf) as [He Hs].
  destruct (local_delivered_end verdict He) as [Hv Hd]. split; [exact Hv|].
  split; [|exact Hs]. cbn. rewrite Hd. apply Hch.
Qed.

Lemma relay_committed g catalog u ok :
  (forall b, concat (be_chunks e b) = b) ->
  reachable (relay_config e g catalog) u -> EvFinish ok ∈ u_log u ->
  exists data, read_to_end (ra_reads (be_relay e)) = (data, Some (Ok tt)) /\
    committed (relay_config e g catalog) u data.
Proof.
  intros Hch Hr Hf. destruct (finish_stored _ _ _ Hr Hf) as [He Hs].
  unfold committed, relay_config, relay_delivered in *. cbn in *.
  destruct (read_to_end _) as [b [[[]|err]|]]; cbn in *; try discriminate.
  exists b. split; [reflexivity|]. split; [apply Hch | exact Hs].
Qed.

(** C5: a local backup of a database is committed only when its [BACKUP] statement has
    succeeded: whatever the device, the uploader and the server do, and wherever the run
    is dropped, a snapshot is finished only after the statement answered success; its
    archive is what the device thread put into the uploader's channel, and that is all
    that SQL Server wrote when the device was closed cleanly; the server has every chunk
    of it. *)
Theorem failed_backup_not_committed g verdict catalog u ok :
  (forall b, concat (be_chunks e b) = b) ->
  reachable (local_config e g verdict catalog) u -> EvFinish ok ∈ u_log u ->
  verdict = Some (Ok tt) /\
  committed (local_config e g verdict catalog) u (concat (channel_sent e)) /\
  (closed_cleanly e -> committed (local_config e g verdict catalog) u (device_written e)).
Proof.
  intros Hch Hr Hf. destruct (local_committed g verdict catalog u ok Hch Hr Hf) as [Hv Hc].
  split; [exact Hv|]. split; [exact Hc|]. intros Hcl. rewrite <- (channel_sent_clean e Hcl). exact Hc.
Qed.

(** *** The result of a backup *)

(** The statement that was issued first, and answered with success. *)
Definition statement_succeeded (database : str) (ty : SqlBackupType) (copy_only : bool)
    (log : list str) : Prop :=
  exists sql rows rest, backup_statement database (set_name e) ty copy_only = Ok sql /\
    be_ask e [sql] = Ok rows /\ log = sql :: rest.

Lemma meta_log database log : exists rest, (query_backup_meta (be_ask e) database log).2 = log ++ rest.
Proof.
  unfold query_backup_meta, query_db_files, unwrap_or, mbind, sqlm_bind, simple_query, sql_lift, mret, sqlm_ret.
  repeat case_match; simplify_eq; cbn; rewrite <- ?app_assoc; eauto.
Qed.

Lemma issue_ok database ty copy_only u log :
  issue_backup (be_ask e) database (set_name e) ty copy_only [] = (Ok u, log) ->
  exists sql rows, backup_statement database (set_name e) ty copy_only = Ok sql /\
    be_ask e [sql] = Ok rows /\ log = [sql].
Proof.
  unfold issue_backup, mbind, sqlm_bind, simple_query, sql_lift, mret, sqlm_ret.
  destruct (backup_statement _ _ _ _) as [sql|err]; cbn; [|discriminate].
  destruct (be_ask e [sql]) as [rows|err] eqn:Ea; [|discriminate]. intros [= _ <-]. eauto.
Qed.

Lemma backup_and_meta_ok database ty copy_only catalog log :
  backup_and_meta e database ty copy_only = (Ok tt, catalog, log) ->
  statement_succeeded database ty copy_only log.
Proof.
  unfold backup_and_meta. destruct (issue_backup _ _ _ _ _ _) as [[u|err] log0] eqn:Ei; [|discriminate].
  destruct (issue_ok _ _ _ _ _ Ei) as (sql & rows & Hs & Ha & ->).
  destruct (meta_log database [sql]) as [rest Hl].
  destruct (query_backup_meta _ _ _) as [[meta|err] log']; cbn in Hl; subst log';
    intros E; injection E as _ <-; exists sql, rows, rest; auto.
Qed.

(** An upload that ended well. *)
Lemma upload_ok cfg u stats : reachable cfg u -> upload_result u = Ok stats ->
  EvFinish true ∈ u_log u /\ st_bytes stats = total (cfg_stream cfg) /\ blob_uploaded cfg u.
Proof.
  intros Hr Hu. unfold upload_result in Hu. destruct (u_phase u) eqn:Hp; try discriminate.
  injection Hu as <-. destruct (finished_stats _ _ _ Hr Hp) as (_ & _ & Hb & _ & _ & Hf).
  split; [exact Hf|]. split; [exact Hb|]. apply (catalog_reachable _ _ Hr). rewrite Hp. reflexivity.
Qed.

(** The snapshot on the server: finished, complete, of the size reported, and with the
    metadata of the backup if it could be read. *)
Record on_server (g : sql_target) (cfg : config) (catalog : option (str * bytes)) (data : bytes)
    (stats : BackupStats) : Prop := {
  os_archive : cfg_archive cfg = tg_archive g;
  os_crypt : cfg_crypt cfg = tg_crypt g;
  os_finished : EvFinish true ∈ u_log (be_upload e cfg);
  os_committed : committed cfg (be_upload e cfg) data;
  os_size : st_bytes stats = Z.of_nat (length data);
  os_blob : forall name content, catalog = Some (name, content) ->
    exists rnd blob, encode_chunk (tg_crypt g) (tg_compress g) rnd content = Ok blob /\
      EvBlob name blob true ∈ u_log (be_upload e cfg) }.

Lemma on_server_of g d catalog data stats :
  let cfg := config_for e g catalog d in
  reachable cfg (be_upload e cfg) -> upload_result (be_upload e cfg) = Ok stats ->
  committed cfg (be_upload e cfg) data -> on_server g cfg catalog data stats.
Proof.
  intros cfg Hr Hu Hc. destruct (upload_ok _ _ _ Hr Hu) as (Hf & Hb & Hbl).
  split; [reflexivity | reflexivity | exact Hf | exact Hc | |].
  - rewrite Hb. unfold total. destruct Hc as [-> _]. reflexivity.
  - intros name content ->. exact (Hbl name content eq_refl).
Qed.

Lemma combine_ok backup upload stats : combine_pbs_result backup upload = Ok stats ->
  backup = Ok tt /\ upload = Ok stats.
Proof. destruct backup as [[]|], upload; cbn; intros [=]; subst; auto. Qed.

(** What the uploader of a backup has read. *)
Definition source_read (relay_agent : option str) (data : bytes) : Prop :=
  match relay_agent with
  | None => data = concat (channel_sent e)
  | Some _ => read_to_end (ra_reads (be_relay e)) = (data, Some (Ok tt))
  end.

Lemma backup_one_stored relay_agent server port auth password database g ty copy_only stats log :
  (forall cfg, reachable cfg (be_upload e cfg)) -> (forall b, concat (be_chunks e b) = b) ->
  backup_one e relay_agent server port auth password database g ty copy_only = (Ok stats, log) ->
  statement_succeeded database ty copy_only log /\
  exists cfg data, on_server g cfg (backup_and_meta e database ty copy_only).1.2 data stats /\
    source_read relay_agent data.
Proof.
  intros Hup Hch. destruct relay_agent as [agent|]; cbn [backup_one].
  - unfold relay_backup_database. destruct (negb _); [discriminate|].
    destruct (connect _ _ _ _ _); [|discriminate]. destruct (ra_stream _ _ _ _); [|discriminate].
    destruct (be_cancelled e); [discriminate|].
    destruct (backup_and_meta e database ty copy_only) as [[backup catalog] log'] eqn:Eb.
    intros [= Hc <-]. apply combine_ok in Hc as [Hb Hu].
    destruct backup as [[]|err]; [|discriminate]. split; [exact (backup_and_meta_ok _ _ _ _ _ Eb)|].
    destruct (upload_ok _ _ _ (Hup _) Hu) as (Hf & _).
    destruct (relay_committed g catalog _ _ Hch (Hup _) Hf) as (data & Hd & Hcm).
    exists (relay_config e g catalog), data. split; [apply on_server_of; auto | exact Hd].
  - unfold backup_database_to_pbs. destruct (connect _ _ _ _ _); [|discriminate].
    destruct (await_ready _); [|discriminate].
    destruct (backup_and_meta e database ty copy_only) as [[backup catalog] log'] eqn:Eb.
    destruct (da_panics _); [discriminate|]. intros [= Hc <-]. apply combine_ok in Hc as [-> Hu].
    split; [exact (backup_and_meta_ok _ _ _ _ _ Eb)|].
    destruct (upload_ok _ _ _ (Hup _) Hu) as (Hf & _).
    destruct (local_committed g (Some (Ok tt)) catalog _ _ Hch (Hup _) Hf) as [_ Hcm].
    exists (local_config e g (Some (Ok tt)) catalog), (concat (channel_sent e)).
    split; [apply on_server_of; auto | reflexivity].
Qed.

End committed.

(** ** A run

    The environment of a run ([db_env] of [Plan]) with everything below it: what the
    catalog of the server says of a database ([Probe]), and its backup. *)
Record db_answers := {
  dx_env : sql_backup_env; dx_time : Z; dx_note_time : Z; dx_check_time : Z; dx_full_time : Z }.

Section run.
Context `{DebugFmt}.
Variables (conn : SqlConnection) (password : option str) (gate : sql_server).

(** What the backup of one database is given. *)
Definition target_of (database : str) (params : SessionParams) (archive : str)
    (crypt : option CryptConfig) (compress : bool) : sql_target :=
  {| tg_params := params; tg_archive := archive; tg_crypt := crypt; tg_compress := compress;
     tg_total := default 0 (data_size_bytes gate database) |}.

Definition db_env_of (database : str) (x : db_answers) : db_env :=
  {| de_state := db_state gate database; de_time := dx_time x;
     de_backup agent params archive crypt compress kind copy_only :=
       (backup_one (dx_env x) agent (sc_server conn) (sc_port conn) (sc_auth conn) password database
          (target_of database params archive crypt compress) kind copy_only).1;
     de_note_time := dx_note_time x; de_check_time := dx_check_time x; de_full_time := dx_full_time x |}.

End run.

(** The run says why a database was not backed up. *)
Definition reported (db : str) (t : tally) : Prop :=
  exists why, In (in_db db why) (t_failed t ++ t_warned t ++ t_skipped t).

Section loop.
Context `{SchedJson} `{DebugFmt}.
Variables (c : config_state) (conn : SqlConnection) (plan : PlanKind) (run : SqlRun)
  (server_id backup_id job_id : str) (crypt : option CryptConfig) (compress : bool).

Lemma reported_more db t t' :
  (forall r, In r (t_failed t) -> In r (t_failed t')) ->
  (forall r, In r (t_warned t) -> In r (t_warned t')) ->
  (forall r, In r (t_skipped t) -> In r (t_skipped t')) -> reported db t -> reported db t'.
Proof.
  intros H1 H2 H3 [why Hin]. exists why. rewrite !in_app_iff in *. intuition.
Qed.

Lemma db_error_reports db e s kind message t : reported db (db_error job_id db e s kind message t).
Proof.
  unfold db_error, reported. destruct (_ && _); [destruct (note_no_chain _ _ _ _) as [since d]; destruct (_ <=? _)|];
    cbn; eexists; rewrite !in_app_iff; cbn; eauto.
Qed.

Lemma db_error_keeps db db' e s kind message t :
  reported db' t -> reported db' (db_error job_id db e s kind message t).
Proof.
  apply reported_more; unfold db_error; intros r Hr;
    (destruct (_ && _); [destruct (note_no_chain _ _ _ _) as [since d]; destruct (_ <=? _)|]);
    cbn; rewrite ?in_app_iff; auto.
Qed.

Lemma backup_db_keeps db e t db' : reported db' t ->
  reported db' (backup_db c conn plan run server_id backup_id job_id crypt compress db e t).
Proof.
  intros Hr. unfold backup_db. destruct (de_state e) as [s|err].
  2:{ revert Hr. apply reported_more; cbn; intros; rewrite ?in_app_iff; auto. }
  destruct (Plan.decide _ _ _ _) as [kind copy_only note|why].
  2:{ revert Hr. apply reported_more; cbn; intros; rewrite ?in_app_iff; auto. }
  destruct (sql_group_and_archive _ _ _) as [group archive].
  destruct (pbs_session_params _ _ _ _ _) as [params|err].
  2:{ revert Hr. apply reported_more; cbn; intros; rewrite ?in_app_iff; auto. }
  destruct (de_backup _ _ _ _ _ _ _ _); [exact Hr | apply db_error_keeps, Hr].
Qed.

Lemma backup_dbs_keeps l : forall t db', reported db' t ->
  reported db' (backup_dbs c conn plan run server_id backup_id job_id crypt compress l t).
Proof.
  induction l as [|[db e] l IH]; intros t db' Hr; [exact Hr|]. apply IH, backup_db_keeps, Hr.
Qed.

(** The backup that the rules ask of a database has been made. *)
Definition made (db : str) (e : db_env) : Prop :=
  exists s lf kind copy_only note params stats,
    de_state e = Ok s /\ Plan.decide plan run s lf = Backup kind copy_only note /\
    pbs_session_params c server_id (sql_group_and_archive backup_id db kind).1 (L "host") (de_time e) = Ok params /\
    de_backup e (sc_relay_agent conn) params (sql_group_and_archive backup_id db kind).2 crypt compress
      kind copy_only = Ok stats.

Lemma backup_db_made db e t :
  made db e \/ reported db (backup_db c conn plan run server_id backup_id job_id crypt compress db e t).
Proof.
  unfold backup_db. destruct (de_state e) as [s|err] eqn:Hs.
  2:{ right. exists err. cbn. rewrite !in_app_iff. cbn. auto. }
  destruct (Plan.decide _ _ _ _) as [kind copy_only note|why] eqn:Hd.
  2:{ right. exists why. cbn. rewrite !in_app_iff. cbn. auto. }
  destruct (sql_group_and_archive _ _ _) as [group archive] eqn:Hg.
  destruct (pbs_session_params _ _ _ _ _) as [params|err] eqn:Hp.
  2:{ right. exists err. cbn. rewrite !in_app_iff. cbn. auto. }
  destruct (de_backup _ _ _ _ _ _ _ _) as [stats|message] eqn:Hb; [left | right; apply db_error_reports].
  exists s, (t_local_full t), kind, copy_only, note, params, stats. rewrite Hg. auto.
Qed.

Lemma backup_dbs_made l : forall t db e, In (db, e) l ->
  made db e \/ reported db (backup_dbs c conn plan run server_id backup_id job_id crypt compress l t).
Proof.
  induction l as [|[db0 e0] l IH]; intros t db e Hin; [destruct Hin|].
  destruct Hin as [[= -> ->]|Hin]; [|apply IH, Hin].
  destruct (backup_db_made db e t) as [Hm|Hr]; [left; exact Hm | right; exact (backup_dbs_keeps l _ db Hr)].
Qed.

End loop.

(** ** Properties of runs *)

Section stored.
Context `{SchedJson} `{DebugFmt} `{PercentLib} `{HexLib} `{SessionLibs} `{Crc32Lib} `{HashLib}
  `{ZstdLib} `{AeadLib} `{ManifestJson}.

(** The snapshot of the backup that the rules ask for: in the group and archive of the
    database, from a statement of that kind that succeeded. *)
Definition snapshot_made (c : config_state) (conn : SqlConnection) (gate : sql_server) (plan : PlanKind)
    (run : SqlRun) (server_id backup_id : str) (crypt : option CryptConfig) (compress : bool)
    (db : str) (x : db_answers) : Prop :=
  exists s lf kind copy_only note params cfg data stats log,
    db_state gate db = Ok s /\ Plan.decide plan run s lf = Backup kind copy_only note /\
    pbs_session_params c server_id (sql_group_and_archive backup_id db kind).1 (L "host") (dx_time x) = Ok params /\
    statement_succeeded (dx_env x) db kind copy_only log /\
    on_server (dx_env x)
      (target_of gate db params (sql_group_and_archive backup_id db kind).2 crypt compress) cfg
      (backup_and_meta (dx_env x) db kind copy_only).1.2 data stats /\
    source_read (dx_env x) (sc_relay_agent conn) data.

(** C4: every database of a SQL run is on the server or reported.  When SQL Server was
    reached, each selected database either has a snapshot that the server finished, in
    its own group, of the kind of backup that the rules ask for, made by a statement that
    succeeded, with every byte the uploader read stored, its size reported and the
    metadata of its chain beside it if SQL Server gave it; or it is named with the reason
    among the failed, the warned or the skipped ones, whatever happened to the others. *)
Theorem sql_run_stored (human_bytes : Z -> str) c cid databases plan run sid bid crypt compress job_id
    envs d conn password gate :
  sql_conn_and_password c cid = Ok (conn, password) -> databases <> [] ->
  Forall (fun x => (forall cfg, reachable cfg (be_upload (dx_env x) cfg)) /\
                   forall b, concat (be_chunks (dx_env x) b) = b) envs ->
  let env := zip_with (db_env_of conn password gate) databases envs in
  let t := backup_dbs c conn plan run sid bid job_id crypt compress (zip databases env)
             (start_tally job_id d [EvPhase (L "connecting to SQL Server...")]) in
  backup_sql_to_pbs human_bytes c cid databases plan run sid bid crypt compress job_id (Ok tt) env d
  = (conclude human_bytes t, t_disk t, t_events t) /\
    Forall (fun '(db, x) => snapshot_made c conn gate plan run sid bid crypt compress db x \/ reported db t)
      (zip databases envs).
Proof.
  intros Hconn Hne Hup. unfold backup_sql_to_pbs. rewrite Hconn.
  destruct databases as [|db0 dbs]; [destruct (Hne eq_refl)|]. cbv zeta.
  split; [reflexivity|]. apply Forall_forall. intros [db x] Hin.
  assert (In (db, db_env_of conn password gate db x)
            (zip (db0 :: dbs) (zip_with (db_env_of conn password gate) (db0 :: dbs) envs))) as Hz.
  { apply list_elem_of_In. apply elem_of_lookup_zip_with in Hin as (i & db' & x' & [= -> ->] & Hd & Hx).
    apply elem_of_lookup_zip_with. exists i, db', (db_env_of conn password gate db' x').
    split; [reflexivity|]. split; [exact Hd|]. apply lookup_zip_with_Some. eauto. }
  destruct (backup_dbs_made c conn plan run sid bid job_id crypt compress _
    (start_tally job_id d [EvPhase (L "connecting to SQL Server...")]) _ _ Hz) as [Hm|Hr];
    [left | right; exact Hr].
  destruct Hm as (s & lf & kind & copy_only & note & params & stats & Hs & Hd & Hp & Hb).
  cbn [db_env_of de_state de_time de_backup] in *.
  assert (In x envs) as Hx
    by (apply list_elem_of_In; apply elem_of_lookup_zip_with in Hin as (i & ? & ? & [= -> ->] & _ & Hl);
        eapply list_elem_of_lookup_2, Hl).
  destruct (proj1 (Forall_forall _ _) Hup x (proj2 (list_elem_of_In _ _) Hx)) as [Hu Hch].
  destruct (backup_one _ _ _ _ _ _ _ _ _ _) as [r log] eqn:Eb. cbn in Hb. subst r.
  destruct (backup_one_stored _ _ _ _ _ _ _ _ _ _ _ _ Hu Hch Eb) as [Hst (cfg & data & Hos & Hsrc)].
  exists s, lf, kind, copy_only, note, params, cfg, data, stats, log. auto 10.
Qed.

(** ** Relayed backups *)

Lemma read_to_end_split reads data :
  read_to_end reads = (data, Some (Ok tt)) ->
  exists evs n rest, reads = evs ++ (n, Ok []) :: rest /\ concat (map data_of evs) = data.
Proof.
  revert data. induction reads as [|[n [d|err]] reads IH]; intros data; cbn [read_to_end]; try discriminate.
  destruct d as [|b d]; [intros [= <-]; exists [], n, reads; auto|].
  destruct (read_to_end reads) as [b' r]. intros [= <- ->].
  destruct (IH b' eq_refl) as (evs & m & rest & -> & Hc).
  exists ((n, Ok (b :: d)) :: evs), m, rest. split; [reflexivity|]. cbn. rewrite Hc. reflexivity.
Qed.

Lemma stream_run_prefix `{ControlJson} s l1 l2 s' : stream_run s (l1 ++ l2) s' -> exists s1, stream_run s l1 s1.
Proof.
  intros Hr. remember (l1 ++ l2) as l eqn:E. revert l1 E.
  induction Hr as [s|s s1 s2 evs Hs Hr IH|s s1 s2 ev evs Hs Hr IH]; intros l1 E.
  - symmetry in E. apply app_eq_nil in E as [-> _]. eexists. constructor.
  - destruct (IH l1 E) as [s3 Hr3]. exists s3. eapply run_tau; eauto.
  - destruct l1 as [|ev1 l1]; [eexists; constructor|]. injection E as -> E.
    destruct (IH l1 E) as [s3 Hr3]. exists s3. eapply run_event; eauto.
Qed.

(** What the reads of the relay's stream give up to their end is what SQL Server wrote on
    the other host. *)
Lemma relay_read_written `{ControlLaws} io_show sid tok co1 co2 ce op script stopped room fl res w p tl msg conn
    reads data s :
  run_backup_session io_show sid tok (relay_backup_device co1 co2 ce op script stopped)
    (Ok (Writer [] room fl)) = (res, Some w) ->
  p `prefix_of` w_sent w ->
  read_frame (Reader p tl) = (Ok (Some (Control msg)), conn) ->
  stream_run (backup_stream_init conn) reads s -> Forall (fun r => (0 < r.1)%nat) reads ->
  read_to_end reads = (data, Some (Ok tt)) ->
  data = concat (written script) /\ res = Ok (Z.of_nat (length (concat (written script)))).
Proof.
  intros Hs Hp Er Hr Hn Hd.
  destruct (read_to_end_split _ _ Hd) as (evs & n & rest & E & Hdata). rewrite E in Hr, Hn.
  change ((n, Ok []) :: rest) with ([(n, Ok [])] ++ rest) in Hr. rewrite app_assoc in Hr.
  apply stream_run_prefix in Hr as [s1 Hr].
  assert (0 < n)%nat as Hpos by (apply Forall_app in Hn as [_ Hn]; inversion Hn; assumption).
  destruct (relay_eof io_show _ _ _ _ _ _ _ _ _ _ _ _ _ _ Hs Hp Er Hr Hpos) as (Hb & k & -> & Hdone).
  destruct (relay_device_done _ _ _ _ _ _ _ Hdone) as [Hw ->]. split; congruence.
Qed.

(** C6: a relayed backup of a database, end to end: whatever the device on the SQL
    Server host meets, wherever the data connection breaks and however the proxy's pump,
    reader and uploads interleave, a snapshot that is finished holds exactly what SQL
    Server wrote to the device on that host, the device was closed cleanly there, and the
    server has every chunk. *)
Theorem relayed_commit_whole `{ControlLaws} io_show e g catalog u ok sid tok co1 co2 ce op script stopped
    room fl res w p tl msg conn s :
  run_backup_session io_show sid tok (relay_backup_device co1 co2 ce op script stopped)
    (Ok (Writer [] room fl)) = (res, Some w) ->
  p `prefix_of` w_sent w ->
  read_frame (Reader p tl) = (Ok (Some (Control msg)), conn) ->
  stream_run (backup_stream_init conn) (ra_reads (be_relay e)) s ->
  Forall (fun r => (0 < r.1)%nat) (ra_reads (be_relay e)) -> (forall b, concat (be_chunks e b) = b) ->
  reachable (relay_config e g catalog) u -> EvFinish ok ∈ u_log u ->
  committed (relay_config e g catalog) u (concat (written script)) /\
  res = Ok (Z.of_nat (length (concat (written script)))).
Proof.
  intros Hs Hp Er Hr Hn Hch Hu Hf.
  destruct (relay_committed e g catalog u ok Hch Hu Hf) as (data & Hd & Hc).
  destruct (relay_read_written io_show _ _ _ _ _ _ _ _ _ _ _ _ _ _ _ _ _ _ _ Hs Hp Er Hr Hn Hd) as [-> ->]. auto.
Qed.

End stored.

(** ** Relayed restores

    [relay_restore_device]: the device of an agent is filled from the chunks the proxy
    pushes; [takes] is how many of them it takes before its channel closes. *)
Definition filled_device (a : device_answers) (bs : list bytes) : loop_end * list (completion * bytes) :=
  match open_device (da_attach a) (da_open a) with
  | Err err => (Returns (Err err), [])
  | Ok _ => fill_device (da_script a) 0 (stream_reader_new bs)
  end.

Definition relay_restore_device (a : device_answers) (takes : option nat) : restore_device :=
  {| rv_ready := (run_device_session (da_com a) (da_create a) (da_create_ex a) Waits).1;
     rv_takes := takes;
     rv_done bs :=
       match da_panics a with
       | Some err => Err err
       | None =>
           match (run_device_session (da_com a) (da_create a) (da_create_ex a) (filled_device a bs).1).2 with
           | Returns r => Ok r
           | Waits => Err (L "not ended")
           end
       end |}.

(** A relayed restore that succeeds: SQL Server, on the other host, has read the image
    the proxy pushed, from its beginning and without gaps; all of it if it was told of an
    end; and the size reported is what it read, wherever the connection broke. *)
Theorem relayed_restore_reads_image `{ControlLaws} io_show a takes sid tok room fl image w p tl n w' bs :
  p `prefix_of` w_sent (push_data image (Writer [] room fl)) ->
  run_restore_session io_show sid tok (relay_restore_device a takes) (Ok (w, Reader p tl)) = (Ok n, w', bs) ->
  let got := concat (map snd (filled_device a image).2) in
  got `prefix_of` concat image /\
  (Exists (fun c => c_code c.1 = ERROR_HANDLE_EOF) (filled_device a image).2 -> got = concat image) /\
  n = Z.of_nat (length got).
Proof.
  intros Hp Hs. destruct (relayed_restore_whole io_show _ _ _ _ _ _ _ _ _ _ _ _ Hp Hs) as [_ Hd].
  cbn in Hd. destruct (da_panics a); [discriminate|].
  destruct (run_device_session _ _ _ _) as [ready res] eqn:Er. cbn in Hd.
  destruct res as [r|]; [|discriminate]. injection Hd as ->.
  assert ((filled_device a image).1 = Returns (Ok n)) as Hf
    by (unfold run_device_session in Er; destruct (da_com a), (da_create a), (da_create_ex a); congruence).
  unfold filled_device in *. destruct (open_device _ _); [|discriminate].
  destruct (fill_device _ _ _) as [r cs] eqn:Ef. cbn in *. subst r.
  rewrite (fill_device_same _ _ _ {| is_data := concat image; is_pos := 0 |}) in Ef
    by (cbn; unfold stream_remaining; cbn; rewrite drop_0; reflexivity).
  destruct (restore_fills_in_order _ _ _ _ Ef) as (H1 & H2 & H3). auto.
Qed.

(** ** Backups to a file *)

Section files.
Variable e : sql_backup_env.

Lemma file_clean room n : (run_device_loop e (SinkFile [] room)).1.2 = Returns (Ok n) ->
  sink_data (run_device_loop e (SinkFile [] room)).2 = device_written e /\
  n = Z.of_nat (length (device_written e)).
Proof.
  unfold run_device_loop, device_written, drain_session.
  destruct (open_device _ _) as [u|err].
  2:{ destruct (da_com _), (da_create _), (da_create_ex _); discriminate. }
  destruct (drain_device _ _ _) as [[r cs] sink] eqn:E.
  destruct (da_com _), (da_create _), (da_create_ex _); cbn; intros Er; try discriminate.
  subst r. destruct (drain_sound _ _ _ _ _ _ E) as [_ Hd]. destruct (Hd n eq_refl) as (Hs & Ha & Hn).
  rewrite Hs, Ha. cbn. auto.
Qed.

(** A backup to a file that reports success: the statement succeeded, the file holds
    exactly what SQL Server wrote, and the size reported is its size. *)
Theorem file_backup_whole server port auth password database output_path created room n file log :
  backup_database_to_file e server port auth password database output_path created room
  = (Ok n, file, log) ->
  file = Some (device_written e) /\ n = Z.of_nat (length (device_written e)) /\
  statement_succeeded e database Full true log.
Proof.
  unfold backup_database_to_file. destruct (connect _ _ _ _ _); [|discriminate].
  destruct created; [|discriminate].
  pose proof (file_clean room) as Hc.
  destruct (run_device_loop e (SinkFile [] room)) as [[ready res] sink]. cbn [fst snd] in Hc.
  destruct (await_ready ready); [|discriminate].
  destruct (issue_backup _ _ _ _ _ _) as [backup log0] eqn:Ei. destruct (da_panics _); [discriminate|].
  destruct backup as [u|err], res as [[k|err']|]; cbn; try discriminate. intros [= -> <- <-].
  destruct (Hc n eq_refl) as [-> Hn]. split; [reflexivity|]. split; [exact Hn|].
  destruct (issue_ok e _ _ _ _ _ Ei) as (sql & rows & Hs & Ha & ->). exists sql, rows, []. auto.
Qed.

End files.

(** ** A sample database

    SQL Server writes three bytes and closes the device; the uploader runs against a
    server that accepts everything. *)
Module SampleSql.
Import Sample SampleStore SampleJson SampleControl.
#[local] Existing Instance sample_percent.
#[local] Existing Instance sample_libs.
#[local] Existing Instance sample_manifest_json.
#[local] Existing Instance sample_debug.

Definition the_server : sql_server := sample_replica "PRIMARY" 1 false.

Definition network : sql_net :=
  {| sn_tcp := fun _ _ => Ok tt; sn_nodelay := Ok tt; sn_login := fun _ _ _ => Ok the_server |}.

Definition relayed_reads : list (nat * result io_error bytes) :=
  [(2%nat, Ok (bstr "BA")); (2%nat, Ok (bstr "K")); (2%nat, Ok [])].

(** The server answers [BACKUP] with [backup], and has a row of metadata for it. *)
Definition answers (backup : result str (list row)) : sql_backup_env :=
  {| be_net := network;
     be_ask log := match log with [_] => backup | _ => Ok [[(L "btype", CStr (L "D"))]] end;
     be_uuid := L "0"; be_meta_json := fun _ => Ok (bstr "{}");
     be_device := {| da_com := Ok tt; da_create := Ok tt; da_create_ex := Ok tt; da_attach := Attached;
                     da_open := Ok tt; da_script := sample_script; da_panics := None |};
     be_relay := {| ra_listening := true; ra_stream := fun _ _ _ => Ok tt; ra_reads := relayed_reads |};
     be_cancelled := false; be_chunks b := [b]; be_cut _ := []; be_buffer := 2;
     be_width := 1; be_index_uuid := replicate 16 x00;
     be_upload cfg := up_run Session.sample_env cfg 40 (init cfg) |}.

Definition target : sql_target :=
  {| tg_params := sample_params; tg_archive := L "db.didx"; tg_crypt := None; tg_compress := true;
     tg_total := 0 |}.

Definition finishes (u : up_state) : list bool :=
  omap (fun ev => match ev with EvFinish ok => Some ok | _ => None end) (u_log u).

(** What the result of a backup is, and whether its upload was finished. *)
Definition outcome (relay_agent : option str) (backup : result str (list row)) :
    result str Z * list bool :=
  let e := answers backup in
  let '(r, _) := backup_one e relay_agent (L "SQL1") None Integrated None (L "db") target Full true in
  let '(b, catalog, _) := backup_and_meta e (L "db") Full true in
  (s ← r; Ok (st_bytes s),
   finishes (be_upload e (match relay_agent with
                          | None => local_config e target (Some b) catalog
                          | Some _ => relay_config e target catalog
                          end))).

(** A local backup whose statement fails is not committed. *)
Example local_outcomes :
  outcome None (Ok []) = (Ok 3, [true]) /\
  outcome None (Err (L "3271")) =
    (Err (L "PBS upload failed: " ++ show_error (Io (IoError UnexpectedEof BACKUP_INCOMPLETE))
          ++ L "; BACKUP also failed: 3271"), []).
Proof. split; vm_compute; reflexivity. Qed.

(** A relayed backup whose statement fails after the device was closed is reported as
    failed, but its snapshot is on the server. *)
Example relay_commits_failed_backup :
  outcome (Some (L "agent")) (Err (L "3271")) =
    (Err (L "BACKUP failed: the BACKUP statement failed on the remote instance: 3271"), [true]).
Proof. vm_compute. reflexivity. Qed.

(** Two databases of one folder job get the same file when their backups start in the
    same second. *)
Example folder_names_collide :
  path_join (L "D:\bak") (sanitize (L "My DB") ++ L "-" ++ dec 1700000000 ++ L ".bak") =
  path_join (L "D:\bak") (sanitize (L "my_db") ++ L "-" ++ dec 1700000000 ++ L ".bak").
Proof. vm_compute. reflexivity. Qed.

Lemma sample_chunks r b : concat (be_chunks (answers r) b) = b.
Proof. apply app_nil_r. Qed.

Lemma sample_uploads r cfg : reachable cfg (be_upload (answers r) cfg).
Proof. apply up_run_reachable. Qed.

(** The last event of an upload that ran to its end. *)
Definition ends_finished (u : up_state) : bool :=
  match last (u_log u) with Some (EvFinish true) => true | _ => false end.

Lemma ends_finished_elem u : ends_finished u = true -> EvFinish true ∈ u_log u.
Proof.
  unfold ends_finished. destruct (last (u_log u)) as [[]|] eqn:E; try discriminate.
  destruct ok; [|discriminate]. intros _. apply last_Some in E as [l ->]. apply elem_of_app. right. constructor.
Qed.

Definition sample_blob : option (str * bytes) := Some (META_BLOB_NAME, bstr "{}").
Definition local_cfg : config := local_config (answers (Ok [])) target (Some (Ok tt)) sample_blob.
Definition relay_cfg : config := relay_config (answers (Ok [])) target sample_blob.

Lemma local_finished : ends_finished (be_upload (answers (Ok [])) local_cfg) = true.
Proof. vm_compute. reflexivity. Qed.
Lemma relay_finished : ends_finished (be_upload (answers (Ok [])) relay_cfg) = true.
Proof. vm_compute. reflexivity. Qed.

Lemma sample_closed : closed_cleanly (answers (Ok [])).
Proof. exists 3. vm_compute. reflexivity. Qed.

Lemma failed_backup_not_committed_witness :
  committed local_cfg (be_upload (answers (Ok [])) local_cfg) (device_written (answers (Ok []))) /\
  device_written (answers (Ok [])) = bstr "BAK".
Proof.
  split; [|reflexivity].
  exact (proj2 (proj2 (failed_backup_not_committed (answers (Ok [])) target (Some (Ok tt)) sample_blob
    (be_upload (answers (Ok [])) local_cfg) true (sample_chunks _) (sample_uploads _ _)
    (ends_finished_elem _ local_finished))) sample_closed).
Defined.

Definition show_io (x : io_error) : str := io_text x.

Lemma relayed_commit_whole_witness :
  committed relay_cfg (be_upload (answers (Ok [])) relay_cfg) (concat (written sample_script)) /\
  @Ok str Z 3 = Ok (Z.of_nat (length (concat (written sample_script)))).
Proof.
  destruct relayed_run as [s Hs].
  refine (relayed_commit_whole show_io (answers (Ok [])) target sample_blob
            (be_upload (answers (Ok [])) relay_cfg) true (L "s1") (L "t") (Ok tt) (Ok tt) (Ok tt) (Ok tt)
            sample_script (Err (L "closed")) None true (Ok 3)
            (Writer relayed_sent None true) relayed_sent None (Hello (L "s1") (L "t")) relayed_conn s
            _ _ _ Hs _ (sample_chunks _) (sample_uploads _ _) (ends_finished_elem _ relay_finished)).
  - vm_compute. reflexivity.
  - reflexivity.
  - vm_compute. reflexivity.
  - repeat constructor.
Defined.

Lemma file_backup_whole_witness :
  Some (bstr "BAK") = Some (device_written (answers (Ok []))) /\ 3 = Z.of_nat (length (device_written (answers (Ok [])))).
Proof.
  destruct (file_backup_whole (answers (Ok [])) (L "SQL1") None Integrated None (L "db") (L "D:\db.bak") (Ok tt)
    None 3 (Some (bstr "BAK")) [L "BACKUP DATABASE [db] TO VIRTUAL_DEVICE = 'pbsgui-0' WITH COPY_ONLY"])
    as (H1 & H2 & _); [vm_compute; reflexivity | auto].
Defined.

(** A run of two databases, of which the server has one. *)
Definition pbs : PbsServer :=
  {| ps_id := L "s"; ps_name := L "s"; ps_repository := L "a@pbs!t@pbs:store";
     ps_fingerprint := sp_fingerprint sample_params |}.
Definition saved : config_state :=
  {| c_jobs := store0 JOBS; c_sql := with_items [Plan.sample_conn] (store0 SQL);
     c_pbs := with_items [pbs] (store0 PBS);
     c_world := set_secrets {[ pbs_secret_key (L "s") := L "secret" ]} world0 |}.
Definition db_answer (r : result str (list row)) : db_answers :=
  {| dx_env := answers r; dx_time := 100; dx_note_time := 101; dx_check_time := 102; dx_full_time := 103 |}.
Definition two : list db_answers := [db_answer (Ok []); db_answer (Ok [])].

Example two_databases :
  (backup_sql_to_pbs dec saved (L "c") [L "db"; L "gone"] PkPointInTime RunFull (L "s") (L "bk") None true
     (L "job") (Ok tt) (zip_with (db_env_of Plan.sample_conn None the_server) [L "db"; L "gone"] two) sample_disk).1.1
  = Err (L "backed up 1, but 1 database(s) failed: [gone]: database [gone] not found on this instance").
Proof. vm_compute. reflexivity. Qed.

Definition two_run : tally :=
  backup_dbs saved Plan.sample_conn PkPointInTime RunFull (L "s") (L "bk") (L "job") None true
    (zip [L "db"; L "gone"] (zip_with (db_env_of Plan.sample_conn None the_server) [L "db"; L "gone"] two))
    (start_tally (L "job") sample_disk [EvPhase (L "connecting to SQL Server...")]).

Lemma two_noted : t_failed two_run ++ t_warned two_run ++ t_skipped two_run
  = [L "[gone]: database [gone] not found on this instance"].
Proof. vm_compute. reflexivity. Qed.

Lemma db_not_reported : reported (L "db") two_run -> False.
Proof. unfold reported. rewrite two_noted. intros [why [E|[]]]. discriminate E. Qed.

Lemma sql_run_stored_witness :
  snapshot_made saved Plan.sample_conn the_server PkPointInTime RunFull (L "s") (L "bk") None true (L "db")
    (db_answer (Ok [])).
Proof.
  destruct (sql_run_stored dec saved (L "c") [L "db"; L "gone"] PkPointInTime RunFull (L "s") (L "bk") None true
    (L "job") two sample_disk Plan.sample_conn None the_server) as [_ Hf].
  - reflexivity.
  - discriminate.
  - repeat constructor; try apply sample_uploads; apply sample_chunks.
  - destruct (proj1 (Forall_cons_1 _ _ _ Hf)) as [Hx|Hx]; [exact Hx | destruct (db_not_reported Hx)].
Defined.

End SampleSql.
