(* ===== verification/Changes.v ===== *)
(** Change detection ([pbsgui-engine/src/changedet.rs]): a run of a file job is skipped
    when the fingerprint of its sources is the one of its last successful backup.

    The fingerprint is SHA-256 over the sorted paths, sizes and modification times of the
    files.  The encoding that is hashed is shown to be injective, so, collisions of
    SHA-256 apart, two fingerprints are equal exactly when the files are the same; and
    with the runs of [Runs]: a run is skipped exactly then, whatever else of the job has
    changed. *)

From Stdlib Require Import ZArith Lia Strings.Byte Ascii String Sorted Permutation.
From stdpp Require Import base tactics option numbers list gmap sorting.
From S2P Require Import Prelude Text Base Repository Jobs Sched Stores Plan Runs Channels Files.
Open Scope Z_scope.

(** ** UTF-8 *)

(** [str::as_bytes]. *)
Definition utf8_char (c : Z) : bytes :=
  map Z_u8
    (if c <? 128 then [c]
     else if c <? 2048 then [192 + c / 64; 128 + c mod 64]
     else if c <? 65536 then [224 + c / 4096; 128 + c / 64 mod 64; 128 + c mod 64]
     else [240 + c / 262144; 128 + c / 4096 mod 64; 128 + c / 64 mod 64; 128 + c mod 64]).

Definition utf8 (s : str) : bytes := concat (map utf8_char s).

(** ** Metadata *)

(** [Metadata]: the length, and the modification time in nanoseconds since 1970, if the
    platform has one. *)
Record metadata := { md_len : Z; md_modified : option Z }.

(** [as_secs] drops the fraction; [duration_since] fails before 1970. *)
Definition mtime_secs (md : metadata) : Z :=
  match md_modified md with
  | Some t => if 0 <=? t then signed 64 (t / 1000000000) else 0
  | None => 0
  end.

(** The file system as change detection sees it: [is_dir], [is_file], the walk (in the
    order of the file system) with the metadata of its entries, and [std::fs::metadata]. *)
Record meta_tree := {
  mt_is_dir : path -> bool; mt_is_file : path -> bool;
  mt_walk : path -> list (result str (path * file_kind * result str metadata));
  mt_metadata : path -> result str metadata }.

Definition item : Type := str * Z * Z.

(** The entries of one folder. *)
Fixpoint walk_items (pats : patterns) (entries : list (result str (path * file_kind * result str metadata))) :
    result str (list item) :=
  match entries with
  | [] => Ok []
  | entry :: entries =>
      '(p, kind, md) ← entry;
      if excluded p pats then walk_items pats entries
      else match kind with
           | IsFile =>
               md ← md;
               rest ← walk_items pats entries;
               Ok ((slashes (show_path p), md_len md, mtime_secs md) :: rest)
           | _ => walk_items pats entries
           end
  end.

Definition source_items (t : meta_tree) (pats : patterns) (source : str * path) : result str (list item) :=
  let '(text, root) := source in
  if mt_is_dir t root then walk_items pats (mt_walk t root)
  else if mt_is_file t root && negb (excluded root pats) then
    md ← mt_metadata t root;
    Ok [(text, md_len md, mtime_secs md)]
  else Ok [].

Fixpoint all_items (t : meta_tree) (pats : patterns) (sources : list (str * path)) : result str (list item) :=
  match sources with
  | [] => Ok []
  | s :: sources =>
      l ← source_items t pats s;
      rest ← all_items t pats sources;
      Ok (l ++ rest)
  end.

(** [Vec::sort] of the tuples. *)
Definition item_lt (x y : item) : bool :=
  let '(p, s, m) := x in
  let '(p', s', m') := y in
  str_lt p p' || (str_eqb p p' && ((s <? s') || ((s =? s') && (m <? m')))).

Fixpoint insert_item (x : item) (l : list item) : list item :=
  match l with
  | [] => [x]
  | y :: l' => if item_lt y x then y :: insert_item x l' else x :: l
  end.
Definition sort_items (l : list item) : list item := fold_right insert_item [] l.

(** What the hasher is fed. *)
Definition item_bytes (x : item) : bytes :=
  let '(p, s, m) := x in utf8 p ++ [x00] ++ le_bytes 8 s ++ le_bytes 8 m.

Definition hashed (l : list item) : bytes := concat (map item_bytes (sort_items l)).

Section fingerprint.
Context `{ArchiveLib} `{HashLib}.

Definition fingerprint (t : meta_tree) (parse : str -> path) (sources excludes : list str) : result str bytes :=
  l ← all_items t (compile_excludes excludes) (map (fun s => (s, parse s)) sources);
  Ok (sha256 (hashed l)).

End fingerprint.

(** ** The encoding is injective *)

Definition scalar (c : Z) : Prop := 0 < c < 1114112.

Lemma utf8_char_values c : 0 <= c < 1114112 ->
  map u8_Z (utf8_char c) =
  if c <? 128 then [c]
  else if c <? 2048 then [192 + c / 64; 128 + c mod 64]
  else if c <? 65536 then [224 + c / 4096; 128 + c / 64 mod 64; 128 + c mod 64]
  else [240 + c / 262144; 128 + c / 4096 mod 64; 128 + c / 64 mod 64; 128 + c mod 64].
Proof.
  intros Hc. unfold utf8_char. rewrite map_map. erewrite map_ext_in; [apply map_id|].
  intros x Hx. rewrite u8_Z_u8. apply Z.mod_small.
  destruct (Z.ltb_spec c 128); [destruct Hx as [<-|[]]; lia|].
  destruct (Z.ltb_spec c 2048); [|destruct (Z.ltb_spec c 65536)];
    cbn in Hx; intuition subst; Z.to_euclidean_division_equations; lia.
Qed.

(** No code point's bytes begin those of another. *)
Lemma utf8_char_prefix c c' r r' : 0 <= c < 1114112 -> 0 <= c' < 1114112 ->
  utf8_char c ++ r = utf8_char c' ++ r' -> c = c' /\ r = r'.
Proof.
  intros Hc Hc' E. assert (c = c') as ->; [|split; [reflexivity | exact (app_inv_head _ _ _ E)]].
  apply (f_equal (map u8_Z)) in E. rewrite !map_app, !utf8_char_values in E by assumption.
  destruct (Z.ltb_spec c 128), (Z.ltb_spec c' 128);
  try destruct (Z.ltb_spec c 2048); try destruct (Z.ltb_spec c' 2048);
  try destruct (Z.ltb_spec c 65536); try destruct (Z.ltb_spec c' 65536);
  cbn in E; injection E as; subst; Z.to_euclidean_division_equations; lia.
Qed.

Lemma utf8_inj s s' : Forall scalar s -> Forall scalar s' -> utf8 s = utf8 s' -> s = s'.
Proof.
  intros Hs. revert s'. induction Hs as [|c s Hc Hs IH]; intros s' Hs' E.
  - destruct Hs' as [|c' s' Hc' _]; [reflexivity|]. exfalso. cbn in E. unfold utf8_char in E.
    repeat case_match; discriminate.
  - destruct Hs' as [|c' s' Hc' Hs'].
    + exfalso. cbn in E. unfold utf8_char in E. repeat case_match; discriminate.
    + unfold scalar in *. cbn [utf8 map concat] in E.
      destruct (utf8_char_prefix c c' _ _ ltac:(lia) ltac:(lia) E) as [-> E'].
      f_equal. apply IH; assumption.
Qed.

Lemma utf8_no_nul s : Forall scalar s -> Forall (fun b => b <> x00) (utf8 s).
Proof.
  induction 1 as [|c s Hc _ IH]; [constructor|]. unfold utf8. cbn. apply Forall_app. split; [|exact IH].
  unfold scalar in Hc. apply Forall_forall. intros b Hb ->.
  assert (In 0 (map u8_Z (utf8_char c))) as Hin by (apply (in_map u8_Z _ x00), list_elem_of_In, Hb).
  rewrite utf8_char_values in Hin by lia.
  destruct (Z.ltb_spec c 128); [|destruct (Z.ltb_spec c 2048); [|destruct (Z.ltb_spec c 65536)]];
    cbn in Hin; intuition; Z.to_euclidean_division_equations; lia.
Qed.

(** Splitting at the first zero byte. *)
Lemma nul_split a b r r' : Forall (fun x => x <> x00) a -> Forall (fun x => x <> x00) b ->
  a ++ x00 :: r = b ++ x00 :: r' -> a = b /\ r = r'.
Proof.
  intros Ha. revert b. induction Ha as [|x a Hx Ha IH]; intros b Hb E.
  - destruct Hb as [|y b Hy _]; injection E; intros; subst; [auto | contradiction].
  - destruct Hb as [|y b Hy Hb]; injection E as -> E; [contradiction|].
    destruct (IH b Hb E) as [-> ->]. auto.
Qed.

(** Paths are text without zeros, sizes are [u64] and times [i64]. *)
Definition item_ok (x : item) : Prop :=
  Forall scalar x.1.1 /\ 0 <= x.1.2 < 2 ^ 64 /\ i_range 64 x.2.

Lemma item_bytes_prefix x y r r' : item_ok x -> item_ok y ->
  item_bytes x ++ r = item_bytes y ++ r' -> x = y /\ r = r'.
Proof.
  destruct x as [[p s] m], y as [[p' s'] m']. intros (Hp & Hs & Hm) (Hp' & Hs' & Hm'). cbn in *.
  rewrite <- !app_assoc. cbn. intros E.
  destruct (nul_split _ _ _ _ (utf8_no_nul _ Hp) (utf8_no_nul _ Hp') E) as [E1 E2].
  rewrite <- !app_assoc in E2.
  apply app_inj_1 in E2 as [E2 E3]; [|rewrite !length_le_bytes; reflexivity].
  apply app_inj_1 in E3 as [E3 E4]; [|rewrite !length_le_bytes; reflexivity].
  apply (f_equal le_value) in E2, E3. rewrite (utf8_inj _ _ Hp Hp' E1).
  rewrite !le_value_bytes in E2. rewrite !Z.mod_small in E2 by assumption.
  apply (f_equal (signed 64)) in E3. rewrite !signed_le_bytes_64 in E3 by assumption. subst. auto.
Qed.

Lemma items_inj l l' : Forall item_ok l -> Forall item_ok l' ->
  concat (map item_bytes l) = concat (map item_bytes l') -> l = l'.
Proof.
  intros Hl. revert l'. induction Hl as [|x l Hx Hl IH]; intros l' Hl' E.
  - destruct Hl' as [|[[p s] m] l' _ _]; [reflexivity|]. exfalso. cbn in E.
    destruct (utf8 p); discriminate.
  - destruct Hl' as [|y l' Hy Hl'].
    + exfalso. destruct x as [[p s] m]. cbn in E. destruct (utf8 p); discriminate.
    + cbn in E. destruct (item_bytes_prefix x y _ _ Hx Hy E) as [-> E']. f_equal. apply IH; assumption.
Qed.

(** ** Sorting *)

Definition item_le (x y : item) : Prop := item_lt y x = false.

Lemma item_lt_spec x y : item_lt x y = true <->
  str_lt x.1.1 y.1.1 = true \/ x.1.1 = y.1.1 /\ (x.1.2 < y.1.2 \/ x.1.2 = y.1.2 /\ x.2 < y.2).
Proof.
  destruct x as [[p s] m], y as [[p' s'] m']. cbn. unfold str_eqb.
  rewrite orb_true_iff, andb_true_iff, orb_true_iff, andb_true_iff, bool_decide_eq_true.
  rewrite !Z.ltb_lt, Z.eqb_eq. reflexivity.
Qed.

Lemma item_lt_trans x y z : item_lt x y = true -> item_lt y z = true -> item_lt x z = true.
Proof.
  rewrite !item_lt_spec. intros [H1|(E1 & H1)] [H2|(E2 & H2)].
  - left. eapply str_lt_trans; eauto.
  - left. rewrite <- E2. exact H1.
  - left. rewrite E1. exact H2.
  - right. split; [congruence | lia].
Qed.

Lemma item_lt_total x y : item_lt x y = false -> item_lt y x = false -> x = y.
Proof.
  intros H1 H2.
  assert (~ (str_lt x.1.1 y.1.1 = true \/ x.1.1 = y.1.1 /\ (x.1.2 < y.1.2 \/ x.1.2 = y.1.2 /\ x.2 < y.2))) as N1
    by (rewrite <- item_lt_spec; congruence).
  assert (~ (str_lt y.1.1 x.1.1 = true \/ y.1.1 = x.1.1 /\ (y.1.2 < x.1.2 \/ y.1.2 = x.1.2 /\ y.2 < x.2))) as N2
    by (rewrite <- item_lt_spec; congruence).
  assert (x.1.1 = y.1.1) as E
    by (apply str_lt_total; apply not_true_is_false; intros E; [apply N1 | apply N2]; auto).
  destruct x as [[p s] m], y as [[p' s'] m']. cbn in *. subst p'.
  assert (s = s' /\ m = m') as [-> ->]; [|reflexivity].
  destruct (Z.lt_trichotomy s s') as [|[->|]]; [destruct N1; auto 10 | | destruct N2; auto 10].
  destruct (Z.lt_trichotomy m m') as [|[->|]]; [destruct N1; auto 10 | auto | destruct N2; auto 10].
Qed.

#[export] Instance item_le_anti : AntiSymm (=) item_le.
Proof. intros x y H1 H2. apply item_lt_total; assumption. Qed.

Lemma item_le_trans x y z : item_le x y -> item_le y z -> item_le x z.
Proof.
  unfold item_le. intros H1 H2. destruct (item_lt z x) eqn:E; [|reflexivity].
  destruct (item_lt x y) eqn:E2.
  - rewrite (item_lt_trans _ _ _ E E2) in H2. discriminate.
  - rewrite (item_lt_total _ _ E2 H1) in E. congruence.
Qed.

Lemma insert_item_perm x l : Permutation (x :: l) (insert_item x l).
Proof.
  induction l as [|y l IH]; cbn; [reflexivity|].
  destruct (item_lt _ _); [|reflexivity]. rewrite <- IH. apply perm_swap.
Qed.

Lemma sort_items_perm l : Permutation l (sort_items l).
Proof. induction l as [|x l IH]; cbn; [constructor|]. rewrite <- insert_item_perm. auto. Qed.

Lemma insert_item_sorted x l : StronglySorted item_le l -> StronglySorted item_le (insert_item x l).
Proof.
  intros Hs. induction Hs as [|y l Hs IH Hy]; cbn; [repeat constructor|].
  destruct (item_lt y x) eqn:E.
  - constructor; [exact IH|]. rewrite <- insert_item_perm. constructor; [|exact Hy].
    unfold item_le. destruct (item_lt x y) eqn:E2; [|reflexivity].
    pose proof (item_lt_trans _ _ _ E E2) as Ht. apply item_lt_spec in Ht. rewrite str_lt_irrefl in Ht.
    destruct Ht as [?|?]; [discriminate | lia].
  - constructor; [constructor; assumption|]. constructor; [exact E|].
    eapply Forall_impl; [exact Hy|]. intros z Hz. eapply item_le_trans; [exact E | exact Hz].
Qed.

Lemma sort_items_sorted l : StronglySorted item_le (sort_items l).
Proof. induction l; cbn; [constructor | apply insert_item_sorted; assumption]. Qed.

Lemma sort_items_same l l' : sort_items l = sort_items l' <-> Permutation l l'.
Proof.
  split; intros Hp.
  - rewrite (sort_items_perm l), Hp. symmetry. apply sort_items_perm.
  - apply (StronglySorted_unique item_le); [apply sort_items_sorted..|].
    rewrite <- !sort_items_perm. exact Hp.
Qed.

(** The hashed bytes are the same exactly when the files are. *)
Lemma hashed_same l l' : Forall item_ok l -> Forall item_ok l' ->
  hashed l = hashed l' <-> Permutation l l'.
Proof.
  intros Hl Hl'. rewrite <- sort_items_same. unfold hashed. split; [|intros ->; reflexivity].
  apply items_inj; [rewrite <- (sort_items_perm l); exact Hl | rewrite <- (sort_items_perm l'); exact Hl'].
Qed.

(** ** Runs *)

Section runs.
Context `{ArchiveLib} `{HashLib} `{SchedJson} `{DebugFmt} `{Base64}.
Variables (human_bytes : Z -> str) (parse : str -> path).

Definition items_of (t : meta_tree) (sources excludes : list str) : result str (list item) :=
  all_items t (compile_excludes excludes) (map (fun s => (s, parse s)) sources).

(** A run whose change detection reads the file system [t]. *)
Definition sees (e : run_env) (t : meta_tree) : Prop := re_fingerprint e = fingerprint t parse.

(** SHA-256 does not collide on the files of these two runs. *)
Definition no_collision (l l' : list item) : Prop :=
  sha256 (hashed l) = sha256 (hashed l') -> hashed l = hashed l'.

Definition skipped_run (d : disk) : result str Outcome * disk * list run_event :=
  (Ok (L "no changes since last run; skipped", None, false), d,
   [EvLog (L "no source changes since last run; skipping backup")]).

(** C34: a run of a file job with change detection after one that succeeded is skipped
    exactly when the files are the same: the same paths with the same sizes and
    modification times, in whatever order the file system lists them (collisions of
    SHA-256 apart); otherwise the backup is made.  Nothing else counts: not what the
    first run had to skip or warn about, nor a change of the job's destination,
    encryption or excludes that leaves the files alone. *)
Theorem skipped_iff_unchanged c c' job job' run run' e e' d o d1 ev sources excludes excludes' t t' l l' :
  j_id job' = j_id job -> d_writable d = true ->
  j_source job = Files sources excludes true -> j_source job' = Files sources excludes' true ->
  sees e t -> sees e' t' -> items_of t sources excludes = Ok l -> items_of t' sources excludes' = Ok l' ->
  Forall item_ok l -> Forall item_ok l' -> no_collision l l' ->
  run_inner human_bytes c job run e d = (Ok o, d1, ev) ->
  (Permutation l l' -> run_inner human_bytes c' job' run' e' d1 = skipped_run d1) /\
  (~ Permutation l l' ->
   (run_inner human_bytes c' job' run' e' d1).1.1 = (do_backup human_bytes c' job' run' e' d1).1.1).
Proof.
  intros Hid Hw Hs Hs' He He' Hl Hl' Hok Hok' Hnc Hrun.
  assert (re_fingerprint e sources excludes = Ok (sha256 (hashed l))) as Hf
    by (rewrite He; unfold fingerprint; unfold items_of in Hl; rewrite Hl; reflexivity).
  assert (re_fingerprint e' sources excludes' = Ok (sha256 (hashed l'))) as Hf'
    by (rewrite He'; unfold fingerprint; unfold items_of in Hl'; rewrite Hl'; reflexivity).
  assert (fp_load d1 (j_id job) = Some (sha256 (hashed l))) as Hfp.
  { pose proof (change_detection human_bytes c job run e d sources excludes _ _ _ _ Hs Hf (sha256_len _) Hw Hrun) as Hc.
    destruct (bool_decide_reflect (fp_load d (j_id job) = Some (sha256 (hashed l)))) as [E|_];
      [destruct Hc as [_ ->]; exact E | exact Hc]. }
  unfold run_inner at 1 2, job_fingerprint. rewrite Hs', Hf'. cbn [mbind result_bind].
  rewrite Hid, Hfp. split; intros Hp.
  - rewrite bool_decide_true; [reflexivity|]. split; [eauto|].
    rewrite (proj2 (hashed_same l l' Hok Hok') Hp). reflexivity.
  - rewrite bool_decide_false.
    + destruct (do_backup human_bytes c' job' run' e' d1) as [[[[[sm st] wn]|x] d2] ev2]; reflexivity.
    + intros [_ [= E]]. apply Hp, (hashed_same l l' Hok Hok'), Hnc, E.
Qed.

End runs.

(** ** A folder *)

Module SampleChanges.
Import Sample SampleStore SampleJson SampleTar.
#[local] Existing Instance sample_debug.
#[local] Existing Instance SampleTar.lib.

Definition data_dir : path := [RootDir; Normal (L "data")].
Definition entry (name : string) (size time : Z) : result str (path * file_kind * result str metadata) :=
  Ok (data_dir ++ [Normal (L name)], IsFile, Ok {| md_len := size; md_modified := Some (time * 1000000000) |}).

Definition folder (entries : list (result str (path * file_kind * result str metadata))) : meta_tree :=
  {| mt_is_dir := fun _ => true; mt_is_file := fun _ => false; mt_walk := fun _ => entries;
     mt_metadata := fun _ => Err (L "none") |}.

Definition parse (_ : str) : path := data_dir.

(** The archiver of [sample_run] had to skip a locked file. *)
Definition run_seeing (t : meta_tree) : run_env :=
  {| re_fingerprint := fingerprint t parse;
     re_files := re_files (sample_run (fun _ => Ok sample_stats));
     re_connected := Ok tt; re_dbs := []; re_folder := [] |}.

Definition before : meta_tree := folder [entry "a" 10 1000; entry "b" 20 2000].
Definition after : meta_tree := folder [entry "b" 20 2000; entry "a" 10 1000].

(** The same job with another destination. *)
Definition moved_job : Job :=
  {| j_id := L "f"; j_name := L "f"; j_source := Files [L "/data"] [] true;
     j_destination := Pbs (L "s") (L "host2"); j_schedule := Manual; j_last_run := None;
     j_last_status := None; j_encrypted := true; j_compress := true |}.

Definition first_run : result str Outcome * disk * list run_event :=
  run_inner dec sample_config files_job RunFull (run_seeing before) sample_disk.

Definition first_outcome : Outcome :=
  match first_run.1.1 with Ok o => o | Err _ => ([], None, false) end.

Lemma first_ok : first_run = (Ok first_outcome, first_run.1.2, first_run.2).
Proof. vm_compute. reflexivity. Qed.

Lemma items_before : items_of parse before [L "/data"] [] = Ok [(L "/data/a", 10, 1000); (L "/data/b", 20, 2000)].
Proof. vm_compute. reflexivity. Qed.
Lemma items_after : items_of parse after [L "/data"] [] = Ok [(L "/data/b", 20, 2000); (L "/data/a", 10, 1000)].
Proof. vm_compute. reflexivity. Qed.

(** After a backup that skipped a file with a warning, the job is sent to another group
    and encrypted; its next run is skipped. *)
Lemma skipped_iff_unchanged_witness :
  first_outcome.2 = true /\
  run_inner dec sample_config moved_job RunFull (run_seeing after) first_run.1.2 = skipped_run first_run.1.2.
Proof.
  split; [vm_compute; reflexivity|].
  refine (proj1 (skipped_iff_unchanged dec parse sample_config sample_config files_job moved_job RunFull RunFull
    (run_seeing before) (run_seeing after) sample_disk first_outcome first_run.1.2 first_run.2
    [L "/data"] [] [] before after _ _ eq_refl eq_refl eq_refl eq_refl eq_refl eq_refl items_before items_after
    _ _ _ first_ok) _).
  - repeat constructor; cbn; unfold scalar, i_range; lia.
  - repeat constructor; cbn; unfold scalar, i_range; lia.
  - intros _. vm_compute. reflexivity.
  - apply perm_swap.
Defined.

(** One entry that cannot be read fails the whole run, although the archiver would have
    skipped it and reported it. *)
Example unreadable_fails_run :
  (run_inner dec sample_config files_job RunFull
     (run_seeing (folder [entry "a" 10 1000; Err (L "access is denied")])) sample_disk).1.1
  = Err (L "access is denied").
Proof. vm_compute. reflexivity. Qed.

End SampleChanges.
