(* ===== verification/Exporter.v ===== *)
(** The metrics exporter ([pbsgui-engine/src/metrics.rs], [write_textfile], [apply] and
    [serve]): the page of [Metrics] over HTTP or in a text file.

    An answer is the bytes that are sent; the theorem reads them with the program's own
    HTTP client ([HttpApi]) and counts the bytes of the header.  [apply] aborts the
    endpoint that runs and starts another; tasks run when the runtime lets them, so the
    endpoints are a step relation, whose invariant says that one endpoint at most is
    wanted, and which an example uses to show that a restarted endpoint may find its port
    still taken. *)

From Stdlib Require Import ZArith Lia Strings.Byte Ascii String.
From stdpp Require Import base tactics option numbers list gmap relations.
From S2P Require Import Prelude Text Base Repository HttpApi Session Upload Jobs Sched Stores Plan Runs Metrics Notify Channels Files Changes.
Open Scope Z_scope.

(** ** Answers *)

(** The status, the content type and the body for a method and a path. *)
Definition answer (page method path : str) : str * str * str :=
  if negb (str_eqb method (L "GET")) then
    (L "405 Method Not Allowed", L "text/plain; charset=utf-8", L "method not allowed" ++ [10])
  else if starts_with (L "/metrics") path then
    (L "200 OK", L "text/plain; version=0.0.4; charset=utf-8", page)
  else if str_eqb path (L "/") then
    (L "200 OK", L "text/html; charset=utf-8",
     L "<html><body>pbsgui metrics: <a href=" ++ [34] ++ L "/metrics" ++ [34] ++ L ">/metrics</a></body></html>")
  else (L "404 Not Found", L "text/plain; charset=utf-8", L "not found" ++ [10]).

Definition NEWLINE : str := [13; 10].

Definition response (a : str * str * str) : str :=
  let '(status, ctype, body) := a in
  L "HTTP/1.1 " ++ status ++ NEWLINE ++ L "Content-Type: " ++ ctype ++ NEWLINE ++
  L "Content-Length: " ++ dec (utf8_len body) ++ NEWLINE ++ L "Connection: close" ++ NEWLINE ++ NEWLINE ++ body.

(** What a connection sends, given what its one read returned: at most 2048 bytes. *)
Definition serve_conn (page : str) (read : result io_error bytes) : option bytes :=
  match read with
  | Err _ | Ok [] => None
  | Ok b =>
      let req := utf8_lossy (take 2048 b) in
      let '(method, path) :=
        match words req with
        | [] => ([], [])
        | [m] => (m, [])
        | m :: p :: _ => (m, p)
        end in
      Some (utf8 (response (answer page method path)))
  end.

(** ** The text file *)

(** The files of the directory: writing the temporary file, which may stop part-way, and
    renaming it. *)
Definition write_textfile (settings : MetricsSettings) (page : str)
    (write : result (option bytes) unit) (rename : result str unit) (files : gmap str bytes) : gmap str bytes :=
  match mt_mode settings with
  | Textfile =>
      let dir := trim (mt_textfile_dir settings) in
      if is_empty dir then files
      else
        let final := path_join dir (L "pbsgui.prom") in
        let tmp := path_join dir (L "pbsgui.prom.tmp") in
        match write with
        | Err part => match part with Some b => <[tmp := b]> files | None => files end
        | Ok _ =>
            let files := <[tmp := utf8 page]> files in
            match rename with
            | Err _ => files
            | Ok _ => <[final := utf8 page]> (delete tmp files)
            end
        end
  | _ => files
  end.

(** ** The endpoint *)

Inductive task_stage := Spawned | Listening | Stopped.

Record endpoint := { ep_bind : str; ep_port : Z; ep_aborted : bool; ep_stage : task_stage }.

(** The tasks that were ever spawned, the handle of the last one, and the settings that
    were applied last. *)
Record exporter := { ex_tasks : list endpoint; ex_handle : option nat;
  ex_settings : option MetricsSettings }.

Definition exporter_new : exporter := {| ex_tasks := []; ex_handle := None; ex_settings := None |}.

Definition set_stage (st : task_stage) (t : endpoint) : endpoint :=
  {| ep_bind := ep_bind t; ep_port := ep_port t; ep_aborted := ep_aborted t; ep_stage := st |}.
Definition abort_task (t : endpoint) : endpoint :=
  {| ep_bind := ep_bind t; ep_port := ep_port t; ep_aborted := true; ep_stage := ep_stage t |}.

Definition apply_settings (settings : MetricsSettings) (s : exporter) : exporter :=
  let tasks := match ex_handle s with Some i => alter abort_task i (ex_tasks s) | None => ex_tasks s end in
  match mt_mode settings with
  | Endpoint =>
      {| ex_tasks := tasks ++ [{| ep_bind := mt_bind settings; ep_port := mt_port settings;
                                  ep_aborted := false; ep_stage := Spawned |}];
         ex_handle := Some (length tasks); ex_settings := Some settings |}
  | _ => {| ex_tasks := tasks; ex_handle := None; ex_settings := Some settings |}
  end.

(** Whether a port is taken by one of these tasks. *)
Definition listening (port : Z) (t : endpoint) : bool :=
  match ep_stage t with Listening => ep_port t =? port | _ => false end.

Definition set_tasks (ts : list endpoint) (s : exporter) : exporter :=
  {| ex_tasks := ts; ex_handle := ex_handle s; ex_settings := ex_settings s |}.

(** A step: settings are applied; a task that was aborted is dropped when the runtime
    gets to it; a task that was spawned binds its address, which is an IP or not, and
    which the system may refuse, as it does when the port is taken. *)
Inductive ex_step : exporter -> exporter -> Prop :=
| ex_apply s settings : ex_step s (apply_settings settings s)
| ex_drop s i t :
    ex_tasks s !! i = Some t -> ep_aborted t = true ->
    ex_step s (set_tasks (<[i := set_stage Stopped t]> (ex_tasks s)) s)
| ex_bind s i t (is_ip bound : bool) :
    ex_tasks s !! i = Some t -> ep_stage t = Spawned -> ep_aborted t = false ->
    (bound = true -> existsb (listening (ep_port t)) (ex_tasks s) = false) ->
    ex_step s (set_tasks (<[i := set_stage (if is_ip && bound then Listening else Stopped) t]> (ex_tasks s)) s).

(** Nothing is left to do: every aborted task was dropped, every other has bound. *)
Definition settled (s : exporter) : Prop :=
  Forall (fun t => ep_stage t = Stopped \/ ep_aborted t = false /\ ep_stage t = Listening) (ex_tasks s).

(** ** Properties *)

(** *** Endpoints *)

(** A task that is not aborted is the one of the handle, with the settings applied last. *)
Definition ex_inv (s : exporter) : Prop :=
  forall i t, ex_tasks s !! i = Some t -> ep_aborted t = false ->
  ex_handle s = Some i /\
  exists settings, ex_settings s = Some settings /\ mt_mode settings = Endpoint /\
    ep_bind t = mt_bind settings /\ ep_port t = mt_port settings.

(** Changing the stage of a task. *)
Lemma ex_inv_stage s i t st : ex_inv s -> ex_tasks s !! i = Some t ->
  ex_inv (set_tasks (<[i := set_stage st t]> (ex_tasks s)) s).
Proof.
  intros Hi Ht j u Hu Ha. cbn in *. destruct (base.decide (i = j)) as [->|Hne].
  - rewrite list_lookup_insert_eq in Hu by (eapply lookup_lt_Some; eauto).
    injection Hu as <-. exact (Hi j t Ht Ha).
  - rewrite list_lookup_insert_ne in Hu by exact Hne. exact (Hi j u Hu Ha).
Qed.

(** What [apply] makes of the tasks there are: all of them aborted. *)
Lemma aborted_all s : ex_inv s ->
  forall i t, (match ex_handle s with Some i => alter abort_task i (ex_tasks s) | None => ex_tasks s end) !! i
              = Some t -> ep_aborted t = true.
Proof.
  intros Hi i t Ht. destruct (ep_aborted t) eqn:Ha; [reflexivity|]. exfalso.
  destruct (ex_handle s) as [h|] eqn:Eh.
  - destruct (base.decide (h = i)) as [->|Hne].
    + rewrite list_lookup_alter_eq in Ht. destruct (ex_tasks s !! i); [|discriminate].
      injection Ht as <-. discriminate.
    + rewrite list_lookup_alter_ne in Ht by exact Hne.
      destruct (Hi i t Ht Ha) as [E _]. rewrite Eh in E. congruence.
  - destruct (Hi i t Ht Ha) as [E _]. rewrite Eh in E. discriminate.
Qed.

Lemma ex_inv_step s s' : ex_step s s' -> ex_inv s -> ex_inv s'.
Proof.
  intros Hs Hi. destruct Hs as [s settings|s i t Ht Ha|s i t is_ip bound Ht Hst Ha _];
    [|apply ex_inv_stage; assumption..].
  pose proof (aborted_all s Hi) as Hall. unfold apply_settings.
  set (tasks := match ex_handle s with Some i => _ | None => _ end) in *.
  destruct (mt_mode settings) eqn:Em; intros i t Ht Ha; cbn in *;
    try (rewrite (Hall i t Ht) in Ha; discriminate).
  apply lookup_app_Some in Ht as [Ht|[Hl Ht]]; [rewrite (Hall i t Ht) in Ha; discriminate|].
  apply list_lookup_singleton_Some in Ht as [E <-].
  split; [f_equal; lia|]. exists settings. auto.
Qed.

Lemma ex_inv_reachable s : rtc ex_step exporter_new s -> ex_inv s.
Proof.
  apply (rtc_ind_r ex_inv exporter_new); [intros i t Ht; discriminate|].
  intros s1 s2 _ Hs. apply ex_inv_step, Hs.
Qed.

(** However often the settings are saved and in whatever order the runtime runs, drops
    and starts the tasks: when all is settled, an endpoint that serves is the one of the
    settings applied last, at their address; there is no other, and none at all when they
    ask for none. *)
Theorem one_endpoint s i t :
  rtc ex_step exporter_new s -> settled s -> ex_tasks s !! i = Some t -> ep_stage t = Listening ->
  ex_handle s = Some i /\
  exists settings, ex_settings s = Some settings /\ mt_mode settings = Endpoint /\
    ep_bind t = mt_bind settings /\ ep_port t = mt_port settings.
Proof.
  intros Hr Hs Ht Hl. apply (ex_inv_reachable s Hr i t Ht).
  destruct (proj1 (Forall_lookup _ _) Hs i t Ht) as [E|[E _]]; [rewrite Hl in E; discriminate | exact E].
Qed.

(** *** The text file *)

(** The file that the collector reads has its old contents or the whole new page. *)
Theorem textfile_whole settings page write rename files :
  let final := path_join (trim (mt_textfile_dir settings)) (L "pbsgui.prom") in
  let files' := write_textfile settings page write rename files in
  files' !! final = files !! final \/ files' !! final = Some (utf8 page).
Proof.
  cbv zeta. unfold write_textfile. destruct (mt_mode settings); auto.
  destruct (is_empty _) eqn:Ed; auto. set (dir := trim _) in *.
  assert (path_join dir (L "pbsgui.prom.tmp") <> path_join dir (L "pbsgui.prom")) as Hne.
  { unfold path_join. intros E. apply (f_equal (@length Z)) in E. revert E.
    destruct (last dir); [destruct (_ || _)|]; rewrite ?length_app; vm_compute (length (L _)); lia. }
  destruct write as [u|[b|]], rename as [v|err]; auto;
    rewrite ?lookup_insert_eq, ?lookup_insert_ne by exact Hne; auto.
Qed.

(** *** Answers *)

Lemma utf8_app a b : utf8 (a ++ b) = utf8 a ++ utf8 b.
Proof. unfold utf8. rewrite map_app, concat_app. reflexivity. Qed.

Lemma utf8_ascii s : Forall (fun c => 0 <= c < 128) s -> utf8 s = map Z_u8 s.
Proof.
  induction 1 as [|c s Hc _ IH]; [reflexivity|]. change (utf8 (c :: s)) with (utf8_char c ++ utf8 s).
  rewrite IH. unfold utf8_char. destruct (Z.ltb_spec c 128); [reflexivity | lia].
Qed.

Lemma length_utf8 s : Z.of_nat (length (utf8 s)) = utf8_len s.
Proof.
  induction s as [|c s IH]; [reflexivity|]. change (utf8 (c :: s)) with (utf8_char c ++ utf8 s).
  rewrite length_app, Nat2Z.inj_add, IH. unfold utf8_char, utf8_len. cbn [fold_right]. f_equal.
  unfold utf8_len_char. rewrite length_map. repeat case_match; reflexivity.
Qed.

(** The lines of a header. *)
Fixpoint crlf_lines (lines : list bytes) : bytes :=
  match lines with
  | [] => []
  | [l] => l
  | l :: lines => l ++ CRLF ++ crlf_lines lines
  end.

Lemma find_step x h n : take (length n) (x :: h) <> n ->
  find_subsequence (x :: h) n = S <$> find_subsequence h n.
Proof. intros Hx. cbn [find_subsequence]. rewrite bool_decide_false by exact Hx. reflexivity. Qed.

(** The end of a header: lines without a carriage return, none of them empty. *)
Lemma find_header_end lines body :
  Forall (fun l => l <> [] /\ Forall (fun b => u8_Z b <> 13) l) lines -> lines <> [] ->
  find_subsequence (crlf_lines lines ++ CRLF ++ CRLF ++ body) (CRLF ++ CRLF) = Some (length (crlf_lines lines)).
Proof.
  intros Hl Hne. destruct lines as [|l lines]; [contradiction|]. clear Hne.
  assert (forall a r, Forall (fun b => u8_Z b <> 13) a ->
    find_subsequence (a ++ r) (CRLF ++ CRLF) = (Nat.add (length a)) <$> find_subsequence r (CRLF ++ CRLF)) as Hskip.
  { intros a r Ha. induction Ha as [|b a Hb _ IH]; [cbn; destruct (find_subsequence r _); reflexivity|].
    cbn [app]. rewrite find_step.
    - rewrite IH. destruct (find_subsequence r _); reflexivity.
    - intros E. apply (f_equal head) in E. cbn in E. injection E as ->. apply Hb. reflexivity. }
  revert l Hl. induction lines as [|l' lines IH]; intros l Hl; apply Forall_cons_1 in Hl as [[Hn Hcr] Hl].
  - cbn [join]. rewrite Hskip by exact Hcr.
    assert (find_subsequence (CRLF ++ CRLF ++ body) (CRLF ++ CRLF) = Some O) as -> by reflexivity.
    cbn. f_equal. lia.
  - change (crlf_lines (l :: l' :: lines)) with (l ++ CRLF ++ crlf_lines (l' :: lines)).
    rewrite <- !app_assoc. rewrite Hskip by exact Hcr.
    pose proof (IH l' Hl) as E. apply Forall_cons_1 in Hl as [[Hn' Hcr'] _].
    destruct l' as [|b l']; [contradiction|]. apply Forall_cons_1 in Hcr' as [Hb _].
    set (rest := crlf_lines ((b :: l') :: lines)) in *.
    assert (exists r, rest = b :: r) as [r Er] by (unfold rest; cbn; destruct lines; eauto).
    rewrite Er in *. cbn [app] in *.
    change (CRLF ++ b :: r ++ CRLF ++ CRLF ++ body) with (x0d :: x0a :: b :: r ++ CRLF ++ CRLF ++ body).
    rewrite (find_step x0d), (find_step x0a), E.
    + cbn [fmap option_fmap option_map]. f_equal. rewrite !length_app. change (length CRLF) with 2%nat. cbn [length]. lia.
    + cbn. discriminate.
    + intros E'. apply (f_equal (fun x => nth 2 x x00)) in E'. change (b = x0d) in E'. apply Hb. rewrite E'. reflexivity.
Qed.

Lemma utf8_lossy_cons b l : u8_Z b < 128 -> utf8_lossy (b :: l) = u8_Z b :: utf8_lossy l.
Proof.
  intros Hb. unfold utf8_lossy. cbn [length utf8_lossy_fuel]. unfold utf8_next, utf8_width.
  destruct (Z.ltb_spec (u8_Z b) 128); [reflexivity | lia].
Qed.

Lemma utf8_lossy_prefix p l : Forall (fun b => u8_Z b < 128) p ->
  utf8_lossy (p ++ l) = map u8_Z p ++ utf8_lossy l.
Proof. induction 1 as [|b p Hb _ IH]; [reflexivity|]. cbn [app map]. rewrite utf8_lossy_cons, IH by exact Hb. reflexivity. Qed.

(** A word that goes on. *)
Lemma words_cons c s : is_whitespace c = false -> exists w ws, words (c :: s) = (c :: w) :: ws.
Proof.
  intros Hc. cbn. rewrite Hc. destruct s as [|d s]; [eauto|].
  destruct (is_whitespace d); [eauto|]. destruct (words (d :: s)); eauto.
Qed.

Lemma words_go c d s : is_whitespace c = false -> is_whitespace d = false ->
  words (c :: d :: s) = match words (d :: s) with w :: ws => (c :: w) :: ws | [] => [[c]] end.
Proof. intros Hc Hd. cbn [words]. rewrite Hc, Hd. reflexivity. Qed.

Lemma words_space c s : is_whitespace c = false -> words (c :: 32 :: s) = [c] :: words s.
Proof. intros Hc. cbn [words]. rewrite Hc. reflexivity. Qed.

Lemma words_word p s : p <> [] -> Forall (fun c => is_whitespace c = false) p ->
  exists w ws, words (p ++ s) = (p ++ w) :: ws.
Proof.
  intros Hne Hp. induction Hp as [|c p Hc Hp IH]; [contradiction|]. destruct p as [|d p].
  - destruct (words_cons c s Hc) as (w & ws & E). exists w, ws. exact E.
  - destruct IH as (w & ws & E); [discriminate|]. exists w, ws.
    inversion Hp as [|x l Hd _]. change ((c :: d :: p) ++ s) with (c :: d :: p ++ s).
    rewrite words_go by assumption. change (d :: p ++ s) with ((d :: p) ++ s). rewrite E. reflexivity.
Qed.

Lemma request_words rest :
  exists p ws, words (L "GET /metrics" ++ rest) = L "GET" :: (L "/metrics" ++ p) :: ws.
Proof.
  destruct (words_word (L "/metrics") rest) as (w & ws & E); [discriminate | repeat constructor|].
  exists w, ws. change (L "GET /metrics" ++ rest) with (71 :: 69 :: 84 :: 32 :: L "/metrics" ++ rest).
  rewrite !words_go, words_space, E by reflexivity. reflexivity.
Qed.

Lemma contains_In p s c : contains p s = true -> In c p -> In c s.
Proof.
  assert (forall s, starts_with p s = true -> In c p -> In c s) as Hsw.
  { induction p as [|x p IH]; intros t Ht Hin; [destruct Hin|]. destruct t as [|y t]; [discriminate|].
    cbn in Ht. apply andb_true_iff in Ht as [E Ht]. apply Z.eqb_eq in E as ->.
    destruct Hin as [->|Hin]; [left; reflexivity | right; exact (IH t Ht Hin)]. }
  induction s as [|y s IH]; cbn; intros Hc Hin.
  - destruct p; [destruct Hin | discriminate].
  - apply orb_true_iff in Hc as [Hc|Hc]; [exact (Hsw _ Hc Hin) | right; exact (IH Hc Hin)].
Qed.

(** The header of the page. *)
Definition page_header (n : Z) : list str :=
  [L "HTTP/1.1 200 OK"; L "Content-Type: text/plain; version=0.0.4; charset=utf-8";
   L "Content-Length: " ++ dec n; L "Connection: close"].

Lemma page_response page : utf8 (response (answer page (L "GET") (L "/metrics"))) =
  crlf_lines (map utf8 (page_header (utf8_len page))) ++ CRLF ++ CRLF ++ utf8 page.
Proof.
  change (answer page (L "GET") (L "/metrics"))
    with (L "200 OK", L "text/plain; version=0.0.4; charset=utf-8", page).
  cbv beta iota delta [response NEWLINE page_header map crlf_lines]. rewrite !utf8_app.
  change (utf8 [13; 10]) with CRLF. rewrite <- !app_assoc. reflexivity.
Qed.

Definition header_text (n : Z) : str := join NEWLINE (page_header n).

Lemma dec_ascii n : 0 <= n -> Forall (fun c => 48 <= c <= 57) (dec n).
Proof.
  intros Hn. pose proof (dec_all_digits n Hn) as Hd. rewrite forallb_forall in Hd.
  apply List.Forall_forall. intros c Hc. specialize (Hd c Hc). unfold is_ascii_digit in Hd. lia.
Qed.

(** The text of the header: its fixed letters and the digits of the length. *)
Lemma header_chars n c : 0 <= n -> In c (header_text n) -> 48 <= c <= 57 \/ In c (header_text 0).
Proof.
  intros Hn Hc. destruct (in_dec Z.eq_dec c (dec n)) as [Hd|Hd].
  - left. exact (proj1 (List.Forall_forall _ _) (dec_ascii n Hn) c Hd).
  - right. unfold header_text, page_header in *. cbn [join] in *. rewrite !in_app_iff in *. tauto.
Qed.

Lemma header_ascii n : 0 <= n -> Forall (fun c => 0 <= c < 128 /\ c <> 100 /\ c <> 68) (header_text n).
Proof.
  intros Hn. apply List.Forall_forall. intros c Hc. destruct (header_chars n c Hn Hc) as [?|Hin]; [lia|].
  assert (forallb (fun c => (0 <=? c) && (c <? 128) && negb (c =? 100) && negb (c =? 68)) (header_text 0) = true) as H0
    by (vm_compute; reflexivity).
  rewrite forallb_forall in H0. specialize (H0 c Hin). cbv beta in H0. lia.
Qed.

Lemma header_bytes n : 0 <= n -> crlf_lines (map utf8 (page_header n)) = map Z_u8 (header_text n).
Proof.
  intros Hn. rewrite <- utf8_ascii.
  - unfold header_text, page_header. cbn [join map crlf_lines]. rewrite !utf8_app. reflexivity.
  - eapply Forall_impl; [apply header_ascii, Hn|]. intros c Hc. cbv beta in *. lia.
Qed.

Lemma header_lossy n : 0 <= n -> utf8_lossy (map Z_u8 (header_text n)) = header_text n.
Proof.
  intros Hn. assert (map u8_Z (map Z_u8 (header_text n)) = header_text n) as E.
  { rewrite map_map. rewrite <- (map_id (header_text n)) at 2. apply map_ext_in. intros c Hc.
    pose proof (proj1 (List.Forall_forall _ _) (header_ascii n Hn) c Hc) as Ha. cbv beta in Ha.
    rewrite u8_Z_u8, Z.mod_small; lia. }
  rewrite utf8_lossy_ascii; [exact E|]. apply Forall_map. eapply Forall_impl; [apply header_ascii, Hn|].
  intros c Hc. cbv beta in *. rewrite u8_Z_u8, Z.mod_small; lia.
Qed.

Definition plain_char (c : Z) : bool := (0 <=? c) && (c <? 128) && negb (c =? 13).

Lemma header_lines n : 0 <= n ->
  Forall (fun l => l <> [] /\ Forall (fun b => u8_Z b <> 13) l) (map utf8 (page_header n)).
Proof.
  intros Hn. assert (forall s, s <> [] -> forallb plain_char s = true ->
    utf8 s <> [] /\ Forall (fun b => u8_Z b <> 13) (utf8 s)) as Hu.
  { intros s Hs Hb. assert (Forall (fun c => 0 <= c < 128 /\ c <> 13) s) as Hf.
    { apply List.Forall_forall. intros c Hc. rewrite forallb_forall in Hb. specialize (Hb c Hc).
      unfold plain_char in Hb. lia. }
    rewrite utf8_ascii by (eapply Forall_impl; [exact Hf|]; intros c Hc; cbv beta in *; lia).
    split; [destruct s; [contradiction | discriminate]|]. apply Forall_map.
    eapply Forall_impl; [exact Hf|]. intros c Hc. cbv beta in *. rewrite u8_Z_u8, Z.mod_small; lia. }
  unfold page_header. cbn [map].
  apply Forall_cons_2; [apply Hu; [discriminate | reflexivity]|].
  apply Forall_cons_2; [apply Hu; [discriminate | reflexivity]|].
  apply Forall_cons_2; [|apply Forall_cons_2; [apply Hu; [discriminate | reflexivity] | constructor]].
  apply Hu; [discriminate|]. rewrite forallb_app. apply andb_true_iff. split; [reflexivity|].
  apply forallb_forall. intros c Hc. pose proof (proj1 (List.Forall_forall _ _) (dec_ascii n Hn) c Hc) as Ha.
  cbv beta in Ha. unfold plain_char. lia.
Qed.

Lemma page_not_chunked n : 0 <= n -> is_chunked (header_text n) = false.
Proof.
  intros Hn. unfold is_chunked. destruct (contains _ _) eqn:E; [|reflexivity]. exfalso.
  apply (contains_In _ _ 100) in E; [|vm_compute; tauto].
  apply in_map_iff in E as (c & Ec & Hc). pose proof (proj1 (List.Forall_forall _ _) (header_ascii n Hn) c Hc) as Ha.
  cbv beta in Ha. unfold to_ascii_lowercase in Ec. destruct (is_ascii_upper c); lia.
Qed.

(** Scraping the endpoint: to whatever begins with [GET /metrics] the endpoint answers
    with the whole page: an HTTP client, the program's own, reads status 200 and exactly
    the bytes of the page, and the length the header declares is theirs. *)
Theorem scrape_reads_page page rest :
  exists raw, serve_conn page (Ok (bstr "GET /metrics" ++ rest)) = Some raw /\
    parse_http_response raw = Value (Ok (utf8 page)) /\
    raw = crlf_lines (map utf8 (page_header (Z.of_nat (length (utf8 page))))) ++ CRLF ++ CRLF ++ utf8 page.
Proof.
  destruct (request_words (utf8_lossy (take 2036 rest))) as (p & ws & Hw).
  exists (utf8 (response (answer page (L "GET") (L "/metrics")))). rewrite page_response.
  rewrite <- length_utf8. set (n := Z.of_nat (length (utf8 page))). assert (0 <= n) as Hn by (unfold n; lia).
  split; [|split; [|reflexivity]].
  - unfold serve_conn. change (bstr "GET /metrics" ++ rest) with (x47 :: drop 1 (bstr "GET /metrics") ++ rest).
    cbv beta iota. change (x47 :: drop 1 (bstr "GET /metrics") ++ rest) with (bstr "GET /metrics" ++ rest).
    rewrite take_app_ge by (change (length (bstr "GET /metrics")) with 12%nat; lia).
    change (2048 - length (bstr "GET /metrics"))%nat with 2036%nat.
    rewrite utf8_lossy_prefix by (repeat constructor). change (map u8_Z (bstr "GET /metrics")) with (L "GET /metrics").
    rewrite Hw. f_equal.
    assert (answer page (L "GET") (L "/metrics" ++ p) = answer page (L "GET") (L "/metrics")) as -> by reflexivity.
    rewrite page_response, <- length_utf8. reflexivity.
  - unfold parse_http_response.
    rewrite find_header_end by (exact (header_lines n Hn) || discriminate).
    rewrite header_bytes by exact Hn. set (h := map Z_u8 (header_text n)).
    rewrite take_app_length, drop_app_add. change (drop 4 (CRLF ++ CRLF ++ utf8 page)) with (utf8 page).
    unfold h. rewrite header_lossy, page_not_chunked by exact Hn.
    assert (status_code (header_text n) = 200) as -> by reflexivity. reflexivity.
Qed.

(** ** Witnesses *)

Definition at_9654 : MetricsSettings :=
  {| mt_mode := Endpoint; mt_port := 9654; mt_bind := L "127.0.0.1"; mt_textfile_dir := [] |}.

Definition ep (aborted : bool) (st : task_stage) : endpoint :=
  {| ep_bind := L "127.0.0.1"; ep_port := 9654; ep_aborted := aborted; ep_stage := st |}.

Definition applied (tasks : list endpoint) (h : nat) : exporter :=
  {| ex_tasks := tasks; ex_handle := Some h; ex_settings := Some at_9654 |}.

Lemma first_listens : rtc ex_step exporter_new (applied [ep false Listening] 0).
Proof.
  eapply rtc_l; [apply (ex_apply _ at_9654)|]. apply rtc_once.
  exact (ex_bind (applied [ep false Spawned] 0) 0 (ep false Spawned) true true eq_refl eq_refl eq_refl
           (fun _ => eq_refl)).
Qed.

Lemma one_endpoint_witness :
  ex_handle (applied [ep false Listening] 0) = Some 0%nat /\
  exists settings, ex_settings (applied [ep false Listening] 0) = Some settings /\
    mt_mode settings = Endpoint /\ L "127.0.0.1" = mt_bind settings /\ 9654 = mt_port settings.
Proof.
  apply (one_endpoint (applied [ep false Listening] 0) 0 (ep false Listening) first_listens); try reflexivity.
  apply Forall_cons_2; [right; auto | constructor].
Defined.

(** Saving the same settings again: the new endpoint is started before the runtime has
    dropped the old one, finds the port taken and stops; then the old one is dropped.
    Nothing listens, although the settings ask for an endpoint. *)
Example reapplied_endpoint_lost : exists s, rtc ex_step exporter_new s /\ settled s /\
  ex_settings s = Some at_9654 /\ existsb (listening 9654) (ex_tasks s) = false.
Proof.
  exists (applied [ep true Stopped; ep false Stopped] 1). split.
  - etransitivity; [exact first_listens|].
    eapply rtc_l; [apply (ex_apply _ at_9654)|]. eapply rtc_l.
    + apply (ex_bind _ 1 (ep false Spawned) true false); [reflexivity..|discriminate].
    + apply rtc_once.
      exact (ex_drop (applied [ep true Listening; ep false Stopped] 1) 0 (ep true Listening) eq_refl eq_refl).
  - split; [|split; reflexivity].
    apply Forall_cons_2; [left; reflexivity|]. apply Forall_cons_2; [left; reflexivity | constructor].
Qed.

(** A request whose first piece is cut within the method is refused. *)
Example cut_request_refused :
  serve_conn [] (Ok (bstr "GE")) = Some (utf8 (response (answer [] (L "GE") []))) /\
  answer [] (L "GE") [] = (L "405 Method Not Allowed", L "text/plain; charset=utf-8", L "method not allowed" ++ [10]).
Proof. split; reflexivity. Qed.
