(* ===== verification/Engine.v ===== *)
(** The engine's handler as a whole ([handle] of [pbsgui-engine/src/handler.rs]): every
    request of the protocol ([Gui]) is passed to the component that serves it, and its
    results become replies.

    The backup server's API client can panic on an answer ([HttpApi]), and then takes the
    task of its request with it, so the calls a request makes to it are part of the model.
    The theorem is the contract of the protocol: every request whose calls return is
    answered, by a stream of replies with exactly one terminal reply, its last, which is of
    the kind the protocol documents for the request or an error. *)

From Stdlib Require Import ZArith Lia Strings.Byte Ascii String.
From stdpp Require Import base tactics option numbers list gmap.
From S2P Require Import Prelude Text Base Blob Index Repository HttpApi Session Upload Jobs Sched Stores Plan Runs Channels Frames Proxy Requests Export Files Browse Discover Metrics Notify Probe Gui Enrol Changes Exporter.
Open Scope Z_scope.

(** What a run reports on its channel: the lines of [Reply::Log] and the messages of
    [progress_reporter] and [report_phase], with the percentage. *)
Inductive job_event := JobLog (line : str) | JobProgress (percent : Z) (message : str).

Definition event_reply (ev : job_event) : stream_reply :=
  match ev with JobLog line => LogLine line | JobProgress percent message => Progress percent message end.

(** What is outside the engine while a request is served: the backup server and SQL
    Server, the network, the file system, the libraries, and the run that [RunJob]
    starts, with its events and how it ends.  A call of the API client ([he_list],
    [he_can_backup]) can panic; the other fields of [he_requests] are used as they are. *)
Record handler_env := {
  he_requests : req_env;
  he_list : ApiClient -> str -> option str -> str -> str -> outcome (result str (list Snapshot));
  he_destination : dest_env; he_unpack_in : str -> result str bool;
  he_catalog : bytes -> result str (list FileInfo);
  he_created : result str unit; he_joined : result str unit;
  he_net : sql_net; he_lower : str -> str;
  he_local : list SqlInstance; he_broadcast : list SqlInstance; he_scan : list str -> list SqlInstance;
  he_can_backup : ApiClient -> str -> option str -> outcome (result PbsError bool);
  he_mail : net_env; he_human : Z -> str; he_ratio : Z -> Z -> str;
  he_write : fs_write;
  he_now : Z; he_events : list job_event; he_run : result str (result str RunReport);
  he_percent : f64 -> Z;
  he_relay : option Shared }.

(** What a call returned; a call that panicked returns nothing, and its task goes no
    further. *)
Definition settled {E A} (dead : E) (o : outcome (result E A)) : result E A :=
  match o with Value r => r | _ => Err dead end.

Definition with_list (l : ApiClient -> str -> option str -> str -> str -> result str (list Snapshot))
    (env : req_env) : req_env :=
  {| re_list := l; re_connect := re_connect env; re_blob := re_blob env; re_meta := re_meta env;
     re_archive := re_archive env; re_to_writer := re_to_writer env; re_image := re_image env;
     re_device := re_device env; re_uuid := re_uuid env; re_sql_connect := re_sql_connect env;
     re_ask := re_ask env; re_relay := re_relay env; re_time := re_time env;
     re_create := re_create env; re_flush := re_flush env; re_kept := re_kept env;
     re_remove := re_remove env; re_rename := re_rename env; re_human_size := re_human_size env |}.

(** The world of [Requests] with the calls that returned. *)
Definition requests_env (e : handler_env) : req_env :=
  with_list (fun api ds ns t id => settled [] (he_list e api ds ns t id)) (he_requests e).

(** A call of the API client. *)
Inductive api_call :=
| CallList (api : ApiClient) (ds : str) (ns : option str) (btype bid : str)
| CallCanBackup (api : ApiClient) (ds : str) (ns : option str).

Definition call_returns (e : handler_env) (call : api_call) : bool :=
  match call with
  | CallList api ds ns t id => match he_list e api ds ns t id with Value _ => true | _ => false end
  | CallCanBackup api ds ns => match he_can_backup e api ds ns with Value _ => true | _ => false end
  end.

(** The engine: its stores, the registry of runs, the exporter, the files it restored and
    what it did to SQL Server. *)
Record engine_state := {
  es_config : config_state; es_registry : registry; es_exporter : exporter;
  es_disk : gmap str bytes; es_done : done_so_far }.

Definition with_config (c : config_state) (s : engine_state) : engine_state :=
  {| es_config := c; es_registry := es_registry s; es_exporter := es_exporter s;
     es_disk := es_disk s; es_done := es_done s |}.
Definition with_registry (g : registry) (s : engine_state) : engine_state :=
  {| es_config := es_config s; es_registry := g; es_exporter := es_exporter s;
     es_disk := es_disk s; es_done := es_done s |}.
Definition with_exporter (x : exporter) (s : engine_state) : engine_state :=
  {| es_config := es_config s; es_registry := es_registry s; es_exporter := x;
     es_disk := es_disk s; es_done := es_done s |}.
Definition with_disk (d : gmap str bytes) (s : engine_state) : engine_state :=
  {| es_config := es_config s; es_registry := es_registry s; es_exporter := es_exporter s;
     es_disk := d; es_done := es_done s |}.
Definition with_done (d : done_so_far) (s : engine_state) : engine_state :=
  {| es_config := es_config s; es_registry := es_registry s; es_exporter := es_exporter s;
     es_disk := es_disk s; es_done := d |}.

(** [Reply::Error]. *)
Definition error_reply (m : str) : ipc_reply := RepConfig (RError m).

Definition reply_of {A} (mk : A -> ipc_reply) (r : result str A) : ipc_reply :=
  match r with Ok a => mk a | Err e => error_reply e end.

(** [sql_password]: the one given, else the stored one of the connection. *)
Definition sql_password (password connection_id : option str) (w : world) : result str (option str) :=
  match password, connection_id with
  | Some p, _ => Ok (Some p)
  | None, Some id => (secrets_get (sql_secret_key id) w).1
  | None, None => Ok None
  end.

(** One reply of [CancelJob]. *)
Definition cancel_reply (running : bool) : ipc_reply :=
  RepStream (Finished running
    (if running then L "cancelling the running backup" else L "no run is in progress for this job")).

Definition running_job (percent : f64 -> Z) (x : str * RunStatus) : RunningJob :=
  {| rj_job_id := x.1; rj_started := rs_started x.2; rj_percent := percent (rs_fraction x.2);
     rj_message := rs_message x.2 |}.

Section engine.
Context `{DebugFmt} `{Base64} `{HmacLib} `{EnvelopeJson} `{HashLib} `{ArchiveLib}.
Context `{ListJson Job} `{ListJson SqlConnection} `{ListJson PbsServer}.
Context `{SettingsJson NotificationSettings} `{SettingsJson MetricsSettings} `{SettingsJson ServerFile}.
Variable e : handler_env.

(** [SaveMetrics]: the exporter is started over with the settings the file has now. *)
Definition save_metrics_request (settings : MetricsSettings) (s : engine_state) :
    ipc_reply * engine_state :=
  match save_metrics settings (he_write e) (c_world (es_config s)) with
  | (Ok _, w) =>
      (RepMetrics settings,
       with_exporter (apply_settings (load_metrics w) (es_exporter s))
         (with_config (with_world (es_config s) w) s))
  | (Err err, w) => (error_reply err, with_config (with_world (es_config s) w) s)
  end.

(** [ProbeSql] and [CheckSql]. *)
Definition probe_request (server : str) (port : option Z) (auth : SqlAuth) (password cid : option str)
    (w : world) : ipc_reply :=
  reply_of RepSqlProbe (pw ← sql_password password cid w; probe (he_lower e) (he_net e) server port auth pw).

Definition check_request (server : str) (port : option Z) (auth : SqlAuth) (password cid : option str)
    (w : world) : ipc_reply :=
  reply_of RepSqlChecks (pw ← sql_password password cid w; Ok (check (he_net e) server port auth pw)).

(** [TestPbsServer] and [TestNotification]. *)
Definition test_server_request (server : PbsServer) (secret : option str) (c : config_state) : ipc_reply :=
  RepStream (finished_reply (test_pbs_server c server secret
    (fun api ds ns => settled (Protocol []) (he_can_backup e api ds ns)))).

Definition test_notification_request (channel : NotifyChannel) (w : world) : ipc_reply :=
  RepStream (finished_reply
    (_ ← (send_test (he_human e) (he_ratio e) (he_mail e) channel w).1; Ok (L "test notification sent"))).

Definition engine_handle (r : ipc_request) (s : engine_state) : list ipc_reply * engine_state :=
  let c := es_config s in
  match r with
  | ReqPing => ([RepPong], s)
  | ReqConfig q => let '(rep, c') := handle q c in ([RepConfig rep], with_config c' s)
  | ReqRunJob id =>
      let '(c', g) := run_job_request c id (he_now e) (map event_reply (he_events e)) (he_run e) (Browse.Gui [] None) in
      (map RepStream (gui_got g), with_config c' s)
  | ReqCancelJob id =>
      let '(running, g) := cancel_job id (es_registry s) in
      ([cancel_reply running], with_registry g s)
  | ReqListRunning =>
      ([RepRunning (map (running_job (he_percent e)) (running_snapshot (es_registry s)))], s)
  | ReqListSnapshots id => ([reply_of RepSnapshots (list_job_snapshots (requests_env e) c id)], s)
  | ReqListFiles id t =>
      ([reply_of RepFiles (list_files (requests_env e) (he_catalog e) c id t)], s)
  | ReqRestore id t files destination creds =>
      let '(rs, d) := restore_job (requests_env e) (he_destination e) (he_unpack_in e) c id t files
                        destination creds (he_created e) (he_joined e) (es_disk s) in
      (map RepStream rs, with_disk d s)
  | ReqDiscoverSql include_network targets =>
      ([RepSqlInstances (discover (he_local e) include_network targets (he_broadcast e) (he_scan e))], s)
  | ReqProbeSql server port auth password cid =>
      ([probe_request server port auth password cid (c_world c)], s)
  | ReqCheckSql server port auth password cid =>
      ([check_request server port auth password cid (c_world c)], s)
  | ReqListSqlSnapshots id database =>
      ([reply_of RepSnapshots (list_sql_snapshots (requests_env e) c id database)], s)
  | ReqGetSqlRestoreWindow id database =>
      ([reply_of RepSqlRestoreWindow (get_sql_restore_window (requests_env e) c id database)], s)
  | ReqRestoreSql id database target point tid =>
      let '(rs, d) := restore_sql (requests_env e) c id database target point tid (es_done s) in
      (map RepStream rs, with_done d s)
  | ReqRestoreSqlToFile id database point destination creds =>
      let '(rs, d) := restore_sql_to_file (requests_env e) (he_destination e) utf8 c id database point
                        destination creds (es_done s) in
      (map RepStream rs, with_done d s)
  | ReqTestPbsServer server secret => ([test_server_request server secret c], s)
  | ReqGetNotifications =>
      let '(settings, (password, url)) := get_notifications (c_world c) in
      ([RepNotifications settings password url], s)
  | ReqSaveNotifications settings password url =>
      let '(rep, w) := save_notifications settings password url (he_write e) (c_world c) in
      ([RepConfig rep], with_config (with_world c w) s)
  | ReqTestNotification channel => ([test_notification_request channel (c_world c)], s)
  | ReqGetMetrics => ([RepMetrics (load_metrics (c_world c))], s)
  | ReqSaveMetrics settings => let '(rep, s') := save_metrics_request settings s in ([rep], s')
  | ReqListRelayAgents => ([RepRelayAgents (agent_infos (he_relay e) (c_world c))], s)
  end.

(** ** The calls of a request, and its task *)

(** The listing of a group of a SQL job. *)
Definition group_call (api : ApiClient) (ctx : SqlJobPbs) (group : str) : api_call :=
  CallList api (datastore (jp_repo ctx)) (namespace (jp_repo ctx)) SQL_BACKUP_TYPE group.

(** [read_chain_items]: the second group is listed once the first one was read. *)
Definition chain_calls (ctx : SqlJobPbs) (database : str) : list api_call :=
  let full := (sql_group_and_archive (jp_backup_id ctx) database Full).1 in
  let log := (sql_group_and_archive (jp_backup_id ctx) database Log).1 in
  match job_api ctx with
  | Err _ => []
  | Ok api =>
      group_call api ctx full ::
      match (snaps ← add_context (L "listing snapshots in " ++ full) (list_group (requests_env e) api ctx full);
             read_group (requests_env e) ctx full snaps) with
      | Ok _ => [group_call api ctx log]
      | Err _ => []
      end
  end.

(** A restore to a point in time up to where it reads the chain. *)
Definition before_chain (r : ipc_request) (s : engine_state) : option (SqlJobPbs * str * done_so_far) :=
  let c := es_config s in
  let start := Did [] (did_sql (es_done s)) (did_files (es_done s)) in
  match r with
  | ReqRestoreSql id database _ (RestorePointInTime _) tid =>
      match restore_target (requests_env e) c id tid start with
      | (Ok (ctx, _), d) => Some (ctx, database, d)
      | (Err _, _) => None
      end
  | ReqRestoreSqlToFile id database (RestorePointInTime _) destination creds =>
      match (ctx ← sql_job_pbs c id; _ ← prepare_destination (he_destination e) destination creds; Ok ctx) with
      | Ok ctx => Some (ctx, database, start)
      | Err _ => None
      end
  | _ => None
  end.

Definition api_calls (r : ipc_request) (s : engine_state) : list api_call :=
  let c := es_config s in
  match r with
  | ReqListSnapshots id =>
      match (ctx ← job_pbs_context c id;
             api ← map_err show_error (api_from_repository (pc_repo ctx) (pc_secret ctx) (pc_fingerprint ctx));
             Ok (ctx, api)) with
      | Ok (ctx, api) =>
          [CallList api (datastore (pc_repo ctx)) (namespace (pc_repo ctx)) BACKUP_TYPE (pc_backup_id ctx)]
      | Err _ => []
      end
  | ReqListSqlSnapshots id database =>
      match (ctx ← sql_job_pbs c id; api ← job_api ctx; Ok (ctx, api)) with
      | Ok (ctx, api) => [group_call api ctx (sql_group_and_archive (jp_backup_id ctx) database Full).1]
      | Err _ => []
      end
  | ReqGetSqlRestoreWindow id database =>
      match (ctx ← sql_job_pbs c id; api ← job_api ctx; Ok (ctx, api)) with
      | Ok (ctx, api) =>
          let full := (sql_group_and_archive (jp_backup_id ctx) database Full).1 in
          let log := (sql_group_and_archive (jp_backup_id ctx) database Log).1 in
          group_call api ctx full ::
          match list_group (requests_env e) api ctx full with
          | Ok _ => [group_call api ctx log]
          | Err _ => []
          end
      | Err _ => []
      end
  | ReqTestPbsServer server secret =>
      match test_target c server secret with
      | Ok (repo, api) => [CallCanBackup api (datastore repo) (namespace repo)]
      | Err _ => []
      end
  | _ =>
      match before_chain r s with
      | Some (ctx, database, _) => chain_calls ctx database
      | None => []
      end
  end.

(** What a task that a call took down had sent, and left. *)
Definition died (r : ipc_request) (s : engine_state) : list ipc_reply * engine_state :=
  match before_chain r s with
  | Some (_, database, d) =>
      let lines := did_lines d ++ [L "reading the backup chain"] in
      (map RepStream ([Accepted database] ++ map LogLine lines),
       with_done (Did lines (did_sql d) (did_files d)) s)
  | None => ([], s)
  end.

(** The task of a request: its replies, the engine, and whether it returned. *)
Definition engine_task (r : ipc_request) (s : engine_state) : list ipc_reply * engine_state * bool :=
  if forallb (call_returns e) (api_calls r s) then (engine_handle r s, true) else (died r s, false).

End engine.

(** ** The contract of the protocol *)

(** The terminal replies a request can have. *)
Definition terminal_fits (r : ipc_request) (p : ipc_reply) : bool :=
  match r, p with
  | ReqPing, RepPong => true
  | ReqConfig q, RepConfig rep => reply_fits q rep
  | (ReqRunJob _ | ReqRestore _ _ _ _ _ | ReqRestoreSql _ _ _ _ _ | ReqRestoreSqlToFile _ _ _ _ _),
      RepStream (Finished _ _ | Failed_with _) => true
  | (ReqCancelJob _ | ReqTestPbsServer _ _ | ReqTestNotification _), RepStream (Finished _ _) => true
  | ReqListRunning, RepRunning _ => true
  | (ReqListSnapshots _ | ReqListSqlSnapshots _ _), (RepSnapshots _ | RepConfig (RError _)) => true
  | ReqListFiles _ _, (RepFiles _ | RepConfig (RError _)) => true
  | ReqDiscoverSql _ _, RepSqlInstances _ => true
  | ReqProbeSql _ _ _ _ _, (RepSqlProbe _ | RepConfig (RError _)) => true
  | ReqCheckSql _ _ _ _ _, (RepSqlChecks _ | RepConfig (RError _)) => true
  | ReqGetSqlRestoreWindow _ _, (RepSqlRestoreWindow _ | RepConfig (RError _)) => true
  | ReqGetNotifications, RepNotifications _ _ _ => true
  | ReqSaveNotifications _ _ _, RepConfig (RSaved _ | RError _) => true
  | ReqGetMetrics, RepMetrics _ => true
  | ReqSaveMetrics _, (RepMetrics _ | RepConfig (RError _)) => true
  | ReqListRelayAgents, RepRelayAgents _ => true
  | _, _ => false
  end.

Definition answered (r : ipc_request) (replies : list ipc_reply) : Prop :=
  exists before last, replies = before ++ [last] /\
    Forall (fun p => reply_is_terminal p = false) before /\
    reply_is_terminal last = true /\ terminal_fits r last = true.

(** A request with one reply. *)
Lemma answered_one r p : reply_is_terminal p = true -> terminal_fits r p = true -> answered r [p].
Proof. intros Ht Hf. exists [], p. auto. Qed.

(** A request that is a stream. *)
Definition streams (r : ipc_request) : bool :=
  match r with
  | ReqRunJob _ | ReqRestore _ _ _ _ _ | ReqRestoreSql _ _ _ _ _ | ReqRestoreSqlToFile _ _ _ _ _ => true
  | _ => false
  end.

Lemma answered_stream r rs : streams r = true -> one_end rs -> answered r (map RepStream rs).
Proof.
  intros Hr (before & terminal & -> & Ht & HF). exists (map RepStream before), (RepStream terminal).
  rewrite map_app. split; [reflexivity|]. split; [apply Forall_map; exact HF|].
  split; [exact Ht|]. destruct r, terminal; try discriminate; reflexivity.
Qed.

Lemma restore_job_end `{DebugFmt} `{Base64} `{HashLib} `{ArchiveLib} env denv unpack_in c job_id backup_time files
    destination creds created joined disk :
  one_end (restore_job env denv unpack_in c job_id backup_time files destination creds created joined disk).1.
Proof.
  unfold restore_job. destruct (job_pbs_context c job_id) as [ctx|err]; [|apply one_end_terminal; reflexivity].
  pose proof (run_restore_sent env denv unpack_in ctx backup_time files destination creds created joined disk) as Hs.
  destruct (run_restore _ _ _ _ _ _ _ _ _ _ _) as [[r sent] disk']. cbn in *.
  apply one_end_cons; [reflexivity|]. apply one_end_app; [exact Hs|]. apply one_end_terminal, finished_terminal.
Qed.

Section contract.
Context `{DebugFmt} `{Base64} `{HmacLib} `{EnvelopeJson} `{HashLib} `{ArchiveLib}.
Context `{ListJson Job} `{ListJson SqlConnection} `{ListJson PbsServer}.
Context `{SettingsJson NotificationSettings} `{SettingsJson MetricsSettings} `{SettingsJson ServerFile}.
Variable e : handler_env.

Lemma events_not_terminal events : Forall (fun r => is_terminal r = false) (map event_reply events).
Proof. apply Forall_map, Forall_true. intros []; reflexivity. Qed.

Lemma run_job_end c id now events run : Forall (fun r => is_terminal r = false) events ->
  one_end (gui_got (run_job_request c id now events run (Browse.Gui [] None)).2).
Proof.
  intros HF. change (Browse.Gui [] None) with (after_stream None []). unfold run_job_request.
  destruct (js_get (c_jobs c) id) as [job|]; rewrite !gui_send_stream; [|apply one_end_terminal; reflexivity].
  rewrite forward_events_stream by discriminate.
  destruct (match run with Ok (Ok report) => _ | Ok (Err err) => _ | Err err => _ end)
    as [[success message] status].
  destruct (record_run id now status (c_jobs c) (c_world c)) as [[? jobs] w].
  rewrite gui_send_stream. cbn. apply one_end_cons; [reflexivity|].
  apply one_end_app; [exact HF | apply one_end_terminal; reflexivity].
Qed.

(** The answer to any request. *)
Lemma handle_answered r s : answered r (engine_handle e r s).1.
Proof.
  destruct r; cbn [engine_handle].
  - apply answered_one; reflexivity.
  - pose proof (handle_fits r (es_config s)) as Hf. destruct (handle r (es_config s)) as [rep c'].
    apply answered_one; [reflexivity | exact Hf].
  - pose proof (run_job_end (es_config s) id (he_now e) _ (he_run e) (events_not_terminal (he_events e))) as Ho.
    destruct (run_job_request _ _ _ _ _ _) as [c' g]. apply answered_stream; [reflexivity | exact Ho].
  - destruct (cancel_job id (es_registry s)) as [running g]. apply answered_one; reflexivity.
  - apply answered_one; reflexivity.
  - destruct (list_job_snapshots _ _ _); apply answered_one; reflexivity.
  - destruct (list_files _ _ _ _ _); apply answered_one; reflexivity.
  - match goal with |- context [restore_job ?a ?b ?c ?d ?f ?g ?h ?i ?j ?k ?l ?m] =>
      pose proof (restore_job_end a b c d f g h i j k l m) as Ho; destruct (restore_job a b c d f g h i j k l m) end.
    apply answered_stream; [reflexivity | exact Ho].
  - apply answered_one; reflexivity.
  - unfold probe_request. destruct (_ ← sql_password _ _ _; _); apply answered_one; reflexivity.
  - unfold check_request. destruct (_ ← sql_password _ _ _; _); apply answered_one; reflexivity.
  - destruct (list_sql_snapshots _ _ _ _); apply answered_one; reflexivity.
  - destruct (get_sql_restore_window _ _ _ _); apply answered_one; reflexivity.
  - unfold restore_sql. match goal with |- context [reported ?n ?m ?d] =>
      pose proof (reported_one_end n m d) as Ho; destruct (reported n m d) end.
    apply answered_stream; [reflexivity | exact Ho].
  - unfold restore_sql_to_file. match goal with |- context [reported ?n ?m ?d] =>
      pose proof (reported_one_end n m d) as Ho; destruct (reported n m d) end.
    apply answered_stream; [reflexivity | exact Ho].
  - unfold test_server_request. destruct (test_pbs_server _ _ _ _); apply answered_one; reflexivity.
  - destruct (get_notifications _) as [settings [password url]]. apply answered_one; reflexivity.
  - unfold save_notifications. destruct ((_ ← set_smtp_password _; _) _) as [[[]|err] w];
      apply answered_one; reflexivity.
  - unfold test_notification_request. destruct (_ ← (send_test _ _ _ _ _).1; _); apply answered_one; reflexivity.
  - apply answered_one; reflexivity.
  - unfold save_metrics_request. destruct (save_metrics _ _ _) as [[m|err] w]; apply answered_one; reflexivity.
  - apply answered_one; reflexivity.
Qed.

(** *** The calls are those the replies depend on *)

Definition with_api (l : ApiClient -> str -> option str -> str -> str -> outcome (result str (list Snapshot)))
    (cb : ApiClient -> str -> option str -> outcome (result PbsError bool)) : handler_env :=
  {| he_requests := he_requests e; he_list := l; he_destination := he_destination e;
     he_unpack_in := he_unpack_in e; he_catalog := he_catalog e; he_created := he_created e;
     he_joined := he_joined e; he_net := he_net e; he_lower := he_lower e; he_local := he_local e;
     he_broadcast := he_broadcast e; he_scan := he_scan e; he_can_backup := cb; he_mail := he_mail e;
     he_human := he_human e; he_ratio := he_ratio e; he_write := he_write e; he_now := he_now e;
     he_events := he_events e; he_run := he_run e; he_percent := he_percent e; he_relay := he_relay e |}.

Definition agrees (l : ApiClient -> str -> option str -> str -> str -> outcome (result str (list Snapshot)))
    (cb : ApiClient -> str -> option str -> outcome (result PbsError bool)) (call : api_call) : Prop :=
  match call with
  | CallList api ds ns t id => l api ds ns t id = he_list e api ds ns t id
  | CallCanBackup api ds ns => cb api ds ns = he_can_backup e api ds ns
  end.

Lemma list_group_agrees l cb api ctx group : agrees l cb (group_call api ctx group) ->
  list_group (requests_env (with_api l cb)) api ctx group = list_group (requests_env e) api ctx group.
Proof. cbn. intros E. unfold list_group. cbn. rewrite E. reflexivity. Qed.

Lemma chain_items_agree l cb ctx database : Forall (agrees l cb) (chain_calls e ctx database) ->
  let groups := [(sql_group_and_archive (jp_backup_id ctx) database Full).1;
                 (sql_group_and_archive (jp_backup_id ctx) database Log).1] in
  read_chain_items (requests_env (with_api l cb)) ctx groups = read_chain_items (requests_env e) ctx groups.
Proof.
  cbv zeta. unfold chain_calls, read_chain_items. cbv zeta.
  generalize (sql_group_and_archive (jp_backup_id ctx) database Full).1,
    (sql_group_and_archive (jp_backup_id ctx) database Log).1. intros fg lg.
  destruct (job_api ctx) as [api|]; [|reflexivity].
  intros [Hfull HF']%Forall_cons_1. cbn [mbind result_bind read_groups].
  rewrite (list_group_agrees _ _ _ _ _ Hfull).
  change (read_group (requests_env (with_api l cb))) with (read_group (requests_env e)).
  destruct (add_context _ (list_group (requests_env e) api ctx fg)) as [snaps|err]; [|reflexivity].
  cbn [mbind result_bind] in HF' |- *.
  destruct (read_group (requests_env e) ctx fg snaps) as [items|err]; [|reflexivity]. cbn [mbind result_bind].
  apply Forall_cons_1 in HF' as [Hlog _]. rewrite (list_group_agrees _ _ _ _ _ Hlog). reflexivity.
Qed.

Lemma chosen_chain_agrees l cb ctx database t d : Forall (agrees l cb) (chain_calls e ctx database) ->
  chosen_chain (requests_env (with_api l cb)) ctx (sql_group_and_archive (jp_backup_id ctx) database Full).1
    (sql_group_and_archive (jp_backup_id ctx) database Log).1 t d =
  chosen_chain (requests_env e) ctx (sql_group_and_archive (jp_backup_id ctx) database Full).1
    (sql_group_and_archive (jp_backup_id ctx) database Log).1 t d.
Proof.
  intros HF. unfold chosen_chain, mbind, reqm_bind, req_lift. cbn [say].
  rewrite (chain_items_agree l cb ctx database HF). reflexivity.
Qed.

(** The replies of a request and the state it leaves depend on the API client only through
    the calls that [api_calls] lists. *)
Lemma api_calls_complete l cb r s : Forall (agrees l cb) (api_calls e r s) ->
  engine_handle (with_api l cb) r s = engine_handle e r s.
Proof.
  intros HF. destruct r; try reflexivity; cbn [engine_handle].
  - assert (list_job_snapshots (requests_env (with_api l cb)) (es_config s) job_id =
            list_job_snapshots (requests_env e) (es_config s) job_id) as ->; [|reflexivity].
    cbn in HF. unfold list_job_snapshots. destruct (job_pbs_context _ _) as [ctx|]; [|reflexivity]. cbn in *.
    destruct (map_err _ _) as [api|]; [|reflexivity]. cbn in *. inversion_clear HF as [|? ? E _]. cbn in E.
    rewrite E. reflexivity.
  - assert (list_sql_snapshots (requests_env (with_api l cb)) (es_config s) job_id database =
            list_sql_snapshots (requests_env e) (es_config s) job_id database) as ->; [|reflexivity].
    cbn [api_calls] in HF. unfold list_sql_snapshots. destruct (sql_job_pbs _ _) as [ctx|]; [|reflexivity].
    cbn [mbind result_bind] in *. destruct (job_api ctx) as [api|]; [|reflexivity]. cbn [mbind result_bind] in *.
    revert HF. generalize (sql_group_and_archive (jp_backup_id ctx) database Full).1. intros fg HF.
    apply Forall_cons_1 in HF as [E _].
    rewrite (list_group_agrees _ _ _ _ _ E). reflexivity.
  - assert (get_sql_restore_window (requests_env (with_api l cb)) (es_config s) job_id database =
            get_sql_restore_window (requests_env e) (es_config s) job_id database) as ->; [|reflexivity].
    cbn [api_calls] in HF. unfold get_sql_restore_window. destruct (sql_job_pbs _ _) as [ctx|]; [|reflexivity].
    cbn [mbind result_bind] in *. destruct (job_api ctx) as [api|]; [|reflexivity]. cbn [mbind result_bind] in *.
    cbv zeta in HF. revert HF. generalize (sql_group_and_archive (jp_backup_id ctx) database Full).1,
      (sql_group_and_archive (jp_backup_id ctx) database Log).1. intros fg lg HF.
    apply Forall_cons_1 in HF as [E HF']. rewrite (list_group_agrees _ _ _ _ _ E).
    destruct (list_group (requests_env e) api ctx _) as [fulls|]; [|reflexivity]. cbn [mbind result_bind] in *.
    apply Forall_cons_1 in HF' as [E' _]. rewrite (list_group_agrees _ _ _ _ _ E'). reflexivity.
  - destruct point as [t|t]; [reflexivity|]. cbn [api_calls before_chain] in HF.
    unfold restore_sql, reported, run_restore_sql, mbind, reqm_bind.
    change (restore_target (requests_env (with_api l cb))) with (restore_target (requests_env e)).
    destruct (restore_target (requests_env e) _ _ _ _) as [[[ctx cross]|err] d]; [|reflexivity].
    pose proof (chosen_chain_agrees l cb ctx database t d HF) as E. revert E.
    unfold run_restore_pit.
    destruct (sql_group_and_archive _ database Full) as [fg archive], (sql_group_and_archive _ database Log) as [lg ?].
    cbn [fst]. unfold mbind, reqm_bind. intros ->. reflexivity.
  - destruct point as [t|t]; [reflexivity|]. cbn [api_calls before_chain] in HF.
    unfold restore_sql_to_file, reported, run_restore_sql_to_file, mbind, reqm_bind, req_lift.
    cbn [he_destination with_api].
    destruct (sql_job_pbs (es_config s) job_id) as [ctx|err]; [|reflexivity]. cbn [mbind result_bind] in HF.
    destruct (prepare_destination (he_destination e) destination dest_credentials) as [u|err]; [|reflexivity].
    cbn [mbind result_bind] in *.
    match goal with |- context [export_sql_chain _ _ ctx database t destination ?d] =>
      pose proof (chosen_chain_agrees l cb ctx database t d HF) as E end. revert E.
    unfold export_sql_chain.
    destruct (sql_group_and_archive _ database Full) as [fg archive], (sql_group_and_archive _ database Log) as [lg ?].
    cbn [fst]. unfold mbind, reqm_bind. intros ->. reflexivity.
  - unfold test_server_request, test_pbs_server. cbn in HF.
    destruct (test_target _ _ _) as [[repo api]|]; [|reflexivity]. cbn in *. inversion_clear HF as [|? ? E _]. cbn in E.
    rewrite E. reflexivity.
Qed.

Lemma died_not_terminal r s : Forall (fun p => reply_is_terminal p = false) (died e r s).1.
Proof.
  unfold died. destruct (before_chain e r s) as [[[ctx database] d]|]; [|constructor].
  cbn. constructor; [reflexivity|]. rewrite map_map. apply Forall_map, Forall_true. reflexivity.
Qed.

(** The task of any request. *)
Lemma task_answered r s :
  let '(replies, _, returned) := engine_task e r s in
  if returned then answered r replies
  else Forall (fun p => reply_is_terminal p = false) replies /\
       exists call, In call (api_calls e r s) /\ call_returns e call = false.
Proof.
  unfold engine_task. destruct (forallb _ _) eqn:Ec.
  - pose proof (handle_answered r s) as Ha. destruct (engine_handle e r s). exact Ha.
  - pose proof (died_not_terminal r s) as Hd. destruct (died e r s). split; [exact Hd|].
    apply not_true_iff_false in Ec. rewrite forallb_forall in Ec.
    destruct (List.find (fun call => negb (call_returns e call)) (api_calls e r s)) as [call|] eqn:Ef.
    + apply find_some in Ef as [Hin Hf]. exists call. split; [exact Hin | now destruct (call_returns e call)].
    + exfalso. apply Ec. intros call Hin. pose proof (find_none _ _ Ef call Hin) as Hn. cbn in Hn.
      now destruct (call_returns e call).
Qed.

(** C28: the contract of the protocol: whatever the state of the engine and whatever SQL
    Server, the backup server, the network and the disk do, a request is answered by a
    stream with exactly one terminal reply, its last, which is of the kind the protocol
    has for that request, or an error; or one of the calls it makes to the backup server's
    API client panicked, and then it has had no terminal reply. *)
Theorem requests_answered r s :
  let '(replies, _, returned) := engine_task e r s in
  if returned then answered r replies
  else Forall (fun p => reply_is_terminal p = false) replies /\
       exists call, In call (api_calls e r s) /\ call_returns e call = false.
Proof. exact (task_answered r s). Qed.

End contract.

(** ** A run over the socket *)

Module SampleEngine.
Import Sample SampleStore SampleJson SampleTar SampleSettings SampleRelay.
#[local] Existing Instance sample_debug.
#[local] Existing Instance SampleTar.lib.
#[local] Instance metrics_json : SettingsJson MetricsSettings :=
  {| set_pretty := fun _ => Err (L "read-only"); set_parse := fun _ => None |}.

Definition outside (events : list job_event) : handler_env :=
  {| he_requests := Requests.sample_env;
     he_list := fun api ds ns t id => Value (re_list Requests.sample_env api ds ns t id); he_destination := {| dn_connect := fun _ _ _ => 0; dn_mkdir := fun _ => Ok tt; dn_probe := fun _ => Ok tt |};
     he_unpack_in := fun _ => Ok true; he_catalog := fun _ => Ok []; he_created := Ok tt; he_joined := Ok tt;
     he_net := {| sn_tcp := fun _ _ => Err (L "refused"); sn_nodelay := Ok tt; sn_login := fun _ _ _ => Err (L "refused") |};
     he_lower := id; he_local := []; he_broadcast := []; he_scan := fun _ => [];
     he_can_backup := fun _ _ _ => Value (Ok true);
     he_mail := {| ne_mailbox := fun _ => Ok tt; ne_message := fun _ _ => Ok tt; ne_tls := fun _ => Ok tt;
                   ne_send := fun _ => Ok tt; ne_post := fun _ _ => Ok 200 |};
     he_human := dec; he_ratio := fun _ _ => []; he_write := Written; he_now := 1000; he_events := events;
     he_run := Ok (Ok {| rr_message := L "backed up"; rr_warning := false |}); he_percent := id; he_relay := None |}.

Definition fresh : engine_state :=
  {| es_config := {| c_jobs := with_items [files_job] (store0 JOBS); c_sql := store0 SQL; c_pbs := store0 PBS;
                     c_world := world0 |};
     es_registry := registry0 sample_disk; es_exporter := exporter_new; es_disk := ∅; es_done := Did [] [] ∅ |}.

Definition events : list job_event := [JobProgress 10 (L "reading"); JobLog (L "done")].

Example run_replies : (engine_handle (outside events) (ReqRunJob (L "f")) fresh).1 =
  map RepStream ([Accepted (L "f")] ++ map event_reply events ++ [Finished true (L "backed up")]).
Proof. vm_compute. reflexivity. Qed.

Example run_task : (engine_task (outside events) (ReqRunJob (L "f")) fresh).2 = true.
Proof. vm_compute. reflexivity. Qed.

End SampleEngine.
