(* ===== verification/AgentLoop.v ===== *)
(** The relay agent's connection to its proxy ([pbsgui-engine/src/relay/agent.rs],
    [run_agent], [dial] and [connect_and_serve]): dial, verify the pinned certificate,
    register, serve, and dial again after a while when the connection is gone.

    The theorem: whoever answers at the proxy's address, the agent's token goes only to a
    peer that showed the pinned certificate; and the agent gives up only when it is shut
    down. *)

From Stdlib Require Import ZArith Lia Strings.Byte Ascii String.
From stdpp Require Import base tactics option numbers list gmap.
From S2P Require Import Prelude Text Base Repository HttpApi Session Jobs Stores Frames Proxy Agent Notify Gui Enrol.
Open Scope Z_scope.

Definition RECONNECT_DELAY : Z := 5.

(** What an attempt meets: the connection, whether the host part is a valid TLS name, the
    TLS library, the peer's certificate and the rest of the handshake, and then the write
    of the registration, the reply to it, and how the control loop ends. *)
Record attempt := {
  at_tcp : result str unit; at_name_ok : bool; at_fallback : result str unit;
  at_config : result str unit; at_cert : bytes; at_tls : result str unit;
  at_write : result str unit; at_reply : result str (option Frame); at_served : result str unit }.

(** Something sent to a peer with this certificate. *)
Record sent := Sent { to_cert : bytes; the_msg : ControlMsg }.

Section agent.
Context `{HexLib} `{HashLib} `{DebugFmt}.
Variables (cfg : AgentConfig) (host version : str).

(** The peer's certificate. *)
Definition dial (a : attempt) : result str bytes :=
  _ ← map_err (fun e => L "connecting to the relay proxy at " ++ proxy_addr cfg ++ L ": " ++ e) (at_tcp a);
  _ ← (if at_name_ok a then Ok tt
       else map_err (fun e => L "building the TLS server name: " ++ e) (at_fallback a));
  expected ← relay_connector (at_config a) (proxy_fingerprint cfg);
  map_err (fun e => L "TLS handshake with the relay proxy failed (check the fingerprint): " ++ e)
    (_ ← verify_server_cert expected (at_cert a);
     _ ← at_tls a;
     Ok (at_cert a)).

(** One connection, with what it sent before the control loop. *)
Definition connect_and_serve (a : attempt) : result str unit * list sent :=
  match dial a with
  | Err e => (Err e, [])
  | Ok cert =>
      match at_write a with
      | Err e => (Err e, [Sent cert (register_msg cfg host version)])
      | Ok _ =>
          ((_ ← check_registered (at_reply a); at_served a),
           [Sent cert (register_msg cfg host version)])
      end
  end.

(** What each turn of the loop meets: an attempt that ends, or the shutdown during it;
    and whether the shutdown comes during the delay behind it. *)
Record agent_turn := { ag_attempt : option attempt; ag_stop : bool }.

(** The loop: whether it has returned, the results of the attempts, and what was sent. *)
Fixpoint run_agent (turns : list agent_turn) : bool * list (result str unit) * list sent :=
  match turns with
  | [] => (false, [], [])
  | t :: turns =>
      match ag_attempt t with
      | None => (true, [], [])
      | Some a =>
          let '(r, out) := connect_and_serve a in
          if ag_stop t then (true, [r], out)
          else let '(ended, rs, out') := run_agent turns in (ended, r :: rs, out ++ out')
      end
  end.

Lemma dial_pinned a cert : dial a = Ok cert -> parse_fingerprint (proxy_fingerprint cfg) = Ok (sha256 cert).
Proof.
  unfold dial, relay_connector, tls_connector. destruct (at_tcp a); [|discriminate]. cbn.
  destruct (if at_name_ok a then _ else _); [|discriminate]. cbn.
  destruct (parse_fingerprint _) as [expected|]; [|discriminate]. cbn.
  destruct (at_config a); [|discriminate]. cbn. unfold verify_server_cert.
  case_bool_decide as E; [|discriminate]. cbn. destruct (at_tls a); [|discriminate].
  cbn. intros [= <-]. rewrite E. reflexivity.
Qed.

Lemma connect_pinned a :
  Forall (fun s => parse_fingerprint (proxy_fingerprint cfg) = Ok (sha256 (to_cert s))) (connect_and_serve a).2.
Proof.
  unfold connect_and_serve. destruct (dial a) as [cert|e] eqn:Ed; [|constructor].
  pose proof (dial_pinned a cert Ed). destruct (at_write a); repeat constructor; assumption.
Qed.

(** Whoever answers at the proxy's address and however often the agent reconnects, its
    token goes only to a peer that showed the pinned certificate; and the loop returns
    only when it was shut down, however its attempts end: every turn before that is an
    attempt. *)
Theorem agent_trusts_pinned turns :
  let '(ended, rs, out) := run_agent turns in
  Forall (fun s => parse_fingerprint (proxy_fingerprint cfg) = Ok (sha256 (to_cert s))) out /\
  (ended = false -> length rs = length turns) /\
  (ended = true <-> Exists (fun t => ag_attempt t = None \/ ag_stop t = true) turns).
Proof.
  induction turns as [|[[a|] stop] turns IH]; cbn [run_agent ag_attempt ag_stop].
  - split; [constructor|]. split; [reflexivity|]. split; [discriminate | intros E; inversion E].
  - pose proof (connect_pinned a) as Hp. destruct (connect_and_serve a) as [r out]. destruct stop.
    + split; [exact Hp|]. split; [discriminate|]. split; [constructor; auto | reflexivity].
    + destruct (run_agent turns) as [[ended rs] out']. destruct IH as (HF & Hl & He).
      split; [apply Forall_app; auto|]. split; [cbn; intros E; f_equal; auto|].
      rewrite He. split; [apply Exists_cons_tl|]. intros E. inversion E as [x l [?|?]|]; [discriminate..|assumption].
  - split; [constructor|]. split; [discriminate|]. split; [constructor; auto | reflexivity].
Qed.

End agent.
