(* ===== verification/Races.v ===== *)
(** Concurrent use of a store ([pbsgui-engine/src/jobstore.rs] and [connstore.rs], as
    [handler.rs] and [backup.rs] call them).

    Every connection is served by its own task, so two requests can change a store at the
    same time.  A mutator takes the store's lock twice: to change the list in memory, and
    to write a snapshot of it to the file; a request that checks a job against the others
    takes it once more before.  Here each of these critical sections is one step, tasks
    arrive at any time, and the disk may fail and recover between steps.

    The theorem relates this to one list that is changed by one task after another: in
    every interleaving the memory is that list after all changes, and the file is the list
    after a beginning of them that contains every change that was acknowledged.  Two
    examples show what the locks do not cover: the check of a job's groups against jobs
    that are being saved, and a job that was run while it was being edited. *)

From Stdlib Require Import ZArith Lia Strings.Byte Ascii String.
From stdpp Require Import base tactics option numbers list gmap relations.
From S2P Require Import Prelude Text Base Blob Jobs Sched Stores.
Open Scope Z_scope.

(** ** Tasks *)

(** Where a task is: before its check, before its change, before its write, or done. *)
Inductive stage := Arrived | Checked | Changed | Answered (r : result str unit).

Record task (T : Type) := Task {
  tk_check : list T -> result str unit; tk_change : list T -> list T; tk_stage : stage }.
Arguments Task {T} _ _ _.
Arguments tk_check {T} _ _.
Arguments tk_change {T} _ _.
Arguments tk_stage {T} _.

Definition set_stage {T} (st : stage) (t : task T) : task T := Task (tk_check t) (tk_change t) st.

(** [JsonStore::save] and [delete]. *)
Definition save_task {T} `{HasId T} (item : T) : task T := Task (fun _ => Ok tt) (upsert item) Arrived.
Definition delete_task {T} `{HasId T} (id : str) : task T :=
  Task (fun _ => Ok tt) (List.filter (fun i => negb (has_id id i))) Arrived.

(** The request [SaveJob], and [JobStore::record_run]. *)
Definition save_job_task (job : Job) : task Job :=
  Task (fun jobs => _ ← validate_job job; validate_pbs_groups job jobs) (upsert job) Arrived.
Definition record_run_task (id : str) (time : Z) (status : str) : task Job :=
  Task (fun _ => Ok tt) (update_first id (with_run time status)) Arrived.

(** ** Critical sections *)

(** What the disk answers to writes from now on. *)
Definition set_disk_errors (mkdir tmp rename : option str) (w : world) : world :=
  {| w_files := w_files w; w_read_error := w_read_error w; w_mkdir_error := mkdir;
     w_tmp_error := tmp; w_rename_error := rename; w_pid := w_pid w;
     w_seq := w_seq w; w_secrets := w_secrets w; w_cred_error := w_cred_error w;
     w_random := w_random w; w_account := w_account w; w_key_cache := w_key_cache w;
     w_key_created := w_key_created w |}.

Section race.
Context `{Base64} `{HmacLib} `{EnvelopeJson}.
Context {T : Type} `{ListJson T}.

(** The store and the world that all tasks share; [rc_log] is the changes that were made,
    in the order of the lock. *)
Record race := Race {
  rc_store : JsonStore T; rc_world : world; rc_tasks : list (task T);
  rc_log : list (nat * (list T -> list T)) }.

(** The check reads the list under the lock. *)
Definition check_section (t : task T) (s : JsonStore T) : stage :=
  match tk_check t (js_items s) with Ok _ => Checked | Err e => Answered (Err e) end.

(** The change: refused by a read-only store, else made in memory. *)
Definition change_section (t : task T) (s : JsonStore T) : stage * JsonStore T :=
  match js_ensure_writable s with
  | Err e => (Answered (Err e), s)
  | Ok _ => (Changed, with_items (tk_change t (js_items s)) s)
  end.

(** [persist]: the list is taken and written under one lock. *)
Definition persist_section (s : JsonStore T) (w : world) : stage * world :=
  let '(r, w') := js_persist s w in (Answered r, w').

Definition at_stage (i : nat) (st : stage) (c : race) : list (task T) :=
  alter (set_stage st) i (rc_tasks c).

Definition logged (i : nat) (t : task T) (st : stage) (l : list (nat * (list T -> list T))) :
    list (nat * (list T -> list T)) :=
  match st with Changed => l ++ [(i, tk_change t)] | _ => l end.

Inductive race_step : race -> race -> Prop :=
| race_arrive c t : tk_stage t = Arrived ->
    race_step c (Race (rc_store c) (rc_world c) (rc_tasks c ++ [t]) (rc_log c))
| race_check c i t : rc_tasks c !! i = Some t -> tk_stage t = Arrived ->
    race_step c (Race (rc_store c) (rc_world c) (at_stage i (check_section t (rc_store c)) c) (rc_log c))
| race_change c i t st s : rc_tasks c !! i = Some t -> tk_stage t = Checked ->
    change_section t (rc_store c) = (st, s) ->
    race_step c (Race s (rc_world c) (at_stage i st c) (logged i t st (rc_log c)))
| race_persist c i t st w : rc_tasks c !! i = Some t -> tk_stage t = Changed ->
    persist_section (rc_store c) (rc_world c) = (st, w) ->
    race_step c (Race (rc_store c) w (at_stage i st c) (rc_log c))
| race_disk c mkdir tmp rename :
    race_step c (Race (rc_store c) (set_disk_errors mkdir tmp rename (rc_world c)) (rc_tasks c) (rc_log c)).

(** A task that nobody interrupts: its sections in a row. *)
Definition alone (t : task T) (s : JsonStore T) (w : world) : result str unit * JsonStore T * world :=
  match check_section t s with
  | Answered r => (r, s, w)
  | _ =>
      let '(st, s') := change_section t s in
      match st with
      | Answered r => (r, s', w)
      | _ =>
          let '(st, w') := persist_section s' w in
          (match st with Answered r => r | _ => Ok tt end, s', w')
      end
  end.

End race.
Arguments race : clear implicits.
Arguments Race {T} _ _ _ _.

(** ** One task after another *)

(** A task that is not interrupted is the operation of the store. *)
Lemma alone_update `{Base64} `{HmacLib} `{EnvelopeJson} {T} `{ListJson T} (t : task T) s w :
  alone t s w = match tk_check t (js_items s) with
                | Ok _ => js_update (tk_change t) s w
                | Err e => (Err e, s, w)
                end.
Proof.
  unfold alone, check_section, change_section, persist_section, js_update.
  destruct (tk_check t (js_items s)); [|reflexivity].
  destruct (js_ensure_writable s); [|reflexivity].
  destruct (js_persist _ w) as [r w']. reflexivity.
Qed.

Lemma alone_save_job `{Base64} `{HmacLib} `{EnvelopeJson} `{ListJson Job} `{ListJson SqlConnection}
    `{ListJson PbsServer} `{HashLib} job c :
  let '(r, jobs, w) := alone (save_job_task job) (c_jobs c) (c_world c) in
  handle (SaveJob job) c
  = (saved_reply (j_id job) r, {| c_jobs := jobs; c_sql := c_sql c; c_pbs := c_pbs c; c_world := w |}).
Proof.
  rewrite alone_update. cbn [handle]. unfold save_job_request, save_job_task. cbn [tk_check tk_change].
  destruct (_ ← validate_job job; _) as [u|e]; [|destruct c; reflexivity].
  unfold save_job, js_save. destruct (js_update _ _ _) as [[r s] w]. reflexivity.
Qed.

(** ** What a restart loads *)

(** A file that was loaded was not refused. *)
Ltac refused H := apply (f_equal js_load_error) in H; cbn in H; congruence.

Section reload.
Context `{Base64Laws} `{HmacLib} `{EnvelopeLaws}.

(** The key a new process reads depends on the credential store only. *)
Lemma signing_key_of w w' pid :
  w_secrets w' = w_secrets w -> w_cred_error w' = w_cred_error w -> w_random w' = w_random w ->
  (signing_key (restart pid w')).1 = (signing_key (restart pid w)).1.
Proof.
  intros Es Ec Er. unfold signing_key, mbind, io_bind, read_key, secrets_get, mbind, io_bind. cbn.
  rewrite Es, Ec. destruct (w_cred_error w) as [e|] eqn:E; [reflexivity|].
  destruct (w_secrets w !! HMAC_KEY_NAME) as [b|].
  - unfold io_lift. destruct (b64_decode b); reflexivity.
  - unfold fresh_key. cbn. rewrite Er. destruct (map_err _ _); [|reflexivity].
    unfold secrets_set. cbn. rewrite Ec, E. reflexivity.
Qed.

(** Making a key does not change the key of the next process. *)
Lemma signing_key_again w r w' pid : key_ok w -> signing_key w = (r, w') ->
  (signing_key (restart pid w')).1 = (signing_key (restart pid w)).1.
Proof.
  intros Hk. unfold signing_key at 1. destruct (w_key_cache w) as [k|]; [congruence|].
  unfold mbind, io_bind, read_key, secrets_get, mbind, io_bind.
  destruct (w_cred_error w) as [e|] eqn:Ee; [intros [= <- <-]; reflexivity|].
  destruct (w_secrets w !! HMAC_KEY_NAME) as [b64|] eqn:Es.
  - unfold io_lift. destruct (b64_decode b64) as [k|e]; intros [= <- <-]; [|reflexivity].
    apply signing_key_of; reflexivity.
  - unfold fresh_key. destruct (map_err show_error (random_key (w_random w))) as [k|e] eqn:Er.
    + unfold secrets_set. rewrite Ee. intros [= <- <-].
      unfold signing_key, mbind, io_bind, read_key, secrets_get, mbind, io_bind, io_lift. cbn.
      rewrite Ee, Es, lookup_insert_eq, b64_inverse. unfold fresh_key. cbn. rewrite Er.
      unfold secrets_set. cbn. rewrite Ee. reflexivity.
    + intros [= <- <-]. reflexivity.
Qed.

Context {T : Type} `{ListLaws T}.

(** The file holds the store: whenever the engine starts again, it loads it. *)
Definition loads (w : world) (s : JsonStore T) : Prop :=
  forall pid, (js_with_path (T := T) (js_path s) (restart pid w)).1 = s.

Lemma loads_same w w' s : js_load_error s = None -> loads w s ->
  w_read_error w' = w_read_error w -> w_files w' !! js_path s = w_files w !! js_path s ->
  (forall pid, (signing_key (restart pid w')).1 = (signing_key (restart pid w)).1) -> loads w' s.
Proof.
  intros Hn Hl Er Ef Hk pid. specialize (Hl pid). specialize (Hk pid).
  unfold js_with_path, load_list in *. cbn [restart w_read_error w_files] in *. rewrite Er, Ef.
  destruct (w_read_error w) as [e|]; [refused Hl|].
  destruct (w_files w !! js_path s) as [b|]; [|exact Hl].
  unfold signed_deserialize, mbind, io_bind, io_lift in *. destruct (env_parse b) as [env|].
  - destruct (signing_key (restart pid w)) as [rk w1], (signing_key (restart pid w')) as [rk' w1'].
    cbn in Hk. subst rk'. destruct rk as [k|e]; [|refused Hl].
    destruct (map_err _ _) as [ex|e]; [|refused Hl].
    destruct (ensure _ _) as [u|e]; [|refused Hl].
    destruct (json_parse _) as [l|e]; [exact Hl|refused Hl].
  - destruct (json_parse b) as [l|e]; [exact Hl|refused Hl].
Qed.

Lemma write_random path b w r w' : write_atomic path b w = (r, w') -> w_random w' = w_random w.
Proof.
  unfold write_atomic. destruct (w_mkdir_error w); [congruence|]. cbn zeta. cbn.
  destruct (w_tmp_error w); [intros [= <- <-]; reflexivity|].
  destruct (w_rename_error w); intros [= <- <-]; reflexivity.
Qed.

(** A write that failed leaves what a restart loads. *)
Lemma persist_failed s s' w e w' : js_load_error s = None -> js_load_error s' = None -> key_ok w ->
  js_path s' = js_path s -> js_persist s' w = (Err e, w') -> loads w s -> loads w' s.
Proof.
  intros Hn Hn' Hk Ep E Hl. destruct (persist_spec s' w (Err e) w' Hn' Hk E) as (_ & Hr & _ & _ & Hf).
  rewrite Ep in Hf. apply (loads_same w w' s Hn Hl Hr Hf). intros pid.
  revert E. unfold js_persist, mbind, io_bind, io_lift, js_ensure_writable. rewrite Hn'.
  unfold signed_serialize, mbind, io_bind, io_lift.
  destruct (json_pretty _) as [data|e1]; [|intros [= _ <-]; reflexivity].
  destruct (signing_key w) as [rk w1] eqn:Ek. pose proof (signing_key_again w rk w1 pid Hk Ek) as Hs.
  destruct rk as [k|e1]; [|intros [= _ <-]; exact Hs].
  destruct (env_pretty _) as [b|e1]; [|intros [= _ <-]; exact Hs].
  intros Ew. destruct (write_atomic_spec _ _ _ _ _ Ew) as (_ & _ & Hse & _ & _ & Hc).
  rewrite <- Hs. apply signing_key_of; [exact Hse | exact Hc | exact (write_random _ _ _ _ _ Ew)].
Qed.

End reload.

(** ** All interleavings *)

Section interleavings.
Context `{Base64Laws} `{HmacLib} `{EnvelopeLaws}.
Context {T : Type} `{ListLaws T}.

(** The list after some changes. *)
Definition applied (log : list (nat * (list T -> list T))) (l : list T) : list T :=
  fold_left (fun l x => x.2 l) log l.

(** What a task has done, by its stage. *)
Definition did_change (st : stage) : bool :=
  match st with Changed | Answered (Ok _) => true | _ => false end.
Definition may_have_changed (st : stage) : bool :=
  match st with Changed | Answered _ => true | _ => false end.

(** The log names each task at most once, the ones that have made their change. *)
Record log_inv (c : race T) : Prop := {
  log_once : NoDup (rc_log c).*1;
  log_made : forall i f, (i, f) ∈ rc_log c ->
    exists t, rc_tasks c !! i = Some t /\ tk_change t = f /\ may_have_changed (tk_stage t) = true;
  log_has : forall i t, rc_tasks c !! i = Some t -> did_change (tk_stage t) = true ->
    (i, tk_change t) ∈ rc_log c }.

Lemma log_moved c i t st w s : rc_tasks c !! i = Some t -> log_inv c ->
  (may_have_changed (tk_stage t) = true -> may_have_changed st = true) ->
  (did_change st = true -> did_change (tk_stage t) = true) ->
  log_inv (Race s w (at_stage i st c) (rc_log c)).
Proof.
  intros Hi [Ho Hm Hh] Hup Hdown. split; cbn; [exact Ho | |].
  - intros j f Hj. destruct (Hm j f Hj) as (u & Hu & Ef & Hs). unfold at_stage.
    destruct (base.decide (i = j)) as [<-|Hne].
    + rewrite Hi in Hu. injection Hu as <-. exists (set_stage st t). rewrite list_lookup_alter_eq, Hi. auto.
    + exists u. rewrite list_lookup_alter_ne by exact Hne. auto.
  - intros j u Hj Hs. unfold at_stage in Hj. destruct (base.decide (i = j)) as [<-|Hne].
    + rewrite list_lookup_alter_eq, Hi in Hj. injection Hj as <-. apply (Hh i t Hi), Hdown, Hs.
    + rewrite list_lookup_alter_ne in Hj by exact Hne. auto.
Qed.

(** A change is added to the log. *)
Lemma log_changed c i t w s : rc_tasks c !! i = Some t -> tk_stage t = Checked -> log_inv c ->
  log_inv (Race s w (at_stage i Changed c) (rc_log c ++ [(i, tk_change t)])).
Proof.
  intros Hi Hst [Ho Hm Hh].
  assert (forall j, at_stage i Changed c !! j = if base.decide (i = j) then Some (set_stage Changed t) else rc_tasks c !! j) as Hat.
  { intros j. unfold at_stage. case_decide as E; [subst; rewrite list_lookup_alter_eq, Hi; reflexivity|].
    apply list_lookup_alter_ne, E. }
  split; cbn.
  - rewrite fmap_app. apply NoDup_app. split; [exact Ho|]. split; [|apply NoDup_singleton].
    intros j Hj E. apply list_elem_of_singleton in E. cbn in E. subst j.
    apply list_elem_of_fmap in Hj as ([k f] & Ek & Hj). cbn in Ek. subst k. destruct (Hm _ _ Hj) as (u & Hu & _ & Hs).
    rewrite Hi in Hu. injection Hu as <-. rewrite Hst in Hs. discriminate.
  - intros j f Hj. rewrite Hat. apply elem_of_app in Hj as [Hj|Hj].
    + destruct (Hm j f Hj) as (u & Hu & Ef & Hs). case_decide as E; [|eauto].
      subst. rewrite Hi in Hu. injection Hu as <-. rewrite Hst in Hs. discriminate.
    + apply list_elem_of_singleton in Hj as [= -> ->]. rewrite decide_True by reflexivity.
      exists (set_stage Changed t). auto.
  - intros j u. rewrite Hat. case_decide as E; intros Hj Hs.
    + injection Hj as <-. subst. apply elem_of_app. right. apply list_elem_of_singleton. reflexivity.
    + apply elem_of_app. left. auto.
Qed.

Lemma log_step c c' : race_step c c' -> log_inv c -> log_inv c'.
Proof.
  intros Hs Hl. destruct Hs as [c t Ht|c i t Hi Ht|c i t st s Hi Ht E|c i t st w Hi Ht E|c m tm r].
  - destruct Hl as [Ho Hm Hh]. split; cbn; [exact Ho | |].
    + intros i f Hi. destruct (Hm i f Hi) as (u & Hu & R). exists u.
      rewrite lookup_app_l by (eapply lookup_lt_Some; eauto). auto.
    + intros i u Hi Hd. apply lookup_snoc_Some in Hi as [[_ Hi]|[_ <-]]; [auto|].
      rewrite Ht in Hd. discriminate.
  - apply (log_moved c i t); auto; rewrite Ht; [discriminate|].
    unfold check_section. destruct (tk_check _ _); discriminate.
  - unfold change_section in E. destruct (js_ensure_writable _); injection E as <- <-; cbn [logged].
    + apply log_changed; auto.
    + apply (log_moved c i t); auto; rewrite Ht; discriminate.
  - unfold persist_section in E. destruct (js_persist _ _) as [r w']. injection E as <- <-.
    apply (log_moved c i t); auto; rewrite Ht; reflexivity.
  - destruct Hl as [Ho Hm Hh]. split; auto.
Qed.

(** The file has the list after a beginning of the changes, with every change that was
    acknowledged. *)
Definition on_file (s0 : JsonStore T) (c : race T) (l : list (nat * (list T -> list T))) : Prop :=
  l `prefix_of` rc_log c /\ loads (rc_world c) (with_items (applied l (js_items s0)) s0) /\
  forall i t, rc_tasks c !! i = Some t -> tk_stage t = Answered (Ok tt) -> (i, tk_change t) ∈ l.

Record race_inv (s0 : JsonStore T) (c : race T) : Prop := {
  ri_log : log_inv c;
  ri_store : rc_store c = with_items (applied (rc_log c) (js_items s0)) s0;
  ri_key : key_ok (rc_world c);
  ri_read : w_read_error (rc_world c) = None; ri_cred : w_cred_error (rc_world c) = None;
  ri_file : exists l, on_file s0 c l }.

(** A step after which no further task is acknowledged keeps what is on file. *)
Lemma on_file_moved s0 c i t st s w log l :
  on_file s0 c l -> rc_tasks c !! i = Some t -> st <> Answered (Ok tt) -> l `prefix_of` log ->
  loads w (with_items (applied l (js_items s0)) s0) ->
  on_file s0 (Race s w (at_stage i st c) log) l.
Proof.
  intros (_ & _ & Ha) Hi Hst Hp Hl. split; [exact Hp|]. split; [exact Hl|]. cbn. intros j u Hj Hs.
  unfold at_stage in Hj. destruct (base.decide (i = j)) as [<-|Hne].
  - rewrite list_lookup_alter_eq, Hi in Hj. injection Hj as <-. cbn in Hs. contradiction.
  - rewrite list_lookup_alter_ne in Hj by exact Hne. auto.
Qed.

(** A write that succeeded puts everything on file. *)
Lemma on_file_written s0 c i t w :
  log_inv (Race (rc_store c) w (at_stage i (Answered (Ok tt)) c) (rc_log c)) ->
  rc_tasks c !! i = Some t -> loads w (with_items (applied (rc_log c) (js_items s0)) s0) ->
  on_file s0 (Race (rc_store c) w (at_stage i (Answered (Ok tt)) c) (rc_log c)) (rc_log c).
Proof.
  intros [_ _ Hh] Hi Hl. split; [reflexivity|]. split; [exact Hl|]. intros j u Hj Hs.
  apply Hh; [exact Hj | rewrite Hs; reflexivity].
Qed.

Lemma check_not_ok t (s : JsonStore T) : check_section t s <> Answered (Ok tt).
Proof. unfold check_section. destruct (tk_check _ _); discriminate. Qed.

Lemma race_inv_step s0 c c' : js_load_error s0 = None -> race_step c c' -> race_inv s0 c -> race_inv s0 c'.
Proof.
  intros Hn Hst Hinv. pose proof (log_step c c' Hst (ri_log _ _ Hinv)) as Hlog'.
  destruct Hinv as [Hlog Hstore Hk Hr Hc (l & Hf)].
  assert (Hn' : js_load_error (rc_store c) = None) by (rewrite Hstore; exact Hn).
  destruct Hst as [c t Ht|c i t Hi Ht|c i t st s Hi Ht E|c i t st w Hi Ht E|c m tm r].
  - split; auto. exists l. destruct Hf as (Hp & Hl & Ha). split; [exact Hp|]. split; [exact Hl|].
    cbn. intros i u Hi Hs. apply lookup_snoc_Some in Hi as [[_ Hi]|[_ <-]]; [eauto | congruence].
  - split; auto. exists l. eapply on_file_moved; eauto using check_not_ok; apply Hf.
  - unfold change_section, js_ensure_writable in E. rewrite Hn' in E. cbv iota in E. injection E as <- <-. cbn [logged] in *.
    split; auto.
    + cbn. rewrite Hstore. unfold applied. rewrite fold_left_app. reflexivity.
    + exists l. eapply on_file_moved; eauto; [|apply Hf].
      apply prefix_app_r, Hf.
  - unfold persist_section in E. destruct (js_persist _ _) as [r w'] eqn:Ep. injection E as <- <-.
    destruct (persist_spec _ _ _ _ Hn' Hk Ep) as (Hk' & Hr' & Hc' & _ & Hw).
    split; auto; cbn; try congruence. destruct r as [[]|e].
    + exists (rc_log c). eapply on_file_written; eauto. intros pid. cbn.
      specialize (Hw Hr Hc pid). rewrite Hstore in Hw. exact Hw.
    + exists l. eapply on_file_moved; eauto; [apply Hf|].
      apply (persist_failed _ (rc_store c) (rc_world c) e); auto; [rewrite Hstore; reflexivity | apply Hf].
  - split; auto. exists l. destruct Hf as (Hp & Hl & Ha). split; [exact Hp|]. split; [|exact Ha].
    apply (loads_same (rc_world c)); auto. intros pid. apply signing_key_of; reflexivity.
Qed.

(** Changes are only added. *)
Lemma log_grows (c c' : race T) : rtc race_step c c' -> rc_log c `prefix_of` rc_log c'.
Proof.
  induction 1 as [c|c c1 c2 Hs _ IH]; [reflexivity|]. etrans; [|exact IH].
  destruct Hs as [| |c i t st s _ _ _| |]; cbn; try reflexivity.
  destruct st; cbn; try reflexivity. apply prefix_app_r. reflexivity.
Qed.

Lemma race_inv_reached s0 w0 c : js_load_error s0 = None -> key_ok w0 -> w_read_error w0 = None ->
  w_cred_error w0 = None -> loads w0 s0 -> rtc race_step (Race s0 w0 [] []) c -> race_inv s0 c.
Proof.
  intros Hn Hk Hr Hc Hl Hs. remember (Race s0 w0 [] []) as c0 eqn:E.
  assert (race_inv s0 c0) as Hi.
  { subst c0. split; cbn; auto.
    - split; cbn; [constructor | |]; intros i f Hi; inversion Hi.
    - destruct s0; reflexivity.
    - exists []. split; [reflexivity|]. split; [destruct s0; exact Hl|]. cbn. intros i t Hi. discriminate. }
  clear E Hl Hk Hr Hc. induction Hs as [|c c1 c2 Hst _ IH]; [exact Hi|].
  apply IH. eapply race_inv_step; eauto.
Qed.

(** All tasks acknowledged: all changes are on file. *)
Lemma all_on_file s0 c l : log_inv c -> on_file s0 c l ->
  Forall (fun t => tk_stage t = Answered (Ok tt)) (rc_tasks c) -> l = rc_log c.
Proof.
  intros [Ho Hm _] ([r Er] & _ & Ha) Hall. destruct r as [|[i f] r]; [rewrite app_nil_r in Er; auto|].
  exfalso. destruct (Hm i f) as (t & Hi & Ef & _).
  { rewrite Er. apply elem_of_app. right. left. }
  assert (tk_stage t = Answered (Ok tt)) as Hs by (eapply Forall_lookup_1 in Hall; eauto).
  pose proof (Ha i t Hi Hs) as Hin. rewrite Er, fmap_app in Ho. apply NoDup_app in Ho as (_ & Hd & _).
  apply (Hd i); [|left]. apply list_elem_of_fmap. exists (i, tk_change t). auto.
Qed.

(** C17: concurrent requests never lose an update.  However the critical sections of the
    tasks interleave and whenever the disk fails, the store in memory is the result of
    the changes one after another, in the order in which they were made, each task's at
    most once; the order is never revised.  The file always loads: whenever the engine
    dies and starts again, it gets the list after a beginning of these changes, and every
    change that was acknowledged is among them; when all were acknowledged, it gets all
    that was in memory. *)
Theorem racing_changes_kept s0 w0 c c' :
  js_load_error s0 = None -> key_ok w0 -> w_read_error w0 = None -> w_cred_error w0 = None ->
  loads w0 s0 -> rtc race_step (Race s0 w0 [] []) c -> rtc race_step c c' ->
  rc_store c' = with_items (applied (rc_log c') (js_items s0)) s0 /\
  rc_log c `prefix_of` rc_log c' /\ log_inv c' /\
  exists l, on_file s0 c' l /\
    (Forall (fun t => tk_stage t = Answered (Ok tt)) (rc_tasks c') -> loads (rc_world c') (rc_store c')).
Proof.
  intros Hn Hk Hr Hc Hl Hs Hs'.
  destruct (race_inv_reached s0 w0 c' Hn Hk Hr Hc Hl ltac:(etrans; eauto)) as [Hlog Hst _ _ _ (l & Hf)].
  split; [exact Hst|]. split; [exact (log_grows c c' Hs')|]. split; [exact Hlog|].
  exists l. split; [exact Hf|]. intros Hall. rewrite Hst, <- (all_on_file s0 c' l Hlog Hf Hall). apply Hf.
Qed.

End interleavings.

(** ** Schedules *)

Section schedules.
Context `{Base64} `{HmacLib} `{EnvelopeJson}.
Context {T : Type} `{ListJson T}.

(** The next section of a task, if it has one. *)
Definition advance (i : nat) (c : race T) : race T :=
  match rc_tasks c !! i with
  | None => c
  | Some t =>
      match tk_stage t with
      | Arrived => Race (rc_store c) (rc_world c) (at_stage i (check_section t (rc_store c)) c) (rc_log c)
      | Checked =>
          let '(st, s) := change_section t (rc_store c) in
          Race s (rc_world c) (at_stage i st c) (logged i t st (rc_log c))
      | Changed =>
          let '(st, w) := persist_section (rc_store c) (rc_world c) in
          Race (rc_store c) w (at_stage i st c) (rc_log c)
      | Answered _ => c
      end
  end.

Definition start (ts : list (task T)) (s : JsonStore T) (w : world) : race T := Race s w ts [].
Definition run_schedule (order : list nat) (c : race T) : race T := fold_left (fun c i => advance i c) order c.

Lemma advance_steps i c : rtc race_step c (advance i c).
Proof.
  unfold advance. destruct (rc_tasks c !! i) as [t|] eqn:Hi; [|reflexivity].
  destruct (tk_stage t) eqn:Ht; [| | |reflexivity].
  - apply rtc_once. eapply race_check; eauto.
  - destruct (change_section _ _) eqn:E. apply rtc_once. eapply race_change; eauto.
  - destruct (persist_section _ _) eqn:E. apply rtc_once. eapply race_persist; eauto.
Qed.

Lemma schedule_steps order c : rtc race_step c (run_schedule order c).
Proof.
  revert c. induction order as [|i order IH]; intros c; [reflexivity|].
  etrans; [apply advance_steps | apply IH].
Qed.

Lemma start_steps ts s w : Forall (fun t => tk_stage t = Arrived) ts ->
  rtc race_step (Race s w [] []) (start ts s w).
Proof.
  unfold start. induction ts as [|t ts IH] using rev_ind; intros Hf; [reflexivity|].
  apply Forall_app in Hf as [Hf Ht]. etrans; [apply IH, Hf|]. apply rtc_once.
  apply (race_arrive (Race s w ts [])). inversion Ht; assumption.
Qed.

End schedules.

(** ** Samples *)

Module SampleRaces.
Import SampleJson SampleStore.

Definition empty : JsonStore Job := store0 JOBS.

Lemma empty_loads : loads world0 empty.
Proof. intros pid. reflexivity. Qed.

Lemma empty_key : key_ok world0.
Proof. intros k. discriminate. Qed.

(** Two jobs are saved while a third is deleted; the disk takes every write. *)
Definition three : list (task Job) := [save_job_task job_a; delete_task (L "x"); save_job_task job_c].
Definition mixed : race Job := run_schedule [0; 2; 0; 1; 2; 1; 2; 0; 1]%nat (start three empty world0).

Example mixed_saved : map tk_stage (rc_tasks mixed) = replicate 3 (Answered (Ok tt)) /\
  map fst (rc_log mixed) = [0; 2; 1]%nat /\ js_items (rc_store mixed) = [job_a; job_c].
Proof. split_and!; vm_compute; reflexivity. Qed.

Lemma mixed_acknowledged : Forall (fun t => tk_stage t = Answered (Ok tt)) (rc_tasks mixed).
Proof. repeat (apply Forall_cons_2; [vm_compute; reflexivity|]). constructor. Qed.

Lemma racing_changes_kept_witness : loads (rc_world mixed) (rc_store mixed) /\ js_items (rc_store mixed) = [job_a; job_c].
Proof.
  split; [|vm_compute; reflexivity].
  destruct (racing_changes_kept empty world0 (start three empty world0) mixed) as (_ & _ & _ & l & _ & Hl).
  - reflexivity.
  - exact empty_key.
  - reflexivity.
  - reflexivity.
  - exact empty_loads.
  - apply start_steps. repeat constructor.
  - apply schedule_steps.
  - exact (Hl mixed_acknowledged).
Defined.

(** The check of a job's snapshot groups and the save are not one critical section: two
    jobs that would share a group are both saved when each is checked before the other is
    there.  One after the other, the second is refused. *)
Definition both : list (task Job) := [save_job_task job_a; save_job_task job_b].

Example racing_saves_collide :
  let c := run_schedule [0; 1; 0; 1; 0; 1]%nat (start both empty world0) in
  map tk_stage (rc_tasks c) = replicate 2 (Answered (Ok tt)) /\
  js_items (rc_store c) = [job_a; job_b] /\ ~ NoDup (server_groups (L "s") (js_items (rc_store c))) /\
  js_items (rc_store (run_schedule [0; 0; 0; 1; 1; 1]%nat (start both empty world0))) = [job_a].
Proof.
  cbv zeta. split; [vm_compute; reflexivity|]. split; [vm_compute; reflexivity|]. split.
  - assert (bool_decide (NoDup (server_groups (L "s") (js_items (rc_store
      (run_schedule [0; 1; 0; 1; 0; 1]%nat (start both empty world0)))))) = false) as E by (vm_compute; reflexivity).
    apply bool_decide_eq_false in E. exact E.
  - vm_compute. reflexivity.
Qed.

(** A job that the user saves as it was when the editor was opened: the run that ended in
    between is forgotten, and its schedule counts from the run before. *)
Example stale_save_forgets_run :
  let c := run_schedule [0; 0; 0; 1; 1; 1]%nat
             (start [record_run_task (L "a") 5000 (L "ok"); save_job_task job_a] (with_items [job_a] empty) world0) in
  map tk_stage (rc_tasks c) = replicate 2 (Answered (Ok tt)) /\
  map j_last_run (js_items (rc_store c)) = [None].
Proof. split; vm_compute; reflexivity. Qed.

End SampleRaces.
