(* ===== verification/Serve.v ===== *)
(** Listening on the local socket ([pbsgui-ipc/src/transport.rs], [serve_typed]), and the
    two engines that serve it: the one of [handler.rs], and the one of
    [pbsgui-ad-engine/src/main.rs] with its protocol in [adproto.rs].

    An engine is a handler of requests: a task per request that works on the engine's
    state, sends replies, and returns or panics, in steps between which anything else can
    happen.  The interface has one law: a task that returns has sent exactly one terminal
    reply, its last, and one that panics none.  The listener is proved against this
    interface, in every interleaving of its connections: what is on a client's connection
    is what the task of its own request sent.  Both engines are instances. *)

From Stdlib Require Import ZArith Lia Strings.Byte Ascii String.
From stdpp Require Import base tactics option numbers list gmap relations.
From S2P Require Import Prelude Text Base Repository HttpApi Jobs Sched Stores Runs Channels Frames Proxy Transport Requests Export Files Browse Discover Metrics Notify Probe Gui Enrol Changes Exporter Engine.
Open Scope Z_scope.

(** ** The interface of an engine *)

(** What a task does in a step. *)
Inductive task_event (Rep Task : Type) :=
| Works (t : Task) | Sends (r : Rep) (t : Task) | Returns | Dies.
Arguments Works {Rep Task} _. Arguments Sends {Rep Task} _ _.
Arguments Returns {Rep Task}. Arguments Dies {Rep Task}.

Class Handler (Req Rep S Task : Type) := {
  hd_start : Req -> Task;
  hd_step : Task -> S -> task_event Rep Task -> S -> Prop;
  hd_terminal : Rep -> bool }.

(** A stream of replies with exactly one terminal reply, the last. *)
Definition ended {Rep} (terminal : Rep -> bool) (rs : list Rep) : Prop :=
  exists before last, rs = before ++ [last] /\ Forall (fun p => terminal p = false) before /\ terminal last = true.

Section traces.
Context {Req Rep S Task : Type} `{Handler Req Rep S Task}.

(** The task of the request [q] has sent [rs] and is now [t], whatever happened to the
    engine's state between its steps. *)
Inductive trace (q : Req) : list Rep -> Task -> Prop :=
| trace_start : trace q [] (hd_start q)
| trace_work rs t s t' s' : trace q rs t -> hd_step t s (Works t') s' -> trace q rs t'
| trace_send rs t s r t' s' : trace q rs t -> hd_step t s (Sends r t') s' -> trace q (rs ++ [r]) t'.

(** It has sent [rs] and returned; or has sent [rs] and panicked. *)
Definition returned (q : Req) (rs : list Rep) : Prop :=
  exists t s s', trace q rs t /\ hd_step t s Returns s'.
Definition panicked (q : Req) (rs : list Rep) : Prop :=
  exists t s s', trace q rs t /\ hd_step t s Dies s'.
End traces.

Class HandlerLaws (Req Rep S Task : Type) `{Handler Req Rep S Task} := {
  hd_ended : forall q rs, returned q rs -> ended hd_terminal rs;
  hd_cut : forall q rs, panicked q rs -> Forall (fun p => hd_terminal p = false) rs }.

(** ** The listener *)

Record connection := Connection { cn_in : reader; cn_out : writer }.

(** How a connection's task ended: its handler returned or panicked, or it brought no
    request that could be read. *)
Inductive closing := HandlerReturned | HandlerPanicked | NoRequest.

(** A connection whose request is not read yet; one whose handler is at work, with the
    replies it has sent and what is on the wire; and one that is closed. *)
Inductive slot (Rep Task : Type) :=
| Waiting (c : connection)
| Running (c : connection) (t : Task) (sent : list Rep) (w : writer)
| Closed (c : connection) (sent : list Rep) (w : writer) (how : closing).
Arguments Waiting {Rep Task} _. Arguments Running {Rep Task} _ _ _ _. Arguments Closed {Rep Task} _ _ _ _.

Section serve.
Context {Req Rep S Task : Type} `{Handler Req Rep S Task} `{MessageJson Req} `{MessageJson Rep} `{ErrorReply Rep}.

(** A handler sends its replies one by one and ignores whether they arrive. *)
Definition send_all (rs : list Rep) (w : writer) : writer :=
  fold_left (fun w r => (responder_send r w).2) rs w.

(** The request a connection brings, if it brings one that can be read. *)
Definition request_of (r : reader) : option Req :=
  match (read_line (A := Req) r).1 with
  | Ok (Some line) => match from_text (trim line) with Ok q => Some q | Err _ => None end
  | _ => None
  end.

(** [handle_connection] up to its handler. *)
Definition open_connection (c : connection) : slot Rep Task :=
  match (read_line (A := Req) (cn_in c)).1 with
  | Err _ | Ok None => Closed c [] (cn_out c) NoRequest
  | Ok (Some line) =>
      match from_text (trim line) with
      | Ok q => Running c (hd_start q) [] (cn_out c)
      | Err e =>
          let rep := Transport.error_reply (L "invalid request: " ++ e) in
          Closed c [rep] (responder_send rep (cn_out c)).2 NoRequest
      end
  end.

(** A step of the handler of a connection. *)
Definition after_event (c : connection) (sent : list Rep) (w : writer) (ev : task_event Rep Task) :
    slot Rep Task :=
  match ev with
  | Works t => Running c t sent w
  | Sends r t => Running c t (sent ++ [r]) (responder_send r w).2
  | Returns => Closed c sent w HandlerReturned
  | Dies => Closed c sent w HandlerPanicked
  end.

(** Every connection that was ever accepted, and the state of the engine. *)
Record server := Server { sv_slots : list (slot Rep Task); sv_state : S }.

(** [serve_typed]: it returns only when the socket cannot be made. *)
Definition serve_typed (created : result io_error unit) (s : S) : result io_error server :=
  _ ← created; Ok (Server [] s).

(** A turn of the accept loop, a connection whose request is read, a step of a handler, or
    something else that changes the engine.  A connection that cannot be accepted is
    logged. *)
Inductive serve_step : server -> server -> Prop :=
| serve_accept v (accepted : result io_error connection) :
    serve_step v (Server (sv_slots v ++ match accepted with Ok c => [Waiting c] | Err _ => [] end)
                    (sv_state v))
| serve_open v i c : sv_slots v !! i = Some (Waiting c) ->
    serve_step v (Server (<[i := open_connection c]> (sv_slots v)) (sv_state v))
| serve_task v i c t sent w ev s :
    sv_slots v !! i = Some (Running c t sent w) -> hd_step t (sv_state v) ev s ->
    serve_step v (Server (<[i := after_event c sent w ev]> (sv_slots v)) s)
| serve_background v s : serve_step v (Server (sv_slots v) s).

(** ** What is on the wire *)

(** A line goes out whole, or its beginning and nothing after it. *)
Lemma send_line_out r b w : to_vec r = Ok b -> exists p, w_sent (responder_send r w).2 = w_sent w ++ p /\
  p `prefix_of` b ++ [NL] /\
  (p = b ++ [NL] \/ dead (responder_send r w).2) /\
  (w_room w = None -> p = b ++ [NL] /\ w_room (responder_send r w).2 = None) /\
  (dead w -> p = [] /\ dead (responder_send r w).2).
Proof.
  intros Eb. unfold responder_send, send_line. rewrite Eb. unfold conn_bind, write_all, dead.
  destruct (w_room w) as [n|] eqn:E.
  - destruct (length (b ++ [NL]) <=? n)%nat eqn:El.
    + exists (b ++ [NL]).
      assert (forall u, (flush u).2 = u) as Hf by (intros u; unfold flush; destruct (w_room u) as [[]|]; reflexivity).
      rewrite Hf. cbn. split_and!; auto; try discriminate.
      intros [= ->]. apply Nat.leb_le in El. rewrite length_app in El. cbn in El. lia.
    + exists (take n (b ++ [NL])). cbn. split_and!; auto; try discriminate.
      * apply prefix_take.
      * intros [= ->]. auto.
  - exists (b ++ [NL]). cbn. split_and!; auto; discriminate.
Qed.

Lemma send_all_dead rs w : Forall writable rs -> dead w ->
  w_sent (send_all rs w) = w_sent w.
Proof.
  intros HF. revert w. induction HF as [|r rs [b Eb] HF IH]; intros w Hd; [reflexivity|].
  change (send_all (r :: rs) w) with (send_all rs (responder_send r w).2).
  destruct (send_line_out r b w Eb) as (p & Es & _ & _ & _ & Hdead).
  destruct (Hdead Hd) as [-> Hd']. rewrite (IH _ Hd'), Es, app_nil_r. reflexivity.
Qed.

Lemma send_all_out rs w : Forall writable rs -> exists p, w_sent (send_all rs w) = w_sent w ++ p /\
  p `prefix_of` concat (map line_of rs) /\ (w_room w = None -> p = concat (map line_of rs)).
Proof.
  intros HF. revert w. induction HF as [|r rs [b Eb] HF IH]; intros w.
  { exists []. rewrite app_nil_r. auto. }
  change (send_all (r :: rs) w) with (send_all rs (responder_send r w).2).
  destruct (send_line_out r b w Eb) as (p & Es & Hp & Hor & Hroom & _).
  assert (line_of r = b ++ [NL]) as El by (unfold line_of; rewrite Eb; reflexivity).
  cbn [map concat]. rewrite El. destruct Hor as [->|Hd].
  - destruct (IH (responder_send r w).2) as (p' & Es' & Hp' & Hr'). exists ((b ++ [NL]) ++ p').
    rewrite Es', Es. split; [symmetry; apply app_assoc|]. split; [apply prefix_app, Hp'|].
    intros Hn. rewrite Hr' by apply Hroom, Hn. reflexivity.
  - exists p. rewrite send_all_dead by auto. split; [exact Es|]. split; [apply prefix_app_r, Hp|].
    intros Hn. destruct (Hroom Hn) as [_ Hr]. unfold dead in Hd. congruence.
Qed.

End serve.
Arguments server : clear implicits.
Arguments Server {Rep S Task} _ _.

(** ** Every client gets its own replies *)

Section clients.
Context {Req Rep S Task : Type} `{HandlerLaws Req Rep S Task} `{MessageLaws Req} `{MessageLaws Rep} `{ErrorReply Rep}.

(** The task of the request of a connection, and on the wire what it sent. *)
Definition slot_ok (x : slot Rep Task) : Prop :=
  match x with
  | Waiting _ => True
  | Running c t sent w => exists q : Req,
      request_of (cn_in c) = Some q /\ trace q sent t /\ w = send_all sent (cn_out c)
  | Closed c sent w how =>
      match how with
      | HandlerReturned => exists q : Req,
          request_of (cn_in c) = Some q /\ returned q sent /\ w = send_all sent (cn_out c)
      | HandlerPanicked => exists q : Req,
          request_of (cn_in c) = Some q /\ panicked q sent /\ w = send_all sent (cn_out c)
      | NoRequest => request_of (Req := Req) (cn_in c) = None
      end
  end.

Lemma open_ok c : slot_ok (open_connection c).
Proof.
  unfold open_connection. destruct (read_line (A := Req) (cn_in c)) as [[[line|]|e] r] eqn:E; cbn [fst].
  1: destruct (from_text (A := Req) (trim line)) as [q|e] eqn:Ef; cbn.
  1: exists q; split_and!; [|constructor|reflexivity].
  all: cbn [slot_ok]; unfold request_of; rewrite E; cbn; rewrite ?Ef; reflexivity.
Qed.

Lemma event_ok c t sent w s ev s' :
  slot_ok (Running c t sent w) -> hd_step t s ev s' -> slot_ok (after_event c sent w ev).
Proof.
  intros (q & Hq & Ht & ->) Hs. destruct ev as [t'|r t'| |]; cbn; exists q; (split; [exact Hq|]).
  - split; [eapply trace_work; eassumption | reflexivity].
  - split; [eapply trace_send; eassumption|]. unfold send_all. rewrite fold_left_app. reflexivity.
  - split; [do 3 eexists; eauto | reflexivity].
  - split; [do 3 eexists; eauto | reflexivity].
Qed.

Lemma serve_steps (v v' : server Rep S Task) :
  serve_step v v' -> Forall slot_ok (sv_slots v) -> Forall slot_ok (sv_slots v').
Proof.
  intros Hs HF. destruct Hs as [v acc|v i c Hi|v i c t sent w ev s Hi He|v s]; cbn; [| | |exact HF].
  - apply Forall_app. split; [exact HF|]. destruct acc; repeat constructor.
  - apply Forall_insert; [exact HF | apply open_ok].
  - apply Forall_insert; [exact HF|]. eapply Forall_lookup_1 in HF; [|exact Hi].
    eapply event_ok; eassumption.
Qed.

Lemma serve_reached (v v' : server Rep S Task) : rtc serve_step v v' ->
  Forall slot_ok (sv_slots v) -> Forall slot_ok (sv_slots v').
Proof. induction 1 as [|v v1 v2 Hs _ IH]; intros HF; [exact HF|]. apply IH. eapply serve_steps; eauto. Qed.

Lemma request_of_message (q : Req) bq extra tl : to_vec q = Ok bq ->
  request_of (Reader (bq ++ NL :: extra) tl) = Some q.
Proof.
  intros Eq. unfold request_of. destruct (read_line_message q bq extra tl Eq) as (l & -> & Ef).
  cbn. rewrite Ef. reflexivity.
Qed.

(** A client that reads what a connection got on the wire. *)
Definition client (q : Req) (wire : bytes) (tl : option io_error) : result io_error unit * list Rep :=
  send_request_typed q (Ok (Writer [] None true)) (fun _ => Reader wire tl).

(** What the client of a connection on which [sent] was sent can read: if everything went
    out, exactly [sent] and then the end; if not, a beginning of it, and behind that at
    most one error reply, which the client's side makes of a line that was cut. *)
Definition client_reads (q : Req) (room : option nat) (tl : option io_error) (sent : list Rep) (w : writer) : Prop :=
  heard sent (client q (w_sent w) tl).2 /\
  match room with None => client q (w_sent w) None = (Ok tt, sent) | Some _ => True end.

Lemma sent_is_read (q : Req) bq sent room fl tl : to_vec q = Ok bq -> Forall writable sent ->
  client_reads q room tl sent (send_all sent (Writer [] room fl)).
Proof.
  intros Eq Hw. destruct (send_all_out sent (Writer [] room fl) Hw) as (p & Es & Hp & Hall).
  unfold client_reads. rewrite Es. cbn [w_sent app].
  assert (forall t, client q p t = read_replies (Datatypes.S (length p)) (Reader p t)) as Hc.
  { intros t. unfold client, send_request_typed, send_line. rewrite Eq. reflexivity. }
  rewrite !Hc. split; [apply (read_replies_heard _ Hw _ p tl Hp); lia|].
  destruct room; [exact I|]. apply (read_replies_heard _ Hw); auto; lia.
Qed.

(** The connection of a slot. *)
Definition slot_conn (x : slot Rep Task) : connection :=
  match x with Waiting c | Running c _ _ _ | Closed c _ _ _ => c end.

(** C13: a client of an engine, whatever other clients, failed connections and the engine's
    own work go on beside it and however the steps of all the handlers interleave: what was
    sent on its connection is what the task of its own request sent, in order; the client
    reads exactly that, or, if it goes away meanwhile, a beginning of it and at most one
    error that its own side makes of a line that was cut; if the handler returned, this is
    a stream with exactly one terminal reply, the last, and if it panicked, one without a
    terminal reply; and a request that can be read is never refused. *)
Theorem clients_answered s0 (v v' : server Rep S Task) (i : nat) x (q : Req) bq extra tl room fl tl' :
  serve_typed (Ok tt) s0 = Ok v -> rtc serve_step v v' ->
  (forall rs t, trace q rs t -> Forall writable rs) -> to_vec q = Ok bq ->
  sv_slots v' !! i = Some x ->
  slot_conn x = Connection (Reader (bq ++ NL :: extra) tl) (Writer [] room fl) ->
  match x with
  | Waiting _ => True
  | Running _ t sent w => trace q sent t /\ client_reads q room tl' sent w
  | Closed _ sent w HandlerReturned =>
      returned q sent /\ ended hd_terminal sent /\ client_reads q room tl' sent w
  | Closed _ sent w HandlerPanicked =>
      panicked q sent /\ Forall (fun p => hd_terminal p = false) sent /\ client_reads q room tl' sent w
  | Closed _ _ _ NoRequest => False
  end.
Proof.
  intros Hv Hs Hw Eq Hi Hc. injection Hv as <-.
  pose proof (serve_reached _ _ Hs ltac:(constructor)) as HF. eapply Forall_lookup_1 in HF; [|exact Hi].
  pose proof (request_of_message q bq extra tl Eq) as Hq.
  destruct x as [c|c t sent w|c sent w how]; [exact I| |]; cbn in Hc; subst c; cbn in HF.
  - destruct HF as (q' & Hq' & Ht & ->). assert (q' = q) as -> by congruence.
    split; [exact Ht | eapply sent_is_read; eauto].
  - destruct how; [| |congruence]; destruct HF as (q' & Hq' & Ht & ->); assert (q' = q) as -> by congruence;
      pose proof Ht as (t & s & s' & Htr & _); (split; [exact Ht|]).
    + split; [exact (hd_ended q sent Ht) | eapply sent_is_read; eauto].
    + split; [exact (hd_cut q sent Ht) | eapply sent_is_read; eauto].
Qed.

End clients.

(** ** The engines *)

(** The engine of [handler.rs], with the outside world of the moment.  What its handler
    does to the engine is one step here ([Engine]; what can happen during it is in the files
    of the components); its replies go out one by one. *)
Section main_engine.
Context `{DebugFmt} `{Base64} `{HmacLib} `{EnvelopeJson} `{HashLib} `{ArchiveLib}.
Context `{ListJson Job} `{ListJson SqlConnection} `{ListJson PbsServer}.
Context `{SettingsJson NotificationSettings} `{SettingsJson MetricsSettings} `{SettingsJson ServerFile}.

Inductive main_task := MainStarts (q : ipc_request) | MainSends (rs : list ipc_reply) (ok : bool).

Inductive main_step : main_task -> handler_env * engine_state -> task_event ipc_reply main_task ->
    handler_env * engine_state -> Prop :=
| main_works q e s rs s' ok : engine_task e q s = (rs, s', ok) ->
    main_step (MainStarts q) (e, s) (Works (MainSends rs ok)) (e, s')
| main_sends r rs ok s : main_step (MainSends (r :: rs) ok) s (Sends r (MainSends rs ok)) s
| main_returns s : main_step (MainSends [] true) s Returns s
| main_dies s : main_step (MainSends [] false) s Dies s.

#[export] Instance main_engine : Handler ipc_request ipc_reply (handler_env * engine_state) main_task := {|
  hd_start := MainStarts; hd_step := main_step; hd_terminal := reply_is_terminal |}.

(** What was sent and what is left to send is what the task of the request has to send. *)
Lemma main_trace q sent t : trace (S := handler_env * engine_state) q sent t ->
  match t with
  | MainStarts q' => q' = q /\ sent = []
  | MainSends rs ok => exists e s s', engine_task e q s = (sent ++ rs, s', ok)
  end.
Proof.
  induction 1 as [|rs t s t' s' _ IH Hs|rs t s r t' s' _ IH Hs]; [split; reflexivity|..]; inversion Hs; subst.
  - destruct IH as [-> ->]. eauto.
  - destruct IH as (e & s0 & s1 & IH). exists e, s0, s1. rewrite <- app_assoc. exact IH.
Qed.

#[export] Instance main_engine_laws :
  HandlerLaws ipc_request ipc_reply (handler_env * engine_state) main_task.
Proof.
  split; intros q rs (t & s & s' & Ht & Hs); inversion Hs; subst; apply main_trace in Ht as (e & s0 & s1 & E);
    rewrite app_nil_r in E; pose proof (task_answered e q s0) as Ha; rewrite E in Ha.
  - destruct Ha as (before & last & -> & Hb & Hl & _). exists before, last. auto.
  - exact (proj1 Ha).
Qed.

#[export] Instance main_error : ErrorReply ipc_reply := Engine.error_reply.

End main_engine.

(** *** Where an engine listens *)

Definition DEFAULT_SOCKET : str := L "pbsgui-engine-v11".
Definition AD_SOCKET : str := L "pbsgui-ad-engine-v1".

(** The names of sockets and their security descriptors are the library's. *)
Record socket_api (Name SD : Type) := SocketApi {
  so_namespaced : bool;                        (* pipes have a namespace *)
  so_ns_name : str -> result io_error Name; so_fs_name : str -> result io_error Name;
  so_wide : str -> option (list Z);            (* [None]: a NUL inside *)
  so_deserialize : list Z -> result str SD }.
Arguments so_namespaced {Name SD}. Arguments so_ns_name {Name SD}. Arguments so_fs_name {Name SD}.
Arguments so_wide {Name SD}. Arguments so_deserialize {Name SD}.

Section names.
Context {Name SD : Type} (api : socket_api Name SD) (temp_join : str -> str).

Definition socket_name (base : str) : result io_error Name :=
  if so_namespaced api then so_ns_name api (base ++ L ".sock")
  else so_fs_name api (temp_join (base ++ L ".sock")).

(** Two sockets of one name have one base: the engines do not answer for each other. *)
Lemma socket_names_apart a b n :
  (forall x y n, so_ns_name api x = Ok n -> so_ns_name api y = Ok n -> x = y) ->
  (forall x y n, so_fs_name api (temp_join x) = Ok n -> so_fs_name api (temp_join y) = Ok n -> x = y) ->
  socket_name a = Ok n -> socket_name b = Ok n -> a = b.
Proof.
  intros Hns Hfs. unfold socket_name. case_match; intros Ha Hb;
    [pose proof (Hns _ _ _ Ha Hb) as E | pose proof (Hfs _ _ _ Ha Hb) as E]; revert E; apply app_inv_tail.
Qed.

Lemma engine_sockets_apart : DEFAULT_SOCKET <> AD_SOCKET.
Proof. vm_compute. discriminate. Qed.

Definition PIPE_SDDL : str := L "D:(A;;GA;;;SY)(A;;GA;;;BA)".

(** The descriptor of the pipe; [None] is the default, also when there is none to set. *)
Definition with_pipe_security : option SD :=
  match so_wide api PIPE_SDDL with
  | None => None
  | Some wide => match so_deserialize api wide with Ok sd => Some sd | Err _ => None end
  end.
End names.

(** The engine for Active Directory ([adproto.rs], [handle] of [main.rs]). *)
Inductive AdRequest := AdPing | AdVersion.
Inductive AdReply := AdPong | AdVersionIs (version : str) | AdError (message : str).

Definition ad_handle (version : str) (request : AdRequest) : AdReply :=
  match request with AdPing => AdPong | AdVersion => AdVersionIs version end.

#[export] Instance ad_error : ErrorReply AdReply := AdError.

(** Its version is fixed when it is built; every reply is the only one. *)
Inductive ad_task := AdStarts (q : AdRequest) | AdDone.

Inductive ad_step (version : str) : ad_task -> unit -> task_event AdReply ad_task -> unit -> Prop :=
| ad_sends q : ad_step version (AdStarts q) tt (Sends (ad_handle version q) AdDone) tt
| ad_returns : ad_step version AdDone tt Returns tt.

Definition ad_engine (version : str) : Handler AdRequest AdReply unit ad_task := {|
  hd_start := AdStarts; hd_step := ad_step version; hd_terminal := fun _ => true |}.

Lemma ad_trace version q sent t : @trace _ _ _ _ (ad_engine version) q sent t ->
  match t with AdStarts q' => q' = q /\ sent = [] | AdDone => sent = [ad_handle version q] end.
Proof.
  induction 1 as [|rs t s t' s' _ IH Hs|rs t s r t' s' _ IH Hs]; [split; reflexivity|..]; inversion Hs; subst.
  destruct IH as [-> ->]. reflexivity.
Qed.

Lemma ad_engine_laws version : @HandlerLaws AdRequest AdReply unit ad_task (ad_engine version).
Proof.
  split; intros q rs (t & s & s' & Ht & Hs); inversion Hs; subst; apply ad_trace in Ht as ->.
  exists [], (ad_handle version q). auto.
Qed.

(** ** Samples *)

Module SampleServe.

Definition letter (q : AdRequest) : bytes := match q with AdPing => [x70] | AdVersion => [x76] end.

#[export] Instance request_json : MessageJson AdRequest := {|
  to_vec := fun q => Ok (letter q);
  line_text := fun b => Ok (map u8_Z b);
  from_text := fun s => match s with [112] => Ok AdPing | [118] => Ok AdVersion | _ => Err (L "no") end |}.

(** Only the reply to a ping and one version can be written. *)
#[export] Instance reply_json : MessageJson AdReply := {|
  to_vec := fun r => match r with
                     | AdPong => Ok [x70]
                     | AdVersionIs [49] => Ok [x31]
                     | _ => Err (IoError BrokenPipe (L "no"))
                     end;
  line_text := fun b => Ok (map u8_Z b);
  from_text := fun s => match s with [112] => Ok AdPong | [49] => Ok (AdVersionIs [49]) | _ => Err (L "no") end |}.

#[export] Instance request_laws : MessageLaws AdRequest.
Proof.
  split.
  - intros [] b [= <-]; (split; [discriminate|]); intros [E|[]]; discriminate.
  - intros [] b [= <-] e [->| ->]; eexists; (split; [reflexivity | vm_compute; reflexivity]).
  - intros a b p q s E Hb Hp Hq _. apply Ok_inj in E as <-. exfalso.
    apply (f_equal length) in Hb. rewrite length_app in Hb.
    destruct p, q; cbn in *; try congruence. destruct a; cbn in Hb; lia.
Qed.

Lemma reply_one r b : to_vec (A := AdReply) r = Ok b ->
  (r = AdPong /\ b = [x70]) \/ (r = AdVersionIs [49] /\ b = [x31]).
Proof.
  destruct r as [|v|m]; cbn; [intros [= <-]; auto | | discriminate].
  repeat case_match; intros E; try discriminate. injection E as <-. auto.
Qed.

#[export] Instance reply_laws : MessageLaws AdReply.
Proof.
  split.
  - intros r b E. destruct (reply_one r b E) as [[-> ->]|[-> ->]];
      (split; [discriminate|]); intros [?|[]]; discriminate.
  - intros r b E. destruct (reply_one r b E) as [[-> ->]|[-> ->]];
      intros e [->| ->]; eexists; (split; [reflexivity | vm_compute; reflexivity]).
  - intros a b p q s E Hb Hp Hq _. exfalso. assert (length b = 1%nat) as Hl
      by (destruct (reply_one a b E) as [[_ ->]|[_ ->]]; reflexivity).
    apply (f_equal length) in Hb. rewrite length_app, Hl in Hb.
    destruct p, q; cbn in *; try congruence. lia.
Qed.

(** Two clients and a connection that could not be accepted: the second client is served
    first, the first one stays and gets its version. *)
Definition asks (q : AdRequest) : connection := Connection (Reader (letter q ++ [NL]) None) (Writer [] None true).
Definition one : str := [49].

#[export] Instance sample_engine : Handler AdRequest AdReply unit ad_task := ad_engine one.
#[export] Instance sample_laws : HandlerLaws AdRequest AdReply unit ad_task := ad_engine_laws one.

Definition told : slot AdReply ad_task :=
  Closed (asks AdVersion) [AdVersionIs one] (Writer [x31; NL] None true) HandlerReturned.
Definition pinging : slot AdReply ad_task :=
  Running (asks AdPing) AdDone [AdPong] (Writer [x70; NL] None true).

(** The steps of the two handlers alternate. *)
Lemma two_clients : rtc (serve_step (Req := AdRequest)) (Server [] tt) (Server [told; pinging] tt).
Proof.
  eapply rtc_l; [apply (serve_accept _ (Ok (asks AdVersion)))|].
  eapply rtc_l; [apply (serve_accept _ (Err (IoError BrokenPipe (L "no"))))|].
  eapply rtc_l; [apply (serve_accept _ (Ok (asks AdPing)))|].
  eapply rtc_l; [apply (serve_open _ 1 (asks AdPing)); reflexivity|].
  eapply rtc_l; [apply (serve_open _ 0 (asks AdVersion)); reflexivity|].
  eapply rtc_l; [eapply (serve_task _ 0); [reflexivity | apply ad_sends]|].
  eapply rtc_l; [eapply (serve_task _ 1); [reflexivity | apply ad_sends]|].
  eapply rtc_l; [eapply (serve_task _ 0); [reflexivity | apply ad_returns]|].
  apply rtc_refl.
Qed.

Lemma clients_answered_witness :
  client (Req := AdRequest) (Rep := AdReply) AdVersion [x31; NL] None = (Ok tt, [AdVersionIs one]).
Proof.
  refine (proj2 (proj2 (proj2 (clients_answered (Req := AdRequest) (Rep := AdReply) tt (Server [] tt)
    (Server [told; pinging] tt) 0 told AdVersion [x76] [] None None true None _ two_clients _ _ _ _)))); try reflexivity.
  intros rs t Ht. apply ad_trace in Ht. destruct t as [q|]; [destruct Ht as [_ ->] | subst rs]; repeat constructor.
  eexists. reflexivity.
Defined.

End SampleServe.
