(* ===== verification/Host.v ===== *)
(** The engine as a process: its identity and configuration directory
    ([pbsgui-core/src/lib.rs], [config.rs]), its start ([pbsgui-engine/src/main.rs]) and
    the Windows service it runs as ([service.rs]).

    What Windows answers (the environment, the file system, the service control manager)
    is data.  Shown: what was saved is what the engine works with after a restart; the
    directory is restricted before anything is read from it, and what that does not
    cover; the service reports what it does and ends exactly when it is told to;
    installing and removing it undo each other, with a wait that is bounded. *)

From Stdlib Require Import ZArith Lia Strings.Byte Ascii String.
From stdpp Require Import base tactics option numbers list gmap relations.
From S2P Require Import Prelude Text Base Blob Repository HttpApi Session Jobs Sched Stores Vss Captured Capture Plan Proxy Agent Notify Gui Enrol Changes Exporter Races.
Open Scope Z_scope.

(** ** Identity *)

Record Profile := { config_subdir : str; keyring_service : str }.

Definition DEFAULT : Profile := {| config_subdir := L "pbsgui"; keyring_service := L "pbsgui" |}.

(** [OnceLock]: the first call wins. *)
Definition set_profile (p : Profile) (cell : option Profile) : option Profile :=
  match cell with Some q => Some q | None => Some p end.
Definition profile (cell : option Profile) : Profile := default DEFAULT cell.

(** The Active Directory engine's ([pbsgui-ad-engine/src/profile.rs]). *)
Definition AD_PROFILE : Profile := {| config_subdir := L "pbsgui-ad"; keyring_service := L "pbsgui-ad" |}.

(** ** The configuration directory *)

Section config.
Variable windows : bool.
Variable env : str -> option str.   (* environment variables *)
Variable temp_dir : str.

Definition join (dir name : str) : str :=
  if windows then path_join dir name else
  match last dir with Some c => if c =? 47 then dir ++ name else dir ++ [47] ++ name | None => name end.

Definition config_dir (p : Profile) : str :=
  let base :=
    if windows then default (L "C:\ProgramData") (env (L "ProgramData"))
    else match env (L "XDG_CONFIG_HOME") with
         | Some d => d
         | None => match env (L "HOME") with Some h => join h (L ".config") | None => temp_dir end
         end in
  join base (config_subdir p).

(** The two engines on one host work in directories of their own, whatever the
    environment. *)
Lemma join_end dir a b : join dir a = join dir b -> length a = length b.
Proof.
  unfold join, path_join. intros E. apply (f_equal length) in E. revert E.
  repeat case_match; rewrite ?length_app; cbn; lia.
Qed.

Lemma engines_apart : config_dir DEFAULT <> config_dir AD_PROFILE.
Proof. unfold config_dir. intros E%join_end. vm_compute in E. discriminate. Qed.

(** [account_name] of signed.rs, and [hostname] of relay/agent.rs. *)
Definition account_name : str :=
  let user := match env (L "USERNAME") with Some u => u | None => default (L "unknown") (env (L "USER")) end in
  match env (L "USERDOMAIN") with
  | Some domain => if is_empty domain then user else domain ++ [92] ++ user
  | None => user
  end.

Definition hostname : str :=
  match env (L "COMPUTERNAME") with Some h => h | None => default (L "unknown") (env (L "HOSTNAME")) end.

End config.

(** *** Restricting it *)

Inductive acl := Inherited | Restricted.

(** What Windows answers to [harden_dir]'s calls; [None] is a missing DACL. *)
Record security_api := {
  sa_convert : result str unit; sa_dacl : result str (option unit); sa_set : Z }.

(** The calls that matter: a descriptor is allocated, and freed; the ACL is set. *)
Inductive security_call := Allocated | AclSet (protected : bool) | Freed.

Definition SDDL : str := L "D:(A;OICI;FA;;;SY)(A;OICI;FA;;;BA)".

Definition harden_dir (a : security_api) : result str unit * list security_call :=
  match sa_convert a with
  | Err e => (Err e, [])
  | Ok _ =>
      let '(r, calls) :=
        match sa_dacl a with
        | Err e => (Err e, [])
        | Ok None => (Err (L "parsed security descriptor had no DACL"), [])
        | Ok (Some _) =>
            (if sa_set a =? 0 then Ok tt
             else Err (L "SetNamedSecurityInfoW failed (error " ++ dec (sa_set a) ++ L ")"),
             [AclSet true])
        end in
      (r, [Allocated] ++ calls ++ [Freed])
  end.

(** [ensure_dirs] on the directory's ACL: failures are logged. *)
Definition ensure_dirs (created : result str unit) (a : security_api) (d : acl) : acl :=
  match created with
  | Err _ => d
  | Ok _ => match (harden_dir a).1 with Ok _ => Restricted | Err _ => d end
  end.

(** ** The start of the engine *)

(** [PBSGUI_WORKER_LIMIT]. *)
Definition apply_worker_limit (env : str -> option str) (override : Z) : Z :=
  match env (L "PBSGUI_WORKER_LIMIT") with
  | Some v =>
      match parse_uint 64 (trim v) with
      | Some n => if 0 <? n then set_pipeline_width n override else override
      | None => override
      end
  | None => override
  end.

Section boot.
Context `{Base64} `{HmacLib} `{EnvelopeJson}.
Context `{ListJson Job} `{ListJson SqlConnection} `{ListJson PbsServer}.
Context `{SettingsJson MetricsSettings} `{SettingsJson ServerFile} `{SettingsJson AgentFile}.

(** [JobStore::load] and [with_path] of [jobstore.rs]. *)
Definition job_store_load : world -> JsonStore Job * world := js_with_path JOBS.

(** The stores of a new process: [JobStore::load], and the others when they are first
    used. *)
Definition load_stores (w : world) : config_state :=
  let '(jobs, w) := job_store_load w in
  let '(sql, w) := js_with_path SQL w in
  let '(pbs, w) := js_with_path PBS w in
  {| c_jobs := jobs; c_sql := sql; c_pbs := pbs; c_world := w |}.

(** What an engine that runs is made of; [ep_socket] is whether the GUI can reach it. *)
Record engine_process := {
  ep_config : config_state; ep_exporter : exporter;
  ep_proxy : option (bytes * server); ep_agent : option AgentConfig;
  ep_socket : result str unit }.

Context `{HashLib} `{HexLib}.

(** [run_engine]: the scheduler is spawned, the exporter and the relay roles are started
    from their files, then the socket is made.  If it cannot be made the function returns
    an error, with which [serve] ends the process, and which the service drops: there
    what was started goes on. *)
Definition run_engine (tls : tls_env) (bind : str -> result str unit) (socket : result str unit)
    (c : config_state) : engine_process :=
  let ex := apply_settings (load_metrics (c_world c)) exporter_new in
  let '(proxy, agent, w) := start_roles tls bind (c_world c) in
  {| ep_config := {| c_jobs := c_jobs c; c_sql := c_sql c; c_pbs := c_pbs c; c_world := w |};
     ep_exporter := ex; ep_proxy := proxy; ep_agent := agent; ep_socket := socket |}.

(** [serve] on the command line, and the service: the directory first, then the store. *)
Definition start_engine (created : result str unit) (a : security_api) (tls : tls_env)
    (bind : str -> result str unit) (socket : result str unit) (pid : Z) (w : world) (d : acl) :
    acl * engine_process :=
  let d := ensure_dirs created a d in
  (d, run_engine tls bind socket (load_stores (restart pid w))).

End boot.

(** ** The command line *)

Inductive RelayAction := AddAgent (name : str) | Join (proxy fingerprint name token : str) | ShowRoles.
Inductive ServiceAction := Install | Uninstall | Run.
Inductive Command := CmdServe (socket : str) | CmdService (action : ServiceAction) | CmdRelay (action : RelayAction)
  | CmdVersion.

(** What a command does, in order. *)
Inductive main_effect := WorkerLimit | MakeDirs | LoadJobs | RunEngine (socket : str)
  | DoService (action : ServiceAction) | DoRelay (action : RelayAction) | PrintVersion.

Definition main (windows : bool) (c : Command) : result str (list main_effect) :=
  match c with
  | CmdServe socket => Ok [WorkerLimit; MakeDirs; LoadJobs; RunEngine socket]
  | CmdService action =>
      if windows then Ok [WorkerLimit; DoService action]
      else Err (L "service mode is only available on Windows")
  | CmdRelay action => Ok [WorkerLimit; DoRelay action]
  | CmdVersion => Ok [WorkerLimit; PrintVersion]
  end.

(** The Active Directory engine's ([pbsgui-ad-engine/src/main.rs]). *)
Inductive AdCommand := AdServe (socket : str) | AdService (action : ServiceAction)
  | AdBackup (repo : option str) (fingerprint : str) (namespace backup_id : option str) (no_compress : bool)
  | AdBrowse | AdRestore | AdVersionInfo.

Inductive ad_effect := AdListen (socket : str) | AdRunBackup (o : BackupOptions) | AdPrint.

Definition ad_main (windows : bool) (c : AdCommand) : result str ad_effect :=
  match c with
  | AdServe socket => Ok (AdListen socket)
  | AdService _ =>
      Err (if windows then L "the AD engine Windows service is not implemented yet"
           else L "service mode is only available on Windows")
  | AdBackup repo fingerprint namespace backup_id no_compress =>
      _ ← ensure (negb (bool_decide (is_Some repo) && is_empty fingerprint))
            (L "--fingerprint is required with --repo");
      Ok (AdRunBackup {| bo_repository := repo; bo_fingerprint := fingerprint; bo_namespace := namespace;
                         bo_backup_id := backup_id; bo_compress := negb no_compress |})
  | AdBrowse =>
      Err (if windows then L "the ntds.dit browser is not implemented yet"
           else L "browsing a backed-up ntds.dit requires the Windows ESE API (esent.dll)")
  | AdRestore => Err (L "Active Directory restore is not implemented yet")
  | AdVersionInfo => Ok AdPrint
  end.

(** ** The service *)

Inductive ServiceState := SvcRunning | SvcStopped | SvcOther.
Inductive ServiceControl := CtlStop | CtlShutdown | CtlInterrogate | CtlOther.
Inductive control_result := NoError | NotImplemented.

(** The handler: its answer, and whether it asks the loop to end. *)
Definition on_control (c : ServiceControl) : control_result * bool :=
  match c with
  | CtlStop | CtlShutdown => (NoError, true)
  | CtlInterrogate => (NoError, false)
  | CtlOther => (NotImplemented, false)
  end.

Definition asks_stop (c : ServiceControl) : bool := (on_control c).2.

Inductive service_event :=
| SetStatus (st : ServiceState) (accepts : list ServiceControl)
| EnsureDirs | EngineStarted | EngineAborted.

(** [run_service_loop], given what Windows answers and the controls it sends; [None] as a
    result: the service is still running. *)
Definition run_service_loop (registered running : result str unit) (runtime : bool)
    (controls : list ServiceControl) (stopped : result str unit) :
    option (result str unit) * list service_event :=
  match registered with
  | Err e => (Some (Err e), [])
  | Ok _ =>
  let up := SetStatus SvcRunning [CtlStop; CtlShutdown] in
  match running with
  | Err e => (Some (Err e), [up])
  | Ok _ =>
      let finish evs := (Some (_ ← stopped; Ok tt), [up; EnsureDirs] ++ evs ++ [SetStatus SvcStopped []]) in
      if negb runtime then finish []
      else if existsb asks_stop controls then finish [EngineStarted; EngineAborted]
      else (None, [up; EnsureDirs; EngineStarted])
  end end.

(** *** Installing and removing it *)

Record service_entry := { se_exe : str; se_args : list str; se_auto : bool; se_account : option str;
  se_state : ServiceState }.

Definition SERVICE_NAME : str := L "pbsgui-engine".

(** The registered services. *)
Abbreviation scm := (gmap str service_entry).

(** What the service control manager answers besides: whether it can be reached, where
    this program is, whether a service may be made, whether one that is there may be
    opened. *)
Record scm_env := { sm_connect : result str unit; sm_exe : result str str; sm_create : bool; sm_open : result str unit;
  sm_starts : bool; sm_stops : bool; sm_delete : result str unit }.

Definition service_info (exe : str) : service_entry :=
  {| se_exe := exe; se_args := [L "service"; L "run"]; se_auto := true; se_account := None;
     se_state := SvcStopped |}.

Definition set_state (st : ServiceState) (x : service_entry) : service_entry :=
  {| se_exe := se_exe x; se_args := se_args x; se_auto := se_auto x; se_account := se_account x; se_state := st |}.

Definition started (e : scm_env) (x : service_entry) : service_entry :=
  if sm_starts e then set_state SvcRunning x else x.

Definition install (e : scm_env) (m : scm) : result str unit * scm :=
  match sm_connect e with
  | Err err => (Err err, m)
  | Ok _ =>
  match sm_exe e with
  | Err err => (Err err, m)
  | Ok exe =>
      match m !! SERVICE_NAME with
      | None =>
          if sm_create e then (Ok tt, <[SERVICE_NAME := started e (service_info exe)]> m)
          else (Err (L "the service does not exist"), m)   (* the error of opening it *)
      | Some x =>
          match sm_open e with
          | Err err => (Err err, m)
          | Ok _ => (Ok tt, <[SERVICE_NAME := started e x]> m)
          end
      end
  end end.

(** The wait of [uninstall]: at most this many polls; the number of sleeps. *)
Definition POLLS : nat := 50.
Definition POLL_MS : Z := 200.

Fixpoint wait_stopped (n : nat) (answers : list (result str ServiceState)) : nat :=
  match n, answers with
  | O, _ | _, [] => O
  | S n, Ok SvcStopped :: _ | S n, Err _ :: _ => O
  | S n, Ok _ :: answers => S (wait_stopped n answers)
  end.

(** The result, the services, and how long it slept. *)
Definition uninstall (e : scm_env) (answers : list (result str ServiceState)) (m : scm) :
    result str unit * scm * Z :=
  match sm_connect e with
  | Err err => (Err err, m, 0)
  | Ok _ =>
  match m !! SERVICE_NAME, sm_open e with
  | None, _ | _, Err _ => (Ok tt, m, 0)
  | Some x, Ok _ =>
      let slept := POLL_MS * Z.of_nat (wait_stopped POLLS answers) in
      match sm_delete e with
      | Err err => (Err err, if sm_stops e then <[SERVICE_NAME := set_state SvcStopped x]> m else m, slept)
      | Ok _ => (Ok tt, delete SERVICE_NAME m, slept)
      end
  end end.

(** ** What was saved is there after a restart *)

Section reboot.
Context `{Base64Laws} `{HmacLib} `{EnvelopeLaws}.

(** The key is the same when it is read again. *)
Lemma signing_key_stable w r w' : signing_key w = (r, w') -> (signing_key w').1 = r.
Proof.
  unfold signing_key at 1. destruct (w_key_cache w) as [k|] eqn:Ec.
  { intros [= <- <-]. unfold signing_key. rewrite Ec. reflexivity. }
  destruct ((key ← read_key; _ ← cache_key key; mret key) w) as [r1 w1] eqn:Er. intros [= <- <-].
  pose proof Er as Er'. revert Er. unfold mbind, io_bind, read_key, secrets_get, mbind, io_bind.
  destruct (w_cred_error w) as [e|] eqn:Ee.
  { intros [= <- <-]. unfold signing_key. rewrite Ec, Er'. reflexivity. }
  destruct (w_secrets w !! HMAC_KEY_NAME) as [b64|] eqn:Es.
  - unfold io_lift. destruct (b64_decode b64) as [k|e]; intros [= <- <-]; [reflexivity|].
    unfold signing_key. rewrite Ec, Er'. reflexivity.
  - unfold fresh_key. destruct (map_err show_error (random_key (w_random w))) as [k|e].
    + unfold secrets_set. rewrite Ee. intros [= <- <-]. reflexivity.
    + intros [= <- <-]. unfold signing_key. rewrite Ec, Er'. reflexivity.
Qed.

Lemma signing_key_disk w : same_disk w (signing_key w).2.
Proof.
  unfold signing_key. destruct (w_key_cache w); [by repeat split|].
  unfold mbind, io_bind, read_key, secrets_get, mbind, io_bind.
  destruct (w_cred_error w) eqn:Ee; [by repeat split|].
  destruct (w_secrets w !! HMAC_KEY_NAME).
  - unfold io_lift. destruct (b64_decode _); by repeat split.
  - unfold fresh_key. destruct (map_err _ _); [|by repeat split].
    unfold secrets_set. rewrite Ee. by repeat split.
Qed.

(** Loading a list: it depends on the file, on whether it can be read, and on the key. *)
Definition same_source (path : str) (w w' : world) : Prop :=
  w_read_error w' = w_read_error w /\ w_files w' !! path = w_files w !! path /\
  (signing_key w').1 = (signing_key w).1.

Context {T : Type} `{ListLaws T}.

Lemma with_path_same path (w w' : world) (s : JsonStore T) : js_load_error s = None ->
  (js_with_path path w).1 = s -> same_source path w w' -> (js_with_path path w').1 = s.
Proof.
  intros Hn Hl (Er & Ef & Hk). unfold js_with_path, load_list in *. rewrite Er, Ef.
  destruct (w_read_error w) as [e|]; [refused Hl|].
  destruct (w_files w !! path) as [b|]; [|exact Hl].
  unfold signed_deserialize, mbind, io_bind, io_lift in *. destruct (env_parse b) as [env|].
  - destruct (signing_key w) as [rk w1], (signing_key w') as [rk' w1']. cbn in Hk. subst rk'.
    destruct rk as [k|e]; [|refused Hl]. destruct (map_err _ _) as [ex|e]; [|refused Hl].
    destruct (ensure _ _) as [u|e]; [|refused Hl]. destruct (json_parse _) as [l|e]; [exact Hl|refused Hl].
  - destruct (json_parse b) as [l|e]; [exact Hl|refused Hl].
Qed.

Lemma with_path_keeps (path q : str) w : same_source q w (js_with_path (T := T) path w).2.
Proof.
  unfold js_with_path, load_list. destruct (w_read_error w) eqn:Er.
  { cbn. split_and!; auto. }
  destruct (w_files w !! path) as [b|]; [|cbn; split_and!; auto].
  unfold signed_deserialize, mbind, io_bind, io_lift. destruct (env_parse b) as [env|].
  2:{ destruct (json_parse b); cbn; split_and!; auto. }
  pose proof (signing_key_disk w) as (Hf & Hr & _).
  destruct (signing_key w) as [rk w1] eqn:Ek. pose proof (signing_key_stable w rk w1 Ek) as Hs. cbn in *.
  assert (same_source q w w1) as Hsrc.
  { unfold same_source. rewrite Ek. cbn. split_and!; congruence. }
  destruct rk as [k|e]; [|exact Hsrc]. destruct (map_err _ _) as [ex|e]; [|exact Hsrc].
  destruct (ensure _ _) as [u|e]; [|exact Hsrc]. destruct (json_parse _) as [l|e]; exact Hsrc.
Qed.

Lemma same_source_trans path w1 w2 w3 :
  same_source path w1 w2 -> same_source path w2 w3 -> same_source path w1 w3.
Proof. intros (? & ? & ?) (? & ? & ?). split_and!; congruence. Qed.

End reboot.

(** *** What leaves the files of the other stores, and the key of the next process *)

Section calm.
Context `{Base64Laws} `{HmacLib} `{EnvelopeLaws}.

(** Nothing that a start depends on has changed, apart from files. *)
Definition calm (w w' : world) : Prop :=
  w_read_error w' = w_read_error w /\ w_cred_error w' = w_cred_error w /\
  (key_ok w -> key_ok w') /\
  forall pid, (signing_key (restart pid w')).1 = (signing_key (restart pid w)).1.

#[export] Instance calm_preorder : PreOrder calm.
Proof.
  split; [intros w; split_and!; auto|]. intros w1 w2 w3 (? & ? & ? & Hk) (? & ? & ? & Hk').
  split_and!; [congruence | congruence | auto | intros pid; rewrite Hk'; apply Hk].
Qed.

(** The key a new process reads is the entry of the credential store, or a fresh one. *)
Lemma signing_key_entry w w' pid :
  w_secrets w' !! HMAC_KEY_NAME = w_secrets w !! HMAC_KEY_NAME -> w_cred_error w' = w_cred_error w ->
  w_random w' = w_random w -> (signing_key (restart pid w')).1 = (signing_key (restart pid w)).1.
Proof.
  intros Es Ec Er. unfold signing_key, mbind, io_bind, read_key, secrets_get, mbind, io_bind. cbn.
  rewrite Es, Ec. destruct (w_cred_error w) as [e|] eqn:E; [reflexivity|].
  destruct (w_secrets w !! HMAC_KEY_NAME) as [b|].
  - unfold io_lift. destruct (b64_decode b); reflexivity.
  - unfold fresh_key. cbn. rewrite Er. destruct (map_err _ _); [|reflexivity].
    unfold secrets_set. cbn. rewrite Ec, E. reflexivity.
Qed.

Lemma calm_secrets k m w : is_hmac_key k = false -> (forall q, q <> k -> m !! q = w_secrets w !! q) ->
  calm w (set_secrets m w).
Proof.
  intros Hk Hm. split_and!; [reflexivity | reflexivity | intros Hw; exact (key_ok_secrets k m w Hk Hw Hm)|].
  intros pid. apply signing_key_entry; [|reflexivity..]. cbn. apply Hm. intros <-. discriminate.
Qed.

Lemma calm_set k v w : is_hmac_key k = false ->
  calm w (secrets_set k v w).2 /\ w_files (secrets_set k v w).2 = w_files w.
Proof.
  intros Hk. unfold secrets_set. destruct (w_cred_error w); cbn; (split; [|reflexivity]); [reflexivity|].
  apply (calm_secrets k _ _ Hk). intros q Hq. now rewrite lookup_insert_ne.
Qed.

Lemma calm_delete k w : is_hmac_key k = false ->
  calm w (secrets_delete k w).2 /\ w_files (secrets_delete k w).2 = w_files w.
Proof.
  intros Hk. unfold secrets_delete. destruct (w_cred_error w); cbn; (split; [|reflexivity]); [reflexivity|].
  apply (calm_secrets k _ _ Hk). intros q Hq. now rewrite lookup_delete_ne.
Qed.

Lemma calm_files f w : calm w (set_files f w).
Proof. split_and!; [reflexivity | reflexivity | intros Hk; exact Hk|]. intros pid. now apply signing_key_of. Qed.

Lemma calm_signing w : key_ok w -> calm w (signing_key w).2.
Proof.
  intros Hk. destruct (signing_key w) as [r w'] eqn:E.
  destruct (signing_key_spec w r w' Hk E) as ((_ & Hr & Hc) & Hk' & _).
  split_and!; auto. intros pid. exact (signing_key_again w r w' pid Hk E).
Qed.

Lemma calm_persist {T} `{ListLaws T} (s : JsonStore T) w : key_ok w -> calm w (js_persist s w).2.
Proof.
  intros Hk. unfold js_persist, mbind, io_bind, io_lift, js_ensure_writable.
  destruct (js_load_error s); [reflexivity|].
  unfold signed_serialize, mbind, io_bind, io_lift. destruct (json_pretty _) as [data|e1]; [|reflexivity].
  pose proof (calm_signing w Hk) as Hs. destruct (signing_key w) as [[k|e1] w1]; cbn in Hs; [|exact Hs].
  destruct (env_pretty _) as [b|e1]; [|exact Hs]. etransitivity; [exact Hs|].
  destruct (write_atomic (js_path s) b w1) as [r w'] eqn:Ew. cbn.
  destruct (write_atomic_spec _ _ _ _ _ Ew) as (_ & _ & Hse & Hkc & Hr & Hc).
  split_and!; [exact Hr | exact Hc | intros Hw k' Hk'; rewrite Hse; apply Hw; congruence|].
  intros pid. apply signing_key_of; [exact Hse | exact Hc | exact (write_random _ _ _ _ _ Ew)].
Qed.

(** The key of a process is the one the next process reads. *)
Lemma signing_key_next w pid : key_ok w -> w_cred_error w = None ->
  (signing_key (restart pid w)).1 = (signing_key w).1.
Proof.
  intros Hk Hc. unfold signing_key at 2. destruct (w_key_cache w) as [k|] eqn:E.
  - destruct (key_after_restart w k Hk E Hc pid) as [w' ->]. reflexivity.
  - unfold signing_key, mbind, io_bind, read_key, secrets_get, mbind, io_bind. cbn. rewrite Hc.
    destruct (w_secrets w !! HMAC_KEY_NAME) as [b|].
    + unfold io_lift. destruct (b64_decode b); reflexivity.
    + unfold fresh_key. cbn. destruct (map_err _ _); [|reflexivity].
      unfold secrets_set. cbn. rewrite Hc. reflexivity.
Qed.

Context {T : Type} `{HasId T} `{ListLaws T}.

(** A store that was not refused is on the disk as it is in memory. *)
Definition kept (w : world) (s : JsonStore T) : Prop := js_load_error s = None -> loads w s.

Lemma kept_calm w w' (s : JsonStore T) : kept w s -> calm w w' ->
  w_files w' !! js_path s = w_files w !! js_path s -> kept w' s.
Proof. intros Hl (Hr & _ & _ & Hk) Hf Hn. exact (loads_same w w' s Hn (Hl Hn) Hr Hf Hk). Qed.

(** Loading a store. *)
Lemma load_kept path w s w' : key_ok w -> w_cred_error w = None -> js_with_path path w = (s, w') ->
  calm w w' /\ w_files w' = w_files w /\ kept w' s /\ js_path s = path.
Proof.
  intros Hk Hc E. pose proof (with_path_keeps (T := T) path path w) as Hsrc. rewrite E in Hsrc. cbn in Hsrc.
  assert (calm w w' /\ w_files w' = w_files w) as [Hcalm Hf].
  { revert E. unfold js_with_path, load_list. destruct (w_read_error w); [intros [= <- <-]; split; reflexivity|].
    destruct (w_files w !! path) as [b|]; [|intros [= <- <-]; split; reflexivity].
    unfold signed_deserialize, mbind, io_bind, io_lift.
    destruct (env_parse b) as [env|]; [|destruct (json_parse b); intros [= <- <-]; split; reflexivity].
    pose proof (calm_signing w Hk) as Hs. pose proof (signing_key_disk w) as (Hf & _).
    destruct (signing_key w) as [[k|e] w1]; cbn in Hs, Hf; [|intros [= <- <-]; auto].
    destruct (map_err _ _) as [ex|e]; [|intros [= <- <-]; auto].
    destruct (ensure _ _) as [u|e]; [|intros [= <- <-]; auto].
    destruct (json_parse _) as [l|e]; intros [= <- <-]; auto. }
  assert (js_path s = path) as Hp.
  { revert E. unfold js_with_path. destruct (load_list path w) as [[items err] w1]. intros [= <- _]. reflexivity. }
  split_and!; auto. intros Hn pid. rewrite Hp.
  apply (with_path_same path w); [exact Hn | rewrite E; reflexivity|].
  destruct Hcalm as (Hr & _ & _ & Hkey). split_and!; [exact Hr | cbn; now rewrite Hf|].
  rewrite Hkey. exact (signing_key_next w pid Hk Hc).
Qed.

(** An acknowledged change. *)
Lemma update_kept f (s : JsonStore T) w s' w' :
  key_ok w -> w_read_error w = None -> w_cred_error w = None -> js_update f s w = (Ok tt, s', w') ->
  calm w w' /\ kept w' s' /\ js_path s' = js_path s /\
  forall q, q <> js_path s -> ~ is_tmp (js_path s) q -> w_files w' !! q = w_files w !! q.
Proof.
  intros Hk Hr Hc E. destruct (update_spec f s w (Ok tt) s' w' Hk E) as (_ & Hp & He & _ & _ & Hq & Hm).
  assert (calm w w') as Hcalm.
  { revert E. unfold js_update. destruct (js_ensure_writable s); [|discriminate].
    pose proof (calm_persist (with_items (f (js_items s)) s) w Hk) as Hp'.
    destruct (js_persist _ w) as [r w1]. intros [= _ _ <-]. exact Hp'. }
  split_and!; auto. intros Hn. rewrite <- He in Hm. rewrite Hn in Hm. destruct Hm as [_ Hm].
  intros pid. rewrite Hp. exact (Hm Hr Hc pid).
Qed.

End calm.

(** *** The engine between two starts *)

Section restarts.
Context `{Base64Laws} `{HmacLib} `{EnvelopeLaws} `{HashLib}.
Context `{!ListJson Job, !ListLaws Job, !ListJson SqlConnection, !ListLaws SqlConnection,
          !ListJson PbsServer, !ListLaws PbsServer}.
Context `{SettingsJson MetricsSettings} `{SettingsJson ServerFile} `{SettingsJson AgentFile} `{HexLib}.

(** What changes the stores: a request of the GUI, and a run that is recorded. *)
Inductive engine_change := Asked (r : Request) | Recorded (id : str) (time : Z) (status : str).

(** The change, and whether it was acknowledged: a request without an error reply, a run
    whose record was written. *)
Definition change (x : engine_change) (c : config_state) : bool * config_state :=
  match x with
  | Asked r =>
      let '(rep, c') := handle r c in (match rep with RError _ => false | _ => true end, c')
  | Recorded id time status =>
      let '(res, jobs, w) := record_run id time status (c_jobs c) (c_world c) in
      (is_ok res, {| c_jobs := jobs; c_sql := c_sql c; c_pbs := c_pbs c; c_world := w |})
  end.

Fixpoint change_all (xs : list engine_change) (c : config_state) : list bool * config_state :=
  match xs with
  | [] => ([], c)
  | x :: xs => let '(ok, c) := change x c in let '(oks, c) := change_all xs c in (ok :: oks, c)
  end.

Record stored (c : config_state) : Prop := {
  st_jobs : js_path (c_jobs c) = JOBS; st_sql : js_path (c_sql c) = SQL; st_pbs : js_path (c_pbs c) = PBS;
  st_key : key_ok (c_world c); st_read : w_read_error (c_world c) = None; st_cred : w_cred_error (c_world c) = None;
  st_kept : kept (c_world c) (c_jobs c) /\ kept (c_world c) (c_sql c) /\ kept (c_world c) (c_pbs c) }.

(** The world changes, but no file of a store. *)
Lemma stored_calm c w' : stored c -> calm (c_world c) w' ->
  (forall p, In p [JOBS; SQL; PBS] -> w_files w' !! p = w_files (c_world c) !! p) ->
  stored {| c_jobs := c_jobs c; c_sql := c_sql c; c_pbs := c_pbs c; c_world := w' |}.
Proof.
  intros [Pj Ps Pp Hk Hr Hc (Kj & Ks & Kp)] Hcalm Hf. pose proof Hcalm as (Hr' & Hc' & Hk' & _).
  split; cbn; auto; try congruence.
  split_and!; (eapply kept_calm; [eassumption | exact Hcalm|]); [rewrite Pj | rewrite Ps | rewrite Pp];
    apply Hf; cbn; auto.
Qed.

Lemma stored_world c w' : stored c -> calm (c_world c) w' -> w_files w' = w_files (c_world c) ->
  stored (with_world c w').
Proof. intros Hs Hc Hf. apply (stored_calm c w' Hs Hc). intros p _. now rewrite Hf. Qed.

(** A store is changed, from a world with the same files. *)
Lemma other_file p q w w' : In (p, q) [(JOBS, SQL); (JOBS, PBS); (SQL, JOBS); (SQL, PBS); (PBS, JOBS); (PBS, SQL)] ->
  (forall f, f <> q -> ~ is_tmp q f -> w_files w' !! f = w_files w !! f) -> w_files w' !! p = w_files w !! p.
Proof. intros Hin Hq. destruct (other_tmp p q Hin). auto. Qed.

Lemma stored_jobs c w f jobs' w' : stored c -> calm (c_world c) w -> w_files w = w_files (c_world c) ->
  js_update f (c_jobs c) w = (Ok tt, jobs', w') ->
  stored {| c_jobs := jobs'; c_sql := c_sql c; c_pbs := c_pbs c; c_world := w' |}.
Proof.
  intros Hs Hcalm Hf E. pose proof (stored_world c w Hs Hcalm Hf) as [Pj Ps Pp Hk Hr Hc (Kj & Ks & Kp)]. cbn in *.
  destruct (update_kept f _ w jobs' w' Hk Hr Hc E) as (Hc' & Kj' & Hp & Hq). rewrite Pj in *.
  pose proof Hc' as (Hr1 & Hc1 & Hk1 & _). split; cbn; auto; try congruence.
  split_and!; [exact Kj'|..]; (eapply kept_calm; [eassumption | exact Hc'|]); [rewrite Ps | rewrite Pp];
    (eapply other_file; [|exact Hq]); cbn; tauto.
Qed.

Lemma stored_sql c w f sql' w' : stored c -> calm (c_world c) w -> w_files w = w_files (c_world c) ->
  js_update f (c_sql c) w = (Ok tt, sql', w') ->
  stored {| c_jobs := c_jobs c; c_sql := sql'; c_pbs := c_pbs c; c_world := w' |}.
Proof.
  intros Hs Hcalm Hf E. pose proof (stored_world c w Hs Hcalm Hf) as [Pj Ps Pp Hk Hr Hc (Kj & Ks & Kp)]. cbn in *.
  destruct (update_kept f _ w sql' w' Hk Hr Hc E) as (Hc' & Ks' & Hp & Hq). rewrite Ps in *.
  pose proof Hc' as (Hr1 & Hc1 & Hk1 & _). split; cbn; auto; try congruence.
  split_and!; [|exact Ks'|]; (eapply kept_calm; [eassumption | exact Hc'|]); [rewrite Pj | rewrite Pp];
    (eapply other_file; [|exact Hq]); cbn; tauto.
Qed.

Lemma stored_pbs c w f pbs' w' : stored c -> calm (c_world c) w -> w_files w = w_files (c_world c) ->
  js_update f (c_pbs c) w = (Ok tt, pbs', w') ->
  stored {| c_jobs := c_jobs c; c_sql := c_sql c; c_pbs := pbs'; c_world := w' |}.
Proof.
  intros Hs Hcalm Hf E. pose proof (stored_world c w Hs Hcalm Hf) as [Pj Ps Pp Hk Hr Hc (Kj & Ks & Kp)]. cbn in *.
  destruct (update_kept f _ w pbs' w' Hk Hr Hc E) as (Hc' & Kp' & Hp & Hq). rewrite Pp in *.
  pose proof Hc' as (Hr1 & Hc1 & Hk1 & _). split; cbn; auto; try congruence.
  split_and!; [| |exact Kp']; (eapply kept_calm; [eassumption | exact Hc'|]); [rewrite Pj | rewrite Ps];
    (eapply other_file; [|exact Hq]); cbn; tauto.
Qed.

(** Storing a connection with its secret, and deleting it. *)
Lemma save_with_secret_ok {T} `{HasId T} `{ListLaws T} key secret item (s : JsonStore T) w s' w' :
  is_hmac_key key = false -> save_with_secret key secret item s w = (Ok tt, s', w') ->
  exists w1, calm w w1 /\ w_files w1 = w_files w /\ js_update (upsert item) s w1 = (Ok tt, s', w').
Proof.
  intros Hk. unfold save_with_secret. destruct (js_ensure_writable s); [|discriminate].
  destruct secret as [x|]; [|intros E; exists w; split_and!; [reflexivity..|exact E]].
  pose proof (calm_set key x w Hk) as [Hc Hf]. destruct (secrets_set key x w) as [[[]|e] w1]; [|discriminate].
  intros E. exists w1. auto.
Qed.

Lemma delete_with_secret_ok {T} `{HasId T} `{ListLaws T} key id (s : JsonStore T) w s' w' :
  is_hmac_key key = false -> delete_with_secret key id s w = (Ok tt, s', w') ->
  exists w1, js_update (List.filter (fun i => negb (has_id id i))) s w = (Ok tt, s', w1) /\
    calm w1 w' /\ w_files w' = w_files w1.
Proof.
  intros Hk. unfold delete_with_secret, js_delete. destruct (js_update _ s w) as [[r s1] w1].
  destruct r as [[]|e]; [|discriminate]. intros [= <- <-]. exists w1. split; [reflexivity|].
  exact (calm_delete key w1 Hk).
Qed.

Lemma stored_request r c : stored c ->
  match (handle r c).1 with RError _ => True | _ => stored (handle r c).2 end.
Proof.
  intros Hs. assert (forall w', calm (c_world c) w' /\ w_files w' = w_files (c_world c) -> stored (with_world c w'))
    as Hw by (intros w' [? ?]; now apply stored_world).
  destruct r as [|job|id| |conn sec|id| |srv sec|id|id|id key|id|id];
    cbn -[generate import enc_get enc_clear js_save js_delete];
    unfold list_reply, save_job_request, delete_job_request, save_sql_request, delete_sql_request,
      save_pbs_request, delete_pbs_request, get_key_request, clear_key_request.
  - case_match; auto.
  - destruct (_ ← validate_job job; _) as [u|e]; [|exact I].
    destruct (save_job job _ _) as [[[[]|e] jobs'] w'] eqn:E; cbn; [|exact I].
    eapply (stored_jobs c (c_world c)); [exact Hs | reflexivity | reflexivity | exact E].
  - pose proof (calm_delete (enc_secret_key id) (c_world c) (enc_not_hmac id)) as [Hc Hf]. unfold enc_clear.
    destruct (job_delete id _ _) as [[[[]|e] jobs'] w'] eqn:E; cbn; [|exact I].
    eapply (stored_jobs c); [exact Hs | exact Hc | exact Hf | exact E].
  - case_match; auto.
  - destruct (save_with_secret _ _ _ _ _) as [[[[]|e] s'] w'] eqn:E; cbn; [|exact I].
    apply (save_with_secret_ok _ _ _ _ _ _ _ (sql_not_hmac _)) in E as (w1 & Hc & Hf & E).
    eapply (stored_sql c w1); eassumption.
  - destruct (delete_with_secret _ _ _ _) as [[[[]|e] s'] w'] eqn:E; cbn; [|exact I].
    apply (delete_with_secret_ok _ _ _ _ _ _ (sql_not_hmac _)) in E as (w1 & E & Hc & Hf).
    exact (stored_world _ w' (stored_sql c (c_world c) _ _ _ Hs ltac:(reflexivity) eq_refl E) Hc Hf).
  - case_match; auto.
  - destruct (save_with_secret _ _ _ _ _) as [[[[]|e] s'] w'] eqn:E; cbn; [|exact I].
    apply (save_with_secret_ok _ _ _ _ _ _ _ (pbs_not_hmac _)) in E as (w1 & Hc & Hf & E).
    eapply (stored_pbs c w1); eassumption.
  - destruct (delete_with_secret _ _ _ _) as [[[[]|e] s'] w'] eqn:E; cbn; [|exact I].
    apply (delete_with_secret_ok _ _ _ _ _ _ (pbs_not_hmac _)) in E as (w1 & E & Hc & Hf).
    exact (stored_world _ w' (stored_pbs c (c_world c) _ _ _ Hs ltac:(reflexivity) eq_refl E) Hc Hf).
  - assert (calm (c_world c) (generate id (c_world c)).2 /\ w_files (generate id (c_world c)).2 = w_files (c_world c)) as Hg.
    { unfold generate, mbind, io_bind, secrets_get. destruct (w_cred_error _); [split; reflexivity|].
      destruct (w_secrets _ !! _); [split; reflexivity|]. unfold fresh_key.
      destruct (map_err _ _) as [k|]; [|split; reflexivity]. unfold enc_store.
      pose proof (calm_set (enc_secret_key id) (b64_encode k) (c_world c) (enc_not_hmac id)) as Hc.
      destruct (secrets_set _ _ _) as [[] ?]; exact Hc. }
    destruct (generate id (c_world c)) as [[info|e] w']; cbn in *; auto.
  - assert (calm (c_world c) (import id key (c_world c)).2 /\ w_files (import id key (c_world c)).2 = w_files (c_world c)) as Hg.
    { unfold import, mbind, io_bind, io_lift. destruct (decode_key key) as [k|]; [|split; reflexivity]. unfold enc_store.
      pose proof (calm_set (enc_secret_key id) (b64_encode k) (c_world c) (enc_not_hmac id)) as Hc.
      destruct (secrets_set _ _ _) as [[] ?]; exact Hc. }
    destruct (import id key (c_world c)) as [[info|e] w']; cbn in *; auto.
  - pose proof (enc_get_world id (c_world c)) as E. destruct (enc_get id (c_world c)) as [[info|e] w']; cbn in *; [|exact I].
    subst w'. apply Hw. split; reflexivity.
  - pose proof (calm_delete (enc_secret_key id) (c_world c) (enc_not_hmac id)) as Hc. unfold enc_clear.
    destruct (secrets_delete _ _) as [[u|e] w']; cbn in *; auto.
Qed.

Lemma stored_change x c : stored c -> (change x c).1 = true -> stored (change x c).2.
Proof.
  intros Hs. destruct x as [r|id time status]; cbn [change].
  - pose proof (stored_request r c Hs) as Hr. destruct (handle r c) as [[] c']; auto; discriminate.
  - destruct (record_run id time status _ _) as [[[[]|e] jobs] w] eqn:E; [|discriminate]. intros _.
    eapply (stored_jobs c (c_world c)); [exact Hs | reflexivity | reflexivity | exact E].
Qed.

Lemma stored_changes xs c : stored c -> Forall (fun ok => ok = true) (change_all xs c).1 -> stored (change_all xs c).2.
Proof.
  revert c. induction xs as [|x xs IH]; intros c Hs; [intros _; exact Hs|]. cbn [change_all].
  pose proof (stored_change x c Hs) as Hx. destruct (change x c) as [ok c1]. cbn in Hx.
  specialize (IH c1). destruct (change_all xs c1) as [oks c2]. cbn in *.
  intros [-> HF]%Forall_cons_1. auto.
Qed.

(** *** The start *)

Lemma write_file_world path b fs w : exists f, (write_file path b fs w).2 = set_files f w /\
  forall q, q <> path -> f !! q = w_files w !! q.
Proof.
  unfold write_file. destruct fs as [|e|n e]; cbn;
    [exists (<[path := b]> (w_files w)) | exists (w_files w) | exists (<[path := take n b]> (w_files w))];
    (split; [try reflexivity; destruct w; reflexivity|]); intros q Hq; rewrite ?lookup_insert_ne by congruence; reflexivity.
Qed.

(** Starting the relay touches only the files of its certificate. *)
Definition relay_files (w w' : world) : Prop :=
  calm w w' /\ forall q, q <> CERT_FILE -> q <> KEY_FILE -> w_files w' !! q = w_files w !! q.

#[local] Instance relay_files_preorder : PreOrder relay_files.
Proof.
  split; [split; [reflexivity | auto]|]. intros w1 w2 w3 [Hc Hf] [Hc' Hf'].
  split; [etransitivity; eassumption|]. intros q Hn Hn'. rewrite Hf', Hf; auto.
Qed.

Lemma io_bind_relay {A B} (m : io A) (k : A -> io B) w :
  relay_files w (m w).2 -> (forall a w1, relay_files w1 (k a w1).2) -> relay_files w ((m ≫= k) w).2.
Proof.
  intros Hm Hk. unfold mbind, io_bind. destruct (m w) as [[a|e] w1]; cbn in *; [|exact Hm].
  etransitivity; [exact Hm | apply Hk].
Qed.

Lemma io_context_relay {A} msg (m : io A) w : relay_files w (m w).2 -> relay_files w (io_context msg m w).2.
Proof. unfold io_context. destruct (m w). auto. Qed.

Lemma io_lift_relay {A} (r : result str A) w : relay_files w (io_lift r w).2.
Proof. reflexivity. Qed.

Lemma write_relay path b fs w : path = CERT_FILE \/ path = KEY_FILE -> relay_files w (write_file path b fs w).2.
Proof.
  intros Hp. destruct (write_file_world path b fs w) as (f & -> & Hf). split; [apply calm_files|].
  intros q Hn Hn'. apply Hf. destruct Hp; congruence.
Qed.

Lemma server_tls_relay tls w : relay_files w (server_tls tls w).2.
Proof.
  unfold server_tls. destruct (w_mkdir_error w); [reflexivity|].
  apply io_bind_relay.
  - destruct (w_files w !! CERT_FILE), (w_files w !! KEY_FILE);
      [apply io_context_relay, io_lift_relay|..];
      (apply io_bind_relay; [apply io_context_relay, io_lift_relay|]; intros pair w1);
      (apply io_bind_relay; [apply io_context_relay, write_relay; auto|]; intros u w2);
      (apply io_bind_relay; [apply io_context_relay, write_relay; auto|]; intros u' w3); reflexivity.
  - intros pair w1. apply io_bind_relay; [apply io_context_relay, io_lift_relay|]. reflexivity.
Qed.

Lemma agent_tokens_relay names w : relay_files w (agent_tokens names w).2.
Proof.
  revert w. induction names as [|n names IH]; intros w; [reflexivity|]. cbn [agent_tokens].
  apply io_bind_relay; [unfold secrets_get; destruct (w_cred_error w); reflexivity|]. intros token w1.
  apply io_bind_relay; [apply IH|]. reflexivity.
Qed.

Lemma start_roles_relay tls bind w : relay_files w (start_roles tls bind w).2.
Proof.
  unfold start_roles. destruct (load_server_file w) as [file|]; [|reflexivity].
  destruct (sf_enabled file); [|reflexivity].
  assert (relay_files w (start_server tls bind file w).2) as Hr.
  { unfold start_server. apply io_bind_relay; [apply server_tls_relay|]. intros x w1.
    apply io_bind_relay; [apply agent_tokens_relay|]. intros agents w2.
    apply io_bind_relay; [apply io_context_relay, io_lift_relay|]. reflexivity. }
  destruct (start_server tls bind file w) as [r w1]. exact Hr.
Qed.

(** The files of a started engine hold its configuration. *)
Lemma started_stored created a tls bind socket pid w d :
  w_read_error w = None -> w_cred_error w = None ->
  stored (ep_config (start_engine created a tls bind socket pid w d).2).
Proof.
  intros Hr Hc. unfold start_engine, run_engine, load_stores, job_store_load.
  assert (key_ok (restart pid w)) as Hk by (intros k; discriminate).
  set (w0 := restart pid w) in *. assert (w_read_error w0 = None /\ w_cred_error w0 = None) as [Hr0 Hc0] by auto.
  clearbody w0. destruct (js_with_path JOBS w0) as [jobs w1] eqn:E1. destruct (load_kept _ _ _ _ Hk Hc0 E1) as (C1 & F1 & K1 & P1).
  pose proof C1 as (R1 & Cr1 & Ko1 & _).
  destruct (js_with_path SQL w1) as [sql w2] eqn:E2.
  destruct (load_kept _ _ _ _ (Ko1 Hk) ltac:(congruence) E2) as (C2 & F2 & K2 & P2). pose proof C2 as (R2 & Cr2 & Ko2 & _).
  destruct (js_with_path PBS w2) as [pbs w3] eqn:E3.
  destruct (load_kept _ _ _ _ (Ko2 (Ko1 Hk)) ltac:(congruence) E3) as (C3 & F3 & K3 & P3). pose proof C3 as (R3 & Cr3 & Ko3 & _).
  cbn [c_world c_jobs c_sql c_pbs]. pose proof (start_roles_relay tls bind w3) as [C4 F4].
  destruct (start_roles tls bind w3) as [[proxy agent] w4]. cbn [ep_config snd] in *.
  assert (stored {| c_jobs := jobs; c_sql := sql; c_pbs := pbs; c_world := w3 |}) as Hs.
  { split; cbn; auto; try congruence.
    split_and!; [eapply (kept_calm w1); [exact K1 | etransitivity; eassumption | congruence]
                |eapply (kept_calm w2); [exact K2 | exact C3 | congruence] | exact K3]. }
  apply (stored_calm _ w4 Hs C4). intros p Hp. apply F4; intros ->; cbn in Hp;
    repeat destruct Hp as [Hp|Hp]; try contradiction; discriminate Hp.
Qed.

(** The store of the next start is the one of the last, unless that was refused. *)
Definition same_store {T} (s s' : JsonStore T) : Prop := js_load_error s = None -> s' = s.

Lemma loaded_stored c created a tls bind socket pid d : stored c ->
  let c' := ep_config (start_engine created a tls bind socket pid (c_world c) d).2 in
  same_store (c_jobs c) (c_jobs c') /\ same_store (c_sql c) (c_sql c') /\ same_store (c_pbs c) (c_pbs c').
Proof.
  intros [Pj Ps Pp _ _ _ (Kj & Ks & Kp)]. unfold start_engine, run_engine, load_stores, job_store_load.
  set (w := restart pid (c_world c)) in *.
  pose proof (fun q => with_path_keeps (T := Job) JOBS q w) as K1.
  destruct (js_with_path JOBS w) as [jobs w1] eqn:E1. cbn in K1.
  pose proof (fun q => same_source_trans q _ _ _ (K1 q) (with_path_keeps (T := SqlConnection) SQL q w1)) as K2.
  destruct (js_with_path SQL w1) as [sql w2] eqn:E2. cbn in K2.
  destruct (js_with_path PBS w2) as [pbs w3] eqn:E3. cbn [c_world].
  destruct (start_roles tls bind w3) as [[proxy agent] w4]. cbn. split_and!; intros Hn.
  - specialize (Kj Hn pid). rewrite Pj in Kj. fold w in Kj. rewrite E1 in Kj. exact Kj.
  - specialize (Ks Hn pid). rewrite Ps in Ks.
    pose proof (with_path_same SQL w w1 _ Hn Ks (K1 SQL)) as Hl. rewrite E2 in Hl. exact Hl.
  - specialize (Kp Hn pid). rewrite Pp in Kp.
    pose proof (with_path_same PBS w w2 _ Hn Kp (K2 PBS)) as Hl. rewrite E3 in Hl. exact Hl.
Qed.

(** C18: the configuration survives a restart.  The engine starts on any files, whose
    directory and credential store can be read; then come any requests and recorded runs,
    each of which is acknowledged; then it is started again.  Every store that could be
    loaded at the first start is then, jobs, connections and servers alike, what it was in
    memory, whatever the directory's permissions, the relay, the metrics endpoint and the
    socket do at either start. *)
Theorem restart_keeps_config w d xs created a tls bind socket pid created' a' tls' bind' socket' pid' d' :
  w_read_error w = None -> w_cred_error w = None ->
  let c0 := ep_config (start_engine created a tls bind socket pid w d).2 in
  let '(oks, c) := change_all xs c0 in
  Forall (fun ok => ok = true) oks ->
  let c' := ep_config (start_engine created' a' tls' bind' socket' pid' (c_world c) d').2 in
  same_store (c_jobs c) (c_jobs c') /\ same_store (c_sql c) (c_sql c') /\ same_store (c_pbs c) (c_pbs c').
Proof.
  intros Hr Hc c0. pose proof (stored_changes xs c0 (started_stored created a tls bind socket pid w d Hr Hc)) as Hs.
  destruct (change_all xs c0) as [oks c]. intros Hok. exact (loaded_stored c _ _ _ _ _ _ _ (Hs Hok)).
Qed.

End restarts.

(** ** What restricting the directory covers *)

Section planted.
Context `{Base64Laws} `{HmacLib} `{EnvelopeLaws}.
Context `{ListLaws Job} `{ListLaws SqlConnection} `{ListLaws PbsServer}.
Context `{SettingsJson MetricsSettings} `{SettingsJson ServerFile} `{SettingsJson AgentFile} `{HashLib} `{HexLib}.

(** What any user may do to the directory. *)
Definition plant (path : str) (b : bytes) (d : acl) (w : world) : world :=
  match d with Inherited => set_files (<[path := b]> (w_files w)) w | Restricted => w end.

(** Once it is restricted, no user changes what is in it. *)
Lemma restricted_kept path b created a d w :
  sa_convert a = Ok tt -> sa_dacl a = Ok (Some tt) -> sa_set a = 0 -> created = Ok tt ->
  plant path b (ensure_dirs created a d) w = w.
Proof.
  intros Hc Hd Hs ->. unfold ensure_dirs, harden_dir. rewrite Hc, Hd, Hs. reflexivity.
Qed.

(** But a job list that was put there before is loaded: it has no signature, and a file
    that is not in an envelope is taken as it is. *)
Theorem planted_jobs_loaded jobs b w created a tls bind socket pid :
  json_pretty jobs = Ok b -> env_parse b = None -> w_read_error w = None ->
  let '(d, p) := start_engine created a tls bind socket pid (plant JOBS b Inherited w) Inherited in
  c_jobs (ep_config p) = {| js_path := JOBS; js_items := jobs; js_load_error := None |}.
Proof.
  intros Hj He Hr. unfold start_engine, run_engine, load_stores, job_store_load, plant.
  set (w0 := restart pid _).
  assert ((js_with_path (T := Job) JOBS w0).1 = {| js_path := JOBS; js_items := jobs; js_load_error := None |}) as Hl.
  { unfold js_with_path, load_list, w0. cbn [restart set_files w_read_error w_files].
    rewrite Hr, lookup_insert_eq. unfold signed_deserialize. rewrite He. unfold io_lift.
    rewrite (list_inverse _ _ Hj). reflexivity. }
  destruct (js_with_path JOBS w0) as [jobs' w1]. destruct (js_with_path SQL w1) as [sql w2].
  destruct (js_with_path PBS w2) as [pbs w3]. cbn [c_world].
  destruct (start_roles tls bind w3) as [[proxy agent] w4]. exact Hl.
Qed.

End planted.

(** The descriptor is freed exactly when it was allocated, in every case of failure, and
    the call succeeds exactly when the ACL was set. *)
Lemma harden_balanced a :
  let '(r, calls) := harden_dir a in
  (calls = [] \/ exists l, calls = Allocated :: l ++ [Freed] /\ ~ In Freed l /\ ~ In Allocated l) /\
  (r = Ok tt <-> In (AclSet true) calls /\ sa_set a = 0).
Proof.
  unfold harden_dir. destruct (sa_convert a); [|split; [auto | split; [discriminate | intros [[] _]]]].
  destruct (sa_dacl a) as [[[]|]|e].
  - destruct (Z.eqb_spec (sa_set a) 0) as [E|E].
    + split; [right; exists [AclSet true]; split_and!; [reflexivity | |]; intros [?|[]]; discriminate|].
      split; [intros _; split; [cbn; auto | exact E] | reflexivity].
    + split; [right; exists [AclSet true]; split_and!; [reflexivity | |]; intros [?|[]]; discriminate|].
      split; [discriminate | intros [_ ?]; contradiction].
  - split; [right; exists []; split_and!; [reflexivity | |]; intros []|].
    split; [discriminate | intros [[?|[?|[]]] _]; discriminate].
  - split; [right; exists []; split_and!; [reflexivity | |]; intros []|].
    split; [discriminate | intros [[?|[?|[]]] _]; discriminate].
Qed.

(** ** The life of the service *)

(** The engine runs from its start to the end of the trace, or until it is aborted. *)
Fixpoint runs_after (on : bool) (evs : list service_event) : bool :=
  match evs with
  | [] => on
  | EngineStarted :: evs => runs_after true evs
  | EngineAborted :: evs => runs_after false evs
  | _ :: evs => runs_after on evs
  end.

Definition reports_stopped (evs : list service_event) : bool :=
  existsb (fun ev => match ev with SetStatus SvcStopped _ => true | _ => false end) evs.

(** What the service does for every sequence of controls: it goes on for ever exactly
    when it was registered and has a runtime and no control asks it to stop; the engine
    runs only while the service does, and is never running when the service has ended or
    says that it stopped; and the engine starts only behind the call that restricts its
    directory. *)
Theorem service_lifecycle registered running runtime controls stopped :
  let '(r, evs) := run_service_loop registered running runtime controls stopped in
  (r = None <-> is_ok registered && is_ok running && runtime && negb (existsb asks_stop controls) = true) /\
  (runs_after false evs = true <-> r = None) /\
  (reports_stopped evs = true -> runs_after false evs = false /\ last evs = Some (SetStatus SvcStopped [])) /\
  (forall before after, evs = before ++ EngineStarted :: after -> EnsureDirs ∈ before).
Proof.
  unfold run_service_loop.
  assert (forall evs before after, [SetStatus SvcRunning [CtlStop; CtlShutdown]; EnsureDirs] ++ evs
            = before ++ EngineStarted :: after -> EnsureDirs ∈ before) as Hord.
  { intros evs [|x [|y before]] after; cbn; intros E; try discriminate.
    injection E as <- <- _. right. left. }
  destruct registered as [u|e].
  2:{ refine (conj _ (conj _ (conj _ _))); cbn; [split; discriminate.. | discriminate |].
      intros [|] after E; discriminate. }
  destruct running as [u'|e].
  2:{ refine (conj _ (conj _ (conj _ _))); cbn; [split; discriminate.. | discriminate |].
      intros [|x [|]] after E; discriminate. }
  destruct runtime; cbn [negb].
  - destruct (existsb asks_stop controls); cbn [is_ok andb negb].
    + refine (conj _ (conj _ (conj _ _))); [split; discriminate.. | auto |].
      intros before after. apply (Hord _ before after).
    + refine (conj _ (conj _ (conj _ _))); [split; reflexivity.. | discriminate |].
      intros before after. apply (Hord [EngineStarted] before after).
  - refine (conj _ (conj _ (conj _ _))); [split; discriminate.. | auto |].
    intros before after. apply (Hord _ before after).
Qed.

(** ** Installing *)

Lemma wait_stopped_bound n answers : (wait_stopped n answers <= n)%nat.
Proof.
  revert answers. induction n as [|n IH]; intros [|[[]|] answers]; cbn; try lia; specialize (IH answers); lia.
Qed.

(** The wait is over as soon as the service has stopped. *)
Lemma wait_stopped_ends n k answers : (k < n)%nat -> answers !! k = Some (Ok SvcStopped) ->
  (wait_stopped n answers <= k)%nat.
Proof.
  revert k answers. induction n as [|n IH]; intros k answers Hk Ha; [lia|].
  destruct answers as [|x answers]; [cbn; lia|]. destruct k as [|k]; cbn in Ha.
  - injection Ha as ->. cbn. lia.
  - specialize (IH k answers ltac:(lia) Ha). destruct x as [[]|]; cbn; lia.
Qed.

(** Removing the service undoes installing it, whatever it answers while it stops, and
    within ten seconds; a service that is installed again is the one that was there. *)
Theorem uninstall_undoes_install e e' answers m m1 :
  m !! SERVICE_NAME = None -> install e m = (Ok tt, m1) ->
  sm_connect e' = Ok tt -> sm_open e' = Ok tt -> sm_delete e' = Ok tt ->
  (exists exe, sm_exe e = Ok exe /\
     m1 !! SERVICE_NAME = Some (started e (service_info exe))) /\
  exists t, uninstall e' answers m1 = (Ok tt, m, t) /\ 0 <= t <= 10000.
Proof.
  intros Hm Hi Hc Ho Hd. unfold install in Hi. destruct (sm_connect e); [|discriminate].
  destruct (sm_exe e) as [exe|]; [|discriminate]. rewrite Hm in Hi.
  destruct (sm_create e); [|discriminate]. injection Hi as <-. split.
  { exists exe. split; [reflexivity|]. apply lookup_insert_eq. }
  exists (POLL_MS * Z.of_nat (wait_stopped POLLS answers)). unfold uninstall.
  rewrite Hc. rewrite (lookup_insert_eq m SERVICE_NAME), Ho, Hd. split.
  - repeat f_equal. rewrite delete_insert_eq. apply delete_id, Hm.
  - pose proof (wait_stopped_bound POLLS answers) as Hb. unfold POLLS, POLL_MS in *. lia.
Qed.

(** ** Samples *)

Module SampleHost.
Import Sample SampleStore SampleJson SampleSettings SampleRelay.

Definition there : scm_env :=
  {| sm_connect := Ok tt; sm_exe := Ok (L "C:\new\pbsgui-engine.exe"); sm_create := true; sm_open := Ok tt; sm_starts := true;
     sm_stops := true; sm_delete := Ok tt |}.
Definition denied : scm_env :=
  {| sm_connect := Ok tt; sm_exe := Ok (L "C:\new\pbsgui-engine.exe"); sm_create := false;
     sm_open := Err (L "access is denied");
     sm_starts := true; sm_stops := true; sm_delete := Ok tt |}.
Definition old : scm := {[ SERVICE_NAME := service_info (L "C:\old\pbsgui-engine.exe") ]}.

(** Installing over a service that is there keeps its program. *)
Example reinstalled_keeps_program :
  (install there old).1 = Ok tt /\ se_exe <$> ((install there old).2 !! SERVICE_NAME) = Some (L "C:\old\pbsgui-engine.exe").
Proof. split; vm_compute; reflexivity. Qed.

(** A service that may not be opened is reported as removed. *)
Example uninstall_denied : uninstall denied [] old = (Ok tt, old, 0).
Proof. vm_compute. reflexivity. Qed.

(** An engine whose socket could not be made, in a service that says it is running. *)
Example engine_lost : run_service_loop (Ok tt) (Ok tt) true [CtlInterrogate] (Ok tt)
  = (None, [SetStatus SvcRunning [CtlStop; CtlShutdown]; EnsureDirs; EngineStarted]).
Proof. reflexivity. Qed.

(** Only the engine restricts the directory: enrolling an agent does not. *)
Example relay_command_unrestricted :
  main true (CmdRelay (AddAgent (L "a"))) = Ok [WorkerLimit; DoRelay (AddAgent (L "a"))].
Proof. reflexivity. Qed.

Lemma uninstall_undoes_install_witness :
  (install there ∅).1 = Ok tt /\
  exists t, uninstall there [Ok SvcOther; Ok SvcStopped] (install there ∅).2 = (Ok tt, ∅, t) /\ 0 <= t <= 10000.
Proof.
  split; [reflexivity|].
  exact (proj2 (uninstall_undoes_install there there [Ok SvcOther; Ok SvcStopped] ∅ (install there ∅).2
    eq_refl eq_refl eq_refl eq_refl eq_refl)).
Defined.

Definition no_api : security_api := {| sa_convert := Err (L "no"); sa_dacl := Ok None; sa_set := 5 |}.
Definition no_tls : tls_env :=
  {| te_generated := Err (L "no"); te_cert_write := Written; te_key_write := Written; te_config := fun _ _ => Ok tt |}.

#[local] Instance metrics_json : SettingsJson MetricsSettings :=
  {| set_pretty := fun _ => Err (L "read-only"); set_parse := fun _ => None |}.

(** A job and a connection that were saved, and a run that was recorded, are there after a
    restart. *)
Definition first_start : config_state :=
  ep_config (start_engine (Err (L "no")) no_api no_tls (fun _ => Ok tt) (Ok tt) 8 world0 Inherited).2.
Definition changes : list engine_change :=
  [Asked (SaveJob job_a); Asked (SaveJob job_c); Asked (DeleteJob (L "c")); Recorded (L "a") 100 (L "done")].

Lemma restart_keeps_config_witness :
  let c := (change_all changes first_start).2 in
  let c' := ep_config (start_engine (Ok tt) no_api no_tls (fun _ => Ok tt) (Ok tt) 9 (c_world c) Inherited).2 in
  js_items (c_jobs c) = [with_run 100 (L "done") job_a] /\
  same_store (c_jobs c) (c_jobs c') /\ same_store (c_sql c) (c_sql c') /\ same_store (c_pbs c) (c_pbs c').
Proof.
  split; [vm_compute; reflexivity|].
  pose proof (restart_keeps_config world0 Inherited changes (Err (L "no")) no_api no_tls (fun _ => Ok tt) (Ok tt) 8
    (Ok tt) no_api no_tls (fun _ => Ok tt) (Ok tt) 9 Inherited eq_refl eq_refl) as Hk.
  cbv zeta in Hk. change (let '(oks, c) := change_all changes first_start in
    Forall (fun ok => ok = true) oks ->
    let c' := ep_config (start_engine (Ok tt) no_api no_tls (fun _ => Ok tt) (Ok tt) 9 (c_world c) Inherited).2 in
    same_store (c_jobs c) (c_jobs c') /\ same_store (c_sql c) (c_sql c') /\ same_store (c_pbs c) (c_pbs c')) in Hk.
  assert (Forall (fun ok => ok = true) (change_all changes first_start).1) as Hok
    by (vm_compute; repeat constructor).
  destruct (change_all changes first_start) as [oks c]. exact (Hk Hok).
Defined.

(** A job list without a signature, in the directory before the engine first ran. *)
Definition good_api : security_api := {| sa_convert := Ok tt; sa_dacl := Ok (Some tt); sa_set := 0 |}.
Definition unsigned : bytes := match json_pretty [job_a] with Ok b => b | Err _ => [] end.

Lemma planted_jobs_loaded_witness :
  let '(d, p) := start_engine (Ok tt) good_api no_tls (fun _ => Ok tt) (Ok tt) 9
                   (plant JOBS unsigned Inherited world0) Inherited in
  c_jobs (ep_config p) = {| js_path := JOBS; js_items := [job_a]; js_load_error := None |}.
Proof.
  apply (planted_jobs_loaded [job_a] unsigned world0 (Ok tt) good_api no_tls (fun _ => Ok tt) (Ok tt) 9);
    vm_compute; reflexivity.
Defined.

End SampleHost.
