(* ===== verification/Progress.v ===== *)
(** Progress reports and sizes ([pbsgui-engine/src/backup.rs], [progress_reporter],
    [format_progress], [human_bytes]; [human_size] of [handler.rs]; [human_bytes] of
    [pbsgui-ad-engine/src/capture.rs]).

    These compute with 64-bit floating-point numbers, which are modelled exactly: a
    non-negative finite number is a mantissa and a power of two, and a quotient is rounded
    to 53 bits, half to even.  (The numbers here are far from the ends of the range.)
    Shown: sizes are printed in the unit they have, as the exact integer computation
    would; reports come half a second apart, the first at once, and the fraction they
    carry stays below one. *)

From Stdlib Require Import ZArith Lia Strings.Byte Ascii String Sorted.
From stdpp Require Import base tactics option numbers list gmap.
From S2P Require Import Prelude Text Base Upload Jobs Sched Stores Plan Runs.
Open Scope Z_scope.

(** ** Numbers *)

(** [dm * 2^de]. *)
Record double := Double { dm : Z; de : Z }.

(** A quotient rounded to the nearest integer, half to even. *)
Definition div_even (a b : Z) : Z :=
  let q := a / b in
  let r := a mod b in
  if 2 * r <? b then q else if b <? 2 * r then q + 1 else if Z.even q then q else q + 1.

(** [num * 2^sh / den] as a fraction of integers. *)
Definition scaled (num den sh : Z) : Z * Z :=
  if 0 <=? sh then (num * 2 ^ sh, den) else (num, den * 2 ^ (- sh)).

(** The nearest number with a mantissa of [prec] bits. *)
Definition round_to (prec num den : Z) : double :=
  if num =? 0 then Double 0 0
  else
    let sh := prec - 1 - (Z.log2 num - Z.log2 den) in
    let '(a, b) := scaled num den sh in
    let '(sh, (a, b)) := if a <? b * 2 ^ (prec - 1) then (sh + 1, scaled num den (sh + 1)) else (sh, (a, b)) in
    Double (div_even a b) (- sh).

(** [n as f64], a literal, a quotient, a product, a sum of powers: rounded results. *)
Definition of_int (n : Z) : double := round_to 53 n 1.
Definition literal (num den : Z) : double := round_to 53 num den.

(** A number as a fraction. *)
Definition fraction_of (x : double) : Z * Z := scaled (dm x) 1 (de x).

Definition f_div (x y : double) : double :=
  let '(a, b) := fraction_of x in let '(c, d) := fraction_of y in round_to 53 (a * d) (b * c).
Definition f_mul (x y : double) : double :=
  let '(a, b) := fraction_of x in let '(c, d) := fraction_of y in round_to 53 (a * c) (b * d).
Definition f_add (x y : double) : double :=
  let '(a, b) := fraction_of x in let '(c, d) := fraction_of y in round_to 53 (a * d + c * b) (b * d).
Definition f_le (x y : double) : bool :=
  let '(a, b) := fraction_of x in let '(c, d) := fraction_of y in a * d <=? c * b.
Definition f_min (x y : double) : double := if f_le x y then x else y.
Definition f_max (x y : double) : double := if f_le x y then y else x.

(** [as f32], and [as u64] with its saturation. *)
Definition as_f32 (x : double) : double := let '(a, b) := fraction_of x in round_to 24 a b.
Definition as_u64 (x : double) : Z := let '(a, b) := fraction_of x in Z.min (a / b) (2 ^ 64 - 1).

(** [{:.k}]: the exact value rounded to [k] digits, half to even. *)
Definition pad (k : nat) (s : str) : str := replicate (k - length s) 48 ++ s.

Definition fixed_of (k : nat) (num den : Z) : str :=
  let n := div_even (num * 10 ^ Z.of_nat k) den in
  let p := 10 ^ Z.of_nat k in
  dec (n / p) ++ (match k with O => [] | _ => L "." ++ pad k (dec (n mod p)) end).

Definition fixed (k : nat) (x : double) : str := let '(a, b) := fraction_of x in fixed_of k a b.

(** ** Sizes *)

Definition UNITS : list str := [L "B"; L "KiB"; L "MiB"; L "GiB"; L "TiB"].

(** [v /= 1024.0; u += 1], at most four times. *)
Fixpoint scale_unit (fuel : nat) (v : double) (u : nat) : double * nat :=
  match fuel with
  | O => (v, u)
  | S fuel => if f_le (of_int 1024) v then scale_unit fuel (f_div v (of_int 1024)) (S u) else (v, u)
  end.

Definition size_text (digits : nat) (n : Z) : str :=
  let '(v, u) := scale_unit 4 (of_int n) 0 in
  match u with
  | O => dec n ++ L " B"
  | _ => fixed digits v ++ L " " ++ default [] (UNITS !! u)
  end.

Definition human_bytes : Z -> str := size_text 2.
Definition human_size : Z -> str := size_text 1.

(** [human_bytes] of [capture.rs]. *)
Definition ad_human_bytes : Z -> str := size_text 2.

(** ** Progress *)

(** [p] is a percentage of a total, at most 99.9. *)
Definition percent_text (p : BackupProgress) : str :=
  let pct := f_min (f_mul (f_div (of_int (bp_bytes_done p)) (of_int (bp_total_bytes p))) (of_int 100)) (literal 999 10) in
  human_bytes (bp_bytes_done p) ++ L " / " ++ human_bytes (bp_total_bytes p) ++ L " (" ++ fixed 0 pct ++ L "%)".

Definition DOT : str := [32; 183; 32].

Definition format_progress (p : BackupProgress) (bytes_per_sec : double) : str :=
  (if 0 <? bp_total_bytes p then percent_text p else human_bytes (bp_bytes_done p)) ++
  DOT ++ human_bytes (as_u64 bytes_per_sec) ++ L "/s" ++
  (if 0 <? bp_chunks p
   then DOT ++ L "dedup " ++ fixed 0 (f_mul (f_div (of_int (bp_reused p)) (of_int (bp_chunks p))) (of_int 100)) ++ L "%"
   else []) ++
  (if (0 <? bp_stored_bytes p) && (0 <? bp_uploaded_bytes p)
   then DOT ++ L "zstd " ++ fixed 1 (f_div (of_int (bp_uploaded_bytes p)) (of_int (bp_stored_bytes p))) ++ L "x"
   else []).

(** Half a second; the clock counts nanoseconds. *)
Definition NANOS : Z := 1000000000.
Definition PROGRESS_INTERVAL : Z := 500000000.

(** [Duration::as_secs_f64]. *)
Definition as_secs_f64 (nanos : Z) : double :=
  f_add (of_int (nanos / NANOS)) (f_div (of_int (nanos mod NANOS)) (of_int NANOS)).

(** [fraction] of a report, before it is narrowed. *)
Definition fraction (p : BackupProgress) : double :=
  if 0 <? bp_total_bytes p
  then f_min (f_div (of_int (bp_bytes_done p)) (of_int (bp_total_bytes p))) (literal 999 1000)
  else Double 0 0.

(** What is sent and recorded; [nanos] are since the start. *)
Definition report_of (nanos : Z) (p : BackupProgress) : double * str * double :=
  let secs := f_max (as_secs_f64 nanos) (literal 1 1000) in
  let throughput := f_div (of_int (bp_bytes_done p)) secs in
  (as_f32 (fraction p), format_progress p throughput, throughput).

(** A call of the reporter at a time of the monotonic clock: [last] is when it last
    reported. *)
Definition reporter (started : Z) (last : option Z) (now : Z) (p : BackupProgress) :
    option Z * option (double * str * double) :=
  if match last with Some t => PROGRESS_INTERVAL <=? now - t | None => true end
  then (Some now, Some (report_of (now - started) p)) else (last, None).

(** The reports of a run, with their times. *)
Fixpoint reports (started : Z) (last : option Z) (calls : list (Z * BackupProgress)) :
    list (Z * (double * str * double)) :=
  match calls with
  | [] => []
  | (now, p) :: calls =>
      let '(last, r) := reporter started last now p in
      match r with Some r => (now, r) :: reports started last calls | None => reports started last calls end
  end.

Example sizes : (human_bytes 0, human_bytes 1023, human_bytes 1024, human_bytes 1536, human_bytes (1024 ^ 4 * 5000))
  = (L "0 B", L "1023 B", L "1.00 KiB", L "1.50 KiB", L "5000.00 TiB").
Proof. vm_compute. reflexivity. Qed.

Example status_line :
  format_progress {| bp_bytes_done := 1610612736; bp_total_bytes := 3221225472; bp_chunks := 400; bp_reused := 300;
    bp_uploaded := 100; bp_uploaded_bytes := 400000000; bp_reused_bytes := 0; bp_stored_bytes := 160000000 |}
    (of_int 52428800)
  = L "1.50 GiB / 3.00 GiB (50%)" ++ DOT ++ L "50.00 MiB/s" ++ DOT ++ L "dedup 75%" ++ DOT ++ L "zstd 2.5x".
Proof. vm_compute. reflexivity. Qed.

(** Just below a unit the rounded figure is a thousand and twenty-four of the smaller one. *)
Example below_a_mebibyte : human_bytes (1024 * 1024 - 1) = L "1024.00 KiB".
Proof. vm_compute. reflexivity. Qed.

(** ** Rounding that loses nothing *)

Lemma scaled_pos num den sh a b : 0 < num -> 0 < den -> scaled num den sh = (a, b) -> 0 < a /\ 0 < b.
Proof.
  intros Hn Hd. unfold scaled. destruct (Z.leb_spec 0 sh); intros [= <- <-].
  - pose proof (Z.pow_pos_nonneg 2 sh ltac:(lia) ltac:(lia)). nia.
  - pose proof (Z.pow_pos_nonneg 2 (- sh) ltac:(lia) ltac:(lia)). nia.
Qed.

(** Scaled by the larger of the two amounts, a fraction has all the bits. *)
Lemma scaled_large prec num den a b : 0 < prec -> 0 < num -> 0 < den ->
  scaled num den (prec - (Z.log2 num - Z.log2 den)) = (a, b) -> b * 2 ^ (prec - 1) <= a.
Proof.
  intros Hp Hn Hd. destruct (Z.log2_spec num Hn) as [Hln _]. destruct (Z.log2_spec den Hd) as [_ Hld].
  pose proof (Z.log2_nonneg num). pose proof (Z.log2_nonneg den).
  set (ln := Z.log2 num) in *. set (ld := Z.log2 den) in *.
  unfold scaled. destruct (Z.leb_spec 0 (prec - (ln - ld))); intros [= <- <-].
  - apply Z.le_trans with (2 ^ Z.succ ld * 2 ^ (prec - 1)); [apply Z.mul_le_mono_nonneg_r; lia|].
    rewrite <- Z.pow_add_r by lia. apply Z.le_trans with (2 ^ ln * 2 ^ (prec - (ln - ld))).
    + rewrite <- Z.pow_add_r by lia. apply Z.pow_le_mono_r; lia.
    + apply Z.mul_le_mono_nonneg_r; lia.
  - apply Z.le_trans with (2 ^ Z.succ ld * 2 ^ (- (prec - (ln - ld))) * 2 ^ (prec - 1)).
    + do 2 (apply Z.mul_le_mono_nonneg_r; [lia|]). lia.
    + rewrite <- !Z.pow_add_r by lia. apply Z.le_trans with (2 ^ ln); [|lia]. apply Z.pow_le_mono_r; lia.
Qed.

(** A fraction with few bits is scaled to an integer. *)
Lemma scaled_exact prec num den m k sh a b : 0 < prec -> 0 < num -> 0 < den -> 0 <= k -> 0 <= m < 2 ^ prec ->
  num * 2 ^ k = m * den -> scaled num den sh = (a, b) -> b * 2 ^ (prec - 1) <= a ->
  k <= sh /\ a = m * 2 ^ (sh - k) * b.
Proof.
  intros Hp Hn Hd Hk Hm E Es Hb.
  assert (k <= sh) as Hsh.
  { destruct (Z.le_gt_cases k sh) as [?|Hlt]; [assumption|]. exfalso.
    assert (den * 2 ^ (prec - 1 + k - sh) <= m * den) as Hbig.
    { rewrite <- E. unfold scaled in Es. destruct (Z.leb_spec 0 sh); injection Es as <- <-.
      - apply (Z.mul_le_mono_nonneg_r _ _ (2 ^ (k - sh))) in Hb; [|lia].
        rewrite <- !Z.mul_assoc, <- !Z.pow_add_r in Hb by lia.
        replace (prec - 1 + (k - sh)) with (prec - 1 + k - sh) in Hb by lia.
        replace (sh + (k - sh)) with k in Hb by lia. exact Hb.
      - apply (Z.mul_le_mono_nonneg_r _ _ (2 ^ k)) in Hb; [|lia].
        rewrite <- !Z.mul_assoc, <- !Z.pow_add_r in Hb by lia.
        replace (- sh + (prec - 1 + k)) with (prec - 1 + k - sh) in Hb by lia. exact Hb. }
    assert (2 ^ prec <= 2 ^ (prec - 1 + k - sh)) by (apply Z.pow_le_mono_r; lia). nia. }
  split; [exact Hsh|]. unfold scaled in Es. destruct (Z.leb_spec 0 sh); [|lia]. injection Es as <- <-.
  replace sh with (k + (sh - k)) at 1 by lia. rewrite Z.pow_add_r by lia.
  rewrite Z.mul_assoc, E. ring.
Qed.

Lemma div_even_exact q b : 0 < b -> div_even (q * b) b = q.
Proof.
  intros Hb. unfold div_even. rewrite Z.div_mul, Z.mod_mul by lia. destruct (Z.ltb_spec (2 * 0) b); [reflexivity | lia].
Qed.

(** [x] is [m / 2^k]. *)
Definition is_value (x : double) (m k : Z) : Prop :=
  exists a b, fraction_of x = (a, b) /\ 0 < b /\ a * 2 ^ k = m * b.

Lemma round_exact prec num den m k : 0 < prec -> 0 <= num -> 0 < den -> 0 <= k -> 0 <= m < 2 ^ prec ->
  num * 2 ^ k = m * den -> is_value (round_to prec num den) m k.
Proof.
  intros Hp Hn Hd Hk Hm E. unfold round_to. destruct (Z.eqb_spec num 0) as [->|Hnz].
  { exists 0, 1. unfold fraction_of, scaled. cbn. split; [reflexivity|]. split; [lia|]. nia. }
  assert (0 < num) as Hpos by lia.
  assert (forall sh a b, scaled num den sh = (a, b) -> b * 2 ^ (prec - 1) <= a ->
            is_value (Double (div_even a b) (- sh)) m k) as Hdone.
  { intros sh a b Es Hb. destruct (scaled_pos num den sh a b Hpos Hd Es) as [_ Hbp].
    destruct (scaled_exact prec num den m k sh a b Hp Hpos Hd Hk Hm E Es Hb) as [Hsh ->].
    rewrite div_even_exact by exact Hbp. unfold is_value, fraction_of, scaled. cbn [dm de].
    destruct (Z.leb_spec 0 (- sh)).
    - assert (sh = 0) as -> by lia. assert (k = 0) as -> by lia. eexists _, _. split; [reflexivity|].
      split; [lia|]. cbn. lia.
    - eexists _, _. split; [reflexivity|]. rewrite Z.opp_involutive, Z.mul_1_l.
      split; [apply Z.pow_pos_nonneg; lia|].
      replace sh with (sh - k + k) at 2 by lia. rewrite Z.pow_add_r by lia. ring. }
  set (sh := prec - 1 - (Z.log2 num - Z.log2 den)).
  destruct (scaled num den sh) as [a b] eqn:Es. destruct (Z.ltb_spec a (b * 2 ^ (prec - 1))) as [Hlt|Hge].
  - destruct (scaled num den (sh + 1)) as [a' b'] eqn:Es'. apply (Hdone (sh + 1) a' b' Es').
    apply (scaled_large prec num den); auto. replace (prec - (Z.log2 num - Z.log2 den)) with (sh + 1) by lia. exact Es'.
  - apply (Hdone sh a b Es Hge).
Qed.

Lemma div_even_scale a b t : 0 < b -> 0 < t -> div_even (a * t) (b * t) = div_even a b.
Proof.
  intros Hb Ht. unfold div_even. rewrite Z.div_mul_cancel_r, Z.mul_mod_distr_r by lia.
  set (r := a mod b).
  replace (2 * (r * t) <? b * t) with (2 * r <? b)
    by (destruct (Z.ltb_spec (2 * r) b), (Z.ltb_spec (2 * (r * t)) (b * t)); auto; nia).
  replace (b * t <? 2 * (r * t)) with (b <? 2 * r)
    by (destruct (Z.ltb_spec b (2 * r)), (Z.ltb_spec (b * t) (2 * (r * t))); auto; nia).
  reflexivity.
Qed.

(** Equal fractions are printed alike. *)
Lemma fixed_of_ratio k a b c d : 0 < b -> 0 < d -> a * d = c * b -> fixed_of k a b = fixed_of k c d.
Proof.
  intros Hb Hd E. unfold fixed_of.
  replace (div_even (a * 10 ^ Z.of_nat k) b) with (div_even (c * 10 ^ Z.of_nat k) d); [reflexivity|].
  rewrite <- (div_even_scale _ b d), <- (div_even_scale _ d b) by assumption.
  f_equal; [|ring]. transitivity (c * b * 10 ^ Z.of_nat k); [ring|]. rewrite <- E. ring.
Qed.

(** ** Sizes are in their unit *)

Lemma fraction_1024 : fraction_of (of_int 1024) = (2 ^ 52, 2 ^ 42).
Proof. reflexivity. Qed.

Lemma at_least_1024 v n k : 0 <= k -> is_value v n k -> f_le (of_int 1024) v = (1024 * 2 ^ k <=? n).
Proof.
  intros Hk (a & b & Ef & Hb & E). unfold f_le. rewrite fraction_1024, Ef.
  pose proof (Z.pow_pos_nonneg 2 k ltac:(lia) Hk).
  destruct (Z.leb_spec (2 ^ 52 * b) (a * 2 ^ 42)), (Z.leb_spec (1024 * 2 ^ k) n); auto; nia.
Qed.

Lemma divided_1024 v n k : 0 <= k -> 0 <= n < 2 ^ 53 -> is_value v n k -> is_value (f_div v (of_int 1024)) n (k + 10).
Proof.
  intros Hk Hn (a & b & Ef & Hb & E). unfold f_div. rewrite fraction_1024, Ef.
  pose proof (Z.pow_pos_nonneg 2 k ltac:(lia) Hk).
  apply round_exact; try lia; try nia. rewrite Z.pow_add_r by lia.
  transitivity (a * 2 ^ k * (2 ^ 42 * 2 ^ 10)); [ring|]. rewrite E. ring.
Qed.

(** The unit of a size. *)
Definition unit_index (n : Z) : nat :=
  if n <? 2 ^ 10 then 0 else if n <? 2 ^ 20 then 1 else if n <? 2 ^ 30 then 2 else if n <? 2 ^ 40 then 3 else 4.

Lemma scale_unit_step fuel v n (u : nat) : 0 <= n < 2 ^ 53 -> is_value v n (10 * Z.of_nat u) ->
  scale_unit (S fuel) v u
  = if n <? 2 ^ (10 * Z.of_nat (S u)) then (v, u) else scale_unit fuel (f_div v (of_int 1024)) (S u).
Proof.
  intros Hn Hv. cbn [scale_unit]. rewrite (at_least_1024 v n (10 * Z.of_nat u)) by (assumption || lia).
  replace (2 ^ (10 * Z.of_nat (S u))) with (1024 * 2 ^ (10 * Z.of_nat u))
    by (replace (10 * Z.of_nat (S u)) with (10 + 10 * Z.of_nat u) by lia; rewrite Z.pow_add_r by lia; reflexivity).
  destruct (Z.leb_spec (1024 * 2 ^ (10 * Z.of_nat u)) n), (Z.ltb_spec n (1024 * 2 ^ (10 * Z.of_nat u))); auto; lia.
Qed.

Lemma scale_unit_ok n : 0 <= n < 2 ^ 53 -> exists v,
  scale_unit 4 (of_int n) 0 = (v, unit_index n) /\ is_value v n (10 * Z.of_nat (unit_index n)).
Proof.
  intros Hn. assert (is_value (of_int n) n 0) as H0 by (apply round_exact; lia).
  assert (forall v u, is_value v n (10 * Z.of_nat u) -> is_value (f_div v (of_int 1024)) n (10 * Z.of_nat (S u))) as Hs.
  { intros v u Hv. replace (10 * Z.of_nat (S u)) with (10 * Z.of_nat u + 10) by lia. apply divided_1024; auto; lia. }
  unfold unit_index.
  rewrite (scale_unit_step 3 _ n 0 Hn H0). change (10 * Z.of_nat 1) with 10.
  destruct (n <? 2 ^ 10); [eauto|]. apply (Hs _ 0%nat) in H0.
  rewrite (scale_unit_step 2 _ n 1 Hn H0). change (10 * Z.of_nat 2) with 20.
  destruct (n <? 2 ^ 20); [eauto|]. apply (Hs _ 1%nat) in H0.
  rewrite (scale_unit_step 1 _ n 2 Hn H0). change (10 * Z.of_nat 3) with 30.
  destruct (n <? 2 ^ 30); [eauto|]. apply (Hs _ 2%nat) in H0.
  rewrite (scale_unit_step 0 _ n 3 Hn H0). change (10 * Z.of_nat 4) with 40.
  destruct (n <? 2 ^ 40); [eauto|]. apply (Hs _ 3%nat) in H0. eauto.
Qed.

(** C40: a size below eight pebibytes is printed as exact integer arithmetic would: in
    bytes below a kibibyte, else in the largest unit that it fills (at most tebibytes),
    as the quotient rounded to the digits that are shown.  The repeated floating-point
    divisions lose nothing. *)
Theorem sizes_exact digits n : 0 <= n < 2 ^ 53 ->
  size_text digits n
  = (if n <? 1024 then dec n ++ L " B"
     else fixed_of digits n (1024 ^ Z.of_nat (unit_index n)) ++ L " " ++ default [] (UNITS !! unit_index n)).
Proof.
  intros Hn. destruct (scale_unit_ok n Hn) as (v & E & a & b & Ef & Hb & Hv). unfold size_text. rewrite E.
  destruct (unit_index n) as [|u] eqn:Eu.
  - assert (n < 1024) by (revert Eu; unfold unit_index; change (2 ^ 10) with 1024;
      destruct (Z.ltb_spec n 1024); [auto | repeat case_match; discriminate]).
    destruct (Z.ltb_spec n 1024); [reflexivity | lia].
  - assert (1024 <= n) by (revert Eu; unfold unit_index; change (2 ^ 10) with 1024;
      destruct (Z.ltb_spec n 1024); [discriminate | auto]).
    destruct (Z.ltb_spec n 1024); [lia|]. f_equal. unfold fixed. rewrite Ef.
    apply fixed_of_ratio; [exact Hb | apply Z.pow_pos_nonneg; lia|].
    rewrite <- Hv. f_equal. rewrite Z.pow_mul_r by lia. reflexivity.
Qed.

(** Sizes above a kibibyte: three hundred bytes past a tebibyte and a half. *)
Lemma sizes_exact_witness : 0 <= 1649267442044 < 2 ^ 53 /\ size_text 2 1649267442044 = L "1.50 TiB".
Proof.
  split; [lia|]. rewrite sizes_exact by lia. vm_compute. reflexivity.
Defined.

(** ** Rounding is nearly monotone *)

Lemma fraction_den x a b : fraction_of x = (a, b) -> 0 < b.
Proof.
  unfold fraction_of, scaled. destruct (Z.leb_spec 0 (de x)); intros [= _ <-]; [lia|].
  pose proof (Z.pow_pos_nonneg 2 (- de x) ltac:(lia) ltac:(lia)). lia.
Qed.

Lemma div_even_upper a b : 0 < b -> 2 * (b * div_even a b) <= 2 * a + b.
Proof.
  intros Hb. unfold div_even. pose proof (Z.div_mod a b ltac:(lia)). pose proof (Z.mod_pos_bound a b Hb).
  destruct (Z.ltb_spec (2 * (a mod b)) b); [nia|]. destruct (Z.ltb_spec b (2 * (a mod b))); [nia|].
  destruct (Z.even (a / b)); nia.
Qed.

Lemma div_even_lower a b : a / b <= div_even a b.
Proof. unfold div_even. repeat case_match; lia. Qed.

(** Undoing the scale. *)
Lemma scaled_back num den sh q a b c d :
  scaled num den sh = (a, b) -> fraction_of (Double q (- sh)) = (c, d) -> c * a * den = q * num * d * b.
Proof.
  unfold fraction_of, scaled. cbn [dm de].
  destruct (Z.leb_spec 0 sh); intros [= <- <-]; destruct (Z.leb_spec 0 (- sh)); intros [= <- <-]; try lia.
  - assert (sh = 0) as -> by lia. change (2 ^ (- 0)) with 1. change (2 ^ 0) with 1. ring.
  - rewrite Z.opp_involutive. ring.
Qed.

(** A rounded fraction keeps its sign, and exceeds the fraction by at most half a unit
    of its last place. *)
Lemma round_upper prec num den c d : 0 < prec -> 0 <= num -> 0 < den ->
  fraction_of (round_to prec num den) = (c, d) -> 0 <= c /\ (0 < num -> 0 < c) /\ c * den * 2 ^ prec <= num * d * (2 ^ prec + 1).
Proof.
  intros Hp Hn Hd. pose proof (Z.pow_pos_nonneg 2 prec ltac:(lia) ltac:(lia)) as H2.
  unfold round_to. destruct (Z.eqb_spec num 0) as [->|Hnz].
  { intros [= <- <-]. lia. }
  assert (forall sh a b, scaled num den sh = (a, b) -> b * 2 ^ (prec - 1) <= a ->
            fraction_of (Double (div_even a b) (- sh)) = (c, d) ->
            0 <= c /\ (0 < num -> 0 < c) /\ c * den * 2 ^ prec <= num * d * (2 ^ prec + 1)) as Hdone.
  { intros sh a b Es Hb Ef. destruct (scaled_pos num den sh a b ltac:(lia) Hd Es) as [Ha Hbp].
    pose proof (scaled_back _ _ _ _ _ _ _ _ Es Ef) as E. pose proof (fraction_den _ _ _ Ef) as Hdp.
    pose proof (div_even_upper a b Hbp) as Hq. 
    set (q := div_even a b) in *.
    assert (1 <= 2 ^ (prec - 1)) by (pose proof (Z.pow_pos_nonneg 2 (prec - 1) ltac:(lia) ltac:(lia)); lia).
    assert (1 <= q).
    { apply Z.le_trans with (a / b); [apply Z.div_le_lower_bound; nia | apply div_even_lower]. }
    assert (0 < q * num * d * b) by (repeat apply Z.mul_pos_pos; lia).
    split; [nia|]. split; [nia|].
    assert (2 ^ prec * (b * q) <= (2 ^ prec + 1) * a) as Hqa.
    { replace (2 ^ prec) with (2 * 2 ^ (prec - 1)) in * by (rewrite <- Z.pow_succ_r by lia; f_equal; lia). nia. }
    apply (Z.mul_le_mono_pos_r _ _ a Ha).
    replace (c * den * 2 ^ prec * a) with (num * d * (2 ^ prec * (b * q)))
      by (transitivity (2 ^ prec * (q * num * d * b)); [ring|]; rewrite <- E; ring).
    replace (num * d * (2 ^ prec + 1) * a) with (num * d * ((2 ^ prec + 1) * a)) by ring.
    apply Z.mul_le_mono_nonneg_l; [nia | exact Hqa]. }
  set (sh := prec - 1 - (Z.log2 num - Z.log2 den)).
  destruct (scaled num den sh) as [a b] eqn:Es. destruct (Z.ltb_spec a (b * 2 ^ (prec - 1))) as [Hlt|Hge].
  - destruct (scaled num den (sh + 1)) as [a' b'] eqn:Es'. apply (Hdone (sh + 1) a' b' Es').
    apply (scaled_large prec num den); try lia. replace (prec - (Z.log2 num - Z.log2 den)) with (sh + 1) by lia. exact Es'.
  - apply (Hdone sh a b Es Hge).
Qed.

(** ** Reports *)

Definition below_one (x : double) : bool := let '(c, d) := fraction_of x in c <? d.

Lemma f_div_nonneg m n c d : 0 <= m -> 0 < n -> fraction_of (f_div (of_int m) (of_int n)) = (c, d) -> 0 <= c.
Proof.
  intros Hm Hn. unfold f_div. destruct (fraction_of (of_int m)) as [a b] eqn:Ea.
  destruct (fraction_of (of_int n)) as [a' b'] eqn:Eb. intros E.
  destruct (round_upper 53 m 1 a b ltac:(lia) Hm ltac:(lia) Ea) as (Ha & _ & _).
  destruct (round_upper 53 n 1 a' b' ltac:(lia) ltac:(lia) ltac:(lia) Eb) as (_ & Ha' & _).
  pose proof (fraction_den _ _ _ Ea). pose proof (fraction_den _ _ _ Eb).
  apply (round_upper 53 (a * b') (b * a')) in E as [? _]; [assumption | lia | nia | nia].
Qed.

(** At most 0.999, also after the number is narrowed. *)
Lemma fraction_below_one p : 0 <= bp_bytes_done p -> below_one (as_f32 (fraction p)) = true.
Proof.
  intros Hd. unfold fraction. destruct (Z.ltb_spec 0 (bp_total_bytes p)); [|reflexivity].
  set (x := f_div _ _). unfold f_min. destruct (f_le x (literal 999 1000)) eqn:El; [|reflexivity].
  unfold below_one, as_f32. destruct (fraction_of x) as [a b] eqn:Ex.
  pose proof (f_div_nonneg _ _ _ _ Hd ltac:(eassumption) Ex) as Ha. pose proof (fraction_den _ _ _ Ex) as Hb.
  destruct (fraction_of (round_to 24 a b)) as [c d] eqn:Er. pose proof (fraction_den _ _ _ Er).
  destruct (round_upper 24 a b c d ltac:(lia) Ha Hb Er) as (_ & _ & Hu).
  unfold f_le in El. rewrite Ex in El. change (fraction_of (literal 999 1000)) with (8998192055486251, 9007199254740992) in El.
  apply Z.leb_le in El. apply Z.ltb_lt. apply Z.nle_gt. intros Hge.
  change (2 ^ 24) with 16777216 in Hu.
  assert (d * b * 16777216 <= a * d * 16777217) by nia.
  assert (d * (a * 9007199254740992) <= d * (8998192055486251 * b)) by nia. nia.
Qed.

Section Throttle.
Context (started : Z).

(** Every report but the first comes an interval after the one before. *)
Lemma reports_spaced hi calls t : t <= hi -> Forall (fun c => c.1 <= hi) calls ->
  Z.of_nat (length (reports started (Some t) calls)) * PROGRESS_INTERVAL <= hi - t.
Proof.
  revert t. induction calls as [|[now p] calls IH]; intros t Ht Hc; cbn [reports length]; [lia|].
  inversion_clear Hc as [|? ? Hn Hc']. cbn in Hn. unfold reporter. destruct (Z.leb_spec PROGRESS_INTERVAL (now - t)).
  - specialize (IH now Hn Hc'). cbn [length]. lia.
  - exact (IH t Ht Hc').
Qed.

(** A call that is not reported follows a report by less than an interval. *)
Lemma reports_recent calls t : StronglySorted Z.le (t :: map fst calls) -> forall now, now ∈ map fst calls ->
  exists u, u ∈ t :: map fst (reports started (Some t) calls) /\ 0 <= now - u < PROGRESS_INTERVAL.
Proof.
  revert t. induction calls as [|[m p] calls IH]; intros t Hs now Hin; [set_solver|].
  cbn [map fst] in *. apply StronglySorted_inv in Hs as [Hs Hle]. inversion_clear Hle as [|? ? Htm Hle'].
  cbn [reports]. unfold reporter. destruct (Z.leb_spec PROGRESS_INTERVAL (m - t)).
  - cbn [map fst]. apply elem_of_cons in Hin as [->|Hin].
    + exists m. split; [right; left | unfold PROGRESS_INTERVAL; lia].
    + destruct (IH m Hs now Hin) as (u & Hu & ?). exists u. split; [right; exact Hu | lia].
  - apply StronglySorted_inv in Hs as [Hs _]. apply elem_of_cons in Hin as [->|Hin].
    + exists t. split; [left | lia].
    + apply (IH t); [constructor; assumption | exact Hin].
Qed.

Lemma reports_below_one last calls : Forall (fun c => 0 <= bp_bytes_done c.2) calls ->
  Forall (fun r => below_one r.2.1.1 = true) (reports started last calls).
Proof.
  revert last. induction calls as [|[now p] calls IH]; intros last Hc; [constructor|].
  inversion_clear Hc as [|? ? Hp Hc']. cbn [reports]. unfold reporter.
  destruct (match last with Some t => PROGRESS_INTERVAL <=? now - t | None => true end); [|apply IH, Hc'].
  constructor; [apply fraction_below_one, Hp | apply IH, Hc'].
Qed.

(** C39: however often the upload calls its reporter, at times that do not decrease over a
    stretch of [span] nanoseconds: the first call reports; there is at most one report per
    half second; every call is within half a second of a report; and the fraction of no
    report reaches one. *)
Theorem progress_throttled span now p calls :
  StronglySorted Z.le (map fst ((now, p) :: calls)) ->
  Forall (fun c => started <= c.1 <= started + span /\ 0 <= bp_bytes_done c.2) ((now, p) :: calls) ->
  let rs := reports started None ((now, p) :: calls) in
  head rs = Some (now, report_of (now - started) p) /\
  Z.of_nat (length rs) <= span / PROGRESS_INTERVAL + 1 /\
  (forall t, t ∈ map fst ((now, p) :: calls) ->
     exists u, u ∈ map fst rs /\ 0 <= t - u < PROGRESS_INTERVAL) /\
  Forall (fun r => below_one r.2.1.1 = true) rs.
Proof.
  intros Hs Hc. pose proof Hc as Hc2. inversion_clear Hc as [|? ? [Hn Hp] Hc']. cbn [fst snd] in *.
  cbv zeta. split_and!; [reflexivity | | |].
  - cbn [reports reporter length]. enough (Z.of_nat (length (reports started (Some now) calls)) <= span / PROGRESS_INTERVAL) by lia.
    apply Z.div_le_lower_bound; [reflexivity|]. rewrite Z.mul_comm.
    etrans; [apply (reports_spaced (started + span)); [lia|]|lia].
    eapply Forall_impl; [exact Hc'|]. cbv beta. lia.
  - cbn [reports reporter map fst]. intros t Ht. apply elem_of_cons in Ht as [->|Ht].
    + exists now. split; [left | unfold PROGRESS_INTERVAL; lia].
    + apply reports_recent; assumption.
  - apply reports_below_one. eapply Forall_impl; [exact Hc2|]. cbv beta. lia.
Qed.
End Throttle.

Module SampleProgress.
Definition at_bytes (n : Z) : BackupProgress :=
  {| bp_bytes_done := n; bp_total_bytes := 4096; bp_chunks := 4; bp_reused := 1; bp_uploaded := 3;
     bp_uploaded_bytes := 3072; bp_reused_bytes := 1024; bp_stored_bytes := 1024 |}.

Definition calls : list (Z * BackupProgress) :=
  [(10, at_bytes 0); (20, at_bytes 1024); (700000000, at_bytes 2048); (800000000, at_bytes 3072);
   (1300000000, at_bytes 4096)].

Lemma progress_throttled_witness : exists rs, reports 0 None calls = rs /\ Z.of_nat (length rs) <= 3 /\ length rs = 3%nat.
Proof.
  eexists. split; [reflexivity|]. split; [|reflexivity].
  refine (proj1 (proj2 (progress_throttled 0 1300000000 10 (at_bytes 0) (tail calls) _ _))).
  - cbn. repeat constructor; lia.
  - cbn. repeat constructor; cbn; lia.
Defined.

(** The percentage is kept below a hundred but printed without digits: a run that goes on
    reads as complete. *)
Example reads_as_complete : percent_text (at_bytes 4096) = L "4.00 KiB / 4.00 KiB (100%)".
Proof. vm_compute. reflexivity. Qed.
End SampleProgress.
