(* ===== verification/Scan.v ===== *)
(** Asking the network for SQL Server instances ([broadcast], [scan] and [collect] of
    [pbsgui-engine/src/sql/ssrp.rs], [discover] of [discover.rs]).

    The network is data: whether the sockets work, and what they receive, with times.
    Shown: an instance that a host of a scanned subnet advertises in time is discovered;
    and an error of the socket hides every answer that comes after it. *)

From Stdlib Require Import ZArith Lia Sorting.Sorted Strings.Byte Ascii String.
From stdpp Require Import base tactics option numbers list.
From S2P Require Import Prelude Text Base Discover.
Open Scope Z_scope.

Definition BROWSER_PORT : Z := 1434.
Definition REQUEST : bytes := [x02].

(** What the socket gets, a whole datagram or an error, and when (in milliseconds). *)
Definition arrival : Type := Z * result str bytes.

(** A datagram: its payload, the host and the port. *)
Definition datagram : Type := bytes * str * Z.

Record network := {
  nw_bind : result str unit; nw_set_broadcast : result str unit;
  nw_send : datagram -> result str unit;
  nw_now : Z;                                  (* when [collect] begins *)
  nw_cut : bytes -> result str bytes;          (* a datagram longer than the buffer: an error on
                                                  Windows, its beginning elsewhere *)
  nw_arrivals : list datagram -> list arrival  (* what comes back for what was sent *) }.

Definition BUFFER : nat := Z.to_nat 8192.

(** [recv_from] into the buffer. *)
Definition recv_from (n : network) (a : result str bytes) : result str bytes :=
  packet ← a;
  if (length packet <=? BUFFER)%nat then Ok packet else nw_cut n packet.

(** The loop ends at the deadline or at the first error. *)
Fixpoint collect (n : network) (deadline : Z) (arrivals : list arrival) (source : SqlDiscoverySource) :
    list SqlInstance :=
  match arrivals with
  | [] => []
  | (t, a) :: arrivals =>
      if t <? deadline then
        match recv_from n a with
        | Ok packet => parse_response packet source ++ collect n deadline arrivals source
        | Err _ => []
        end
      else []
  end.

Definition BROADCAST : str := L "255.255.255.255".

Definition broadcast (timeout : Z) (n : network) : list SqlInstance :=
  match nw_bind n, nw_set_broadcast n, nw_send n (REQUEST, BROADCAST, BROWSER_PORT) with
  | Ok _, Ok _, Ok _ => collect n (nw_now n + timeout) (nw_arrivals n [(REQUEST, BROADCAST, BROWSER_PORT)]) Browser
  | _, _, _ => []
  end.

(** A host that cannot be sent to is passed over. *)
Definition asked (hosts : list str) (n : network) : list datagram :=
  List.filter (fun d => is_ok (nw_send n d)) (map (fun h => (REQUEST, h, BROWSER_PORT)) hosts).

Definition scan (hosts : list str) (timeout : Z) (n : network) : list SqlInstance :=
  match hosts, nw_bind n with
  | _ :: _, Ok _ => collect n (nw_now n + timeout) (nw_arrivals n (asked hosts n)) NetworkScan
  | _, _ => []
  end.

Definition SSRP_TIMEOUT : Z := 2000.

(** The broadcast has its own socket, and so its own network. *)
Definition discover_network (local : list SqlInstance) (include_network : bool) (targets : list str)
    (bn sn : network) : list SqlInstance :=
  discover local include_network targets (broadcast SSRP_TIMEOUT bn) (fun hosts => scan hosts SSRP_TIMEOUT sn).

(** The packet of a browser that advertises some instances. *)
Definition answer_packet (lo hi : byte) (adverts : list advert) : bytes :=
  x05 :: lo :: hi :: map Z_u8 (concat (map advert_text adverts)).

Definition arrives_in_time (n : network) (deadline : Z) (a : arrival) : bool :=
  is_ok (recv_from n a.2) && (a.1 <? deadline).

(** Everything that is received in time is parsed. *)
Lemma collect_in_time n deadline source early t packet late i :
  forallb (arrives_in_time n deadline) early = true -> t < deadline -> (length packet <= BUFFER)%nat ->
  In i (parse_response packet source) ->
  In i (collect n deadline (early ++ (t, Ok packet) :: late) source).
Proof.
  intros He Ht Hl Hi. induction early as [|[u a] early IH]; cbn [app collect].
  - destruct (Z.ltb_spec t deadline); [|lia]. cbn [recv_from mbind result_bind].
    rewrite (proj2 (Nat.leb_le _ _) Hl). apply in_or_app. auto.
  - apply andb_true_iff in He as [He He']. apply andb_true_iff in He as [Ho He]. cbn [snd fst] in *.
    rewrite He. destruct (recv_from n a); [|discriminate Ho]. apply in_or_app. auto.
Qed.

(** C32: a browser on a host [a] of a scanned subnet whose answer fits the buffer of
    8192 bytes and is received within the timeout, with no error of the socket before it:
    every instance that it advertises is discovered, under its name. *)
Theorem subnet_instances_found local targets bn sn ip prefix a adverts lo hi early t late :
  0 <= ip < 2 ^ 32 -> 22 <= prefix <= 32 -> host_of ip prefix a ->
  In (show_ipv4 ip ++ L "/" ++ dec prefix) targets ->
  nw_bind sn = Ok tt -> nw_send sn (REQUEST, show_ipv4 a, BROWSER_PORT) = Ok tt ->
  (forall sent, In (REQUEST, show_ipv4 a, BROWSER_PORT) sent ->
     nw_arrivals sn sent = early ++ (t, Ok (answer_packet lo hi adverts)) :: late) ->
  (length (answer_packet lo hi adverts) <= BUFFER)%nat ->
  forallb (arrives_in_time sn (nw_now sn + SSRP_TIMEOUT)) early = true -> t < nw_now sn + SSRP_TIMEOUT ->
  Forall advert_ok adverts -> Forall (fun c => 0 <= c < 128) (concat (map advert_text adverts)) ->
  Forall (fun x => exists y, In y (discover_network local true targets bn sn) /\
                        server_key y = server_key (advert_instance NetworkScan x)) adverts.
Proof.
  intros Hip Hp Ha Htarget Hbind Hsend Harr Hfits Hearly Ht Hok Hascii.
  destruct (expand_subnet ip prefix Hip ltac:(lia)) as (l & El & _ & _ & Hl).
  set (hosts := concat (map expand_target targets)).
  assert (In (show_ipv4 a) hosts) as Hhost.
  { apply in_concat. exists (map show_ipv4 l). split; [rewrite <- El; apply in_map, Htarget|].
    apply in_map. apply Hl. auto. }
  destruct (discover_merges local true targets (broadcast SSRP_TIMEOUT bn) (fun hosts => scan hosts SSRP_TIMEOUT sn))
    as (_ & Hfound & _).
  apply List.Forall_forall. intros x Hx. apply Hfound. cbv beta iota zeta. fold hosts.
  apply in_or_app. right. apply in_or_app. right. unfold scan. rewrite Hbind.
  destruct hosts as [|h hs] eqn:Eh; [destruct Hhost|]. rewrite <- Eh in *. rewrite Harr.
  - apply collect_in_time; [exact Hearly | exact Ht | exact Hfits|]. unfold answer_packet.
    rewrite browser_answer_read by assumption. apply in_map, Hx.
  - unfold asked. apply filter_In. split; [|rewrite Hsend; reflexivity].
    apply in_map_iff. exists (show_ipv4 a). auto.
Qed.

Module SampleScan.
Definition packet : bytes := answer_packet x00 x00 [sample_advert].

Definition net (arrivals : list arrival) : network :=
  {| nw_bind := Ok tt; nw_set_broadcast := Ok tt; nw_send := fun _ => Ok tt; nw_now := 0;
     nw_cut := fun _ => Err (L "message too long");
     nw_arrivals := fun _ => arrivals |}.

Lemma subnet_instances_found_witness :
  exists y, In y (discover_network [] true [L "192.168.1.0/30"] (net []) (net [(40, Ok packet)])) /\
    server_key y = L "stanley\sqlexpress".
Proof.
  pose proof (subnet_instances_found [] [L "192.168.1.0/30"] (net []) (net [(40, Ok packet)])
    3232235776 30 3232235777 [sample_advert] x00 x00 [] 40 []) as Hw.
  refine (Forall_inv (Hw _ _ _ _ _ _ _ _ _ _ _ _)); try reflexivity; try lia.
  - unfold host_of. vm_compute. intuition congruence.
  - left. reflexivity.
  - apply Nat.leb_le. vm_compute. reflexivity.
  - constructor; [|constructor]. repeat split; discriminate.
  - assert (forallb (fun c => (0 <=? c) && (c <? 128)) (concat (map advert_text [sample_advert])) = true)
      as Hall by (vm_compute; reflexivity).
    apply List.Forall_forall. intros c Hc. rewrite forallb_forall in Hall. specialize (Hall c Hc). lia.
Defined.

(** A host without a browser makes the socket report an error (a port that is not
    reachable): the answer of the next host is lost. *)
Example answer_after_error_lost :
  scan [L "10.0.0.1"; L "10.0.0.2"] SSRP_TIMEOUT (net [(5, Err (L "connection reset")); (40, Ok packet)]) = [] /\
  scan [L "10.0.0.1"; L "10.0.0.2"] SSRP_TIMEOUT (net [(40, Ok packet)]) = [advert_instance NetworkScan sample_advert].
Proof. split; vm_compute; reflexivity. Qed.

(** An answer longer than the buffer, from a server with many instances, is such an error on
    Windows. *)
Example long_answer_ends_scan :
  scan [L "10.0.0.1"; L "10.0.0.2"] SSRP_TIMEOUT (net [(5, Ok (replicate (S BUFFER) x05)); (40, Ok packet)]) = [].
Proof. vm_compute. reflexivity. Qed.
End SampleScan.
