(* ===== verification/Secrets.v ===== *)
(** The two implementations of the secret store ([pbsgui-core/src/secrets.rs]): the
    operating system's credential store, and the plaintext file of development builds.

    A secret store is an interface with laws over an abstract map; its clients are proved
    against it.  Both implementations are instances, so that, as long as neither fails,
    they answer alike.  The file fails differently: what it cannot read it takes for
    empty, and then writes that down. *)

From Stdlib Require Import ZArith Lia Strings.Byte Ascii String.
From stdpp Require Import base tactics option numbers list gmap.
From S2P Require Import Prelude Text Base Jobs Sched Stores Notify Enrol.
Open Scope Z_scope.

(** ** The interface *)

Class SecretStore := {
  sec_get : str -> io (option str); sec_set : str -> str -> io unit; sec_delete : str -> io unit }.

(** [sec_map] is what a world holds, [sec_works] that the store does not fail there. *)
Class SecretStoreLaws `{SecretStore} := {
  sec_map : world -> gmap str str; sec_works : world -> Prop;
  sec_get_ok w k : sec_works w -> sec_get k w = (Ok (sec_map w !! k), w);
  sec_set_ok w k v : sec_works w -> exists w', sec_set k v w = (Ok tt, w') /\
    sec_works w' /\ sec_map w' = <[k := v]> (sec_map w);
  sec_delete_ok w k : sec_works w -> exists w', sec_delete k w = (Ok tt, w') /\
    sec_works w' /\ sec_map w' = delete k (sec_map w) }.

(** ** The credential store *)

Definition credential_manager : SecretStore :=
  {| sec_get := secrets_get; sec_set := secrets_set; sec_delete := secrets_delete |}.

#[export] Instance credential_manager_laws : @SecretStoreLaws credential_manager.
Proof.
  refine {| sec_map := w_secrets : world -> gmap str str; sec_works := fun w => w_cred_error w = None |};
    cbn [sec_get sec_set sec_delete credential_manager]; unfold secrets_get, secrets_set, secrets_delete;
    intros * E; rewrite E; [reflexivity | eexists; eauto | eexists; eauto].
Defined.

(** ** The file of development builds *)

Class MapJson := { map_pretty : gmap str str -> result str bytes; map_parse : bytes -> option (gmap str str) }.
Class MapLaws `{MapJson} := map_inverse : forall m, exists b, map_pretty m = Ok b /\ map_parse b = Some m.

Section dev.
Context `{MapJson} (fs : fs_write).

Definition DEV_FILE : str := L "secrets-dev.json".

(** A file that is missing, cannot be read or does not parse is empty. *)
Definition dev_load (w : world) : gmap str str :=
  match w_read_error w with
  | Some _ => ∅
  | None => default ∅ (w_files w !! DEV_FILE ≫= map_parse)
  end.

Definition dev_store (m : gmap str str) : io unit := fun w =>
  match w_mkdir_error w with
  | Some e => (Err e, w)
  | None => (b ← io_lift (map_pretty m); write_file DEV_FILE b fs) w
  end.

Definition dev_set (key secret : str) : io unit := fun w => dev_store (<[key := secret]> (dev_load w)) w.
Definition dev_get (key : str) : io (option str) := fun w => (Ok (dev_load w !! key), w).
Definition dev_delete (key : str) : io unit := fun w => dev_store (delete key (dev_load w)) w.

Definition dev_file : SecretStore := {| sec_get := dev_get; sec_set := dev_set; sec_delete := dev_delete |}.
End dev.

Lemma dev_store_ok `{MapLaws} m w : w_mkdir_error w = None -> w_read_error w = None ->
  exists w', dev_store Written m w = (Ok tt, w') /\
    (w_read_error w' = None /\ w_mkdir_error w' = None) /\ dev_load w' = m.
Proof.
  intros Em Er. destruct (map_inverse m) as (b & Eb & Ep). unfold dev_store. rewrite Em.
  unfold mbind, io_bind, io_lift. rewrite Eb. cbn [write_file]. eexists. split; [reflexivity|].
  split; [auto|]. unfold dev_load, set_files. cbn [w_read_error w_files]. rewrite Er, lookup_insert_eq. cbn.
  rewrite Ep. reflexivity.
Qed.

#[export] Instance dev_file_laws `{MapLaws} : @SecretStoreLaws (dev_file Written).
Proof.
  refine {| sec_map := dev_load; sec_works := fun w => w_read_error w = None /\ w_mkdir_error w = None |};
    cbn [sec_get sec_set sec_delete dev_file].
  - reflexivity.
  - intros w k v [Er Em]. apply dev_store_ok; assumption.
  - intros w k [Er Em]. apply dev_store_ok; assumption.
Defined.

(** ** Clients *)

Inductive secret_op := OpGet (k : str) | OpSet (k v : str) | OpDelete (k : str).

Section client.
Context `{SecretStore}.

Definition run_op (o : secret_op) : io (option str) :=
  match o with
  | OpGet k => sec_get k
  | OpSet k v => _ ← sec_set k v; mret None
  | OpDelete k => _ ← sec_delete k; mret None
  end.

Fixpoint run_ops (ops : list secret_op) (w : world) : list (result str (option str)) * world :=
  match ops with
  | [] => ([], w)
  | o :: ops => let '(r, w) := run_op o w in let '(rs, w) := run_ops ops w in (r :: rs, w)
  end.
End client.

(** What a map answers. *)
Definition map_op (o : secret_op) (m : gmap str str) : option str * gmap str str :=
  match o with
  | OpGet k => (m !! k, m)
  | OpSet k v => (None, <[k := v]> m)
  | OpDelete k => (None, delete k m)
  end.

Fixpoint map_ops (ops : list secret_op) (m : gmap str str) : list (option str) * gmap str str :=
  match ops with
  | [] => ([], m)
  | o :: ops => let '(a, m) := map_op o m in let '(l, m) := map_ops ops m in (a :: l, m)
  end.

Lemma run_op_map `{SecretStoreLaws} o w : sec_works w -> exists w',
  run_op o w = (Ok (map_op o (sec_map w)).1, w') /\ sec_works w' /\ sec_map w' = (map_op o (sec_map w)).2.
Proof.
  intros Hw. destruct o as [k|k v|k]; cbn [run_op map_op fst snd]; unfold mbind, io_bind.
  - exists w. rewrite sec_get_ok by exact Hw. auto.
  - destruct (sec_set_ok w k v Hw) as (w' & -> & ?). exists w'. auto.
  - destruct (sec_delete_ok w k Hw) as (w' & -> & ?). exists w'. auto.
Qed.

Lemma run_ops_map `{SecretStoreLaws} ops w : sec_works w -> exists w',
  run_ops ops w = (map Ok (map_ops ops (sec_map w)).1, w') /\ sec_works w' /\
  sec_map w' = (map_ops ops (sec_map w)).2.
Proof.
  revert w. induction ops as [|o ops IH]; intros w Hw; cbn [run_ops map_ops]; [eauto|].
  destruct (run_op_map o w Hw) as (w1 & -> & Hw1 & E1). destruct (IH w1 Hw1) as (w2 & -> & Hw2 & E2).
  rewrite E1 in *. destruct (map_op o (sec_map w)) as [a m]. cbn [fst snd] in *.
  destruct (map_ops ops m) as [l m']. cbn [fst snd map] in *. eauto.
Qed.

(** C35: the two stores are equivalent where neither fails: started with the same secrets,
    they give the same answers to every sequence of operations, and end with the same
    secrets. *)
Theorem secret_stores_equivalent `{MapLaws} ops w w' :
  w_cred_error w = None -> w_read_error w' = None -> w_mkdir_error w' = None -> dev_load w' = w_secrets w ->
  (run_ops (H := credential_manager) ops w).1 = (run_ops (H := dev_file Written) ops w').1 /\
  w_secrets (run_ops (H := credential_manager) ops w).2 = dev_load (run_ops (H := dev_file Written) ops w').2.
Proof.
  intros Hc Hr Hm E.
  destruct (run_ops_map (H0 := credential_manager_laws) ops w Hc) as (w1 & E1 & _ & M1).
  destruct (run_ops_map (H0 := dev_file_laws) ops w' (conj Hr Hm)) as (w2 & E2 & _ & M2).
  rewrite E1, E2. cbn [fst snd]. cbn [sec_map credential_manager_laws dev_file_laws] in *. rewrite M1, M2, E. auto.
Qed.

(** When the file does not parse, setting one secret loses the others. *)
Lemma unreadable_file_overwritten `{MapLaws} w b key secret : w_read_error w = None -> w_mkdir_error w = None ->
  w_files w !! DEV_FILE = Some b -> map_parse b = None ->
  exists w', dev_set Written key secret w = (Ok tt, w') /\ dev_load w' = {[ key := secret ]}.
Proof.
  intros Er Em Ef Ep. unfold dev_set, dev_load at 1. rewrite Er, Ef. cbn [mbind option_bind]. rewrite Ep.
  destruct (dev_store_ok {[ key := secret ]} w Em Er) as (w' & E & _ & ?). exists w'. auto.
Qed.

(** ** Samples *)

Module SampleSecrets.
Import SampleJson SampleStore.

#[export] Instance map_json : MapJson := {|
  map_pretty := fun m => Ok (pos_bytes (encode m)); map_parse := fun b => decode (bytes_pos b) |}.

#[export] Instance map_json_laws : MapLaws.
Proof.
  intros m. eexists. split; [reflexivity|]. cbn [map_parse map_json]. rewrite pos_bytes_inv. apply decode_encode.
Qed.

Definition ops : list secret_op :=
  [OpSet (L "pbs:a") (L "one"); OpGet (L "pbs:a"); OpSet (L "pbs:a") (L "two"); OpGet (L "pbs:a");
   OpDelete (L "pbs:a"); OpGet (L "pbs:a")].

Definition answers : list (result str (option str)) :=
  map Ok [None; Some (L "one"); None; Some (L "two"); None; None].

(** A world where neither store has a secret. *)
Definition empty_world : world := set_secrets ∅ (set_files ∅ world0).

Lemma secret_stores_equivalent_witness :
  (run_ops (H := credential_manager) ops empty_world).1 = (run_ops (H := dev_file Written) ops empty_world).1 /\
  (run_ops (H := dev_file Written) ops empty_world).1 = answers.
Proof.
  split; [|vm_compute; reflexivity].
  refine (proj1 (secret_stores_equivalent ops empty_world empty_world _ _ _ _)); reflexivity.
Defined.
End SampleSecrets.
