(* ===== verification/Sessions.v ===== *)
(** Opening a session through the relay: the proxy's listener and its calls
    [backup_stream] and [restore_stream] ([pbsgui-engine/src/relay/server.rs]) with the
    agent that answers them ([agent.rs]).

    [Proxy] has the registries, [Agent] the control loop, [Relay] the data streams; here
    they meet, in a network of the proxy, the agents by their control connections and the
    bytes on every connection.  Shown: the listener goes on until it is told to stop, and
    whatever it accepts is a step of the proxy; a backup that asks a connected agent for a
    stream has its command read by that agent, is given the connection that this agent's
    session dials back, and reads from it exactly what the ordered device set wrote. *)

From Stdlib Require Import ZArith Lia Strings.Byte Ascii String.
From stdpp Require Import base tactics option numbers list gmap relations.
From S2P Require Import Prelude Text Base Channels Sched Frames Relay Proxy Agent.
Open Scope Z_scope.

(** ** The listener *)

(** [set_global] and [global]: a [OnceLock]. *)
Definition set_global {A} (server : A) (cell : option A) : option A :=
  match cell with Some s => Some s | None => Some server end.

(** What a turn of [run] meets: a connection and its handshake, a failed accept, or the
    token. *)
Inductive listen_event := Accept (c : conn_id) (handshake : result str unit) | AcceptFailed (e : str) | Stop.

(** The server, and whether the loop goes on. *)
Fixpoint run_listener (evs : list listen_event) (s : server) : server * bool :=
  match evs with
  | [] => (s, true)
  | Stop :: _ => (s, false)
  | AcceptFailed _ :: evs => run_listener evs s
  | Accept c (Ok _) :: evs => run_listener evs (set_conn c Fresh s)
  | Accept _ (Err _) :: evs => run_listener evs s
  end.

Definition accepted (evs : list listen_event) : list conn_id :=
  omap (fun e => match e with Accept c (Ok _) => Some c | _ => None end) evs.

(** ** Calls *)

Definition start_backup (instance : option str) (set_name session_id : str) : ControlMsg :=
  StartBackup session_id instance set_name.
Definition start_restore (instance : option str) (set_name session_id : str) : ControlMsg :=
  StartRestore session_id instance set_name.

(** [backup_stream] once its session is open; [None] while it is not.  [conns] has what is
    still to be read from each connection. *)
Definition backup_stream (oc : open_call) (conns : gmap conn_id reader) : option (result str stream) :=
  match oc_stage oc with
  | Returned (Ok c) => conn ← conns !! c; Some (Ok (backup_stream_init conn))
  | Returned (Err e) => Some (Err e)
  | _ => None
  end.

(** [restore_stream]: what the chunks that are pushed leave on the connection. *)
Definition restore_stream `{ControlJson} (oc : open_call) (conns : gmap conn_id writer) :
    option (result str (list bytes -> writer)) :=
  match oc_stage oc with
  | Returned (Ok c) => conn ← conns !! c; Some (Ok (fun chunks => push_data chunks conn))
  | Returned (Err e) => Some (Err e)
  | _ => None
  end.

(** ** The network

    The proxy; by its control connection, every agent with its configuration and the bytes
    the proxy has written to it that it has not read; and by connection the bytes that have
    come in and that the proxy has not read. *)
Record link := { lk_config : AgentConfig; lk_agent : agent; lk_pending : bytes }.
Record network := {
  nw_server : server; nw_links : gmap conn_id link; nw_in : gmap conn_id reader }.

Definition with_server (s : server) (nw : network) : network :=
  {| nw_server := s; nw_links := nw_links nw; nw_in := nw_in nw |}.
Definition set_link (k : conn_id) (l : link) (nw : network) : network :=
  {| nw_server := nw_server nw; nw_links := <[k := l]> (nw_links nw); nw_in := nw_in nw |}.
Definition set_in (c : conn_id) (r : reader) (nw : network) : network :=
  {| nw_server := nw_server nw; nw_links := nw_links nw; nw_in := <[c := r]> (nw_in nw) |}.

Section network.
Context `{ControlJson}.
Variable io_show : io_error -> str.
(** What the device set that a session is ordered to create does. *)
Variable runner : device_order -> backup_device.

(** [control.send] and the writer task of that connection: the channel is open while the
    connection is served. *)
Definition send_command (k : conn_id) (m : ControlMsg) (nw : network) : bool * network :=
  match sv_conns (nw_server nw) !! k, nw_links nw !! k with
  | Some (Serving _ _), Some l =>
      (true, set_link k {| lk_config := lk_config l; lk_agent := lk_agent l;
                           lk_pending := lk_pending l ++ default [] (encode_frame (Control m)) |} nw)
  | _, _ => (false, nw)
  end.

(** [open_session] up to its wait. *)
Definition request_session (make_start : str -> ControlMsg) (name sid : str) (nw : network) :
    result str network :=
  match open_session name sid (nw_server nw) with
  | Err e => Err e
  | Ok (control, s) =>
      let '(sent, nw) := send_command control (make_start sid) (with_server s nw) in
      Ok (match sv_calls s !! sid with
          | Some oc => with_server (commanded sid oc sent s) nw
          | None => nw
          end)
  end.

(** The agent behind the control connection [k] reads a frame and serves it. *)
Definition agent_reads (k : conn_id) (nw : network) : network :=
  match nw_links nw !! k with
  | Some l =>
      let '(f, r) := read_frame (Reader (lk_pending l) None) in
      set_link k {| lk_config := lk_config l;
                    lk_agent := serve_frame (map_err io_show f) (lk_agent l);
                    lk_pending := r_bytes r |} nw
  | None => nw
  end.

(** The backup session of that agent with the token [tok] runs and dials the connection [c],
    which the listener accepts; what the session wrote comes in. *)
Definition session_dials (k : conn_id) (tok : nat) (c : conn_id) (fl : bool) (nw : network) :
    option network :=
  l ← nw_links nw !! k;
  '(sid, o) ← a_live (lk_agent l) !! tok;
  match do_direction o with
  | Backup =>
      w ← (run_backup_session io_show sid (agent_token (lk_config l)) (runner o) (Ok (Writer [] None fl))).2;
      Some (set_in c (Reader (w_sent w) None) (with_server (set_conn c Fresh (nw_server nw)) nw))
  | Restoring => None
  end.

(** [handle_conn]: the first frame of the connection [c] is read, and served. *)
Definition take_in (c : conn_id) (nw : network) : network :=
  match nw_in nw !! c with
  | Some r =>
      let '(f, r) := read_frame r in
      set_in c r (with_server (handle_conn c (match f with Ok f => f | Err _ => None end) true (nw_server nw)) nw)
  | None => nw
  end.

(** The wait of [open_session] ends. *)
Definition session_arrives (sid : str) (nw : network) : option network :=
  oc ← sv_calls (nw_server nw) !! sid;
  s ← arrived sid oc (Some (oc_box oc)) (nw_server nw);
  Some (with_server s nw).

(** A session from the call to the connection it returns, when nothing else goes on: the
    proxy sends the command to the control connection of [open_session], the agent behind
    the connection [k] reads it, its newest session dials [c], and [c] is admitted. *)
Definition open_path (make_start : str -> ControlMsg) (name sid : str) (k c : conn_id) (fl : bool)
    (nw : network) : option network :=
  match request_session make_start name sid nw with
  | Err _ => None
  | Ok nw =>
      l ← nw_links nw !! k;
      nw ← session_dials k (a_next (lk_agent l)) c fl (agent_reads k nw);
      session_arrives sid (take_in c nw)
  end.

End network.

(** ** The listener does steps of the proxy *)

Lemma run_listener_steps evs s : NoDup (accepted evs) ->
  Forall (fun c => sv_conns s !! c = None) (accepted evs) -> rtc server_step s (run_listener evs s).1.
Proof.
  revert s. induction evs as [|[c [u|e]|e|] evs IH]; intros s Hn Hf; cbn [run_listener accepted omap list_omap] in *.
  - apply rtc_refl.
  - apply NoDup_cons in Hn as [Hc Hn]. inversion_clear Hf as [|? ? Hf0 Hf'].
    eapply rtc_l; [apply step_accept, Hf0|]. apply IH; [exact Hn|].
    apply Forall_forall. intros d Hd. cbn. rewrite lookup_insert_ne; [|intros ->; exact (Hc Hd)].
    rewrite Forall_forall in Hf'. auto.
  - apply IH; assumption.
  - apply IH; assumption.
  - apply rtc_refl.
Qed.

(** Only the token ends it. *)
Lemma run_listener_ends evs s : (run_listener evs s).2 = false <-> In Stop evs.
Proof.
  revert s. induction evs as [|[c [u|e]|e|] evs IH]; intros s; cbn; [split; [discriminate | tauto]| | | |].
  1-3: rewrite IH; split; [auto | intros [?|?]; [discriminate | assumption]].
  split; auto.
Qed.

(** ** A session opens *)

Definition waiting_call (name : str) : open_call := {| oc_agent := name; oc_stage := Waiting; oc_box := Empty |}.

(** A connection whose [Hello] names a call that waits and has its agent's token is handed
    to that call, by steps of the proxy. *)
Lemma hello_admitted name tok sid c s :
  sh_sessions (sv_shared s) !! sid = Some {| ss_token := tok |} ->
  sv_calls s !! sid = Some (waiting_call name) -> sv_conns s !! c = None ->
  let s' := handle_conn c (Some (Control (Hello sid tok))) true (set_conn c Fresh s) in
  rtc server_step s s' /\ sv_conns s' !! c = Some (DataConn sid tok) /\
  sv_calls s' !! sid = Some {| oc_agent := name; oc_stage := Waiting; oc_box := Sent (Ok c) |}.
Proof.
  intros Es Ew Ec s'.
  pose proof (step_accept s c Ec) as Hstep3. set (s3 := set_conn c Fresh s) in *.
  assert (sv_conns s3 !! c = Some Fresh) as E3 by apply lookup_insert_eq.
  pose proof (step_first s3 c (Some (Control (Hello sid tok))) true E3) as Hstep4. fold s' in Hstep4.
  split; [eapply rtc_l; [eassumption|]; apply rtc_once, Hstep4|].
  unfold s', handle_conn. change (sh_sessions (sv_shared s3)) with (sh_sessions (sv_shared s)). rewrite Es.
  cbn [ss_token]. rewrite str_eqb_refl. unfold deliver.
  change (sv_calls (remove_session sid s3)) with (sv_calls s). rewrite Ew. cbn [listening waiting_call oc_stage].
  cbn. rewrite !lookup_insert_eq. auto.
Qed.

Section relayed.
Context `{ControlLaws}.
Variable io_show : io_error -> str.
Variable runner : device_order -> backup_device.

(** The command of a call reaches the agent that its name stands for. *)
Lemma request_session_sends make_start name ac tok tok' l sid nw d :
  sh_agents (sv_shared (nw_server nw)) !! name = Some ac ->
  sh_tokens (sv_shared (nw_server nw)) !! name = Some tok ->
  sv_conns (nw_server nw) !! ag_control ac = Some (Serving name tok') ->
  nw_links nw !! ag_control ac = Some l -> lk_pending l = [] ->
  sv_calls (nw_server nw) !! sid = None ->
  encode_frame (Control (make_start sid)) = Some d ->
  exists nw', request_session make_start name sid nw = Ok nw' /\
    rtc server_step (nw_server nw) (nw_server nw') /\
    nw_links nw' = <[ag_control ac := {| lk_config := lk_config l; lk_agent := lk_agent l; lk_pending := d |}]>
                     (nw_links nw) /\
    nw_in nw' = nw_in nw /\ sv_conns (nw_server nw') = sv_conns (nw_server nw) /\
    sh_sessions (sv_shared (nw_server nw')) !! sid = Some {| ss_token := tok |} /\
    sv_calls (nw_server nw') !! sid = Some (waiting_call name).
Proof.
  intros Ha Ht Hc Hl Hp Hs Hd. unfold request_session.
  destruct (open_session name sid (nw_server nw)) as [[control s]|e] eqn:Eo.
  2: { revert Eo. unfold open_session. rewrite Ha, Ht. discriminate. }
  pose proof (step_open _ _ _ _ _ Hs Eo) as Hstep1. revert Eo. unfold open_session. rewrite Ha, Ht.
  intros [= <- <-]. unfold send_command. cbn [nw_server nw_links with_server].
  set (s := set_call _ _ _) in *. change (sv_conns s) with (sv_conns (nw_server nw)). rewrite Hc, Hl, Hp, Hd.
  assert (sv_calls s !! sid = Some {| oc_agent := name; oc_stage := Commanding; oc_box := Empty |}) as E1
    by apply lookup_insert_eq.
  pose proof (step_commanded _ _ _ true E1 eq_refl) as Hstep2. rewrite E1.
  eexists. split; [reflexivity|]. cbn. split_and!; try reflexivity.
  - eapply rtc_l; [exact Hstep1|]. apply rtc_once, Hstep2.
  - apply lookup_insert_eq.
  - apply lookup_insert_eq.
Qed.

(** The agent reads the command, and runs the session it orders. *)
Lemma agent_reads_command k l m d nw :
  nw_links nw !! k = Some l -> lk_pending l = d -> encode_frame (Control m) = Some d ->
  agent_reads io_show k nw =
  set_link k {| lk_config := lk_config l; lk_agent := serve_frame (Ok (Some (Control m))) (lk_agent l);
                lk_pending := [] |} nw.
Proof.
  intros Hl Hp Hd. unfold agent_reads. rewrite Hl, Hp.
  rewrite <- (app_nil_r d), (read_encoded _ _ [] None Hd). reflexivity.
Qed.

(** C7: a backup through the relay, from the call to the last byte.  The proxy has the agent
    [agent_name cfg] registered over its control connection, with the token the agent is
    configured with; the agent has read what was sent to it before; the session id and the
    connection [c] are new; the device set the command orders is ready and closes cleanly,
    the connection holds, and nothing else goes on meanwhile.  Then the command goes to this
    agent's control connection; this agent, and no other, reads it and runs a backup session
    of that id for the ordered instance and device set; what the session sends first admits
    its connection, by steps of the proxy; the stream of the call is over the connection
    that the call returned; it can be read to its end, and every run of it up to the end has
    read exactly what the device set wrote. *)
Theorem relayed_backup_opens nw cfg l ac sid c instance set_name fl n tok :
  let order := {| do_direction := Backup; do_instance := instance; do_set := set_name |} in
  sh_agents (sv_shared (nw_server nw)) !! agent_name cfg = Some ac ->
  sh_tokens (sv_shared (nw_server nw)) !! agent_name cfg = Some (agent_token cfg) ->
  sv_conns (nw_server nw) !! ag_control ac = Some (Serving (agent_name cfg) tok) ->
  nw_links nw !! ag_control ac = Some l -> lk_config l = cfg -> lk_pending l = [] ->
  sv_calls (nw_server nw) !! sid = None -> sv_conns (nw_server nw) !! c = None ->
  dv_ready (runner order) = Some (Ok tt) -> dv_done (runner order) = Ok (Ok n) ->
  Forall encodable (Control (start_backup instance set_name sid) :: Control (Hello sid (agent_token cfg)) ::
    map Data (dv_bufs (runner order)) ++ [Control (End true None)]) ->
  exists nw' l' oc st,
    open_path io_show runner (start_backup instance set_name) (agent_name cfg) sid (ag_control ac) c fl nw = Some nw' /\
    rtc server_step (nw_server nw) (nw_server nw') /\
    nw_links nw' = <[ag_control ac := l']> (nw_links nw) /\
    a_live (lk_agent l') = <[a_next (lk_agent l) := (sid, order)]> (a_live (lk_agent l)) /\
    sv_calls (nw_server nw') !! sid = Some oc /\
    backup_stream oc (nw_in nw') = Some (Ok st) /\
    (exists evs st', stream_run st (evs ++ [(1%nat, Ok [])]) st') /\
    forall evs k st', stream_run st (evs ++ [(k, Ok [])]) st' -> (0 < k)%nat ->
      concat (map data_of evs) = concat (dv_bufs (runner order)).
Proof.
  intros order Ha Ht Hk Hl <- Hp Hs Hc Hr Hd He. inversion_clear He as [|? ? [d Ed] He'].
  destruct (request_session_sends (start_backup instance set_name) _ _ _ _ _ _ _ _ Ha Ht Hk Hl Hp Hs Ed)
    as (nw1 & Er & Hrtc1 & El1 & Ei1 & Ec1 & Es1 & Ew1).
  destruct (relayed_backup_succeeds io_show sid (agent_token (lk_config l)) (runner order) fl n Hr Hd He')
    as (w & conn & Ew & Ef & Ecarry).
  unfold open_path. rewrite Er. cbn [mbind option_bind].
  assert (nw_links nw1 !! ag_control ac = Some {| lk_config := lk_config l; lk_agent := lk_agent l; lk_pending := d |})
    as El by (rewrite El1; apply lookup_insert_eq).
  rewrite El. cbn [mbind option_bind lk_agent]. rewrite (agent_reads_command _ _ _ _ _ El eq_refl Ed).
  unfold session_dials. cbn [set_link nw_links]. rewrite lookup_insert_eq.
  cbn [mbind option_bind lk_agent lk_config serve_frame start_backup spawn_session a_live].
  rewrite lookup_insert_eq. cbn [mbind option_bind do_direction]. fold order. rewrite Ew. cbn [snd mbind option_bind].
  unfold take_in. cbn [nw_in set_in]. rewrite lookup_insert_eq. rewrite Ef. cbn [nw_server set_in with_server set_link].
  destruct (hello_admitted _ _ sid c (nw_server nw1) Es1 Ew1) as (Hrtc2 & Econn & Ecall); [rewrite Ec1; exact Hc|].
  unfold session_arrives. cbn [nw_server set_in with_server]. rewrite Ecall. cbn [mbind option_bind oc_box arrived].
  do 4 eexists. split; [reflexivity|]. cbn [nw_server nw_links nw_in with_server set_in set_link].
  split_and!.
  - etransitivity; [exact Hrtc1|]. eapply rtc_r; [exact Hrtc2|]. eapply step_arrived; [exact Ecall | reflexivity | reflexivity].
  - rewrite El1, insert_insert_eq. reflexivity.
  - reflexivity.
  - apply lookup_insert_eq.
  - cbn [backup_stream oc_stage]. rewrite lookup_insert_eq. reflexivity.
  - apply (reads_to_end _ (concat (dv_bufs (runner order)))); [|reflexivity | apply init_inv | reflexivity].
    rewrite abstract_init. exact Ecarry.
  - intros evs k st Hrun Hpos.
    exact (proj1 (relay_eof io_show _ _ _ _ _ _ _ _ _ _ _ _ _ _ Ew (reflexivity _) Ef Hrun Hpos)).
Qed.
End relayed.

Module SampleSession.
Import SampleControl.

Definition cfg : AgentConfig :=
  {| proxy_addr := L "proxy:8317"; proxy_fingerprint := []; agent_name := L "sql1"; agent_token := L "t" |}.

(** The proxy with the agent connected, before the call; another connection has bytes of its
    own coming in. *)
Definition sample_link : link := {| lk_config := cfg; lk_agent := agent_start; lk_pending := [] |}.
Definition sample_net : network :=
  {| nw_server := p2; nw_links := {[ 0%nat := sample_link ]};
     nw_in := {[ 7%nat := Reader (bstr "other") None ]} |}.

Lemma relayed_backup_opens_witness : exists nw' oc st,
  open_path io_text (fun _ => sample_device) (start_backup None (L "set")) (L "sql1") (L "s") 0%nat 1%nat true sample_net
    = Some nw' /\
  backup_stream oc (nw_in nw') = Some (Ok st) /\
  (exists evs st', stream_run st (evs ++ [(1%nat, Ok [])]) st') /\
  forall evs k st', stream_run st (evs ++ [(k, Ok [])]) st' -> (0 < k)%nat ->
    concat (map data_of evs) = bstr "BAK".
Proof.
  assert (Forall encodable (Control (start_backup None (L "set") (L "s")) :: Control (Hello (L "s") (agent_token cfg)) ::
    map Data (dv_bufs sample_device) ++ [Control (End true None)])) as He
    by (apply sample_encodable; vm_compute; reflexivity).
  pose proof (relayed_backup_opens io_text (fun _ => sample_device) sample_net cfg sample_link
    {| ag_host := L "h"; ag_version := L "1"; ag_control := 0%nat |}
    (L "s") 1%nat None (L "set") true 3 (L "t")
    eq_refl eq_refl eq_refl eq_refl eq_refl eq_refl eq_refl eq_refl eq_refl eq_refl He)
    as (nw' & l' & oc & st & Eo & _ & _ & _ & _ & Eb & Hex & Hr).
  exists nw', oc, st. exact (conj Eo (conj Eb (conj Hex Hr))).
Defined.
End SampleSession.
