(* ===== verification/Wide.v ===== *)
(** Strings and threads at the boundary to Windows ([pbsgui-vss/src/imp.rs], [wide],
    [pwsz_to_string], [volume_of], [with_com], [init_process_security]; the [wide] of
    [netdest.rs] and of [sql/vdi.rs]; [run_system_state_backup] of
    [pbsgui-ad-engine/src/capture.rs]).

    Windows takes and gives NUL-terminated UTF-16.  Shown: a text that is passed to
    Windows and read back is the text up to its first NUL, surrogate pairs included,
    and nothing behind the terminator is looked at; the volume of a path is what Windows
    wrote into the buffer; a thread that enters COM leaves it, whatever the work does. *)

From Stdlib Require Import ZArith Lia Strings.Byte Ascii String.
From stdpp Require Import base tactics option numbers list.
From S2P Require Import Prelude Text Base.
Open Scope Z_scope.

(** ** UTF-16 *)

(** A Unicode scalar value. *)
Definition is_scalar (c : Z) : bool :=
  ((0 <=? c) && (c <? 55296)) || ((57344 <=? c) && (c <? 1114112)).

Definition is_high (u : Z) : bool := (55296 <=? u) && (u <? 56320).
Definition is_low (u : Z) : bool := (56320 <=? u) && (u <? 57344).

Definition encode_char (c : Z) : list Z :=
  if c <? 65536 then [c]
  else [55296 + Z.shiftr (c - 65536) 10; 56320 + Z.land (c - 65536) 1023].

Definition encode_utf16 (s : str) : list Z := concat (map encode_char s).

Definition REPLACEMENT : Z := 65533.

(** [String::from_utf16_lossy]: a surrogate that is not part of a pair is replaced. *)
Fixpoint from_utf16_lossy (l : list Z) : str :=
  match l with
  | [] => []
  | u :: l' =>
      if is_high u then
        match l' with
        | v :: l'' =>
            if is_low v then (65536 + Z.shiftl (u - 55296) 10 + (v - 56320)) :: from_utf16_lossy l''
            else REPLACEMENT :: from_utf16_lossy l'
        | [] => [REPLACEMENT]
        end
      else if is_low u then REPLACEMENT :: from_utf16_lossy l'
      else u :: from_utf16_lossy l'
  end.

(** ** Strings for Windows and from it *)

Definition wide (s : str) : list Z := encode_utf16 s ++ [0].

(** [position] of the first NUL. *)
Fixpoint nul_position (l : list Z) : option nat :=
  match l with
  | [] => None
  | u :: l => if u =? 0 then Some O else S <$> nul_position l
  end.

(** [p] is null, or the memory from it on; without a terminator there, the read goes past
    it ([None]). *)
Definition pwsz_to_string (p : option (list Z)) : option str :=
  match p with
  | None => Some []
  | Some l => n ← nul_position l; Some (from_utf16_lossy (take n l))
  end.

(** [GetVolumePathNameW]: what it leaves in the buffer. *)
Definition volume_api : Type := list Z -> list Z -> result str (list Z).

Definition VOLUME_BUFFER : nat := 512.

Definition volume_of (get_volume_path_name : volume_api) (path : str) : result str str :=
  match get_volume_path_name (wide path) (replicate VOLUME_BUFFER 0) with
  | Err e => Err (L "GetVolumePathNameW(" ++ path ++ L ") failed: " ++ e)
  | Ok root => Ok (from_utf16_lossy (take (default (length root) (nul_position root)) root))
  end.

(** ** COM *)

Inductive com_call := CoInitializeEx | CoInitializeSecurity | CoUninitialize | Work | Parked.

(** [f] is the work, and what it does with COM. *)
Definition with_com {T} (init : result str unit) (f : result str T * list com_call) :
    result str T * list com_call :=
  match init with
  | Err e => (Err (L "CoInitializeEx failed: " ++ e), [])
  | Ok _ => (f.1, [CoInitializeEx; CoInitializeSecurity] ++ f.2 ++ [CoUninitialize])
  end.

(** Once in a process; the thread it makes stays in the apartment. *)
Definition init_process_security (done spawned : bool) : bool * list com_call :=
  (true, if done then [] else if spawned then [CoInitializeEx; CoInitializeSecurity; Parked] else []).

(** How often a thread is in COM after its calls. *)
Definition com_depth (l : list com_call) : Z :=
  fold_right (fun c n => match c with CoInitializeEx => n + 1 | CoUninitialize => n - 1 | _ => n end) 0 l.

(** [run_system_state_backup]: the capture runs on a thread of its own, whose panic is an
    error ([None]). *)
Definition run_system_state_backup {T} (windows : bool) (run : option (result str T)) : result str T :=
  if windows then match run with Some r => r | None => Err (L "the capture thread panicked") end
  else Err (L "Active Directory System State capture is only available on Windows").

(** ** Lemmas *)

Lemma is_scalar_range c : is_scalar c = true -> 0 <= c < 55296 \/ 57344 <= c < 1114112.
Proof. unfold is_scalar. lia. Qed.

(** The two halves of a character above the basic plane. *)
Lemma surrogates c : 65536 <= c < 1114112 ->
  is_high (55296 + Z.shiftr (c - 65536) 10) = true /\ is_low (56320 + Z.land (c - 65536) 1023) = true /\
  65536 + Z.shiftl (55296 + Z.shiftr (c - 65536) 10 - 55296) 10 + (56320 + Z.land (c - 65536) 1023 - 56320) = c.
Proof.
  intros Hc. change 1023 with (Z.ones 10). rewrite Z.land_ones, Z.shiftr_div_pow2 by lia. change (2 ^ 10) with 1024.
  set (x := c - 65536). pose proof (Z.div_mod x 1024 ltac:(lia)). pose proof (Z.mod_pos_bound x 1024 ltac:(lia)).
  assert (0 <= x / 1024 < 1024) by (split; [apply Z.div_pos | apply Z.div_lt_upper_bound]; lia).
  replace (55296 + x / 1024 - 55296) with (x / 1024) by lia. rewrite Z.shiftl_mul_pow2 by lia.
  change (2 ^ 10) with 1024. unfold is_high, is_low. lia.
Qed.

Lemma decode_char c l : is_scalar c = true -> from_utf16_lossy (encode_char c ++ l) = c :: from_utf16_lossy l.
Proof.
  intros Hc. apply is_scalar_range in Hc. unfold encode_char. destruct (Z.ltb_spec c 65536).
  - cbn [app from_utf16_lossy].
    replace (is_high c) with false by (unfold is_high; lia). replace (is_low c) with false by (unfold is_low; lia).
    reflexivity.
  - destruct (surrogates c) as (Hh & Hl & E); [lia|]. cbn [app from_utf16_lossy]. rewrite Hh, Hl, E. reflexivity.
Qed.

Lemma decode_encode_utf16 s : forallb is_scalar s = true -> from_utf16_lossy (encode_utf16 s) = s.
Proof.
  induction s as [|c s IH]; [reflexivity|]. cbn [forallb]. intros [Hc Hs]%andb_true_iff.
  unfold encode_utf16. cbn [map concat]. rewrite decode_char by exact Hc. f_equal. apply IH, Hs.
Qed.

Lemma encode_char_nul c : is_scalar c = true -> nul_position (encode_char c) = if c =? 0 then Some O else None.
Proof.
  intros Hc. apply is_scalar_range in Hc. unfold encode_char. destruct (Z.ltb_spec c 65536); cbn [nul_position].
  - destruct (c =? 0); reflexivity.
  - destruct (surrogates c) as (Hh & Hl & _); [lia|]. unfold is_high, is_low in *.
    destruct (Z.eqb_spec (55296 + Z.shiftr (c - 65536) 10) 0); [lia|].
    destruct (Z.eqb_spec (56320 + Z.land (c - 65536) 1023) 0); [lia|].
    destruct (Z.eqb_spec c 0); [lia | reflexivity].
Qed.

Lemma nul_position_app l l' : nul_position l = None ->
  nul_position (l ++ l') = (fun n => (length l + n)%nat) <$> nul_position l'.
Proof.
  induction l as [|u l IH]; cbn [nul_position app length Nat.add].
  - intros _. destruct (nul_position l'); reflexivity.
  - destruct (u =? 0); [discriminate|]. destruct (nul_position l) eqn:E; [discriminate|]. intros _.
    rewrite IH by reflexivity. destruct (nul_position l'); reflexivity.
Qed.

(** The text up to its first NUL. *)
Definition before_nul (s : str) : str := take (default (length s) (nul_position s)) s.

Lemma wide_read s rest : forallb is_scalar s = true -> exists n, nul_position (wide s ++ rest) = Some n /\
  from_utf16_lossy (take n (wide s ++ rest)) = before_nul s.
Proof.
  unfold wide. rewrite <- app_assoc. revert rest. induction s as [|c s IH]; intros rest Hs.
  { exists O. split; reflexivity. }
  cbn [forallb] in Hs. apply andb_true_iff in Hs as [Hc Hs]. unfold encode_utf16. cbn [map concat].
  fold (encode_utf16 s). rewrite <- app_assoc. pose proof (encode_char_nul c Hc) as En.
  unfold before_nul. cbn [nul_position]. destruct (Z.eqb_spec c 0) as [->|Hnz].
  - exists O. split; reflexivity.
  - destruct (IH rest Hs) as (n & Ep & Et). exists (length (encode_char c) + n)%nat.
    rewrite nul_position_app by exact En. rewrite Ep. split; [reflexivity|].
    rewrite take_app_add. rewrite decode_char by exact Hc. rewrite Et. unfold before_nul.
    destruct (nul_position s); reflexivity.
Qed.

Lemma nul_position_scalar s : before_nul s = s <-> nul_position s = None.
Proof.
  unfold before_nul. destruct (nul_position s) as [n|] eqn:E; cbn [default from_option]; unfold id.
  - split; [|discriminate]. intros Ht. exfalso. apply (f_equal length) in Ht. rewrite length_take in Ht.
    assert (n < length s)%nat; [|lia]. clear Ht. revert n E.
    induction s as [|c s IH]; intros n; [discriminate|]. cbn [nul_position length]. destruct (c =? 0).
    + intros [= <-]. lia.
    + destruct (nul_position s) as [m|]; [|discriminate]. intros [= <-]. specialize (IH m eq_refl). lia.
  - split; [reflexivity|]. intros _. apply firstn_all.
Qed.

(** A text that Windows is given and gives back, with any memory behind it: read with its
    terminator it is the text up to its first NUL, and the whole text if it has none. *)
Theorem wide_roundtrip s rest : forallb is_scalar s = true ->
  pwsz_to_string (Some (wide s ++ rest)) = Some (before_nul s) /\
  (nul_position s = None <-> pwsz_to_string (Some (wide s ++ rest)) = Some s).
Proof.
  intros Hs. destruct (wide_read s rest Hs) as (n & Ep & Et).
  assert (pwsz_to_string (Some (wide s ++ rest)) = Some (before_nul s)) as E.
  { cbn [pwsz_to_string]. rewrite Ep. cbn [mbind option_bind]. rewrite Et. reflexivity. }
  split; [exact E|]. rewrite E, <- nul_position_scalar. split; [intros ->; reflexivity | intros [=]; assumption].
Qed.

(** The volume of a path is the name that Windows wrote into the buffer. *)
Lemma volume_of_ok api path root rest : forallb is_scalar root = true -> nul_position root = None ->
  api (wide path) (replicate VOLUME_BUFFER 0) = Ok (wide root ++ rest) -> volume_of api path = Ok root.
Proof.
  intros Hs Hn Ha. unfold volume_of. rewrite Ha. destruct (wide_read root rest Hs) as (n & -> & Et).
  change (default ?a (Some n)) with n. rewrite Et. f_equal. apply nul_position_scalar, Hn.
Qed.

Lemma com_depth_app l l' : com_depth (l ++ l') = com_depth l + com_depth l'.
Proof.
  unfold com_depth. induction l as [|c l IH]; [reflexivity|]. cbn [app fold_right]. rewrite IH. destruct c; lia.
Qed.

(** A thread leaves COM as often as it entered it, and a panic apart, whatever the work
    returns is returned. *)
Lemma with_com_balanced {T} init (f : result str T * list com_call) : com_depth f.2 = 0 ->
  com_depth (with_com init f).2 = 0 /\ (init = Ok tt -> (with_com init f).1 = f.1).
Proof.
  intros Hf. destruct init as [[]|e]; cbn [with_com fst snd]; [|split; [reflexivity | discriminate]].
  rewrite !com_depth_app, Hf. split; reflexivity.
Qed.

Module SampleWide.
(** A path with a character above the basic plane. *)
Definition path : str := L "C:\" ++ [128190] ++ L "\x".

Lemma wide_roundtrip_witness :
  wide path = [67; 58; 92; 55357; 56510; 92; 120; 0] /\ pwsz_to_string (Some (wide path ++ [65; 66])) = Some path.
Proof.
  split; [vm_compute; reflexivity|].
  apply (proj2 (wide_roundtrip path [65; 66] eq_refl)). reflexivity.
Defined.

(** A text with a NUL is cut there. *)
Example cut_at_nul : pwsz_to_string (Some (wide (L "ab" ++ [0] ++ L "c"))) = Some (L "ab").
Proof. reflexivity. Qed.

(** Halves of a pair are replaced. *)
Example lone_surrogates : from_utf16_lossy [55357; 65; 56510] = [REPLACEMENT; 65; REPLACEMENT].
Proof. reflexivity. Qed.
End SampleWide.
