(* ===== verification/Window.v ===== *)
(** The window and the tray icon of the desktop program, its file pickers and the commands
    it serves ([src-tauri/src/lib.rs], [show_main], [build_tray], [run], [pick]).

    On Windows the program lives in the tray: closing or minimizing its window hides it.
    Tauri's window and the user's events are a state machine.  Shown: the program runs
    until it is told to quit, whatever else happens, and the tray always brings back its
    window. *)

From Stdlib Require Import ZArith Lia Strings.Byte Ascii String.
From stdpp Require Import base tactics option numbers list.
From S2P Require Import Prelude Text Base.
Open Scope Z_scope.

(** ** The window *)

(** The calls on a Tauri window, and what it tells of itself; [resize_to true] is what the
    user does to minimize it. *)
Class WindowApi (W : Type) := {
  win_visible : W -> bool; win_minimized : W -> bool;
  win_hide : W -> W; win_unminimize : W -> W; win_show : W -> W; win_set_focus : W -> W;
  win_resize : bool -> W -> W }.

(** What is documented of them. *)
Class WindowLaws (W : Type) `{WindowApi W} := {
  hide_visible w : win_visible (win_hide w) = false;
  show_visible w : win_visible (win_show w) = true;
  show_minimized w : win_minimized (win_show w) = win_minimized w;
  unminimize_minimized w : win_minimized (win_unminimize w) = false;
  focus_visible w : win_visible (win_set_focus w) = win_visible w;
  focus_minimized w : win_minimized (win_set_focus w) = win_minimized w;
  resize_minimized m w : win_minimized (win_resize m w) = m }.

Section window.
Context {W : Type} `{WindowApi W}.

(** [None] as a window: it was destroyed. *)
Record app := { ap_window : option W; ap_exit : option Z }.

Definition with_window (f : W -> W) (a : app) : app :=
  {| ap_window := f <$> ap_window a; ap_exit := ap_exit a |}.

Definition show_main (a : app) : app := with_window (fun w => win_set_focus (win_show (win_unminimize w))) a.

(** ** Events *)

Inductive mouse := LeftUp | OtherClick.

Inductive event :=
| Close                       (* the user closes the window *)
| Resize (minimize : bool)    (* its size changes; [true]: to the task bar *)
| TrayIcon (m : mouse)
| Menu (id : str).

(** [on_window_event], on Windows; a close that is prevented leaves the window. *)
Definition close_requested (windows : bool) (a : app) : app :=
  if windows then with_window win_hide a
  else {| ap_window := None; ap_exit := match ap_exit a with Some n => Some n | None => Some 0 end |}.

(** What the event reports of the window; an error counts as not minimized. *)
Definition resized (windows : bool) (is_minimized : option bool) (a : app) : app :=
  if windows && default false is_minimized then with_window win_hide a else a.

(** [on_menu_event] and [on_tray_icon_event]. *)
Definition on_menu (id : str) (a : app) : app :=
  if str_eqb id (L "show") then show_main a
  else if str_eqb id (L "quit") then {| ap_window := ap_window a; ap_exit := Some 0 |}
  else a.

Definition on_tray (m : mouse) (a : app) : app := match m with LeftUp => show_main a | OtherClick => a end.

(** A program that has ended takes no event; there is no tray elsewhere than on Windows. *)
Definition handle_event (windows : bool) (e : event) (a : app) : app :=
  match ap_exit a with
  | Some _ => a
  | None =>
      match e with
      | Close => close_requested windows a
      | Resize m =>
          let a := with_window (win_resize m) a in
          resized windows (win_minimized <$> ap_window a) a
      | TrayIcon m => if windows then on_tray m a else a
      | Menu id => if windows then on_menu id a else a
      end
  end.

Definition handle_events (windows : bool) (es : list event) (a : app) : app :=
  fold_left (fun a e => handle_event windows e a) es a.

(** [build_tray] and [run]: the window at the start; a tray that cannot be built ends the
    program ([expect]). *)
Definition run_app (windows : bool) (tray : result str unit) (main : W) : option app :=
  let a := {| ap_window := Some main; ap_exit := None |} in
  if windows then match tray with Ok _ => Some a | Err _ => None end else Some a.
End window.
Arguments app : clear implicits.

(** ** Pickers, and the commands *)

(** [pick]: what the dialog gives; a dialog that fails or is cancelled picks nothing. *)
Definition pick (dialog : option (option (list str))) : list str :=
  match dialog with Some (Some paths) => paths | _ => [] end.
Definition pick_destination (dialog : option (option str)) : option str :=
  match dialog with Some p => p | None => None end.

Definition build_info (build : option str) (version : str) : str :=
  match build with Some b => b | None => version ++ L " (dev)" end.

Definition HANDLERS : list str := map L
  ["engine_ping"; "engine_status"; "build_info"; "list_jobs"; "save_job"; "delete_job"; "run_job"; "cancel_job";
   "list_running"; "list_snapshots"; "list_files"; "restore"; "discover_sql"; "probe_sql"; "check_sql";
   "list_sql_snapshots"; "get_sql_restore_window"; "restore_sql"; "restore_sql_to_file"; "list_sql_connections";
   "save_sql_connection"; "delete_sql_connection"; "list_relay_agents"; "list_pbs_servers"; "save_pbs_server";
   "delete_pbs_server"; "test_pbs_server"; "generate_encryption_key"; "import_encryption_key";
   "get_encryption_key"; "clear_encryption_key"; "get_notifications"; "save_notifications"; "get_metrics";
   "save_metrics"; "test_notification"; "pick_destination"; "pick_folders"; "pick_files"]%string.

Lemma handlers_distinct : NoDup HANDLERS.
Proof. apply (bool_decide_unpack _). vm_compute. exact I. Qed.

(** ** The window can be brought back *)

Definition asks_quit (e : event) : bool :=
  match e with Menu id => str_eqb id (L "quit") | _ => false end.

Section back.
Context {W : Type} `{WindowLaws W}.

(** The program runs and has its window. *)
Definition alive (a : app W) : Prop := ap_exit a = None /\ is_Some (ap_window a).

Definition in_front (a : app W) : Prop :=
  exists w, ap_window a = Some w /\ win_visible w = true /\ win_minimized w = false.

Lemma alive_with f (a : app W) : alive a -> alive (with_window f a).
Proof. intros [He [w Ew]]. split; [exact He|]. cbn. rewrite Ew. cbn. eauto. Qed.

Lemma alive_show (a : app W) : alive a -> alive (show_main a) /\ in_front (show_main a).
Proof.
  intros Ha. split; [apply alive_with, Ha|]. destruct Ha as [_ [w Ew]]. unfold in_front, show_main, with_window.
  rewrite Ew. eexists. split; [reflexivity|].
  rewrite focus_visible, focus_minimized, show_visible, show_minimized, unminimize_minimized. auto.
Qed.

Lemma alive_event e (a : app W) : asks_quit e = false -> alive a -> alive (handle_event true e a).
Proof.
  intros Hq Ha. unfold handle_event. rewrite (proj1 Ha). destruct e as [|m|m|id].
  - apply alive_with, Ha.
  - unfold resized. destruct (default _ _); repeat apply alive_with; exact Ha.
  - destruct m; [apply alive_show, Ha | exact Ha].
  - cbn in Hq. unfold on_menu. rewrite Hq. destruct (str_eqb id (L "show")); [apply alive_show, Ha | exact Ha].
Qed.

Lemma alive_events es (a : app W) : forallb (fun e => negb (asks_quit e)) es = true -> alive a ->
  alive (handle_events true es a).
Proof.
  revert a. induction es as [|e es IH]; intros a; cbn; [auto|]. intros [Hq Hes]%andb_true_iff Ha.
  apply IH, alive_event; auto. destruct (asks_quit e); [discriminate | reflexivity].
Qed.

(** On Windows, after any events other than [Quit], in any order: the program runs, its
    window is there, and one click on the tray icon shows it, not minimized; a window that
    was closed or minimized is hidden; and [Quit] ends the program. *)
Theorem tray_brings_back tray main (a : app W) es :
  run_app true tray main = Some a -> forallb (fun e => negb (asks_quit e)) es = true ->
  let a' := handle_events true es a in
  ap_exit a' = None /\ in_front (handle_event true (TrayIcon LeftUp) a') /\
  (exists w, ap_window (handle_event true Close a') = Some w /\ win_visible w = false) /\
  (exists w, ap_window (handle_event true (Resize true) a') = Some w /\ win_visible w = false) /\
  ap_exit (handle_event true (Menu (L "quit")) a') = Some 0.
Proof.
  intros Hr Hes a'. assert (alive a') as Ha.
  { apply alive_events; [exact Hes|]. unfold run_app in Hr. destruct tray; [|discriminate]. injection Hr as <-.
    split; [reflexivity | cbn; eauto]. }
  pose proof Ha as [He [w Ew]]. unfold handle_event. rewrite He.
  split_and!; [reflexivity | apply alive_show, Ha | | | reflexivity].
  - unfold close_requested, with_window. rewrite Ew. eexists. split; [reflexivity | apply hide_visible].
  - unfold resized, with_window. rewrite Ew. cbn [ap_window fmap option_fmap option_map].
    rewrite resize_minimized. cbn. eexists. split; [reflexivity | apply hide_visible].
Qed.
End back.

Module SampleWindow.
Record window := { wn_visible : bool; wn_minimized : bool }.

#[export] Instance window_api : WindowApi window := {|
  win_visible := wn_visible; win_minimized := wn_minimized;
  win_hide w := {| wn_visible := false; wn_minimized := wn_minimized w |};
  win_unminimize w := {| wn_visible := wn_visible w; wn_minimized := false |};
  win_show w := {| wn_visible := true; wn_minimized := wn_minimized w |};
  win_set_focus w := w;
  win_resize m w := {| wn_visible := wn_visible w; wn_minimized := m |} |}.

#[export] Instance window_laws : WindowLaws window.
Proof. split; reflexivity. Qed.

Definition main_window : window := {| wn_visible := true; wn_minimized := false |}.

Lemma tray_brings_back_witness :
  exists a, run_app true (Ok tt) main_window = Some a /\
    ap_exit (handle_events true [Resize true; Close; TrayIcon LeftUp; Close] a) = None.
Proof.
  eexists. split; [reflexivity|].
  refine (proj1 (tray_brings_back (Ok tt) main_window _ [Resize true; Close; TrayIcon LeftUp; Close] _ _)); reflexivity.
Defined.
End SampleWindow.
