(* ===== verification/Platform.v ===== *)
(** The builds for other systems than Windows: what stands in for the parts that need it
    (the [cfg(not(windows))] functions of [sql/vdi.rs], [relay/agent.rs], [netdest.rs],
    [sql/probe.rs] and [backup.rs]).

    SQL Server's virtual devices, shadow copies, network logons and Windows accounts are
    refused there with an error.  Shown: the errors stop what depends on them before it
    has an effect: a run of a SQL job backs up nothing and moves no timer, and an agent's
    session never dials the proxy. *)

From Stdlib Require Import ZArith Lia Strings.Byte Ascii String.
From stdpp Require Import base tactics option numbers list gmap.
From S2P Require Import Prelude Text Base Blob Repository HttpApi Session Upload Jobs Sched Stores Channels Frames Plan Relay Files Probe.
Open Scope Z_scope.

Definition NO_VDI_BACKUP : str := L "VDI backup is only available on Windows".
Definition NO_VDI_RESTORE : str := L "VDI restore is only available on Windows".

(** The functions of [vdi.rs]; none looks at its arguments. *)
Definition other_backup_to_file : result str Z := Err NO_VDI_BACKUP.
Definition other_backup_to_pbs : result str BackupStats := Err NO_VDI_BACKUP.
Definition other_restore_from_image : result str unit := Err NO_VDI_RESTORE.
Definition other_restore_chain : result str unit := Err NO_VDI_RESTORE.
Definition other_restore_streamed : result str unit := Err NO_VDI_RESTORE.
Definition other_restore_chain_streamed : result str unit := Err NO_VDI_RESTORE.

(** [VdiDeviceRunner] of [agent.rs]: not ready, and nothing to send or take. *)
Definition NO_SESSIONS : str := L "SQL VDI device sessions are only available on Windows".
Definition other_run_backup : backup_device :=
  {| dv_ready := Some (Err NO_SESSIONS); dv_bufs := []; dv_done := Ok (Err NO_SESSIONS);
     dv_stopped := Ok (Err NO_SESSIONS) |}.
Definition other_run_restore : restore_device :=
  {| rv_ready := Some (Err NO_SESSIONS); rv_takes := Some O; rv_done := fun _ => Ok (Err NO_SESSIONS) |}.

Definition other_connect (share_root username password : str) : result str unit :=
  Err (L "network destination credentials are only supported on Windows").

(** How a connection logs in, on either system. *)
Definition integrated_auth (windows : bool) : result str auth_used :=
  if windows then Ok AuthIntegrated else Err (L "integrated authentication is only available on Windows").
Definition windows_auth (windows : bool) (username password : str) : result str auth_used :=
  if windows then Ok (AuthWindows username password)
  else Err (L "Windows account authentication is only available on Windows").

Definition auth_method_on (windows : bool) (auth : SqlAuth) (password : option str) : result str auth_used :=
  match auth with
  | SqlLogin username => p ← ok_or password (L "SQL login requires a password"); Ok (AuthSql username p)
  | Integrated => integrated_auth windows
  | WindowsAccount username =>
      p ← ok_or password (L "Windows account requires a password"); windows_auth windows username p
  | AzureAd _ => Err (L "Azure AD authentication is not yet supported")
  end.

(** A database's backup there: over the relay, if the connection has an agent. *)
Definition on_other_host (e : db_env) : db_env :=
  {| de_state := de_state e; de_time := de_time e;
     de_backup := fun relay params archive crypt compress kind copy_only =>
       match relay with
       | Some agent => de_backup e (Some agent) params archive crypt compress kind copy_only
       | None => other_backup_to_pbs
       end;
     de_note_time := de_note_time e; de_check_time := de_check_time e; de_full_time := de_full_time e |}.

(** On Windows this is the method the connections use. *)
Lemma auth_method_windows auth password : auth_method_on true auth password = auth_method auth password.
Proof. destruct auth; reflexivity. Qed.

(** A session on such a host ends before it dials, and says why. *)
Lemma other_sessions_end `{ControlJson} io_show sid tok dial dial' :
  run_backup_session io_show sid tok other_run_backup dial
    = (Err (L "creating the VDI device set: " ++ NO_SESSIONS), None) /\
  run_restore_session io_show sid tok other_run_restore dial'
    = (Err (L "creating the VDI device set: " ++ NO_SESSIONS), None, []).
Proof. split; reflexivity. Qed.

Section run.
Context `{SchedJson} `{DebugFmt}.
Variables (c : config_state) (conn : SqlConnection) (plan : PlanKind) (run : SqlRun)
  (server_id backup_id job_id : str) (crypt : option CryptConfig) (compress : bool).

Lemma other_backup_db db e t : sc_relay_agent conn = None ->
  let t' := backup_db c conn plan run server_id backup_id job_id crypt compress db (on_other_host e) t in
  t_backed_up t' = t_backed_up t /\ t_disk t' = t_disk t.
Proof.
  intros Hr. unfold backup_db. cbn [de_state on_other_host]. destruct (de_state e) as [s|err]; [|auto].
  destruct (Plan.decide _ _ _ _) as [kind co note|why]; [|auto].
  destruct (sql_group_and_archive backup_id db kind) as [group archive].
  destruct (pbs_session_params _ _ _ _ _) as [params|err]; [|auto].
  cbn [de_backup on_other_host]. rewrite Hr. unfold other_backup_to_pbs, db_error.
  change (is_no_chain_error NO_VDI_BACKUP) with false. rewrite andb_false_r. auto.
Qed.

(** Whatever the databases and their states: without a relay agent, a run on such a host
    backs up none of them and changes no timer. *)
Theorem other_hosts_store_nothing dbs t : sc_relay_agent conn = None ->
  let t' := backup_dbs c conn plan run server_id backup_id job_id crypt compress
              (map (fun '(db, e) => (db, on_other_host e)) dbs) t in
  t_backed_up t' = t_backed_up t /\ t_disk t' = t_disk t.
Proof.
  intros Hr. revert t. induction dbs as [|[db e] dbs IH]; intros t; [auto|]. cbv zeta in *.
  cbn [map]. unfold backup_dbs in *. cbn [fold_left].
  destruct (other_backup_db db e t Hr) as [Eb Ed]. destruct (IH (backup_db c conn plan run server_id backup_id job_id crypt
    compress db (on_other_host e) t)) as [E1 E2]. rewrite E1, E2. auto.
Qed.
End run.
