(* ===== verification/Database.v ===== *)
(** A database, from SQL Server and back to it: the composition of the backup of a
    database ([SqlBackup]: the virtual device, the channel or the relay, the statement's
    verdict), the chunker and the upload ([Snapshot], [Upload]), the restore from the
    server ([Restore]) and the device of a [RESTORE] ([Vdi]).

    Shown: in every interleaving, a snapshot that was finished gives back, to the byte,
    what SQL Server wrote to its device, on this host or on another one. *)

From Stdlib Require Import ZArith Lia Strings.Byte Ascii String.
From stdpp Require Import base tactics option numbers list gmap relations.
From S2P Require Import Prelude Text Base Blob Index Repository HttpApi Session Upload Restore Snapshot Jobs Sched Stores Channels Frames Plan Relay Proxy Tsql Vdi Probe SqlBackup.
Open Scope Z_scope.

(** The chunks of a stream that ends without an error. *)
Definition chunks_of `{FastCdc} (data : bytes) : list bytes := (chunker_task (chunk_reader (Source data None))).1.

(** What a [RESTORE] device gives SQL Server from an image, streamed in any pieces: its
    beginning, and all of it when the end is signalled. *)
Definition restores_to (image : bytes) : Prop :=
  forall chunks script r cs, concat chunks = image ->
  fill_device script 0 (stream_reader_new chunks) = (r, cs) ->
  concat (map snd cs) `prefix_of` image /\
  (Exists (fun c => c_code c.1 = ERROR_HANDLE_EOF) cs -> concat (map snd cs) = image).

Lemma restores_image image : restores_to image.
Proof.
  intros chunks script r cs Ei E.
  assert (fill_device script 0 {| is_data := image; is_pos := 0 |} = (r, cs)) as E'.
  { rewrite <- E. apply fill_device_same. cbn. unfold stream_remaining. cbn. rewrite drop_0. auto. }
  destruct (restore_fills_in_order image script r cs E') as (Hp & He & _). auto.
Qed.

Section database.
Context `{DebugFmt} `{PercentLib} `{HexLib} `{SessionLibs} `{Crc32Lib} `{HashLib} `{ZstdLib} `{AeadLib}
  `{ManifestJson}.
Context `{!ZstdLaws} `{!AeadLaws} `{!AeadSizes} `{FastCdcLaws} {S : Type} `{Server S}.

(** A snapshot whose uploader read all of [data]. *)
Lemma delivered_restores cfg data u l1 ok l2 (srv : S) :
  cfg_stream cfg = chunks_of data -> cfg_reader_end cfg = Ok tt ->
  reachable cfg u -> u_log u = l1 ++ EvFinish ok :: l2 ->
  kept srv cfg (u_known u) l1 -> collision_free (cfg_crypt cfg) (cfg_stream cfg) ->
  restore_dynamic_archive (cfg_archive cfg) (cfg_crypt cfg) srv = (Ok data, srv).
Proof.
  intros Es Er Hr El Hk Hc.
  assert (Snapshot.reads cfg (Source data None)) as Hreads.
  { unfold Snapshot.reads. rewrite Es, Er. unfold chunks_of. pose proof (chunk_reader_ok (Source data None)) as Hok.
    destruct (chunker_task (chunk_reader (Source data None))) as [cs res]. cbn in Hok. destruct Hok as (_ & _ & -> & _).
    reflexivity. }
  exact (proj2 (proj2 (snapshot_restores cfg (Source data None) u l1 ok l2 srv Hreads Hr El Hk Hc))).
Qed.

Variable e : sql_backup_env.

(** C2: a local backup, end to end.  Whatever the device, the statement, the uploads and the
    server do, and in whatever order: if the device was closed cleanly and the snapshot
    was finished, the [BACKUP] statement had succeeded; the archive restores to exactly
    what SQL Server wrote; and a [RESTORE] that is fed from it, in pieces of any size,
    gives SQL Server these bytes in order, and all of them before it signals the end. *)
Theorem database_restored g verdict catalog u l1 ok l2 (srv : S) :
  be_chunks e (concat (channel_sent e)) = chunks_of (concat (channel_sent e)) -> closed_cleanly e ->
  reachable (local_config e g verdict catalog) u -> u_log u = l1 ++ EvFinish ok :: l2 ->
  kept srv (local_config e g verdict catalog) (u_known u) l1 ->
  collision_free (tg_crypt g) (chunks_of (concat (channel_sent e))) ->
  verdict = Some (Ok tt) /\
  restore_dynamic_archive (tg_archive g) (tg_crypt g) srv = (Ok (device_written e), srv) /\
  restores_to (device_written e).
Proof.
  intros Hch Hcl Hr El Hk Hcf.
  assert (EvFinish ok ∈ u_log u) as Hf by (rewrite El; apply elem_of_app; right; left).
  destruct (finish_stored _ _ _ Hr Hf) as [He _].
  destruct (local_delivered_end e verdict He) as [Hv Hd]. split; [exact Hv|]. split; [|apply restores_image].
  rewrite <- (channel_sent_clean e Hcl).
  apply (delivered_restores (local_config e g verdict catalog) _ u l1 ok l2 srv); [| exact He | exact Hr | exact El | exact Hk|].
  - cbn. rewrite Hd. exact Hch.
  - cbn. rewrite Hd, Hch. exact Hcf.
Qed.

(** The same over the relay: the device is on another host, the connection may break
    anywhere. *)
Theorem relayed_database_restored `{ControlLaws} io_show g catalog u l1 ok l2 (srv : S) sid tok co1 co2 ce op
    script stopped room fl res w p tl msg conn s :
  run_backup_session io_show sid tok (relay_backup_device co1 co2 ce op script stopped)
    (Ok (Writer [] room fl)) = (res, Some w) ->
  p `prefix_of` w_sent w ->
  read_frame (Reader p tl) = (Ok (Some (Control msg)), conn) ->
  stream_run (backup_stream_init conn) (ra_reads (be_relay e)) s ->
  Forall (fun r => (0 < r.1)%nat) (ra_reads (be_relay e)) ->
  be_chunks e (concat (written script)) = chunks_of (concat (written script)) ->
  reachable (relay_config e g catalog) u -> u_log u = l1 ++ EvFinish ok :: l2 ->
  kept srv (relay_config e g catalog) (u_known u) l1 ->
  collision_free (tg_crypt g) (chunks_of (concat (written script))) ->
  restore_dynamic_archive (tg_archive g) (tg_crypt g) srv = (Ok (concat (written script)), srv) /\
  restores_to (concat (written script)).
Proof.
  intros Hs Hp Er Hrun Hn Hch Hr El Hk Hcf. split; [|apply restores_image].
  assert (EvFinish ok ∈ u_log u) as Hf by (rewrite El; apply elem_of_app; right; left).
  destruct (finish_stored _ _ _ Hr Hf) as [He _].
  assert (exists data, read_to_end (ra_reads (be_relay e)) = (data, Some (Ok tt)) /\
            cfg_stream (relay_config e g catalog) = be_chunks e data) as (data & Hd & Est).
  { revert He. unfold relay_config, relay_delivered. cbn [config_for cfg_reader_end cfg_stream].
    destruct (read_to_end _) as [b [[[]|err]|]]; cbn; try discriminate. eauto. }
  assert (data = concat (written script)) as ->.
  { exact (proj1 (relay_read_written io_show _ _ _ _ _ _ _ _ _ _ _ _ _ _ _ _ _ _ _ Hs Hp Er Hrun Hn Hd)). }
  apply (delivered_restores (relay_config e g catalog) _ u l1 ok l2 srv);
    [rewrite Est; exact Hch | exact He | exact Hr | exact El | exact Hk | rewrite Est, Hch; exact Hcf].
Qed.
End database.

(** ** A sample: the database of [SqlBackup]'s sample *)

Module SampleDatabase.
Import Sample SampleStore SampleJson SampleControl SampleSql SampleSnapshot.
#[local] Existing Instance sample_percent.
#[local] Existing Instance sample_libs.
#[local] Existing Instance sample_manifest_json.
#[local] Existing Instance sample_debug.
#[local] Existing Instance table_server.

Definition sent : up_state := be_upload (answers (Ok [])) local_cfg.
Definition before_finish : list event := removelast (u_log sent).
Definition image : bytes := bstr "BAK".

Definition store : table :=
  [(plain GET (L "/download?file-name=" ++ enc (L "db.didx")),
    Dynamic.dyn_serialize (stream_builder local_cfg));
   (plain GET (L "/chunk?digest=" ++ hex_encode (plain_digest None image)), encode_auto image)].

Lemma sent_log : u_log sent = before_finish ++ [EvFinish true].
Proof. vm_compute. reflexivity. Qed.

Lemma sent_shape : exists csum n1 b1 o1 n2 b2 o2, before_finish =
  [EvChunk (plain_digest None image) (encode_auto image) true; EvAppend [plain_digest None image] [0] true;
   EvClose 1 3 csum true; EvBlob n1 b1 o1; EvBlob n2 b2 o2].
Proof. do 7 eexists. vm_compute. reflexivity. Qed.

Lemma store_keeps : kept store local_cfg (u_known sent) before_finish.
Proof.
  destruct sent_shape as (csum & n1 & b1 & o1 & n2 & b2 & o2 & E).
  change (u_known sent) with (@nil bytes). rewrite E. split.
  - intros count size cs Hin. assert (size = 3) as ->.
    { repeat (apply elem_of_cons in Hin as [Hin|Hin]; [try discriminate Hin; injection Hin; auto|]). inversion Hin. }
    exists (stream_builder local_cfg). split.
    { split; [reflexivity | range |]. apply Forall_cons_2; [split; [range | reflexivity] | apply Forall_nil_2]. }
    split; vm_compute; reflexivity.
  - intros d [Hd|[enc Hin]]; [inversion Hd|]. exists (encode_auto image).
    assert (d = plain_digest None image /\ enc = encode_auto image) as [-> ->].
    { repeat (apply elem_of_cons in Hin as [Hin|Hin]; [try discriminate Hin; injection Hin; auto|]). inversion Hin. }
    split; [vm_compute; reflexivity|]. left. left.
Qed.

(** The database comes back. *)
Lemma database_restored_witness :
  restore_dynamic_archive (L "db.didx") None store = (Ok image, store) /\ device_written (answers (Ok [])) = image.
Proof.
  split; [|reflexivity].
  refine (proj1 (proj2 (database_restored (answers (Ok [])) target (Some (Ok tt)) sample_blob sent before_finish true []
    store _ sample_closed (sample_uploads _ _) sent_log store_keeps _))).
  - vm_compute. reflexivity.
  - intros a b Ha. assert (a = image) as -> by (apply list_elem_of_singleton; exact Ha).
    apply pad_digest_inj. apply Nat.leb_le. reflexivity.
Defined.
End SampleDatabase.
